(* ===== verification/_CoqProject ===== *)
-Q . S2P
Prelude.v
CxxString.v
Rounding.v
CxxDouble.v
CircuitBreaker.v
RateLimiter.v
RateLimiterOrder.v
RetryPolicy.v
LRUCache.v
HttpMessage.v
HttpParser.v
HttpParserResume.v
HttpParserSafety.v
HttpParserRoundTrip.v
LoadBalancer.v
Router.v
Config.v
RateLimiterDouble.v
ConfigRoundTrip.v
ConnectionPool.v
HealthChecker.v
Metrics.v
Observability.v
BackendIO.v
BackendRequest.v
BackendReply.v
Forward.v
ForwardConcurrent.v
EventLoop.v
TcpServer.v
Worker.v
WorkerPipeline.v
WorkerConnections.v
WorkerLiveness.v
WorkerMetrics.v
ServeConcurrent.v
ServeIntegrity.v
ServeMetrics.v
ServeLiveness.v
DrainConcurrent.v
WorkerRun.v
GatewayBuild.v
Lifecycle.v
BackendServer.v
Relay.v
Benchmark.v
Conformance.v
Process.v
Clients.v
