(* ===== verification/Prelude.v ===== *)
(** * Verification of the high-performance API gateway

    The program is an HTTP/1.1 reverse proxy in C++.  [Gateway] (src/core) owns
    the shared subsystems; each [Gateway::Worker] runs an event loop over its
    client connections.  A connection's bytes go to its [HttpParser]; a
    complete request passes the rate limiter, the router, the response cache
    and, on a miss, [forwardWithResilience], which picks a backend, asks its
    circuit breaker, borrows a connection from the pool, exchanges one request
    and one reply, and retries; the response is queued and flushed.  A health
    checker sets the flags the load balancers read, a metrics server shows
    the counters, and the whole is built from a configuration file by [main],
    which runs it until a signal.  A small demo backend (backends/) gives it
    something to proxy to, and a load generator (benchmarks/) measures it.

    ** Files

    - Prelude: bytes, machine integers with their wrap-around, the state and
      exception monad, generic list lemmas, tactics and hint databases.
    - CxxString: what the code uses of the C and C++ string libraries
      ([find], [substr] with its [size_t] arguments, [from_chars], [stoi],
      [atoi], [to_string]), and their lemmas.  Rounding: doubles as rationals
      with a rounding function ([rnd64] is IEEE 754 binary64, round to
      nearest even).  CxxDouble: [stod].
    - CircuitBreaker, RateLimiter, RetryPolicy: include/resilience;
      RateLimiterOrder: the limiter when calls reach it out of the order of
      their clock readings; RateLimiterDouble: the limiter on doubles with
      infinities and NaN.
    - LRUCache: include/cache, the list of nodes with identities and the index
      of iterators into it.
    - HttpMessage: HttpRequest.hpp and HttpResponse.hpp.  HttpParser: the
      resumable parser ([parse] and every helper, each [throw] a value).
      HttpParserResume, HttpParserSafety and HttpParserRoundTrip hold its
      theorems.
    - LoadBalancer, Router: include/routing.  Backends are shared: a store of
      backends, pointers as indices.
    - Config: the file loader of src/config; ConfigRoundTrip: its printer and
      round trip.
    - ConnectionPool, HealthChecker, TcpServer: src/network, over tables of
      open sockets; TcpServer also holds the socket options and [inet_pton].
    - Metrics, Observability: include/observability (histogram, counters,
      Prometheus text, log lines, request identifiers).
    - BackendIO: [buildBackendRequest] and [sendAndReceive] of Gateway.cpp;
      BackendRequest and BackendReply hold their theorems.
    - Forward: [Gateway] and [forwardWithResilience].  ForwardConcurrent: the
      same function as threads that share the gateway, one operation on
      shared state per step, under every schedule.
    - EventLoop: src/core/EventLoop.cpp.  Worker: [ClientConnection] and every
      handler of [Gateway::Worker].  WorkerPipeline (requests),
      WorkerConnections (connections), WorkerLiveness (delivery of output),
      WorkerMetrics (what serving does to the counters) and WorkerRun (the
      thread of a worker from start to stop, the metrics server) hold their
      theorems.
    - ServeConcurrent: [handleRequest] as threads of many workers over one
      gateway, one operation on shared state per step.  ServeIntegrity (where
      responses and cache entries come from), ServeMetrics (counters and
      rate over all workers) and ServeLiveness hold its theorems.
      DrainConcurrent: the loop of [onReadable] over the pipelined requests of
      a connection, one thread per connection, on top of it.
    - GatewayBuild: the constructor and [buildRouter], and the end-to-end
      theorems.
    - Lifecycle: [Gateway::run], [Gateway::stop], [HealthChecker::start],
      [stop] and [run] and the threads they start, as a machine.
    - BackendServer: backends/backend_server.cpp, and the gateway against it.
    - Relay: responses through two gateways, and recovery of a backend.
    - Benchmark: benchmarks/gateway_benchmark.cpp, and its client against the
      gateway.
    - Conformance: the cases of tests/ evaluated on the model.
    - Process: src/main.cpp.
    - Clients: from the configuration file to what each of many clients that
      pipeline their requests is sent.

    ** The environment

    System calls, clocks and random draws are arguments: a definition that
    loops over a socket takes the list of answers it gets, one per iteration,
    and a definition that reads the clock takes the time.  A loop that has not
    ended when its answers run out has no result ([Blocked] or [None]);
    theorems that say the code returns prove that enough answers give a
    result.  The answers of [recv] in an exchange with a backend are not tied
    to a socket: they are any bytes, those that an earlier exchange left on
    the connection included ([rx_rest] says which these are).  Three library
    behaviours are assumed by type classes with an
    instance each: [StdSort] (std::sort with a strict weak order permutes and
    sorts by it), [MapIteration]
    (iterating over an unordered_map visits each entry once) and
    [UniformDraw] (a draw lies within its bounds); [Rounding] and [Accurate]
    state what is used of floating-point rounding and are proved of [rnd64].
    Signed overflow of an [int] goes around, as on the machine.  Operations
    under a mutex are atomic, so concurrent use of a component is a sequence
    of its operations.  What works on shared state without one lock around it
    is modelled step by step under every interleaving: the round robin, the
    loop over a connection's requests, the whole of [handleRequest] (counters, limiter, cache and latency) with the
    whole of [forwardWithResilience] (its picks, breaker, counters, pool and
    exchange), and starting and stopping the threads.  The metrics page shows
    what its loads saw, which is any value of the counters.  Memory is sequentially
    consistent in these models.  In Lifecycle a second join of a thread and an
    exception that leaves a thread end the process, a health check ends or
    not as a parameter says, and [stop] runs on a thread of its own or on the
    thread of [run]; in Process a signal handler runs on the thread that takes
    the signal, any of the process's, while that is suspended.

    ** Fuel

    [parseHeaders] gets one unit per buffered byte and one more, the reply
    reader one per received byte and one more: each line consumes at least two
    bytes, and [parse_never_out_of_fuel] proves that the parser never runs
    out, [read_reply_lines_stable] that the reader's result does not depend on
    the fuel it is given beyond that.
    [to_string] and [to_hex] get one unit per bit.  The retry loop and the
    round robin count down as the code does.  Liveness is stated with explicit
    bounds: [forward_bound] (turns of a forwarding thread: per attempt two per
    backend of the group and a constant), [serve_bound] (turns of a serving
    thread: that for the largest group, and nine), [drain_bound] (operations
    until a connection is drained: that and three per buffered byte, and one),
    [shutdown_bound] (rounds until [run]
    returns: a constant per worker, backend and call of [stop]), and the
    number of unsent bytes for the delivery of output; each comes from a rank
    that every productive step lowers.

    ** What is proved

    - Parsing: printing and parsing round trip (of a repeated field the last
      value); fragmentation of the input does not matter below the size
      limits, and above them can only lead to a refusal; completed requests
      are well formed; every completed request consumes input.
    - Proxying: the request sent upstream parses back to the client's request
      without hop-by-hop fields; replies are read back whole however they
      arrive, and whatever a backend sends, an accepted reply is delimited by
      its one Content-Length and bounded, and a reply cut short is never
      accepted; forwarding ends, leaks no connection and undoes its
      in-flight counts; open circuits fail fast, and a backend that answers
      again is used again; a response survives a second gateway.
    - Concurrency: however threads interleave, in-flight counters count the
      threads in flight, a connection has one owner and the right peer, no
      socket is lost, a half-open breaker cannot refuse for ever, and every
      request is answered; a thread alone computes [forwardWithResilience].
      Over whole requests: serving refines forwarding, every queued response
      and every cache entry has its reason in what a backend of the right
      route answered or in what the gateway says itself, each counter is the
      number of requests or events that passed its increment, the limiter
      holds over all workers together with an explicit rounding error, and every request is served; a thread alone
      computes [handleRequest].  Over whole connections: each gets the
      responses to its own requests in their order and nothing else, and is
      drained in bounded time; a worker alone computes [drain].
    - Resilience: the breaker's three states, the limiter's long-run rate,
      in whatever order calls reach it, burst and isolation of clients, its
      agreement with the limiter on all doubles, the bounds of the retry
      delay.
    - Cache: refinement to a bounded recency list with time to live; least
      recently used eviction; only status 200 is cached; a hit replays what
      was stored, headers included.
    - Routing: longest prefix on segment boundaries; soundness, completeness
      and fairness of the balancer; health checks steer it.
    - Workers: tables, sockets and event-loop registrations stay in step;
      one response per request; flushing loses nothing; the sweep closes the
      idle connections; a client that reads gets all its output; the
      metrics stay within their types and balance; a stopped worker leaves
      nothing behind, its listening socket and epoll descriptor included.
    - Process: it starts or says why not; a stop that has cleared the flag
      ends [run], all threads joined and the pool closed, unless a health
      check never ends; a signal on the thread of [run] is safe at
      any time and, with a health-check timeout that is not negative, ends the
      process with code 0; when all requests are answered no backend socket is
      left.
    - Demo backend: it reads what the gateway sends, its replies are accepted,
      its health endpoint passes the health check, and every client is
      served and closed.
    - Load generator: it and the gateway understand each other's messages;
      it counts every request once and closes what it opens; its percentiles
      are measurements, in order.
    - Configuration: loading accepts exactly the valid files; files read
      back; the built gateway meets the hypotheses of all of the above, so
      that the end-to-end theorems start from the bytes of the file; the last
      ends with the bytes that every pipelining client is sent.
    - Defects: the theorems lb_round_robin_can_miss, reply_without_reason_splits,
      close_promise_can_be_lost, negative_retries_never_forward,
      largest_retries_never_forward, repeated_field_overwritten,
      long_line_depends_on_reads, nominated_field_forwarded,
      leftover_answers_next, signal_on_checker_crashes, negative_timeout_hangs,
      percentile_truncates, log_path_not_escaped, config_accepts_negative,
      health_check_false_positive, concurrent_stop_joins_twice,
      early_stop_is_lost, checker_wakeup_can_be_lost,
      bad_host_listens_everywhere, listen_failure_leaks,
      worker_listen_failure_ends_process, late_call_is_refused,
      limiter_off_without_rate and
      head_is_not_understood exhibit inputs or schedules on which
      the code does not do what it means to.

    ** What is not modelled

    Sleeping (between retries, between health checks, in the demo backend),
    the start-up line of the demo backend and the text of the load generator's
    report are pure I/O.  That a thread cannot be created, that [epoll_ctl] fails
    for want of kernel resources, underflow of doubles and memory orders
    weaker than sequential consistency are left out; the options of client
    sockets are modelled with the accept loop (TcpServer) and not carried
    through the workers.  For a refill rate that is not finite the loader and
    the limiter are modelled (RateLimiterDouble), but not the gateway around
    them.  Accessors that only return a member are that member.  The tests are not part of the running system;
    Conformance runs their cases on the model. *)
From Stdlib Require Export Ascii ZArith Lia.
From stdpp Require Export prelude gmap strings list sorting.

(** ** Bytes

    A [std::string] is a sequence of [char]: a list of [ascii]. *)

Abbreviation bytes := (list ascii).

(** A C++ string literal. *)
Definition str (s : string) : bytes := String.list_ascii_of_string s.

(** ** Machine integers *)

Definition u64_modulus : Z := 2 ^ 64.
Definition u64 (z : Z) : Z := z mod u64_modulus.
Definition int_max : Z := 2 ^ 31 - 1.
Definition int_min : Z := - 2 ^ 31.

(** Conversion to a 32-bit [int] (two's complement). *)
Definition wrap32 (z : Z) : Z := (z + 2 ^ 31) mod 2 ^ 32 - 2 ^ 31.

(** Conversion to a 64-bit signed integer (two's complement). *)
Definition wrap64 (z : Z) : Z := (z + 2 ^ 63) mod 2 ^ 64 - 2 ^ 63.

Notation "a -u b" := (u64 (a - b)) (at level 50, left associativity) : Z_scope.
Notation "a +u b" := (u64 (a + b)) (at level 50, left associativity) : Z_scope.

(** [s.size()] as a [size_t]. *)
Definition size_of {A} (l : list A) : Z := Z.of_nat (length l).

(** ** State and exceptions

    C++ code that mutates an object and may throw: the object keeps the
    mutations made before the throw. *)

Definition ST (S E A : Type) : Type := S → (E + A) * S.

Section st.
Context {S E : Type}.

#[global] Instance st_ret : MRet (ST S E) := λ A a s, (inr a, s).
#[global] Instance st_bind : MBind (ST S E) := λ A B f m s,
  match m s with
  | (inl e, s') => (inl e, s')
  | (inr a, s') => f a s'
  end.

Definition throw {A} (e : E) : ST S E A := λ s, (inl e, s).
Definition get : ST S E S := λ s, (inr s, s).
Definition modify (f : S → S) : ST S E unit := λ s, (inr tt, f s).
Definition guard_throw (b : bool) (e : E) : ST S E unit :=
  if b then throw e else mret tt.
End st.

Arguments throw {S E A} e _ /.
Arguments get {S E} _ /.
Arguments modify {S E} f _ /.

(** ** Generic lemmas *)

Lemma u64_small z : (0 ≤ z < 2 ^ 64)%Z → u64 z = z.
Proof. intros H. unfold u64, u64_modulus. apply Z.mod_small. lia. Qed.

Lemma u64_range z : (0 ≤ u64 z < 2 ^ 64)%Z.
Proof. unfold u64, u64_modulus. apply Z.mod_pos_bound. lia. Qed.

Lemma wrap64_add a b : wrap64 (wrap64 a + b) = wrap64 (a + b).
Proof.
  unfold wrap64. f_equal.
  replace ((a + 2 ^ 63) mod 2 ^ 64 - 2 ^ 63 + b + 2 ^ 63)%Z with ((a + 2 ^ 63) mod 2 ^ 64 + b)%Z by lia.
  rewrite Z.add_mod_idemp_l by lia. f_equal. lia.
Qed.

Lemma wrap64_small n : (- 2 ^ 63 ≤ n < 2 ^ 63)%Z → wrap64 n = n.
Proof. intros H. unfold wrap64. rewrite Z.mod_small by lia. lia. Qed.

Lemma wrap32_small z : (int_min ≤ z ≤ int_max)%Z → wrap32 z = z.
Proof.
  unfold int_min, int_max, wrap32. intros H.
  rewrite Z.mod_small by lia. lia.
Qed.

Lemma take_drop_app {A} (n m : nat) (l : list A) :
  take n l ++ take m (drop n l) = take (n + m) l.
Proof. revert l. induction n; intros [|x l]; simpl; rewrite ?take_nil; auto. by f_equal. Qed.

Lemma take_length_app {A} (l k : list A) : take (length l) (l ++ k) = l.
Proof. by rewrite take_app_length. Qed.

Lemma drop_length_app {A} (l k : list A) : drop (length l) (l ++ k) = k.
Proof. by rewrite drop_app_length. Qed.

(** Two filters that agree on the elements of a list agree on the list. *)
Lemma filter_agree {A} (P Q : A → Prop) `{!∀ x, Decision (P x), !∀ x, Decision (Q x)}
    (l : list A) :
  (∀ x, x ∈ l → P x ↔ Q x) → filter P l = filter Q l.
Proof.
  intros HPQ. induction l as [|x l IH]; [done|]. rewrite !filter_cons.
  assert (P x ↔ Q x) by (apply HPQ, list_elem_of_here).
  rewrite IH by (intros y Hy; by apply HPQ, list_elem_of_further).
  destruct (decide (P x)), (decide (Q x)); tauto.
Qed.

Lemma filter_fmap_compose {A B} (f : A → B) (P : B → Prop) `{!∀ x, Decision (P x)} (l : list A) :
  filter P (f <$> l) = f <$> filter (λ x, P (f x)) l.
Proof.
  induction l as [|x l IH]; [done|]. rewrite fmap_cons, !filter_cons, IH. by destruct (decide _).
Qed.

Lemma filter_id {A} (P : A → Prop) `{!∀ x, Decision (P x)} (l : list A) :
  (∀ x, x ∈ l → P x) → filter P l = l.
Proof.
  intros HP. induction l as [|x l IH]; [done|]. rewrite filter_cons.
  rewrite decide_True by apply HP, list_elem_of_here.
  by rewrite IH by (intros y Hy; by apply HP, list_elem_of_further).
Qed.

Create HintDb gw.
Create Rewrite HintDb gw_len.
#[export] Hint Rewrite @length_app @length_take @length_drop @length_cons : gw_len.
#[export] Hint Resolve u64_range : gw.

(** Case analysis on the first conditional of the goal or the context. *)
Ltac case_if :=
  match goal with
  | |- context [if ?b then _ else _] => destruct b eqn:?
  | H : context [if ?b then _ else _] |- _ => destruct b eqn:?
  end.

(** Proves a closed decidable proposition by evaluation. *)
Ltac by_decide :=
  match goal with
  | |- ?P => refine (bool_decide_unpack P _); vm_compute; exact I
  end.
