(* ===== verification/CxxString.v ===== *)
(** * The part of the C++ standard library on strings the gateway uses

    [std::string] searching and slicing, the C-locale character classes,
    [std::from_chars] on [size_t], [std::to_string], [std::atoi] and
    [std::stoi].  Positions inside a string are natural numbers, an absent
    position ([npos]) is [None]; [npos_of] gives the [size_t] back where the
    source computes with it. *)
From S2P Require Import Prelude.

(** ** Characters *)

Definition CR : ascii := "013"%char.
Definition LF : ascii := "010"%char.
Definition SP : ascii := " "%char.
Definition HT : ascii := "009"%char.
Definition DQ : ascii := "034"%char.
Definition BSL : ascii := "092"%char.
Definition crlf : bytes := [CR; LF].

Definition code (c : ascii) : Z := Z.of_N (N_of_ascii c).
Definition in_range (lo hi : Z) (c : ascii) : bool := (lo <=? code c)%Z && (code c <=? hi)%Z.

Definition isupper (c : ascii) : bool := in_range 65 90 c.
Definition isdigit (c : ascii) : bool := in_range 48 57 c.
Definition isspace (c : ascii) : bool := in_range 9 13 c || (code c =? 32)%Z.

Definition tolower (c : ascii) : ascii :=
  if isupper c then ascii_of_N (N_of_ascii c + 32) else c.

Definition to_lower (s : bytes) : bytes := map tolower s.

(** Membership of a character in a literal set of characters. *)
Definition one_of (set : bytes) (c : ascii) : bool := bool_decide (c ∈ set).

(** ** Searching *)

(** First and last position of a character that satisfies [p]. *)
Fixpoint find_if (p : ascii → bool) (s : bytes) : option nat :=
  match s with
  | [] => None
  | c :: s' => if p c then Some 0 else S <$> find_if p s'
  end.

Fixpoint rfind_if (p : ascii → bool) (s : bytes) : option nat :=
  match s with
  | [] => None
  | c :: s' =>
      match rfind_if p s' with
      | Some i => Some (S i)
      | None => if p c then Some 0 else None
      end
  end.

Definition eqc (c : ascii) : ascii → bool := λ d, bool_decide (c = d).
Definition find_char (c : ascii) (s : bytes) : option nat := find_if (eqc c) s.
Definition rfind_char (c : ascii) (s : bytes) : option nat := rfind_if (eqc c) s.
Definition find_first_of (set s : bytes) : option nat := find_if (one_of set) s.
Definition find_first_not_of (set s : bytes) : option nat :=
  find_if (λ c, negb (one_of set c)) s.
Definition find_last_not_of (set s : bytes) : option nat :=
  rfind_if (λ c, negb (one_of set c)) s.

Fixpoint is_prefix (n s : bytes) : bool :=
  match n, s with
  | [], _ => true
  | a :: n', b :: s' => bool_decide (a = b) && is_prefix n' s'
  | _ :: _, [] => false
  end.

(** [s.find(n)] and [s.find(n, pos)]. *)
Fixpoint find (n s : bytes) : option nat :=
  if is_prefix n s then Some 0
  else match s with [] => None | _ :: s' => S <$> find n s' end.

Definition find_from (n s : bytes) (pos : nat) : option nat :=
  if length s <? pos then None else (λ i, pos + i) <$> find n (drop pos s).

Definition contains (n s : bytes) : bool := bool_decide (is_Some (find n s)).

(** [npos] is the largest [size_t]. *)
Definition npos_of (o : option nat) : Z :=
  match o with Some i => Z.of_nat i | None => 2 ^ 64 - 1 end.

(** ** Slicing

    [s.substr(pos, count)] for [pos <= s.size()]: the count is clamped to
    what is left. *)
Definition substrZ (s : bytes) (pos : nat) (count : Z) : bytes :=
  take (Z.to_nat (Z.min count (size_of (drop pos s)))) (drop pos s).

Definition substr (s : bytes) (pos count : nat) : bytes := take count (drop pos s).

(** ** Numbers *)

Definition digit_value (c : ascii) : Z := code c - 48.
Definition digit_char (d : Z) : ascii := ascii_of_N (Z.to_N (d + 48)).

Definition digits_value (ds : bytes) : Z :=
  fold_left (λ acc c, acc * 10 + digit_value c)%Z ds 0%Z.

Fixpoint take_while (p : ascii → bool) (s : bytes) : bytes :=
  match s with
  | c :: s' => if p c then c :: take_while p s' else []
  | [] => []
  end.

Inductive errc := errc_ok | invalid_argument | result_out_of_range.
#[global] Instance errc_eq_dec : EqDecision errc.
Proof. solve_decision. Defined.

(** [std::from_chars(first, last, size_t&)]: how many characters matched, the
    error code, and the value stored on success. *)
Definition from_chars (s : bytes) : nat * errc * Z :=
  let ds := take_while isdigit s in
  if decide (ds = []) then (0, invalid_argument, 0%Z)
  else if (2 ^ 64 <=? digits_value ds)%Z then (length ds, result_out_of_range, 0%Z)
  else (length ds, errc_ok, digits_value ds).

(** The test [ec != std::errc{} || end != last] both callers make. *)
Definition parse_size (s : bytes) : option Z :=
  let '(n, ec, v) := from_chars s in
  if decide (ec = errc_ok) then if decide (n = length s) then Some v else None else None.

(** [std::to_string] of a non-negative integer, and of an [int]. *)
Fixpoint dec_digits (fuel : nat) (n : Z) (acc : bytes) : bytes :=
  match fuel with
  | O => acc
  | S f =>
      if (n <? 10)%Z then digit_char n :: acc
      else dec_digits f (n / 10) (digit_char (n mod 10) :: acc)
  end.
Definition to_string_nat (n : Z) : bytes := dec_digits (S (Z.to_nat (Z.log2 n))) n [].
Definition to_string (n : Z) : bytes :=
  if (n <? 0)%Z then "-"%char :: to_string_nat (- n) else to_string_nat n.

Fixpoint drop_while (p : ascii → bool) (s : bytes) : bytes :=
  match s with
  | c :: s' => if p c then drop_while p s' else s
  | [] => []
  end.

(** [strtol(s, &end, 10)]: [None] when no digit was read, otherwise the exact
    value before the conversion to [long]. *)
Definition strtol (s : bytes) : option Z :=
  let s1 := drop_while isspace s in
  let '(neg, s2) :=
    match s1 with
    | "-"%char :: r => (true, r)
    | "+"%char :: r => (false, r)
    | _ => (false, s1)
    end in
  let ds := take_while isdigit s2 in
  if decide (ds = []) then None
  else Some (if neg : bool then (- digits_value ds)%Z else digits_value ds).

(** [std::atoi] (glibc: [strtol], saturated to 64 bits, truncated to [int]). *)
Definition atoi (s : bytes) : Z :=
  match strtol s with
  | None => 0
  | Some v => wrap32 (Z.max (- 2 ^ 63) (Z.min (2 ^ 63 - 1) v))
  end%Z.

(** [std::stoi]: [None] when it throws. *)
Definition stoi (s : bytes) : option Z :=
  match strtol s with
  | None => None
  | Some v => if (int_min <=? v)%Z && (v <=? int_max)%Z then Some v else None
  end.

(** ** Lemmas: characters *)

Lemma tolower_idemp c : tolower (tolower c) = tolower c.
Proof. by destruct c as [[] [] [] [] [] [] [] []]. Qed.

Lemma to_lower_idemp s : to_lower (to_lower s) = to_lower s.
Proof. unfold to_lower. rewrite map_map. apply map_ext. apply tolower_idemp. Qed.

Lemma length_to_lower s : length (to_lower s) = length s.
Proof. apply length_map. Qed.

Lemma one_of_true set c : one_of set c = true ↔ c ∈ set.
Proof. apply bool_decide_eq_true. Qed.

Lemma one_of_false set c : one_of set c = false ↔ c ∉ set.
Proof. apply bool_decide_eq_false. Qed.

Lemma eqc_true c d : eqc c d = true ↔ c = d.
Proof. apply bool_decide_eq_true. Qed.

Lemma eqc_false c d : eqc c d = false ↔ c ≠ d.
Proof. apply bool_decide_eq_false. Qed.

Lemma Forall_eqc_false c s : c ∉ s → Forall (λ d, eqc c d = false) s.
Proof. intros H. apply Forall_forall. intros d Hd. apply eqc_false. by intros ->. Qed.

(** ** Lemmas: searching for a character *)

Section find_if.
Context (p : ascii → bool).

Lemma find_if_hit a c b :
  Forall (λ x, p x = false) a → p c = true → find_if p (a ++ c :: b) = Some (length a).
Proof. induction 1 as [|x a Hx _ IH]; intros Hc; simpl; [by rewrite Hc|]. by rewrite Hx, IH. Qed.

Lemma find_if_None s : find_if p s = None ↔ Forall (λ x, p x = false) s.
Proof.
  induction s as [|c s IH]; simpl; [done|]. destruct (p c) eqn:Hc.
  - split; [done|]. rewrite Forall_cons. intros [? _]. congruence.
  - rewrite fmap_None, IH, Forall_cons. tauto.
Qed.

Lemma find_if_Some s i :
  find_if p s = Some i →
  ∃ a c b, s = a ++ c :: b ∧ length a = i ∧ Forall (λ x, p x = false) a ∧ p c = true.
Proof.
  revert i. induction s as [|c s IH]; intros i; simpl; [done|]. destruct (p c) eqn:Hc.
  - intros [= <-]. by exists [], c, s.
  - intros (j & Hj & ->)%fmap_Some. destruct (IH j Hj) as (a & d & b & -> & <- & Ha & Hd).
    exists (c :: a), d, b. split_and!; [done..| |done]. by constructor.
Qed.

Lemma rfind_if_None s : rfind_if p s = None ↔ Forall (λ x, p x = false) s.
Proof.
  induction s as [|c s IH]; simpl; [done|]. rewrite Forall_cons, <- IH.
  clear IH. destruct (rfind_if p s), (p c); intuition congruence.
Qed.

Lemma rfind_if_hit a c b :
  Forall (λ x, p x = false) b → p c = true → rfind_if p (a ++ c :: b) = Some (length a).
Proof.
  intros Hb Hc. induction a as [|x a IH]; simpl; [|by rewrite IH].
  by rewrite (proj2 (rfind_if_None b) Hb), Hc.
Qed.

Lemma rfind_if_Some s i :
  rfind_if p s = Some i →
  ∃ a c b, s = a ++ c :: b ∧ length a = i ∧ Forall (λ x, p x = false) b ∧ p c = true.
Proof.
  revert i. induction s as [|c s IH]; intros i; simpl; [done|].
  destruct (rfind_if p s) as [j|] eqn:Hr.
  - intros [= <-]. destruct (IH j eq_refl) as (a & d & b & -> & <- & Hb & Hd).
    by exists (c :: a), d, b.
  - destruct (p c) eqn:Hc; [|done]. intros [= <-]. exists [], c, s.
    split_and!; [done..| |done]. by apply rfind_if_None.
Qed.

Lemma find_if_lt s i : find_if p s = Some i → i < length s.
Proof. intros (a & c & b & -> & <- & _)%find_if_Some. autorewrite with gw_len. lia. Qed.
End find_if.

Lemma substr_mid (a b c : bytes) : substr (a ++ b ++ c) (length a) (length b) = b.
Proof. unfold substr. by rewrite drop_app_length, take_app_length. Qed.

Lemma find_char_hit c a b : c ∉ a → find_char c (a ++ c :: b) = Some (length a).
Proof. intros H. apply find_if_hit; [by apply Forall_eqc_false|by apply eqc_true]. Qed.

Lemma find_char_miss c s : c ∉ s → find_char c s = None.
Proof. intros H. apply find_if_None. by apply Forall_eqc_false. Qed.

(** ** Lemmas: searching for a string *)

Lemma is_prefix_app n s : is_prefix n (n ++ s) = true.
Proof. induction n as [|a n IH]; simpl; [done|]. by rewrite bool_decide_true. Qed.

Lemma is_prefix_spec n s : is_prefix n s = true ↔ ∃ r, s = n ++ r.
Proof.
  split; [|intros [r ->]; apply is_prefix_app].
  revert s. induction n as [|a n IH]; intros s; [by exists s|].
  destruct s as [|b s]; [done|]; simpl. intros [<-%bool_decide_eq_true Hp]%andb_true_iff.
  destruct (IH s Hp) as [r ->]. by exists r.
Qed.

Lemma is_prefix_mono n s d : is_prefix n s = true → is_prefix n (s ++ d) = true.
Proof. rewrite !is_prefix_spec. intros [r ->]. exists (r ++ d). by rewrite app_assoc. Qed.

Lemma find_Some n s i :
  find n s = Some i → s = take i s ++ n ++ drop (i + length n) s ∧ i + length n ≤ length s.
Proof.
  revert i. induction s as [|c s IH]; intros i; simpl.
  - destruct n; [|done]. intros [= <-]. done.
  - destruct (is_prefix n (c :: s)) eqn:Hp.
    + intros [= <-]. apply is_prefix_spec in Hp as [r Hr]. rewrite Hr. simpl.
      rewrite drop_app_length. autorewrite with gw_len.
      apply (f_equal length) in Hr. autorewrite with gw_len in Hr. lia || (split; [done|lia]).
    + intros (j & Hj & ->)%fmap_Some. destruct (IH j Hj) as [Hs Hl]. simpl.
      split; [by f_equal|lia].
Qed.

Lemma find_complete n a b : ∃ i, find n (a ++ n ++ b) = Some i ∧ i ≤ length a.
Proof.
  induction a as [|c a (i & Hi & Hle)].
  - exists 0. simpl. split; [|lia]. pose proof (is_prefix_app n b) as Hp.
    destruct (n ++ b); simpl; by rewrite Hp.
  - simpl. destruct (is_prefix n (c :: a ++ n ++ b)); [by exists 0; split; [|lia]|].
    exists (S i). rewrite Hi. split; [done|simpl; lia].
Qed.

Lemma contains_true n s : contains n s = true ↔ ∃ a b, s = a ++ n ++ b.
Proof.
  unfold contains. rewrite bool_decide_eq_true. split.
  - intros [i Hi]. destruct (find_Some _ _ _ Hi) as [E _]. eauto.
  - intros (a & b & ->). destruct (find_complete n a b) as (i & -> & _). by eexists.
Qed.

Lemma find_app_stable n s d i : find n s = Some i → find n (s ++ d) = Some i.
Proof.
  revert i. induction s as [|c s IH]; intros i; simpl.
  - destruct n; [|done]. intros [= <-]. destruct d; done.
  - destruct (is_prefix n (c :: s)) eqn:Hp.
    + intros [= <-]. change (c :: s ++ d) with ((c :: s) ++ d).
      by rewrite (is_prefix_mono _ _ d Hp).
    + intros (j & Hj & ->)%fmap_Some.
      destruct (find_Some _ _ _ Hj) as [_ Hl].
      change (c :: s ++ d) with ((c :: s) ++ d).
      destruct (is_prefix n ((c :: s) ++ d)) eqn:Hq; [|by rewrite (IH j Hj)].
      exfalso. apply is_prefix_spec in Hq as [r Hr]. apply not_true_iff_false in Hp. apply Hp.
      apply is_prefix_spec. exists (drop (length n) (c :: s)).
      apply (f_equal (take (length n))) in Hr.
      rewrite take_app_length, take_app_le in Hr by (simpl; lia).
      rewrite <- (take_drop (length n) (c :: s)) at 1. by rewrite Hr.
Qed.

(** The first CRLF after a line that holds no LF. *)
Lemma find_crlf_line l r : LF ∉ l → find crlf (l ++ crlf ++ r) = Some (length l).
Proof.
  intros Hl. induction l as [|c l IH]; [done|].
  apply not_elem_of_cons in Hl as [Hc Hl].
  assert (is_prefix crlf ((c :: l) ++ crlf ++ r) = false) as Hp.
  { apply not_true_iff_false. intros [q Hq]%is_prefix_spec. simplify_eq/=.
    destruct l as [|d l]; simplify_eq/=. set_solver. }
  cbn [app find] in *. rewrite Hp. by rewrite (IH Hl).
Qed.

Lemma find_from_Some n s pos i :
  find_from n s pos = Some i →
  pos ≤ i ∧ i + length n ≤ length s ∧ find n (drop pos s) = Some (i - pos).
Proof.
  unfold find_from. destruct (length s <? pos) eqn:Hl; [done|]. apply Nat.ltb_ge in Hl.
  intros (j & Hj & ->)%fmap_Some. destruct (find_Some _ _ _ Hj) as [_ Hb].
  rewrite length_drop in Hb. rewrite Hj. split_and!; [lia..|]. f_equal. lia.
Qed.

Lemma find_from_stable n s d pos i :
  find_from n s pos = Some i → find_from n (s ++ d) pos = Some i.
Proof.
  intros H. destruct (find_from_Some _ _ _ _ H) as (Hp & Hi & Hf). unfold find_from.
  rewrite length_app. destruct (Nat.ltb_spec (length s + length d) pos); [lia|].
  rewrite drop_app_le by lia. rewrite (find_app_stable _ _ d _ Hf). simpl. f_equal. lia.
Qed.

Lemma find_from_shift n a s pos :
  find_from n (a ++ s) (length a + pos) = (λ i, length a + i) <$> find_from n s pos.
Proof.
  unfold find_from. rewrite length_app.
  destruct (Nat.ltb_spec (length s) pos), (Nat.ltb_spec (length a + length s) (length a + pos));
    [done|lia|lia|].
  rewrite drop_app_add'; [|done]. destruct (find n (drop pos s)); simpl; f_equal. lia.
Qed.

Lemma find_from_0 n s : find_from n s 0 = find n s.
Proof. unfold find_from. simpl. rewrite drop_0. by destruct (find n s). Qed.

Lemma find_from_here n a s : find_from n (a ++ s) (length a) = (λ i, length a + i) <$> find n s.
Proof. rewrite <- (Nat.add_0_r (length a)) at 1. by rewrite find_from_shift, find_from_0. Qed.

(** ** Lemmas: decimal numbers *)

Lemma digit_char_ok d :
  (0 ≤ d < 10)%Z → isdigit (digit_char d) = true ∧ digit_value (digit_char d) = d.
Proof.
  intros H.
  assert (d = 0 ∨ d = 1 ∨ d = 2 ∨ d = 3 ∨ d = 4 ∨ d = 5 ∨ d = 6 ∨ d = 7 ∨ d = 8 ∨ d = 9)%Z
    as Hd by lia.
  by repeat destruct Hd as [->|Hd]; [..|subst d].
Qed.

Lemma digits_fold_acc ds a :
  fold_left (λ acc c, acc * 10 + digit_value c)%Z ds a
  = (a * 10 ^ size_of ds + digits_value ds)%Z.
Proof.
  unfold size_of, digits_value. revert a. induction ds as [|c ds IH]; intros a.
  - cbn [fold_left length]. rewrite Z.pow_0_r. lia.
  - cbn [fold_left length]. rewrite IH, (IH (0 * 10 + digit_value c)%Z), Nat2Z.inj_succ.
    rewrite Z.pow_succ_r by lia. nia.
Qed.

Lemma digits_value_app a b :
  digits_value (a ++ b) = (digits_value a * 10 ^ size_of b + digits_value b)%Z.
Proof. unfold digits_value at 1. by rewrite fold_left_app, digits_fold_acc. Qed.

Lemma length_dec_digits f n acc : length (dec_digits f n acc) ≤ f + length acc.
Proof.
  revert n acc. induction f as [|f IH]; intros n acc; simpl; [lia|].
  destruct (n <? 10)%Z; simpl; [lia|]. rewrite IH. simpl. lia.
Qed.

Lemma dec_digits_spec fuel n acc :
  (0 ≤ n < 2 ^ Z.of_nat fuel)%Z → (0 < fuel) →
  ∃ ds, dec_digits fuel n acc = ds ++ acc ∧ ds ≠ [] ∧
        Forall (λ c, isdigit c = true) ds ∧ digits_value ds = n.
Proof.
  revert n acc. induction fuel as [|f IH]; intros n acc Hn Hf; [lia|]. cbn [dec_digits].
  destruct (Z.ltb_spec n 10).
  - destruct (digit_char_ok n) as [Hd Hv]; [lia|]. exists [digit_char n].
    split_and!; [done|done|by constructor|]. unfold digits_value. simpl. lia.
  - rewrite Nat2Z.inj_succ, Z.pow_succ_r in Hn by lia.
    assert (0 < f)%nat by (destruct f; [simpl in Hn|]; lia).
    destruct (IH (n / 10)%Z (digit_char (n mod 10) :: acc)) as (ds & -> & Hne & Hd & Hv);
      [|done|].
    { split; [apply Z.div_pos; lia|]. apply Z.div_lt_upper_bound; lia. }
    pose proof (Z.mod_pos_bound n 10 ltac:(lia)).
    destruct (digit_char_ok (n mod 10)) as [Hd' Hv']; [done|].
    exists (ds ++ [digit_char (n mod 10)]). split_and!.
    + by rewrite <- app_assoc.
    + by destruct ds.
    + apply Forall_app. split; [done|by constructor].
    + rewrite digits_value_app, Hv. unfold digits_value, size_of. cbn [fold_left length].
      rewrite Hv'. change (10 ^ Z.of_nat 1)%Z with 10%Z.
      pose proof (Z.div_mod n 10 ltac:(lia)). lia.
Qed.

Lemma to_string_nat_spec n :
  (0 ≤ n)%Z → to_string_nat n ≠ [] ∧
    Forall (λ c, isdigit c = true) (to_string_nat n) ∧ digits_value (to_string_nat n) = n.
Proof.
  intros Hn. unfold to_string_nat.
  destruct (dec_digits_spec (S (Z.to_nat (Z.log2 n))) n []) as (ds & -> & Hne & Hd & Hv).
  - rewrite Nat2Z.inj_succ, Z2Nat.id by apply Z.log2_nonneg.
    destruct (decide (n = 0)%Z) as [->|]; [done|]. split; [lia|]. apply Z.log2_spec. lia.
  - lia.
  - by rewrite app_nil_r.
Qed.

Lemma take_while_all p s : Forall (λ c, p c = true) s → take_while p s = s.
Proof. induction 1 as [|c s Hc _ IH]; simpl; [done|]. by rewrite Hc, IH. Qed.

Lemma take_while_app_stop p a c b :
  Forall (λ x, p x = true) a → p c = false → take_while p (a ++ c :: b) = a.
Proof. induction 1 as [|x a Hx _ IH]; intros Hc; simpl; [by rewrite Hc|]. by rewrite Hx, IH. Qed.

Lemma length_take_while p s : length (take_while p s) = length s → take_while p s = s.
Proof.
  induction s as [|c s IH]; simpl; [done|]. destruct (p c); simpl; [|lia].
  intros H. f_equal. apply IH. lia.
Qed.

Lemma take_while_Forall p s : Forall (λ c, p c = true) (take_while p s).
Proof. induction s as [|c s IH]; simpl; [constructor|]. destruct (p c) eqn:?; by constructor. Qed.

Lemma digits_value_nonneg ds : Forall (λ c, isdigit c = true) ds → (0 ≤ digits_value ds)%Z.
Proof.
  intros H. induction ds as [|c ds IH] using rev_ind; [done|].
  apply Forall_app in H as [H1 H2]. apply Forall_cons in H2 as [Hc _].
  rewrite digits_value_app. specialize (IH H1).
  unfold isdigit, in_range in Hc. unfold digits_value at 2. simpl. unfold digit_value.
  unfold size_of. simpl. lia.
Qed.

(** A size prints and reads back. *)
Lemma parse_size_to_string n :
  (0 ≤ n < 2 ^ 64)%Z → parse_size (to_string n) = Some n.
Proof.
  intros Hn. destruct (to_string_nat_spec n) as (Hne & Hd & Hv); [lia|].
  unfold to_string. destruct (Z.ltb_spec n 0); [lia|].
  unfold parse_size, from_chars. rewrite (take_while_all _ _ Hd), Hv.
  rewrite decide_False by done. destruct (Z.leb_spec (2 ^ 64) n); [lia|].
  by rewrite !decide_True.
Qed.

Lemma parse_size_range s n : parse_size s = Some n → (0 ≤ n < 2 ^ 64)%Z.
Proof.
  unfold parse_size, from_chars. destruct (decide (take_while isdigit s = [])); [done|].
  destruct (Z.leb_spec (2 ^ 64) (digits_value (take_while isdigit s))); [done|].
  rewrite decide_True by done. destruct (decide _); [|done]. intros [= <-].
  split; [|lia]. apply digits_value_nonneg, take_while_Forall.
Qed.

Lemma to_string_inj a b : (0 ≤ a)%Z → (0 ≤ b)%Z → to_string a = to_string b → a = b.
Proof.
  intros Ha Hb. unfold to_string. destruct (Z.ltb_spec a 0), (Z.ltb_spec b 0); [lia..|].
  intros He%(f_equal digits_value).
  by rewrite (proj2 (proj2 (to_string_nat_spec a Ha))),
    (proj2 (proj2 (to_string_nat_spec b Hb))) in He.
Qed.

Lemma to_string_digits n c : (0 ≤ n)%Z → c ∈ to_string n → isdigit c = true.
Proof.
  intros Hn. unfold to_string. destruct (Z.ltb_spec n 0); [lia|].
  destruct (to_string_nat_spec n Hn) as (_ & Hd & _). rewrite Forall_forall in Hd. eauto.
Qed.

(** ** Lemmas: trimming

    Both [trim] functions of the program have this shape; they differ in the
    characters they strip. *)

Definition trim_with (front back s : bytes) : bytes :=
  match find_first_not_of front s with
  | None => []
  | Some a =>
      let b := npos_of (find_last_not_of back s) in
      substrZ s a (u64 (b - Z.of_nat a + 1))
  end.

Lemma trim_with_blank front back ws : Forall (λ c, c ∈ front) ws → trim_with front back ws = [].
Proof.
  intros H. unfold trim_with. assert (find_first_not_of front ws = None) as ->; [|done].
  apply find_if_None. eapply Forall_impl; [done|]. intros c Hc. simpl.
  apply negb_false_iff. by apply one_of_true.
Qed.

Lemma trim_with_pad front back ws v :
  Forall (λ c, c ∈ front) ws →
  (∀ c, head v = Some c → c ∉ front) → (∀ c, last v = Some c → c ∉ back) →
  (size_of (ws ++ v) < 2 ^ 64)%Z → trim_with front back (ws ++ v) = v.
Proof.
  intros Hws Hh Hl Hsz. destruct v as [|c v]; [rewrite app_nil_r; by apply trim_with_blank|].
  unfold trim_with.
  assert (find_first_not_of front (ws ++ c :: v) = Some (length ws)) as ->.
  { apply find_if_hit; [|by apply negb_true_iff, one_of_false, Hh].
    eapply Forall_impl; [exact Hws|]. intros d Hd. by apply negb_false_iff, one_of_true. }
  destruct (exists_last (l := c :: v)) as (v' & d & E); [done|].
  assert (find_last_not_of back (ws ++ c :: v) = Some (length ws + length v')) as ->.
  { rewrite E, <- length_app, (app_assoc ws v' [d]). apply rfind_if_hit; [done|].
    apply negb_true_iff, one_of_false, Hl. by rewrite E, last_snoc. }
  simpl npos_of. rewrite E. unfold size_of in Hsz. rewrite E, !length_app in Hsz. simpl length in Hsz.
  rewrite u64_small by lia. unfold substrZ. rewrite drop_app_length.
  apply take_ge. unfold size_of. rewrite !length_app. simpl length. lia.
Qed.

(** An [int] prints and reads back. *)
Lemma isdigit_not_space c : isdigit c = true → isspace c = false ∧ c ≠ SP ∧ c ≠ "-"%char ∧ c ≠ "+"%char.
Proof. by destruct c as [[] [] [] [] [] [] [] []]. Qed.

Lemma strtol_to_string n : strtol (to_string n) = Some n.
Proof.
  unfold to_string, strtol. destruct (Z.ltb_spec n 0) as [H|H].
  - destruct (to_string_nat_spec (- n)) as (Hne & Hd & Hv); [lia|]. cbn [drop_while].
    change (isspace "-") with false. cbn match. rewrite (take_while_all _ _ Hd), Hv, decide_False by done.
    f_equal. lia.
  - destruct (to_string_nat_spec n) as (Hne & Hd & Hv); [lia|].
    destruct (to_string_nat n) as [|c ds]; [done|]. apply Forall_cons in Hd as Hd'. destruct Hd' as [Hc _].
    destruct (isdigit_not_space c Hc) as (Hsp & _ & H1 & H2). cbn [drop_while]. rewrite Hsp.
    replace (match c :: ds with "-"%char :: r => (true, r) | "+"%char :: r => (false, r) | _ => (false, c :: ds) end)
      with (false, c :: ds) by (by destruct c as [[] [] [] [] [] [] [] []]).
    by rewrite (take_while_all _ _ Hd), Hv, decide_False by done.
Qed.

Lemma stoi_to_string n : (int_min ≤ n ≤ int_max)%Z → stoi (to_string n) = Some n.
Proof.
  intros Hn. unfold stoi. rewrite strtol_to_string.
  by destruct (Z.leb_spec int_min n), (Z.leb_spec n int_max); try lia.
Qed.

Lemma atoi_to_string n : (int_min ≤ n ≤ int_max)%Z → atoi (to_string n) = n.
Proof.
  intros Hn. unfold atoi. rewrite strtol_to_string. unfold int_min, int_max in *.
  rewrite Z.min_r, Z.max_r by lia. apply wrap32_small. unfold int_min, int_max. lia.
Qed.
