(* ===== verification/Rounding.v ===== *)
(** * Double-precision arithmetic

    A finite [double] is the rational it denotes; an operation on doubles is
    the exact operation followed by a rounding function.  [Rounding] states
    what the components rely on: rounding is monotone and leaves the integers
    a double represents exactly unchanged.  Two instances discharge it:
    [rnd64], the round-to-nearest-even of IEEE 754 binary64 (53-bit
    significand, exponent range unbounded), which the executable definitions
    use, and [rnd_exact], the identity, for statements about the ideal
    algorithm.  [Accurate] states how far a result is from the exact one, for
    the bounds on accumulated errors; both instances meet it. *)
From S2P Require Import Prelude.
From Stdlib Require Export QArith Qround Qpower Qminmax Qabs Lqa.
Local Open Scope Q_scope.

Class Rounding (rnd : Q → Q) : Prop := {
  #[global] rnd_proper :: Proper (Qeq ==> Qeq) rnd;
  rnd_mono : ∀ x y, x <= y → rnd x <= rnd y;
  rnd_int : ∀ z : Z, (Z.abs z <= 2 ^ 53)%Z → rnd (inject_Z z) == inject_Z z
}.

Definition rnd_exact (x : Q) : Q := x.

(** Nearest integer, ties to even. *)
Definition half_even (x : Q) : Z :=
  let f := Qfloor x in
  match Qcompare (x - inject_Z f) (1 # 2) with
  | Lt => f
  | Gt => (f + 1)%Z
  | Eq => if Z.even f then f else (f + 1)%Z
  end.

(** The binary exponent of a positive rational: the [e] with
    [2 ^ e <= x < 2 ^ (e + 1)]. *)
Definition qexp (x : Q) : Z :=
  let l := (Z.log2 (Qnum x) - Z.log2 (QDen x))%Z in
  if Qle_bool (Qpower 2 l) x then l else (l - 1)%Z.

(** Rounding of a positive rational to a 53-bit significand. *)
Definition rnd_pos (x : Q) : Q :=
  let k := (52 - qexp x)%Z in
  inject_Z (half_even (x * Qpower 2 k)) * Qpower 2 (- k).

Definition rnd64 (x : Q) : Q :=
  match Qcompare x 0 with
  | Eq => 0
  | Gt => rnd_pos x
  | Lt => - rnd_pos (- x)
  end.

(** [std::min] on doubles. *)
Definition double_min (a b : Q) : Q := if Qle_bool a b then a else b.

(** Conversion of a double to an integer type: truncation toward zero. *)
Definition trunc (x : Q) : Z := if Qle_bool 0 x then Qfloor x else (- Qfloor (- x))%Z.

Lemma half_even_between x : (Qfloor x <= half_even x <= Qfloor x + 1)%Z.
Proof. unfold half_even. destruct (Qcompare _ _); [destruct (Z.even _)|..]; lia. Qed.

#[global] Instance half_even_proper : Proper (Qeq ==> eq) half_even.
Proof.
  intros x y H. unfold half_even. rewrite (Qfloor_comp _ _ H).
  by rewrite (Qcompare_comp (x - inject_Z (Qfloor y)) (y - inject_Z (Qfloor y))
                (ltac:(by rewrite H)) (1 # 2) (1 # 2) (Qeq_refl _)).
Qed.

Lemma half_even_int z : half_even (inject_Z z) = z.
Proof.
  unfold half_even. rewrite Qfloor_Z.
  rewrite (Qcompare_comp (inject_Z z - inject_Z z) 0 ltac:(ring) (1 # 2) (1 # 2) (Qeq_refl _)).
  done.
Qed.

Lemma half_even_mono x y : x <= y → (half_even x <= half_even y)%Z.
Proof.
  intros H. pose proof (Qfloor_resp_le _ _ H) as Hf.
  pose proof (half_even_between x). pose proof (half_even_between y).
  destruct (Z.eq_dec (Qfloor x) (Qfloor y)) as [E|]; [|lia].
  unfold half_even. rewrite E.
  destruct (Qcompare_spec (x - inject_Z (Qfloor y)) (1 # 2)),
    (Qcompare_spec (y - inject_Z (Qfloor y)) (1 # 2)); try (destruct (Z.even _)); try lia;
    exfalso; lra.
Qed.

Lemma pow2_pos k : 0 < Qpower 2 k.
Proof. apply Qpower_0_lt. lra. Qed.

Lemma pow2_add a b : Qpower 2 (a + b) == Qpower 2 a * Qpower 2 b.
Proof. apply Qpower_plus. lra. Qed.

Lemma pow2_inv k : Qpower 2 k * Qpower 2 (- k) == 1.
Proof. rewrite <- pow2_add. by rewrite Z.add_opp_diag_r. Qed.

Lemma pow2_mono a b : (a <= b)%Z → Qpower 2 a <= Qpower 2 b.
Proof. intros. apply Qpower_le_compat_l; [done|lra]. Qed.

Lemma pow2_Z n : (0 <= n)%Z → Qpower 2 n == inject_Z (2 ^ n).
Proof. intros. change 2 with (inject_Z 2). symmetry. by apply Zpower_Qpower. Qed.

Lemma log2_bounds n :
  (0 < n)%Z → Qpower 2 (Z.log2 n) <= inject_Z n ∧ inject_Z n < Qpower 2 (Z.log2 n + 1).
Proof.
  intros Hn. pose proof (Z.log2_nonneg n). destruct (Z.log2_spec n Hn) as [H1 H2].
  rewrite !pow2_Z by lia. rewrite <- Zle_Qle, <- Zlt_Qlt. by rewrite Z.add_1_r.
Qed.

Lemma Qnum_Qden x : x * inject_Z (QDen x) == inject_Z (Qnum x).
Proof. destruct x as [n d]. unfold Qeq, inject_Z. simpl. lia. Qed.

Lemma qexp_spec x : 0 < x → Qpower 2 (qexp x) <= x ∧ x < Qpower 2 (qexp x + 1).
Proof.
  intros Hx. assert (0 < Qnum x)%Z as Hn by (unfold Qlt in Hx; simpl in Hx; lia).
  destruct (log2_bounds _ Hn) as [N1 N2].
  destruct (log2_bounds (QDen x)) as [D1 D2]; [done|].
  pose proof (Qnum_Qden x) as E. rewrite <- E in N1, N2.
  unfold qexp. set (ln := Z.log2 (Qnum x)) in *. set (ld := Z.log2 (QDen x)) in *.
  assert (x < Qpower 2 (ln - ld + 1)) as Hup.
  { apply Qnot_le_lt. intros Hge. apply (Qlt_irrefl (Qpower 2 (ln + 1))).
    replace (ln + 1)%Z with ((ln - ld + 1) + ld)%Z at 1 by lia. rewrite pow2_add.
    eapply Qle_lt_trans; [|exact N2].
    apply Qmult_le_compat_nonneg; split; auto using Qlt_le_weak, pow2_pos. }
  destruct (Qle_bool _ _) eqn:Hb.
  - apply Qle_bool_iff in Hb. done.
  - assert (¬ Qpower 2 (ln - ld) <= x) as Hnot.
    { intros Hc%Qle_bool_iff. congruence. }
    apply Qnot_le_lt in Hnot. replace (ln - ld - 1 + 1)%Z with (ln - ld)%Z by lia.
    split; [|done]. apply Qnot_lt_le. intros Hlt. apply (Qlt_irrefl (Qpower 2 ln)).
    eapply Qle_lt_trans; [exact N1|].
    replace ln with ((ln - ld - 1) + (ld + 1))%Z by lia. rewrite pow2_add.
    eapply Qle_lt_trans; [apply Qmult_le_l; [done|apply Qlt_le_weak, D2]|].
    apply Qmult_lt_r; [apply pow2_pos|done].
Qed.

Lemma qexp_mono x y : 0 < x → x <= y → (qexp x <= qexp y)%Z.
Proof.
  intros Hx Hxy. destruct (qexp_spec x Hx) as [H1 H2].
  destruct (qexp_spec y) as [H3 H4]; [lra|].
  destruct (Z.le_gt_cases (qexp x) (qexp y)) as [|Hlt]; [done|].
  assert (Qpower 2 (qexp y + 1) <= Qpower 2 (qexp x)) by (apply pow2_mono; lia). lra.
Qed.

Lemma qexp_unique x y : 0 < x → x == y → qexp x = qexp y.
Proof.
  intros Hx E. apply Z.le_antisymm; apply qexp_mono; lra.
Qed.

(** The significand of a rounded number is between 2^52 and 2^53. *)
Lemma rnd_pos_bounds x : 0 < x → Qpower 2 (qexp x) <= rnd_pos x ∧ rnd_pos x <= Qpower 2 (qexp x + 1).
Proof.
  intros Hx. destruct (qexp_spec x Hx) as [H1 H2]. unfold rnd_pos.
  set (e := qexp x) in *. set (k := (52 - e)%Z).
  pose proof (pow2_pos k) as Pk. pose proof (pow2_pos (- k)) as Pnk.
  assert (inject_Z (2 ^ 52) == Qpower 2 e * Qpower 2 k) as L.
  { rewrite <- pow2_add, <- pow2_Z by lia. by replace (e + k)%Z with 52%Z by lia. }
  assert (inject_Z (2 ^ 53) == Qpower 2 (e + 1) * Qpower 2 k) as U.
  { rewrite <- pow2_add, <- pow2_Z by lia. by replace (e + 1 + k)%Z with 53%Z by lia. }
  assert (2 ^ 52 <= half_even (x * Qpower 2 k) <= 2 ^ 53)%Z as [B1 B2].
  { split.
    - rewrite <- (half_even_int (2 ^ 52)). apply half_even_mono. rewrite L.
      apply Qmult_le_r; done.
    - rewrite <- (half_even_int (2 ^ 53)). apply half_even_mono. rewrite U.
      apply Qmult_le_r; [done|]. by apply Qlt_le_weak. }
  assert (∀ j, Qpower 2 j == Qpower 2 j * Qpower 2 k * Qpower 2 (- k)) as R.
  { intros j. rewrite <- Qmult_assoc, pow2_inv. ring. }
  rewrite (R e), (R (e + 1)%Z), <- L, <- U.
  split; apply Qmult_le_r; rewrite <- ?Zle_Qle; done.
Qed.

Lemma rnd_pos_mono x y : 0 < x → x <= y → rnd_pos x <= rnd_pos y.
Proof.
  intros Hx Hxy. pose proof (qexp_mono _ _ Hx Hxy) as Hle.
  destruct (Z.eq_dec (qexp x) (qexp y)) as [E|].
  - unfold rnd_pos. rewrite E. apply Qmult_le_r; [apply pow2_pos|].
    rewrite <- Zle_Qle. apply half_even_mono, Qmult_le_r; [apply pow2_pos|done].
  - destruct (rnd_pos_bounds x Hx) as [_ H1].
    destruct (rnd_pos_bounds y) as [H2 _]; [lra|].
    assert (Qpower 2 (qexp x + 1) <= Qpower 2 (qexp y)) by (apply pow2_mono; lia). lra.
Qed.

Lemma rnd_pos_int z : (0 < z <= 2 ^ 53)%Z → rnd_pos (inject_Z z) == inject_Z z.
Proof.
  intros Hz. assert (0 < inject_Z z) as Hp.
  { change 0 with (inject_Z 0). rewrite <- Zlt_Qlt. lia. }
  destruct (qexp_spec _ Hp) as [H1 H2]. unfold rnd_pos.
  set (e := qexp (inject_Z z)) in *. set (k := (52 - e)%Z).
  assert (∃ m : Z, inject_Z z * Qpower 2 k == inject_Z m) as [m Hm].
  { destruct (Z.le_gt_cases 0 k).
    - exists (z * 2 ^ k)%Z. by rewrite inject_Z_mult, pow2_Z.
    - assert (e < 54)%Z as He.
      { destruct (Z.le_gt_cases 54 e); [|done]. exfalso.
        assert (Qpower 2 54 <= Qpower 2 e) by (apply pow2_mono; lia).
        assert (inject_Z z <= inject_Z (2 ^ 53)) by (rewrite <- Zle_Qle; lia).
        rewrite (pow2_Z 54) in * by lia. rewrite <- (pow2_Z 53) in * by lia.
        assert (inject_Z (2 ^ 53) < inject_Z (2 ^ 54)) by (rewrite <- Zlt_Qlt; lia).
        rewrite <- (pow2_Z 53) in * by lia. lra. }
      replace e with 53%Z in * by lia. exists (2 ^ 52)%Z.
      assert (z = 2 ^ 53)%Z as ->; [|done].
      rewrite pow2_Z in H1 by lia. rewrite <- Zle_Qle in H1. lia. }
  rewrite Hm, half_even_int, <- Hm, <- Qmult_assoc, pow2_inv. ring.
Qed.

Lemma rnd_pos_proper x y : 0 < x → x == y → rnd_pos x == rnd_pos y.
Proof. intros Hx E. unfold rnd_pos. by rewrite (qexp_unique x y Hx E), E. Qed.

Lemma rnd_pos_pos x : 0 < x → 0 < rnd_pos x.
Proof. intros Hx. destruct (rnd_pos_bounds x Hx) as [H _]. pose proof (pow2_pos (qexp x)). lra. Qed.

#[global] Instance rnd64_rounding : Rounding rnd64.
Proof.
  split.
  - intros x y E. unfold rnd64. rewrite <- (Qcompare_comp _ _ E 0 0 (Qeq_refl 0)).
    destruct (Qcompare_spec x 0); [done| |by apply rnd_pos_proper].
    apply Qopp_comp, rnd_pos_proper; lra.
  - intros x y Hxy. unfold rnd64. destruct (Qcompare_spec x 0), (Qcompare_spec y 0); try lra.
    + apply Qlt_le_weak. by apply rnd_pos_pos.
    + pose proof (rnd_pos_pos (- x)). lra.
    + pose proof (rnd_pos_mono (- y) (- x)). lra.
    + pose proof (rnd_pos_pos (- x)). pose proof (rnd_pos_pos y). lra.
    + by apply rnd_pos_mono.
  - intros z Hz. unfold rnd64. destruct (Qcompare_spec (inject_Z z) 0) as [E|L|G].
    + by rewrite E.
    + change 0 with (inject_Z 0) in L. rewrite <- Zlt_Qlt in L.
      rewrite (rnd_pos_proper (- inject_Z z) (inject_Z (- z))).
      * rewrite rnd_pos_int by lia. rewrite inject_Z_opp. ring.
      * change 0 with (inject_Z 0). rewrite <- inject_Z_opp, <- Zlt_Qlt. lia.
      * by rewrite inject_Z_opp.
    + change 0 with (inject_Z 0) in G. rewrite <- Zlt_Qlt in G. apply rnd_pos_int. lia.
Qed.

#[global] Instance rnd_exact_rounding : Rounding rnd_exact.
Proof. split; unfold rnd_exact; try done. intros x y H. done. Qed.

Lemma rnd_0 rnd `{!Rounding rnd} : rnd 0 == 0.
Proof. apply (rnd_int 0). lia. Qed.

Lemma rnd_nonneg rnd `{!Rounding rnd} x : 0 <= x → 0 <= rnd x.
Proof. intros H. rewrite <- (rnd_0 rnd). by apply rnd_mono. Qed.

(** Rounding cannot cross an exactly represented integer. *)
Lemma rnd_le_int rnd `{!Rounding rnd} x (z : Z) :
  (Z.abs z <= 2 ^ 53)%Z → x <= inject_Z z → rnd x <= inject_Z z.
Proof. intros Hz H. rewrite <- (rnd_int (rnd := rnd) z Hz). by apply rnd_mono. Qed.

Lemma rnd_ge_int rnd `{!Rounding rnd} x (z : Z) :
  (Z.abs z <= 2 ^ 53)%Z → inject_Z z <= x → inject_Z z <= rnd x.
Proof. intros Hz H. rewrite <- (rnd_int (rnd := rnd) z Hz). by apply rnd_mono. Qed.

Lemma double_min_le a b : double_min a b <= a.
Proof.
  unfold double_min. destruct (Qle_bool a b) eqn:E; [lra|].
  destruct (Qlt_le_dec b a) as [|H]; [lra|]. apply Qle_bool_iff in H. congruence.
Qed.

Lemma double_min_le_r a b : double_min a b <= b.
Proof.
  unfold double_min. destruct (Qle_bool a b) eqn:E; [|lra]. by apply Qle_bool_iff in E.
Qed.

Lemma double_min_ge a b x : x <= a → x <= b → x <= double_min a b.
Proof. unfold double_min. by destruct (Qle_bool a b). Qed.

Lemma trunc_nonneg_le x (z : Z) : 0 <= x → x <= inject_Z z → (0 <= trunc x <= z)%Z.
Proof.
  intros H0 Hz. unfold trunc. rewrite (proj2 (Qle_bool_iff 0 x) H0). split.
  - rewrite <- (Qfloor_Z 0). by apply Qfloor_resp_le.
  - rewrite <- (Qfloor_Z z). by apply Qfloor_resp_le.
Qed.

#[global] Instance double_min_proper : Proper (Qeq ==> Qeq ==> Qeq) double_min.
Proof. intros a a' Ea b b' Eb. unfold double_min. rewrite Ea, Eb. by destruct (Qle_bool a' b'). Qed.

(** ** Accuracy *)

(** Half a unit in the last place of a 53-bit significand: [2 ^ -53]. *)
Definition ulp : Q := 1 # 9007199254740992.

Class Accurate (rnd : Q → Q) : Prop := rnd_accurate : ∀ x, Qabs (rnd x - x) <= ulp * Qabs x.

Lemma half_even_near x : Qabs (inject_Z (half_even x) - x) <= 1 # 2.
Proof.
  pose proof (Qfloor_le x) as H1. pose proof (Qlt_floor x) as H2. rewrite inject_Z_plus in H2.
  change (inject_Z 1) with 1 in H2. apply Qabs_Qle_condition. unfold half_even.
  destruct (Qcompare_spec (x - inject_Z (Qfloor x)) (1 # 2)); [destruct (Z.even _)|..];
    rewrite ?inject_Z_plus; change (inject_Z 1) with 1; split; lra.
Qed.

Lemma rnd_pos_near x : 0 < x → Qabs (rnd_pos x - x) <= ulp * x.
Proof.
  intros Hx. destruct (qexp_spec x Hx) as [H1 _]. unfold rnd_pos. set (e := qexp x) in *. set (k := (52 - e)%Z).
  pose proof (pow2_pos (- k)) as Pk. pose proof (half_even_near (x * Qpower 2 k)) as Hh.
  set (h := inject_Z _) in *.
  assert (h * Qpower 2 (- k) - x == (h - x * Qpower 2 k) * Qpower 2 (- k)) as ->.
  { transitivity (h * Qpower 2 (- k) - x * (Qpower 2 k * Qpower 2 (- k))); [rewrite pow2_inv|]; ring. }
  rewrite Qabs_Qmult, (Qabs_pos (Qpower 2 (- k))) by lra.
  apply Qle_trans with ((1 # 2) * Qpower 2 (- k)); [by apply Qmult_le_r|].
  assert (Qpower 2 (- k) == Qpower 2 e * (1 # 4503599627370496)) as ->.
  { replace (- k)%Z with (e + -52)%Z by lia. by rewrite pow2_add. }
  unfold ulp. lra.
Qed.

#[global] Instance rnd64_accurate : Accurate rnd64.
Proof.
  intros x. unfold rnd64. destruct (Qcompare_spec x 0) as [E|L|G].
  - rewrite E. by vm_compute.
  - pose proof (rnd_pos_near (- x) ltac:(lra)) as H. rewrite (Qabs_neg x) by lra.
    apply Qabs_Qle_condition in H as [? ?]. apply Qabs_Qle_condition. lra.
  - rewrite (Qabs_pos x) by lra. by apply rnd_pos_near.
Qed.

#[global] Instance rnd_exact_accurate : Accurate rnd_exact.
Proof.
  intros x. unfold rnd_exact. assert (x - x == 0) as -> by ring. apply Qmult_le_0_compat; [by vm_compute|].
  apply Qabs_nonneg.
Qed.

(** Rounding a number that is itself off by a relative error. *)
Lemma rnd_relative rnd `{!Accurate rnd} rho x x' :
  Qabs (x' - x) <= rho * Qabs x → Qabs (rnd x' - x) <= (ulp + rho + ulp * rho) * Qabs x.
Proof.
  intros H. pose proof (rnd_accurate (rnd := rnd) x') as Hr.
  pose proof (Qabs_triangle (rnd x' - x') (x' - x)) as T1.
  assert (rnd x' - x' + (x' - x) == rnd x' - x) as E1 by ring. rewrite E1 in T1.
  pose proof (Qabs_triangle (x' - x) x) as T2. assert (x' - x + x == x') as E2 by ring. rewrite E2 in T2.
  unfold ulp in *. lra.
Qed.

(** The error in terms of a bound on the argument. *)
Lemma rnd_near rnd `{!Accurate rnd} x a : - a <= x → x <= a → x - ulp * a <= rnd x ∧ rnd x <= x + ulp * a.
Proof.
  intros H1 H2. pose proof (rnd_accurate (rnd := rnd) x) as H.
  assert (Qabs x <= a) as Ha by (by apply Qabs_Qle_condition).
  apply Qabs_Qle_condition in H. unfold ulp in *. lra.
Qed.
