(* ===== verification/CxxDouble.v ===== *)
(** * [std::stod]

    A [double] read from text: a finite value is the rational it denotes
    (Rounding.v), infinities and NaN are values of their own.  [stod] is the
    C library's [strtod] (decimal and hexadecimal forms, [inf], [nan]) with
    the two exceptions of the C++ wrapper: nothing converted, and a result
    out of range. *)
From Stdlib Require Import Qabs.
From S2P Require Import Prelude CxxString Rounding.
Local Open Scope Q_scope.

Inductive double := Finite (q : Q) | Infinite (negative : bool) | NaN.

(** [d <= 0]: false for NaN. *)
Definition double_le_zero (d : double) : bool :=
  match d with
  | Finite q => Qle_bool q 0
  | Infinite negative => negative
  | NaN => false
  end.

Definition hex_digit (c : ascii) : bool := isdigit c || in_range 97 102 (tolower c).
Definition hex_digit_value (c : ascii) : Z := if isdigit c then digit_value c else (code (tolower c) - 87)%Z.

(** Digits, a point and digits: the value and the text that follows; [None]
    when there is no digit. *)
Definition mantissa (digit : ascii → bool) (value : ascii → Z) (base : Z) (s : bytes) : option (Q * bytes) :=
  let ip := take_while digit s in
  let r := drop (length ip) s in
  let '(fp, r) :=
    match r with
    | "."%char :: r' => let fp := take_while digit r' in (fp, drop (length fp) r')
    | _ => ([], r)
    end in
  if decide (ip ++ fp = []) then None
  else
    Some (inject_Z (fold_left (λ acc c, acc * base + value c)%Z (ip ++ fp) 0%Z) /
            inject_Z (base ^ Z.of_nat (length fp)), r).

(** The sign in front of a number. *)
Definition read_sign (s : bytes) : bool * bytes :=
  match s with
  | "-"%char :: r => (true, r)
  | "+"%char :: r => (false, r)
  | _ => (false, s)
  end.

(** An exponent introduced by [letter]; 0 when there is none. *)
Definition read_exponent (letter : ascii) (s : bytes) : Z :=
  match s with
  | c :: r =>
      if decide (tolower c = letter) then
        let '(neg, r) := read_sign r in
        let ds := take_while isdigit r in
        if neg then (- digits_value ds)%Z else digits_value ds
      else 0%Z
  | [] => 0%Z
  end.

(** The exact value of a number without its sign. *)
Definition read_number (s : bytes) : option Q :=
  let hex :=
    if is_prefix (str "0x") (to_lower s) then mantissa hex_digit hex_digit_value 16 (drop 2 s) else None in
  match hex with
  | Some (m, r) => Some (m * Qpower 2 (read_exponent "p"%char r))
  | None =>
      match mantissa isdigit digit_value 10 s with
      | Some (m, r) => Some (m * Qpower 10 (read_exponent "e"%char r))
      | None => None
      end
  end.

(** The range of normal numbers, and the exact subnormal ones. *)
Definition out_of_range (exact rounded : Q) : bool :=
  Qle_bool (Qpower 2 1024) (Qabs rounded) ||
  (negb (Qeq_bool exact 0) && negb (Qle_bool (Qpower 2 (-1022)) (Qabs exact)) &&
   negb (Qeq_bool (inject_Z (Qfloor (exact * Qpower 2 1074))) (exact * Qpower 2 1074))).

(** [std::stod]: [None] when it throws. *)
Definition stod (rnd : Q → Q) (s : bytes) : option double :=
  let '(neg, s) := read_sign (drop_while isspace s) in
  if is_prefix (str "inf") (to_lower s) then Some (Infinite neg)
  else if is_prefix (str "nan") (to_lower s) then Some NaN
  else
    match read_number s with
    | None => None
    | Some m =>
        let exact := if neg then - m else m in
        if out_of_range exact (rnd exact) then None else Some (Finite (rnd exact))
    end.
