(* ===== verification/CircuitBreaker.v ===== *)
(** * Circuit breaker (include/resilience/CircuitBreaker.hpp)

    The three-state breaker each backend owns.  Every method body runs under
    the breaker's mutex, so a method is one atomic step of the machine; a
    reading of [steady_clock] (nanoseconds) is an argument of the step that
    takes it.  [int] counters are integers with a theorem that they stay in
    range, so that no increment overflows. *)
From S2P Require Import Prelude.
Local Open Scope Z_scope.

Inductive CircuitState := Closed | Open | HalfOpen.
#[global] Instance CircuitState_eq_dec : EqDecision CircuitState.
Proof. solve_decision. Defined.

Record CircuitBreaker := mkCircuitBreaker {
  failureThreshold_ : Z;
  resetTimeout_ : Z;            (* milliseconds *)
  halfOpenTrialRequests_ : Z;
  cb_state : CircuitState;
  consecutiveFailures_ : Z;
  halfOpenInFlight_ : Z;
  openedAt_ : Z                 (* nanoseconds *)
}.

(** Nanoseconds of a [std::chrono::milliseconds]. *)
Definition ns_of_ms (ms : Z) : Z := ms * 1000000.

Definition newCircuitBreaker (failureThreshold resetTimeout halfOpenTrialRequests : Z)
    : CircuitBreaker :=
  mkCircuitBreaker failureThreshold resetTimeout halfOpenTrialRequests Closed 0 0 0.

Definition set_half_open (cb : CircuitBreaker) (inFlight : Z) : CircuitBreaker :=
  mkCircuitBreaker (failureThreshold_ cb) (resetTimeout_ cb) (halfOpenTrialRequests_ cb)
    HalfOpen (consecutiveFailures_ cb) inFlight (openedAt_ cb).

Definition trip (now : Z) (cb : CircuitBreaker) : CircuitBreaker :=
  mkCircuitBreaker (failureThreshold_ cb) (resetTimeout_ cb) (halfOpenTrialRequests_ cb)
    Open 0 0 now.

(** The second half of [allowRequest], reached with the breaker not [Open]. *)
Definition admit_trial (cb : CircuitBreaker) : bool * CircuitBreaker :=
  if decide (cb_state cb = HalfOpen) then
    if halfOpenTrialRequests_ cb <=? halfOpenInFlight_ cb then (false, cb)
    else (true, set_half_open cb (halfOpenInFlight_ cb + 1))
  else (true, cb).

Definition allowRequest (now : Z) (cb : CircuitBreaker) : bool * CircuitBreaker :=
  if decide (cb_state cb = Open) then
    if ns_of_ms (resetTimeout_ cb) <=? now - openedAt_ cb
    then admit_trial (set_half_open cb 0)
    else (false, cb)
  else admit_trial cb.

Definition onSuccess (cb : CircuitBreaker) : CircuitBreaker :=
  if decide (cb_state cb = HalfOpen) then
    mkCircuitBreaker (failureThreshold_ cb) (resetTimeout_ cb) (halfOpenTrialRequests_ cb)
      Closed 0 0 (openedAt_ cb)
  else
    mkCircuitBreaker (failureThreshold_ cb) (resetTimeout_ cb) (halfOpenTrialRequests_ cb)
      (cb_state cb) 0 (halfOpenInFlight_ cb) (openedAt_ cb).

Definition count_failure (cb : CircuitBreaker) : CircuitBreaker :=
  mkCircuitBreaker (failureThreshold_ cb) (resetTimeout_ cb) (halfOpenTrialRequests_ cb)
    (cb_state cb) (consecutiveFailures_ cb + 1) (halfOpenInFlight_ cb) (openedAt_ cb).

Definition onFailure (now : Z) (cb : CircuitBreaker) : CircuitBreaker :=
  if decide (cb_state cb = HalfOpen) then trip now cb
  else
    let cb' := count_failure cb in
    if failureThreshold_ cb' <=? consecutiveFailures_ cb' then trip now cb' else cb'.

(** ** The breaker as a machine driven by the calls of concurrent workers *)

Inductive cb_event :=
  | EvAllow (now : Z)
  | EvSuccess
  | EvFailure (now : Z).

(** One call: the new breaker and, for [allowRequest], the answer. *)
Definition cb_step (cb : CircuitBreaker) (e : cb_event) : CircuitBreaker * list bool :=
  match e with
  | EvAllow now => let '(b, cb') := allowRequest now cb in (cb', [b])
  | EvSuccess => (onSuccess cb, [])
  | EvFailure now => (onFailure now cb, [])
  end.

Fixpoint cb_run (cb : CircuitBreaker) (es : list cb_event) : CircuitBreaker * list bool :=
  match es with
  | [] => (cb, [])
  | e :: es' =>
      let '(cb1, r1) := cb_step cb e in
      let '(cb2, r2) := cb_run cb1 es' in (cb2, r1 ++ r2)
  end.

(** ** Invariant *)

Record cb_ok (cb : CircuitBreaker) : Prop := {
  cb_failures : 0 ≤ consecutiveFailures_ cb < Z.max 1 (failureThreshold_ cb);
  cb_flight : 0 ≤ halfOpenInFlight_ cb ≤ Z.max 0 (halfOpenTrialRequests_ cb);
  cb_flight_idle : cb_state cb ≠ HalfOpen → halfOpenInFlight_ cb = 0
}.

(** The configuration of a breaker never changes. *)
Definition cb_cfg (cb : CircuitBreaker) : Z * Z * Z :=
  (failureThreshold_ cb, resetTimeout_ cb, halfOpenTrialRequests_ cb).

Ltac cb_crush :=
  repeat match goal with
  | |- context [decide ?P] => destruct (decide P)
  | |- context [?a <=? ?b] => destruct (Z.leb_spec a b)
  | H : context [decide ?P] |- _ => destruct (decide P)
  | H : context [?a <=? ?b] |- _ => destruct (Z.leb_spec a b)
  end; simpl in *; simplify_eq/=.

Lemma new_cb_ok ft rt tr : cb_ok (newCircuitBreaker ft rt tr).
Proof. split; simpl; lia. Qed.

Lemma cb_step_ok cb e : cb_ok cb → cb_ok (cb_step cb e).1.
Proof.
  intros [H1 H2 H3].
  destruct e; unfold cb_step, allowRequest, admit_trial, onSuccess, onFailure; cb_crush;
    split; simpl; try done; try lia; try (intros; first [done | by auto | lia]).
Qed.

Lemma cb_step_cfg cb e : cb_cfg (cb_step cb e).1 = cb_cfg cb.
Proof.
  destruct e; unfold cb_step, allowRequest, admit_trial, onSuccess, onFailure; by cb_crush.
Qed.

Lemma cb_run_cons cb e es :
  cb_run cb (e :: es) =
  ((cb_run (cb_step cb e).1 es).1, (cb_step cb e).2 ++ (cb_run (cb_step cb e).1 es).2).
Proof. simpl. destruct (cb_step cb e) as [c r]. simpl. by destruct (cb_run c es). Qed.

Lemma cb_run_ok cb es : cb_ok cb → cb_ok (cb_run cb es).1 ∧ cb_cfg (cb_run cb es).1 = cb_cfg cb.
Proof.
  revert cb. induction es as [|e es IH]; intros cb Hcb; [done|].
  rewrite cb_run_cons. simpl. destruct (IH _ (cb_step_ok cb e Hcb)) as [Hok Hcfg].
  split; [done|]. by rewrite Hcfg, cb_step_cfg.
Qed.

(** ** Properties *)

(** Whatever calls concurrent workers make, in any order and at any
    times, the two [int] counters of a breaker stay below their thresholds:
    neither [++consecutiveFailures_] nor [++halfOpenInFlight_] can overflow,
    and the in-flight count is zero whenever the breaker is not half-open. *)
Theorem cb_counters_bounded ft rt tr es :
  ft ≤ int_max → 0 ≤ tr ≤ int_max →
  let cb := (cb_run (newCircuitBreaker ft rt tr) es).1 in
  0 ≤ consecutiveFailures_ cb < int_max ∧
  0 ≤ halfOpenInFlight_ cb ≤ tr ∧
  (cb_state cb ≠ HalfOpen → halfOpenInFlight_ cb = 0).
Proof.
  intros Hft Htr cb. destruct (cb_run_ok _ es (new_cb_ok ft rt tr)) as [[H1 H2 H3] Hcfg].
  fold cb in H1, H2, H3, Hcfg. injection Hcfg as E1 E2 E3. rewrite E1 in H1. rewrite E3 in H2.
  unfold int_max in *. split_and!; [lia..|done].
Qed.

Lemma cb_counters_bounded_witness :
  (cb_run (newCircuitBreaker 3 100 1) [EvFailure 5; EvFailure 9]).1.(consecutiveFailures_) = 2 ∧
  0 ≤ (cb_run (newCircuitBreaker 3 100 1) [EvFailure 5; EvFailure 9]).1.(consecutiveFailures_)
    < int_max.
Proof.
  split; [reflexivity|].
  apply (cb_counters_bounded 3 100 1 [EvFailure 5; EvFailure 9]); unfold int_max; lia.
Defined.

(** The calls that can happen before the reset timeout of a breaker tripped
    at [t0] has elapsed. *)
Definition within_open_window (t0 timeout : Z) (e : cb_event) : Prop :=
  match e with
  | EvAllow now => now < t0 + timeout
  | EvSuccess => True
  | EvFailure now => t0 ≤ now
  end.

Lemma open_window_gen cb es t0 :
  cb_state cb = Open → t0 ≤ openedAt_ cb →
  Forall (within_open_window t0 (ns_of_ms (resetTimeout_ cb))) es →
  cb_state (cb_run cb es).1 = Open ∧ Forall (λ b, b = false) (cb_run cb es).2.
Proof.
  revert cb. induction es as [|e es IH]; intros cb Ho Ht Hes; [done|].
  apply Forall_cons in Hes as [He Hes]. rewrite cb_run_cons. simpl.
  assert (cb_state (cb_step cb e).1 = Open ∧ t0 ≤ openedAt_ (cb_step cb e).1 ∧
          Forall (λ b, b = false) (cb_step cb e).2) as (Ho' & Ht' & Hr).
  { destruct e; simpl in *; unfold allowRequest, onSuccess, onFailure; rewrite Ho; cb_crush;
      split_and!; simpl; try done; try lia; repeat constructor. }
  destruct (IH _ Ho' Ht') as [Hs Ha].
  { pose proof (cb_step_cfg cb e) as Hc. injection Hc as _ -> _. done. }
  split; [done|]. by apply Forall_app.
Qed.

(** C36: fail fast.  An open breaker answers [false] to every request until
    its reset timeout has elapsed since it was tripped, and stays open,
    whatever late successes and failures of requests already in flight arrive
    meanwhile. *)
Theorem cb_open_fails_fast cb es :
  cb_state cb = Open →
  Forall (within_open_window (openedAt_ cb) (ns_of_ms (resetTimeout_ cb))) es →
  cb_state (cb_run cb es).1 = Open ∧ Forall (λ b, b = false) (cb_run cb es).2.
Proof. intros Ho Hes. by apply (open_window_gen cb es (openedAt_ cb)). Qed.

Lemma cb_open_fails_fast_witness :
  let cb := trip 1000 (newCircuitBreaker 1 1 1) in
  let es := [EvAllow 1500; EvSuccess; EvFailure 2000; EvAllow 900000] in
  (cb_run cb es).2 = [false; false] ∧ cb_state (cb_run cb es).1 = Open.
Proof.
  split; [reflexivity|].
  apply (cb_open_fails_fast (trip 1000 (newCircuitBreaker 1 1 1))
           [EvAllow 1500; EvSuccess; EvFailure 2000; EvAllow 900000]); [reflexivity|].
  repeat constructor; simpl; unfold ns_of_ms; lia.
Defined.

Definition is_allow (e : cb_event) : bool :=
  match e with EvAllow _ => true | _ => false end.

Lemma half_open_gen cb es :
  cb_ok cb → cb_state cb = HalfOpen → forallb is_allow es = true →
  size_of (filter (λ b, b = true) (cb_run cb es).2)
    ≤ Z.max 0 (halfOpenTrialRequests_ cb) - halfOpenInFlight_ cb.
Proof.
  revert cb. induction es as [|e es IH]; intros cb Hok Hs Hes.
  - unfold size_of. simpl. pose proof (cb_flight _ Hok). lia.
  - simpl in Hes. apply andb_true_iff in Hes as [He Hes]. destruct e; try done.
    rewrite cb_run_cons. pose proof (cb_step_ok _ (EvAllow now) Hok) as Hok'.
    simpl in Hok' |- *. unfold allowRequest, admit_trial in *. rewrite Hs in *. simpl in *.
    destruct (Z.leb_spec (halfOpenTrialRequests_ cb) (halfOpenInFlight_ cb)).
    + specialize (IH cb Hok Hs Hes). done.
    + specialize (IH (set_half_open cb (halfOpenInFlight_ cb + 1)) Hok' eq_refl Hes).
      simpl in *. unfold size_of in *. rewrite filter_cons, decide_True by done. simpl. lia.
Qed.

(** The half-open state admits at most [halfOpenTrialRequests_] trial
    requests: however many requests ask, from a breaker that is open or
    half-open and before any of them reports back, at most that many are
    let through. *)
Theorem cb_half_open_limits_trials cb es :
  cb_ok cb → cb_state cb ≠ Closed → forallb is_allow es = true →
  size_of (filter (λ b, b = true) (cb_run cb es).2) ≤ Z.max 0 (halfOpenTrialRequests_ cb).
Proof.
  revert cb. induction es as [|e es IH]; intros cb Hok Hs Hes; [unfold size_of; simpl; lia|].
  pose proof (cb_flight _ Hok). destruct (cb_state cb) eqn:Hst; [done| |].
  - simpl in Hes. apply andb_true_iff in Hes as [He Hes]. destruct e; try done.
    destruct (decide (ns_of_ms (resetTimeout_ cb) ≤ now - openedAt_ cb)) as [Hle|Hgt].
    + pose proof (half_open_gen (set_half_open cb 0) (EvAllow now :: es)) as Hg.
      rewrite cb_run_cons in *. simpl in *. unfold allowRequest in *. rewrite Hst in *. simpl in *.
      destruct (Z.leb_spec (ns_of_ms (resetTimeout_ cb)) (now - openedAt_ cb)); [|lia].
      etrans; [apply Hg|]; try done; try lia.
      pose proof (cb_failures _ Hok). split; simpl; try done; lia.
    + rewrite cb_run_cons. simpl. unfold allowRequest. rewrite Hst. simpl.
      destruct (Z.leb_spec (ns_of_ms (resetTimeout_ cb)) (now - openedAt_ cb)); [lia|].
      apply IH; [done|congruence|done].
  - etrans; [by apply half_open_gen|]. lia.
Qed.

Lemma cb_half_open_limits_trials_witness :
  let cb := trip 0 (newCircuitBreaker 1 1 2) in
  let es := [EvAllow 10; EvAllow 2000000; EvAllow 2000001; EvAllow 2000002] in
  (cb_run cb es).2 = [false; true; true; false] ∧
  size_of (filter (λ b, b = true) (cb_run cb es).2) ≤ Z.max 0 (halfOpenTrialRequests_ cb).
Proof.
  split; [reflexivity|].
  apply (cb_half_open_limits_trials (trip 0 (newCircuitBreaker 1 1 2))
    [EvAllow 10; EvAllow 2000000; EvAllow 2000001; EvAllow 2000002]);
    [split; simpl; lia|done|reflexivity].
Defined.

Lemma failures_open cb ts :
  cb_state cb = Open → cb_state (cb_run cb (map EvFailure ts)).1 = Open.
Proof.
  revert cb. induction ts as [|t ts IH]; intros cb Ho; [done|]. cbn [map]. rewrite cb_run_cons.
  apply IH. simpl. unfold onFailure. rewrite Ho. simpl. by destruct (_ <=? _).
Qed.

(** A closed breaker opens exactly when [failureThreshold_] failures have
    been reported with no success between them, however far apart in time they
    are (there is no time window on them). *)
Theorem cb_trips_at_threshold cb ts :
  cb_ok cb → cb_state cb = Closed →
  cb_state (cb_run cb (map EvFailure ts)).1 =
    if consecutiveFailures_ cb + size_of ts <? Z.max 1 (failureThreshold_ cb)
    then Closed else Open.
Proof.
  revert cb. induction ts as [|t ts IH]; intros cb Hok Hc.
  - pose proof (cb_failures _ Hok). unfold size_of. simpl. rewrite Hc.
    destruct (_ <? _) eqn:E; [done|]. apply Z.ltb_ge in E. lia.
  - cbn [map]. rewrite cb_run_cons. pose proof (cb_step_ok _ (EvFailure t) Hok) as Hok'.
    pose proof (cb_failures _ Hok) as Hf. unfold size_of in *. cbn [length]. simpl in *.
    unfold onFailure in *. rewrite Hc in *. simpl in *.
    destruct (Z.leb_spec (failureThreshold_ cb) (consecutiveFailures_ cb + 1)).
    + rewrite failures_open by done.
      destruct (_ <? _) eqn:E; [apply Z.ltb_lt in E; lia|done].
    + rewrite IH by done. simpl. by replace (consecutiveFailures_ cb + 1 + Z.of_nat (length ts))
        with (consecutiveFailures_ cb + Z.of_nat (S (length ts))) by lia.
Qed.

Lemma cb_trips_at_threshold_witness :
  let cb := newCircuitBreaker 3 1000 1 in
  cb_state (cb_run cb (map EvFailure [0; 3600000000000])).1 = Closed ∧
  cb_state (cb_run cb (map EvFailure [0; 3600000000000; 7200000000000])).1 = Open.
Proof.
  split.
  - exact (cb_trips_at_threshold (newCircuitBreaker 3 1000 1) [0; 3600000000000]
             (new_cb_ok _ _ _) eq_refl).
  - exact (cb_trips_at_threshold (newCircuitBreaker 3 1000 1)
             [0; 3600000000000; 7200000000000] (new_cb_ok _ _ _) eq_refl).
Defined.

(** Recovery.  Once the reset timeout of an open breaker has elapsed, the
    next request is admitted as a trial; its success closes the breaker with
    no failure counted, its failure opens it again with a fresh timer. *)
Theorem cb_recovers cb now :
  cb_state cb = Open → 1 ≤ halfOpenTrialRequests_ cb →
  ns_of_ms (resetTimeout_ cb) ≤ now - openedAt_ cb →
  ∃ cb', allowRequest now cb = (true, cb') ∧ cb_state cb' = HalfOpen ∧
    cb_state (onSuccess cb') = Closed ∧ consecutiveFailures_ (onSuccess cb') = 0 ∧
    ∀ later, cb_state (onFailure later cb') = Open ∧ openedAt_ (onFailure later cb') = later.
Proof.
  intros Ho Ht Hn. unfold allowRequest. rewrite Ho. simpl.
  destruct (Z.leb_spec (ns_of_ms (resetTimeout_ cb)) (now - openedAt_ cb)); [|lia].
  unfold admit_trial. simpl.
  destruct (Z.leb_spec (halfOpenTrialRequests_ cb) 0); [lia|].
  eexists. split; [done|]. done.
Qed.

Lemma cb_recovers_witness :
  ∃ cb', allowRequest 30000000 (trip 0 (newCircuitBreaker 1 20 1)) = (true, cb') ∧
    cb_state cb' = HalfOpen ∧ cb_state (onSuccess cb') = Closed.
Proof.
  destruct (cb_recovers (trip 0 (newCircuitBreaker 1 20 1)) 30000000) as (cb' & H1 & H2 & H3 & _);
    [reflexivity|simpl; lia|unfold ns_of_ms; simpl; lia|].
  by exists cb'.
Defined.
