(* ===== verification/RateLimiter.v ===== *)
(** * Token-bucket rate limiter (include/resilience/RateLimiter.hpp)

    One bucket per client key.  The body of [allow] after the clock reading
    runs under the mutex and is one atomic step; the clock reading is an
    argument.  Doubles are rationals with a rounding function [rnd] applied
    where the code rounds: the theorems hold for every [Rounding], in
    particular for binary64, except the long-run rate bound, which is stated
    here for the ideal algorithm and in RateLimiterOrder with the rounding. *)
From S2P Require Import Prelude Rounding.
Local Open Scope Q_scope.

Record Bucket := mkBucket { tokens : Q; lastRefill : Z }.

Record TokenBucketRateLimiter := mkRateLimiter {
  capacity_ : Q;
  refillPerSecond_ : Q;
  buckets_ : gmap bytes Bucket
}.

Definition newRateLimiter (capacity refillPerSecond : Q) : TokenBucketRateLimiter :=
  mkRateLimiter capacity refillPerSecond ∅.

Section limiter.
Context (rnd : Q → Q).

(** [std::chrono::duration<double>(d).count()] of a nanosecond count. *)
Definition duration_seconds (ns : Z) : Q := rnd (rnd (inject_Z ns) / inject_Z 1000000000).

(** Lines 22-30: find or create the bucket, then initialise or refill it. *)
Definition refreshed (rl : TokenBucketRateLimiter) (now : Z) (b : Bucket) : Bucket :=
  if (lastRefill b =? 0)%Z then mkBucket (capacity_ rl) now
  else
    let elapsed := duration_seconds (now - lastRefill b) in
    mkBucket (double_min (capacity_ rl)
                (rnd (tokens b + rnd (elapsed * refillPerSecond_ rl)))) now.

Definition put_bucket (rl : TokenBucketRateLimiter) (key : bytes) (b : Bucket)
    : TokenBucketRateLimiter :=
  mkRateLimiter (capacity_ rl) (refillPerSecond_ rl) (<[key := b]> (buckets_ rl)).

(** [auto& bucket = buckets_[key]]: a missing bucket is default-constructed. *)
Definition bucket_of (rl : TokenBucketRateLimiter) (key : bytes) : Bucket :=
  default (mkBucket 0 0) (buckets_ rl !! key).

Definition allow (now : Z) (key : bytes) (cost : Q) (rl : TokenBucketRateLimiter)
    : bool * TokenBucketRateLimiter :=
  let b := refreshed rl now (bucket_of rl key) in
  if Qle_bool cost (tokens b)
  then (true, put_bucket rl key (mkBucket (rnd (tokens b - cost)) (lastRefill b)))
  else (false, put_bucket rl key b).

(** A sequence of calls [(now, key)] at the default cost. *)
Fixpoint allow_run (rl : TokenBucketRateLimiter) (calls : list (Z * bytes))
    : TokenBucketRateLimiter * list bool :=
  match calls with
  | [] => (rl, [])
  | (now, key) :: calls' =>
      let '(b, rl1) := allow now key 1 rl in
      let '(rl2, bs) := allow_run rl1 calls' in (rl2, b :: bs)
  end.
End limiter.

Definition trackedKeys (rl : TokenBucketRateLimiter) : nat := size (buckets_ rl).

(** ** Invariant: a bucket holds between zero and [capacity_] tokens *)

Definition bucket_ok (cap : Q) (b : Bucket) : Prop := 0 <= tokens b ∧ tokens b <= cap.

(** A limiter built from an [int] capacity (a double holds every [int]
    exactly) and a non-negative refill rate. *)
Record rl_ok (rl : TokenBucketRateLimiter) : Prop := {
  rl_cap : ∃ c : Z, capacity_ rl = inject_Z c ∧ (0 <= c <= 2 ^ 53)%Z;
  rl_refill : 0 <= refillPerSecond_ rl;
  rl_buckets : ∀ k b, buckets_ rl !! k = Some b → bucket_ok (capacity_ rl) b
}.

(** The clock does not run backwards for this key. *)
Definition clock_ok (now : Z) (rl : TokenBucketRateLimiter) (key : bytes) : Prop :=
  (lastRefill (bucket_of rl key) <= now)%Z.

Lemma Qle_bool_false a b : Qle_bool a b = false → b < a.
Proof. intros E. apply Qnot_le_lt. intros H%Qle_bool_iff. congruence. Qed.

Section facts.
Context (rnd : Q → Q) `{!Rounding rnd}.

Lemma duration_nonneg d : (0 <= d)%Z → 0 <= duration_seconds rnd d.
Proof.
  intros H. unfold duration_seconds. apply (rnd_nonneg rnd).
  apply Qle_shift_div_l; [reflexivity|]. rewrite Qmult_0_l. apply (rnd_nonneg rnd).
  change 0 with (inject_Z 0). by rewrite <- Zle_Qle.
Qed.

Lemma bucket_of_ok rl key : rl_ok rl → bucket_ok (capacity_ rl) (bucket_of rl key).
Proof.
  intros [(c & Hc & Hr) _ H]. unfold bucket_of. destruct (buckets_ rl !! key) eqn:E; simpl; eauto.
  split; simpl; [lra|]. rewrite Hc. change 0 with (inject_Z 0). rewrite <- Zle_Qle. lia.
Qed.

Lemma refreshed_ok rl now key :
  rl_ok rl → clock_ok now rl key → bucket_ok (capacity_ rl) (refreshed rnd rl now (bucket_of rl key)).
Proof.
  intros Hok Hclk. destruct (bucket_of_ok rl key Hok) as [B0 B1].
  destruct Hok as [(c & Hc & Hr) Hrf _]. unfold clock_ok in Hclk.
  assert (0 <= capacity_ rl) as Hcap.
  { rewrite Hc. change 0 with (inject_Z 0). rewrite <- Zle_Qle. lia. }
  unfold refreshed. destruct (_ =? _)%Z; [split; simpl; lra|].
  split; simpl; [|apply double_min_le]. apply double_min_ge; [done|].
  assert (0 <= rnd (duration_seconds rnd (now - lastRefill (bucket_of rl key))
                    * refillPerSecond_ rl)).
  { apply (rnd_nonneg rnd). apply Qmult_le_0_compat; [|done]. apply duration_nonneg. lia. }
  apply (rnd_nonneg rnd). lra.
Qed.

Lemma lookup_put rl key b k :
  buckets_ (put_bucket rl key b) !! k = if decide (key = k) then Some b else buckets_ rl !! k.
Proof. simpl. rewrite lookup_insert. done. Qed.

Lemma allow_cfg now key cost rl :
  capacity_ (allow rnd now key cost rl).2 = capacity_ rl ∧
  refillPerSecond_ (allow rnd now key cost rl).2 = refillPerSecond_ rl.
Proof. unfold allow. by destruct (Qle_bool _ _). Qed.

Lemma allow_keeps_ok now key cost rl :
  rl_ok rl → clock_ok now rl key → 0 <= cost → rl_ok (allow rnd now key cost rl).2.
Proof.
  intros Hok Hclk Hcost. pose proof (refreshed_ok rl now key Hok Hclk) as [R0 R1].
  destruct (allow_cfg now key cost rl) as [Ec Er].
  destruct Hok as [(c & Hc & Hr) Hrf Hb]. split.
  - rewrite Ec. by exists c.
  - by rewrite Er.
  - rewrite Ec. intros k b. unfold allow.
    destruct (Qle_bool cost _) eqn:E; cbn [snd]; rewrite lookup_put;
      destruct (decide (key = k)); intros Hk; eauto; injection Hk as <-; [|done].
    apply Qle_bool_iff in E. split; simpl.
    + apply (rnd_nonneg rnd). lra.
    + rewrite Hc in *. apply (rnd_le_int rnd); [lia|]. lra.
Qed.
End facts.

(** ** Runs *)

(** Call times are positive and do not decrease. *)
Fixpoint times_from (t : Z) (calls : list (Z * bytes)) : Prop :=
  match calls with
  | [] => True
  | (now, _) :: calls' => (t <= now)%Z ∧ times_from now calls'
  end.

Lemma allow_run_cons rnd rl now key calls :
  allow_run rnd rl ((now, key) :: calls) =
  ((allow_run rnd (allow rnd now key 1 rl).2 calls).1,
   (allow rnd now key 1 rl).1 :: (allow_run rnd (allow rnd now key 1 rl).2 calls).2).
Proof.
  simpl. destruct (allow rnd now key 1 rl) as [b r]. simpl. by destruct (allow_run rnd r calls).
Qed.

Lemma allow_last_refill rnd now key cost rl k :
  lastRefill (bucket_of (allow rnd now key cost rl).2 k) =
  if decide (key = k) then now else lastRefill (bucket_of rl k).
Proof.
  unfold bucket_of, allow.
  destruct (Qle_bool cost _); cbn [snd]; rewrite lookup_put; destruct (decide (key = k)); try done;
    simpl; unfold refreshed; by destruct (_ =? _)%Z.
Qed.

Lemma allow_run_keeps_ok rnd `{!Rounding rnd} t rl calls :
  rl_ok rl → (∀ k, (lastRefill (bucket_of rl k) <= t)%Z) → times_from t calls →
  rl_ok (allow_run rnd rl calls).1.
Proof.
  revert t rl. induction calls as [|[now key] calls IH]; intros t rl Hok Ht Hcalls; [done|].
  destruct Hcalls as [Hnow Hcalls]. rewrite allow_run_cons. cbn [fst].
  apply (IH now); [|intros k|done].
  - apply allow_keeps_ok; [done..| |lra]. unfold clock_ok. specialize (Ht key). lia.
  - rewrite allow_last_refill. specialize (Ht k). destruct (decide _); lia.
Qed.

(** Under any sequence of calls with a clock that does not run backwards,
    every bucket of a limiter built from an [int] capacity and a non-negative
    rate holds between zero and [capacity_] tokens, in binary64 arithmetic. *)
Theorem rate_limiter_tokens_bounded (c : Z) (r : Q) calls k b :
  (0 <= c <= int_max)%Z → 0 <= r → times_from 0 calls →
  buckets_ (allow_run rnd64 (newRateLimiter (inject_Z c) r) calls).1 !! k = Some b →
  0 <= tokens b ∧ tokens b <= inject_Z c.
Proof.
  intros Hc Hr Hcalls Hb.
  assert (rl_ok (newRateLimiter (inject_Z c) r)) as H0.
  { split; [exists c|done|by intros ???]. unfold int_max in Hc. split; [done|lia]. }
  pose proof (allow_run_keeps_ok rnd64 0 _ calls H0 (λ _, Z.le_refl 0) Hcalls) as [_ _ Hok].
  specialize (Hok k b Hb).
  assert (∀ rl cs, capacity_ (allow_run rnd64 rl cs).1 = capacity_ rl) as Hcap.
  { clear. intros rl cs. revert rl. induction cs as [|[t k] cs IH]; intros rl; [done|].
    rewrite allow_run_cons. cbn [fst]. rewrite IH. apply allow_cfg. }
  rewrite Hcap in Hok. exact Hok.
Qed.

Lemma rate_limiter_tokens_bounded_witness :
  let rl := (allow_run rnd64 (newRateLimiter (inject_Z 2) (1 # 10))
               [(1000000000, str "a"); (4000000000, str "a")]%Z).1 in
  ∃ b, buckets_ rl !! str "a" = Some b ∧ 0 <= tokens b ∧ tokens b <= inject_Z 2.
Proof.
  intros rl.
  destruct (buckets_ rl !! str "a") as [b|] eqn:E; [|vm_compute in E; discriminate].
  exists b. split; [reflexivity|].
  apply (rate_limiter_tokens_bounded 2 (1 # 10)
           [(1000000000, str "a"); (4000000000, str "a")]%Z (str "a") b);
    [unfold int_max; lia|unfold Qle; simpl; lia|simpl; lia|exact E].
Defined.

(** ** Isolation of clients *)

(** The answers a sequence of calls gave to one key. *)
Definition answers_for (k : bytes) (calls : list (Z * bytes)) (bs : list bool) : list bool :=
  (filter (λ p : (Z * bytes) * bool, p.1.2 = k) (zip calls bs)).*2.

Definition same_client (k : bytes) (a b : TokenBucketRateLimiter) : Prop :=
  capacity_ a = capacity_ b ∧ refillPerSecond_ a = refillPerSecond_ b ∧
  bucket_of a k = bucket_of b k.

Lemma allow_same_client rnd now k a b :
  same_client k a b →
  (allow rnd now k 1 a).1 = (allow rnd now k 1 b).1 ∧
  same_client k (allow rnd now k 1 a).2 (allow rnd now k 1 b).2.
Proof.
  intros (E1 & E2 & E3). unfold same_client, allow, refreshed, bucket_of in *.
  rewrite E3, E1, E2. destruct (Qle_bool _ _); simpl; rewrite ?lookup_insert_eq; done.
Qed.

Lemma allow_other_client rnd now key k a :
  key ≠ k → same_client k (allow rnd now key 1 a).2 a.
Proof.
  intros Hne. unfold same_client, bucket_of, allow.
  destruct (Qle_bool _ _); simpl; rewrite lookup_insert_ne by done; done.
Qed.

Lemma answers_for_gen rnd k a b calls :
  same_client k a b →
  answers_for k calls (allow_run rnd a calls).2 =
  (allow_run rnd b (filter (λ c, c.2 = k) calls)).2.
Proof.
  unfold answers_for. revert a b. induction calls as [|[now key] calls IH]; intros a b Hab; [done|].
  rewrite allow_run_cons. cbn [snd zip zip_with]. rewrite !filter_cons. cbn [fst snd].
  destruct (decide (key = k)) as [->|Hne].
  - rewrite allow_run_cons. destruct (allow_same_client rnd now k a b Hab) as [E Hab'].
    cbn [snd fmap list_fmap]. rewrite E. f_equal. by apply IH.
  - apply IH. destruct (allow_other_client rnd now key k a Hne) as (E1 & E2 & E3).
    destruct Hab as (F1 & F2 & F3). unfold same_client. by rewrite E1, E2, E3.
Qed.

(** Clients are isolated.  The answers a client gets in any interleaving
    with other clients' requests are those it would get alone, in any
    arithmetic. *)
Theorem rate_limiter_isolates_clients rnd rl calls k :
  answers_for k calls (allow_run rnd rl calls).2 =
  (allow_run rnd rl (filter (λ c, c.2 = k) calls)).2.
Proof. by apply answers_for_gen. Qed.

(** ** Burst: with no refill, exactly [capacity] requests pass *)

Lemma rnd_nat rnd `{!Rounding rnd} (m : nat) x :
  (Z.of_nat m <= 2 ^ 53)%Z → x == inject_Z (Z.of_nat m) → rnd x == inject_Z (Z.of_nat m).
Proof. intros Hm ->. apply rnd_int. lia. Qed.

Lemma Qle_bool_1_nat x (m : nat) :
  x == inject_Z (Z.of_nat m) → Qle_bool 1 x = bool_decide (0 < m)%nat.
Proof.
  intros E. destruct (bool_decide (0 < m)%nat) eqn:Hm.
  - apply bool_decide_eq_true in Hm. apply Qle_bool_iff. rewrite E.
    change 1 with (inject_Z 1). rewrite <- Zle_Qle. lia.
  - apply bool_decide_eq_false in Hm. apply not_true_iff_false. rewrite Qle_bool_iff, E.
    change 1 with (inject_Z 1). rewrite <- Zle_Qle. lia.
Qed.

Section burst.
Context (rnd : Q → Q) `{!Rounding rnd} (k : bytes) (c : nat).
Hypothesis c_small : (Z.of_nat c <= 2 ^ 53)%Z.

(** The client has [m] tokens left: its bucket holds them, or it has made no
    request yet and will get a full bucket. *)
Definition left_over (m : nat) (rl : TokenBucketRateLimiter) : Prop :=
  capacity_ rl = inject_Z (Z.of_nat c) ∧ refillPerSecond_ rl = 0 ∧ (m ≤ c)%nat ∧
  ((∃ b, buckets_ rl !! k = Some b ∧ tokens b == inject_Z (Z.of_nat m) ∧ (0 < lastRefill b)%Z) ∨
   (buckets_ rl !! k = None ∧ m = c)).

Lemma refreshed_no_refill m rl now :
  left_over m rl →
  tokens (refreshed rnd rl now (bucket_of rl k)) == inject_Z (Z.of_nat m).
Proof.
  intros (Hc & Hr & Hm & [(b & Hb & Ht & Hl)|[Hb ->]]);
    unfold bucket_of; rewrite Hb; simpl; [|by rewrite Hc].
  unfold refreshed. destruct (Z.eqb_spec (lastRefill b) 0); [lia|]. simpl. rewrite Hr, Hc.
  assert (rnd (tokens b + rnd (duration_seconds rnd (now - lastRefill b) * 0))
          == inject_Z (Z.of_nat m)) as E.
  { apply rnd_nat; [done|lia|]. rewrite Qmult_0_r, (rnd_0 rnd), Qplus_0_r. done. }
  unfold double_min. destruct (Qle_bool _ _) eqn:Hle; [|done].
  apply Qle_bool_iff in Hle. rewrite E, <- Zle_Qle in Hle.
  by replace c with m by lia.
Qed.

Lemma allow_burst m rl now :
  left_over m rl → (0 < now)%Z →
  (allow rnd now k 1 rl).1 = bool_decide (0 < m)%nat ∧
  left_over (m - 1) (allow rnd now k 1 rl).2.
Proof.
  intros H Hnow. pose proof (refreshed_no_refill m rl now H) as E.
  destruct H as (Hc & Hr & Hm & _). unfold allow.
  rewrite (Qle_bool_1_nat _ m E). split; [by destruct (bool_decide _)|].
  assert (lastRefill (refreshed rnd rl now (bucket_of rl k)) = now) as Hlast.
  { unfold refreshed. by destruct (_ =? _)%Z. }
  destruct (bool_decide (0 < m)%nat) eqn:Hd; cbn [snd]; split_and!; try done; try lia;
    left; eexists; (split; [apply lookup_insert_eq|]); rewrite Hlast; (split; [|done]).
  - apply bool_decide_eq_true in Hd. simpl. apply rnd_nat; [done|lia|]. rewrite E.
    change 1 with (inject_Z 1). unfold Qminus. rewrite <- inject_Z_opp, <- inject_Z_plus.
    f_equiv. lia.
  - apply bool_decide_eq_false in Hd. rewrite E. f_equiv. lia.
Qed.

Lemma burst_gen m rl (ts : list Z) :
  left_over m rl → Forall (λ t, 0 < t)%Z ts →
  (allow_run rnd rl (map (λ t, (t, k)) ts)).2 =
  replicate (min m (length ts)) true ++ replicate (length ts - m) false.
Proof.
  revert m rl. induction ts as [|t ts IH]; intros m rl H Hts.
  - simpl. by rewrite Nat.min_0_r.
  - apply Forall_cons in Hts as [Ht Hts]. cbn [map]. rewrite allow_run_cons. cbn [snd].
    destruct (allow_burst m rl t H Ht) as [-> Hl]. rewrite (IH _ _ Hl Hts).
    destruct m as [|m]; simpl; [by rewrite Nat.sub_0_r|]. by rewrite Nat.sub_0_r.
Qed.
End burst.

(** Burst.  With a zero refill rate a client's first [capacity] requests
    are allowed and all later ones are refused, in any arithmetic that
    represents small integers exactly. *)
Theorem rate_limiter_burst rnd `{!Rounding rnd} k (c : nat) (ts : list Z) :
  (Z.of_nat c <= 2 ^ 53)%Z → Forall (λ t, 0 < t)%Z ts →
  (allow_run rnd (newRateLimiter (inject_Z (Z.of_nat c)) 0) (map (λ t, (t, k)) ts)).2 =
  replicate (min c (length ts)) true ++ replicate (length ts - c) false.
Proof.
  intros Hc Hts. apply (burst_gen rnd k c Hc c); [|done].
  split_and!; [done..|]. by right.
Qed.

Lemma rate_limiter_burst_witness :
  (allow_run rnd64 (newRateLimiter (inject_Z 2) 0) (map (λ t, (t, str "c")) [5; 6; 7; 8]%Z)).2
  = [true; true; false; false].
Proof.
  apply (rate_limiter_burst rnd64 (str "c") 2 [5; 6; 7; 8]%Z); [lia|repeat constructor; lia].
Defined.

(** ** Long-run rate of the ideal algorithm *)

Definition last_time (t : Z) (ts : list Z) : Z := default t (last ts).

Lemma last_time_cons t t' ts : last_time t (t' :: ts) = last_time t' ts.
Proof.
  unfold last_time. revert t t'. induction ts as [|u ts IH]; intros t t'; [done|].
  change (last (t' :: u :: ts)) with (last (u :: ts)). by rewrite (IH t u), (IH t' u).
Qed.

Definition count_true (bs : list bool) : Z := size_of (filter (λ b, b = true) bs).

Lemma inject_Z_sub a b : inject_Z (a - b) == inject_Z a - inject_Z b.
Proof. unfold Z.sub. rewrite inject_Z_plus, inject_Z_opp. ring. Qed.

(** Tokens earned between two instants. *)
Definition earned (r : Q) (t t' : Z) : Q := inject_Z (t' - t) / inject_Z 1000000000 * r.

Lemma earned_trans r a b c : earned r a c == earned r a b + earned r b c.
Proof. unfold earned. rewrite !inject_Z_sub. field. Qed.

Lemma earned_diag r t : earned r t t == 0.
Proof. unfold earned. rewrite Z.sub_diag. change (inject_Z 0) with 0. field. Qed.

Section ideal.
Context (k : bytes).

Lemma refreshed_ideal rl now b :
  buckets_ rl !! k = Some b → lastRefill b ≠ 0%Z →
  tokens (refreshed rnd_exact rl now (bucket_of rl k))
    <= tokens b + earned (refillPerSecond_ rl) (lastRefill b) now.
Proof.
  intros Hb Hl. unfold bucket_of. rewrite Hb. simpl. unfold refreshed.
  destruct (Z.eqb_spec (lastRefill b) 0); [done|]. simpl.
  eapply Qle_trans; [apply double_min_le_r|]. unfold duration_seconds, rnd_exact, earned. lra.
Qed.

Lemma allow_pays rl t :
  ∃ b', buckets_ (allow rnd_exact t k 1 rl).2 !! k = Some b' ∧ lastRefill b' = t ∧
    tokens b' + inject_Z (Z.b2z (allow rnd_exact t k 1 rl).1) <=
    tokens (refreshed rnd_exact rl t (bucket_of rl k)).
Proof.
  unfold allow. destruct (Qle_bool _ _); simpl; eexists; (split; [apply lookup_insert_eq|]).
  - unfold refreshed, rnd_exact; destruct (_ =? _)%Z; simpl; (split; [done|]);
      change (inject_Z 1) with 1; lra.
  - unfold refreshed; destruct (_ =? _)%Z; simpl; (split; [done|]);
      change (inject_Z 0) with 0; lra.
Qed.

Lemma count_true_cons a bs :
  inject_Z (count_true (a :: bs)) == inject_Z (Z.b2z a) + inject_Z (count_true bs).
Proof.
  rewrite <- inject_Z_plus. f_equiv. unfold count_true, size_of.
  rewrite filter_cons. destruct a; simpl; lia.
Qed.

(** Allowed requests are paid with tokens: their number plus what is left is
    at most what the bucket held plus what it earned. *)
Lemma ideal_budget rl b ts :
  rl_ok rl → buckets_ rl !! k = Some b → (0 < lastRefill b)%Z →
  times_from (lastRefill b) (map (λ t, (t, k)) ts) →
  inject_Z (count_true (allow_run rnd_exact rl (map (λ t, (t, k)) ts)).2)
    <= tokens b + earned (refillPerSecond_ rl) (lastRefill b) (last_time (lastRefill b) ts).
Proof.
  revert rl b. induction ts as [|t ts IH]; intros rl b Hok Hb Hl Hts.
  - unfold last_time. simpl. destruct (rl_buckets _ Hok k b Hb) as [B _].
    rewrite earned_diag. change (inject_Z (count_true [])) with 0. lra.
  - destruct Hts as [Ht Hts]. cbn [map]. rewrite allow_run_cons. cbn [snd].
    assert (clock_ok t rl k) as Hclk.
    { unfold clock_ok, bucket_of. rewrite Hb. simpl. lia. }
    pose proof (allow_keeps_ok rnd_exact t k 1 rl Hok Hclk ltac:(lra)) as Hok'.
    pose proof (refreshed_ideal rl t b Hb ltac:(lia)) as Hre.
    destruct (allow_cfg rnd_exact t k 1 rl) as [_ Er].
    destruct (allow_pays rl t) as (b' & Hb' & Hl' & Htok).
    specialize (IH _ b' Hok' Hb'). rewrite Hl', Er in IH.
    specialize (IH ltac:(lia) Hts).
    rewrite last_time_cons.
    rewrite (earned_trans _ _ t).
    rewrite count_true_cons. lra.
Qed.
End ideal.

(** Long-run rate.  With exact arithmetic, the number of requests a client
    gets through between its first and its last request is at most the burst
    capacity plus the refill rate times the time between them. *)
Theorem rate_limiter_rate_bound (k : bytes) (c : Z) (r : Q) (t0 : Z) (ts : list Z) :
  (0 <= c <= int_max)%Z → 0 <= r → (0 < t0)%Z → times_from t0 (map (λ t, (t, k)) ts) →
  inject_Z (count_true (allow_run rnd_exact (newRateLimiter (inject_Z c) r)
                          (map (λ t, (t, k)) (t0 :: ts))).2)
    <= inject_Z c + earned r t0 (last_time t0 ts).
Proof.
  intros Hc Hr Ht0 Hts. unfold int_max in Hc.
  set (rl := newRateLimiter (inject_Z c) r).
  assert (rl_ok rl) as Hok.
  { split; [exists c; split; [done|lia]|done|by intros ???]. }
  pose proof (allow_keeps_ok rnd_exact t0 k 1 rl Hok
                ltac:(change (0 <= t0)%Z; lia) ltac:(lra)) as Hok'.
  destruct (allow_pays k rl t0) as (b' & Hb' & Hl' & Htok).
  assert (tokens (refreshed rnd_exact rl t0 (bucket_of rl k)) = inject_Z c) as E by done.
  rewrite E in Htok.
  pose proof (ideal_budget k _ b' ts Hok' Hb') as H. rewrite Hl' in H.
  specialize (H Ht0 Hts). destruct (allow_cfg rnd_exact t0 k 1 rl) as [_ Er].
  rewrite Er in H. change (refillPerSecond_ rl) with r in H.
  cbn [map]. rewrite allow_run_cons. cbn [snd]. rewrite count_true_cons. lra.
Qed.

Lemma rate_limiter_rate_bound_witness :
  inject_Z (count_true (allow_run rnd_exact (newRateLimiter (inject_Z 1) (inject_Z 2))
     (map (λ t, (t, str "k")) [1000000000; 1100000000; 1600000000; 1700000000]%Z)).2) == 2 ∧
  inject_Z (count_true (allow_run rnd_exact (newRateLimiter (inject_Z 1) (inject_Z 2))
     (map (λ t, (t, str "k")) [1000000000; 1100000000; 1600000000; 1700000000]%Z)).2)
    <= inject_Z 1 + earned (inject_Z 2) 1000000000 1700000000.
Proof.
  split; [vm_compute; reflexivity|].
  apply (rate_limiter_rate_bound (str "k") 1 (inject_Z 2) 1000000000
           [1100000000; 1600000000; 1700000000]%Z);
    [unfold int_max; lia|unfold Qle; simpl; lia|lia|simpl; lia].
Defined.
