(* ===== verification/RateLimiterOrder.v ===== *)
(** * The rate limiter among threads (include/resilience/RateLimiter.hpp)

    [allow] reads the clock before it takes the mutex, so calls of several
    threads reach the bucket in an order that is not the order of their clock
    readings, and [elapsed] may be negative.  The long-run bound does not
    depend on the order: in any window of time a client gets no more requests
    through than the capacity and what is earned in the window.  What does
    depend on it is the other direction: a call that comes late with an early
    reading takes tokens away from the client.  The bound is proved for exact
    arithmetic and, with an explicit error per call, for any accurate
    rounding. *)
From Stdlib Require Import QArith.
From S2P Require Import Prelude Rounding RateLimiter.
Local Open Scope Q_scope.

Section window.
Context (k : bytes) (c r : Q) (L M : Z).
Hypothesis capacity_nonneg : 0 <= c.
Hypothesis rate_nonneg : 0 <= r.
Hypothesis window_start : (0 < L)%Z.
Hypothesis window_end : (L <= M)%Z.

Lemma earned_nonneg t t' : (t <= t')%Z → 0 <= earned r t t'.
Proof.
  intros H. unfold earned, Qdiv. apply Qmult_le_0_compat; [|done]. apply Qmult_le_0_compat.
  - change 0 with (inject_Z 0). rewrite <- Zle_Qle. lia.
  - apply Qinv_le_0_compat. by vm_compute.
Qed.

(** A client that got [n] requests through in the window so far. *)
Record in_window (n : Z) (rl : TokenBucketRateLimiter) : Prop := {
  iw_capacity : capacity_ rl = c;
  iw_rate : refillPerSecond_ rl = r;
  iw_bound : inject_Z n <= c + earned r L M;
  iw_bucket : n = 0%Z ∨ ∃ b, buckets_ rl !! k = Some b ∧ (L <= lastRefill b <= M)%Z ∧
    inject_Z n + tokens b + earned r (lastRefill b) M <= c + earned r L M
}.

Lemma window_opens rl : capacity_ rl = c → refillPerSecond_ rl = r → in_window 0 rl.
Proof.
  intros Hc Hr. split; [done|done| |by left]. change (inject_Z 0) with 0.
  pose proof (earned_nonneg L M window_end). lra.
Qed.

(** What a refill can bring the bucket to: never above the capacity. *)
Lemma refreshed_capped rl t b : capacity_ rl = c → tokens (refreshed rnd_exact rl t b) <= c.
Proof.
  intros <-. unfold refreshed. destruct (_ =? _)%Z; simpl; [lra|apply double_min_le].
Qed.

(** A call that is let through leaves no debt. *)
Lemma allowed_solvent rl t b' :
  (allow rnd_exact t k 1 rl).1 = true → buckets_ (allow rnd_exact t k 1 rl).2 !! k = Some b' → 0 <= tokens b'.
Proof.
  unfold allow. generalize (refreshed rnd_exact rl t (bucket_of rl k)). intros b.
  destruct (Qle_bool _ _) eqn:E; [|done]. intros _. cbn [snd]. unfold put_bucket. cbn [buckets_].
  rewrite lookup_insert_eq. intros [= <-]. cbn [tokens]. apply Qle_bool_iff in E. unfold rnd_exact. lra.
Qed.

Lemma allow_in_window n rl t :
  in_window n rl → (L <= t <= M)%Z →
  in_window (n + Z.b2z (allow rnd_exact t k 1 rl).1) (allow rnd_exact t k 1 rl).2.
Proof.
  intros [Hc Hr Hb Hk] Ht. destruct (allow_cfg rnd_exact t k 1 rl) as [Ec Er].
  destruct (allow_pays k rl t) as (b' & Hb' & Hl' & Htok).
  assert (inject_Z n + tokens (refreshed rnd_exact rl t (bucket_of rl k)) + earned r t M <= c + earned r L M) as Hpot.
  { destruct Hk as [->|(b & Hkb & Hlb & Hp)].
    - pose proof (refreshed_capped rl t (bucket_of rl k) Hc) as Hcap. change (inject_Z 0) with 0.
      pose proof (earned_nonneg L t ltac:(lia)). rewrite (earned_trans r L t M). lra.
    - pose proof (refreshed_ideal k rl t b Hkb ltac:(lia)) as Hre. rewrite Hr in Hre.
      pose proof (earned_trans r (lastRefill b) t M). lra. }
  assert (inject_Z (n + Z.b2z (allow rnd_exact t k 1 rl).1) + tokens b' + earned r t M <= c + earned r L M) as Hpot'.
  { rewrite inject_Z_plus. lra. }
  split; [congruence|congruence| |].
  - destruct (allow rnd_exact t k 1 rl).1 eqn:Ea; [|by rewrite Z.add_0_r].
    pose proof (allowed_solvent rl t b' Ea Hb'). pose proof (earned_nonneg t M ltac:(lia)).
    cbn [Z.b2z] in *. lra.
  - right. exists b'. rewrite Hl'. split_and!; [done|lia|lia|done].
Qed.

Lemma other_in_window n rl t k' :
  k' ≠ k → in_window n rl → in_window n (allow rnd_exact t k' 1 rl).2.
Proof.
  intros Hne [Hc Hr Hb Hk]. destruct (allow_cfg rnd_exact t k' 1 rl) as [Ec Er].
  split; [congruence|congruence|done|]. destruct Hk as [->|(b & Hkb & ?)]; [by left|right].
  exists b. split; [|done]. rewrite <- Hkb. unfold allow.
  destruct (Qle_bool _ _); cbn [snd put_bucket buckets_]; by rewrite lookup_insert_ne.
Qed.

(** Requests of the client among the answers to [calls]. *)
Fixpoint passed (calls : list (Z * bytes)) (answers : list bool) : Z :=
  match calls, answers with
  | (_, k') :: calls', ok :: answers' => (if decide (k' = k) then Z.b2z ok else 0) + passed calls' answers'
  | _, _ => 0
  end.

Lemma run_in_window n rl calls :
  in_window n rl → Forall (λ call, L <= call.1 <= M)%Z calls →
  in_window (n + passed calls (allow_run rnd_exact rl calls).2) (allow_run rnd_exact rl calls).1.
Proof.
  revert n rl. induction calls as [|[t k'] calls IH]; intros n rl Hw Hf; [by rewrite Z.add_0_r|].
  apply Forall_cons in Hf as [Ht Hf]. rewrite allow_run_cons. cbn [fst snd passed].
  rewrite Z.add_assoc. apply IH; [|done]. destruct (decide (k' = k)) as [->|Hne].
  - by apply allow_in_window.
  - rewrite Z.add_0_r. by apply other_in_window.
Qed.
End window.

(** ** With rounding *)

(** The same argument for an arithmetic that is accurate to half a unit in
    the last place: each call of the client may be off by a few units of the
    largest amount a bucket can hold or owe in the window. *)
Section rounded.
Context (rnd : Q → Q) `{!Rounding rnd, !Accurate rnd} (k : bytes) (c r : Q) (L M : Z) (D : Q).
Hypothesis capacity_nonneg : 0 <= c.
Hypothesis rate_nonneg : 0 <= r.
Hypothesis window_start : (0 < L)%Z.
Hypothesis window_end : (L <= M)%Z.
Hypothesis debt_nonneg : 0 <= D.

(** What a bucket can hold and earn in the window, or owe. *)
Definition at_stake : Q := c + earned r L M + D.

(** The error of one call. *)
Definition slip : Q := at_stake * (1 # 562949953421312).

Lemma earned_le t t' : (L <= t)%Z → (t' <= M)%Z → earned r t t' <= earned r L M.
Proof.
  intros H1 H2. pose proof (earned_nonneg r rate_nonneg L t H1). pose proof (earned_nonneg r rate_nonneg t' M H2).
  rewrite (earned_trans r L t M), (earned_trans r t t' M). lra.
Qed.

Lemma earned_opp t t' : earned r t' t == - earned r t t'.
Proof. pose proof (earned_trans r t t' t) as H. pose proof (earned_diag r t). lra. Qed.

(** What the code computes for the tokens earned between two readings. *)
Definition refill (last t : Z) : Q := rnd (duration_seconds rnd (t - last) * r).

Lemma refill_near last t : Qabs (refill last t - earned r last t) <= 4 * ulp * Qabs (earned r last t).
Proof.
  set (ns := inject_Z (t - last)). set (e := ns / inject_Z 1000000000).
  pose proof (rnd_accurate (rnd := rnd) ns) as H1.
  assert (Qabs (rnd ns / inject_Z 1000000000 - e) <= ulp * Qabs e) as H2.
  { assert (rnd ns / inject_Z 1000000000 - e == (rnd ns - ns) / inject_Z 1000000000) as -> by (unfold e, Qdiv; ring).
    unfold e, Qdiv. rewrite !Qabs_Qmult, Qmult_assoc. apply Qmult_le_compat_r; [done|apply Qabs_nonneg]. }
  apply (rnd_relative rnd) in H2. fold (duration_seconds rnd (t - last)) in H2.
  set (rho := ulp + ulp + ulp * ulp) in *.
  assert (Qabs (duration_seconds rnd (t - last) * r - earned r last t) <= rho * Qabs (earned r last t)) as H3.
  { assert (earned r last t == e * r) as -> by reflexivity.
    assert (duration_seconds rnd (t - last) * r - e * r == (duration_seconds rnd (t - last) - e) * r) as -> by ring.
    rewrite !Qabs_Qmult, Qmult_assoc. apply Qmult_le_compat_r; [done|apply Qabs_nonneg]. }
  apply (rnd_relative rnd) in H3. fold (refill last t) in H3.
  pose proof (Qabs_nonneg (earned r last t)). unfold rho, ulp in *. lra.
Qed.

(** The refill of a bucket, capped or not, when both readings are in the
    window. *)
Lemma refilled_near T a last t :
  - a <= T → T <= a → - earned r L M <= earned r last t → earned r last t <= earned r L M →
  T + earned r last t - ulp * (a + 6 * earned r L M) <= rnd (T + refill last t) ∧
  rnd (T + refill last t) <= T + earned r last t + ulp * (a + 6 * earned r L M).
Proof.
  intros H1 H2 H3 H4. pose proof (refill_near last t) as Hn.
  assert (Qabs (earned r last t) <= earned r L M) as Ha by (by apply Qabs_Qle_condition).
  assert (Qabs (refill last t - earned r last t) <= 4 * ulp * earned r L M) as Hn' by (unfold ulp in *; lra).
  apply Qabs_Qle_condition in Hn'.
  pose proof (earned_nonneg r rate_nonneg L M window_end).
  destruct (rnd_near rnd (T + refill last t) (a + 2 * earned r L M)) as [G1 G2]; unfold ulp in *; lra.
Qed.

(** The state of the client's bucket after [j] of its calls, [n] of them let
    through. *)
Definition slack (j : Z) : Q := inject_Z j * slip.

Record rounded_window (j n : Z) (rl : TokenBucketRateLimiter) : Prop := {
  rw_capacity : capacity_ rl = c;
  rw_rate : refillPerSecond_ rl = r;
  rw_calls : (0 <= n)%Z ∧ (0 <= j)%Z;
  rw_bound : inject_Z n <= c + earned r L M + slack j;
  rw_bucket :
    (n = 0%Z ∧ (lastRefill (bucket_of rl k) = 0%Z ∨
       - D <= tokens (bucket_of rl k) ∧ (lastRefill (bucket_of rl k) <= M)%Z)) ∨
    (L <= lastRefill (bucket_of rl k) <= M)%Z ∧
    inject_Z n + tokens (bucket_of rl k) + earned r (lastRefill (bucket_of rl k)) M <= c + earned r L M + slack j ∧
    - D - slack j <= tokens (bucket_of rl k) + earned r (lastRefill (bucket_of rl k)) M
}.

Lemma at_stake_nonneg : 0 <= at_stake.
Proof. unfold at_stake. pose proof (earned_nonneg r rate_nonneg L M window_end). lra. Qed.

Lemma slack_bounds j : (0 <= j <= 2 ^ 49)%Z → 0 <= slack j ∧ slack j <= at_stake.
Proof.
  intros [H1 H2]. pose proof at_stake_nonneg as Hs. unfold slack, slip.
  assert (0 <= inject_Z j) as J1 by (change 0 with (inject_Z 0); by rewrite <- Zle_Qle).
  assert (inject_Z j <= 562949953421312) as J2 by (change 562949953421312 with (inject_Z (2 ^ 49)); by rewrite <- Zle_Qle).
  split; [apply Qmult_le_0_compat; [done|lra]|].
  assert (inject_Z j * at_stake <= 562949953421312 * at_stake) by (by apply Qmult_le_compat_r). lra.
Qed.

Lemma slack_next j : slack (j + 1) == slack j + slip.
Proof. unfold slack. rewrite inject_Z_plus. change (inject_Z 1) with 1. ring. Qed.

(** The first call of the window on a bucket that owes [D]. *)
Lemma first_refill_low last t :
  (last <= M)%Z → (L <= t <= M)%Z → - D - 8 * ulp * at_stake - earned r t M <= rnd (- D + refill last t).
Proof.
  intros Hlast Ht. pose proof at_stake_nonneg as Hs. pose proof (earned_nonneg r rate_nonneg L M window_end) as HE.
  pose proof (earned_nonneg r rate_nonneg t M ltac:(lia)) as Htm. pose proof (earned_trans r last t M) as Htr.
  destruct (Z.le_gt_cases last t) as [Hlt|Hlt].
  - assert (0 <= refill last t).
    { apply (rnd_nonneg rnd), Qmult_le_0_compat; [apply duration_nonneg; [done|lia]|done]. }
    assert (rnd (- D) <= rnd (- D + refill last t)) by (apply rnd_mono; lra).
    destruct (rnd_near rnd (- D) D) as [G _]; [lra|lra|]. unfold at_stake, ulp in *. lra.
  - pose proof (earned_opp t last) as Ho. pose proof (earned_le t last ltac:(lia) ltac:(lia)).
    pose proof (earned_nonneg r rate_nonneg t last ltac:(lia)). pose proof (earned_nonneg r rate_nonneg last M ltac:(lia)).
    destruct (refilled_near (- D) D last t) as [G _]; [lra..|]. unfold at_stake, ulp in *. lra.
Qed.

(** What a call finds in the bucket once it is refilled. *)
Lemma refreshed_rounded j n rl t :
  rounded_window j n rl → (j + 1 <= 2 ^ 49)%Z → (L <= t <= M)%Z →
  let T := tokens (refreshed rnd rl t (bucket_of rl k)) in
  T <= c ∧
  inject_Z n + T + earned r t M <= c + earned r L M + slack j + 8 * ulp * at_stake ∧
  - D - slack j - 8 * ulp * at_stake <= T + earned r t M.
Proof.
  intros [Hc Hr [Hn Hj] Hb Hk] Hmax Ht. cbv zeta. unfold refreshed.
  destruct (slack_bounds j ltac:(lia)) as [S1 S2]. pose proof at_stake_nonneg as Hs.
  pose proof (earned_nonneg r rate_nonneg L M window_end) as HE.
  pose proof (earned_nonneg r rate_nonneg t M ltac:(lia)) as Htm.
  pose proof (earned_le t M ltac:(lia) ltac:(lia)) as Hle.
  destruct (Z.eqb_spec (lastRefill (bucket_of rl k)) 0) as [E0|Hne]; cbn [tokens]; rewrite Hc.
  { destruct Hk as [[-> _]|[? _]]; [|lia]. change (inject_Z 0) with 0. unfold ulp. split_and!; lra. }
  rewrite Hr. fold (refill (lastRefill (bucket_of rl k)) t).
  set (b := bucket_of rl k) in *. set (last := lastRefill b) in *.
  split; [apply double_min_le|]. pose proof (earned_trans r last t M) as Htr.
  destruct Hk as [(-> & [|[HD Hlast]])|([Hl1 Hl2] & Hup & Hlow)]; [done| |].
  - split.
    { pose proof (double_min_le c (rnd (tokens b + refill last t))). change (inject_Z 0) with 0. unfold ulp. lra. }
    pose proof (first_refill_low last t Hlast Ht) as Hlow.
    enough (- D - slack j - 8 * ulp * at_stake - earned r t M <= double_min c (rnd (tokens b + refill last t))) by lra.
    apply double_min_ge; [unfold ulp; lra|].
    assert (rnd (- D + refill last t) <= rnd (tokens b + refill last t)) by (apply rnd_mono; lra). lra.
  - assert (- earned r L M <= earned r last t ∧ earned r last t <= earned r L M) as [He1 He2].
    { pose proof (earned_opp t last). pose proof (earned_le t last ltac:(lia) ltac:(lia)).
      pose proof (earned_le last t ltac:(lia) ltac:(lia)). lra. }
    pose proof (earned_nonneg r rate_nonneg last M ltac:(lia)). pose proof (earned_le last M ltac:(lia) ltac:(lia)).
    assert (0 <= inject_Z n) by (change 0 with (inject_Z 0); by rewrite <- Zle_Qle).
    destruct (refilled_near (tokens b) (2 * at_stake) last t) as [G1 G2]; [unfold at_stake in *; lra..|].
    assert (ulp * (2 * at_stake + 6 * earned r L M) <= 8 * ulp * at_stake) by (unfold at_stake, ulp in *; lra).
    split.
    + pose proof (double_min_le_r c (rnd (tokens b + refill last t))). lra.
    + enough (- D - slack j - 8 * ulp * at_stake - earned r t M <= double_min c (rnd (tokens b + refill last t))) by lra.
      apply double_min_ge; [unfold ulp in *; lra|]. lra.
Qed.

Lemma allow_rounded j n rl t :
  rounded_window j n rl → (j + 1 <= 2 ^ 49)%Z → (L <= t <= M)%Z →
  rounded_window (j + 1) (n + Z.b2z (allow rnd t k 1 rl).1) (allow rnd t k 1 rl).2.
Proof.
  intros Hw Hmax Ht. pose proof (refreshed_rounded j n rl t Hw Hmax Ht) as (H1 & H2 & H3).
  destruct Hw as [Hc Hr [Hn Hj] Hb _]. destruct (allow_cfg rnd t k 1 rl) as [Ec Er].
  pose proof (allow_last_refill rnd t k 1 rl k) as Hlast. rewrite decide_True in Hlast by done.
  pose proof (slack_next j) as Hsl. pose proof at_stake_nonneg as Hs. destruct (slack_bounds j ltac:(lia)) as [S1 _].
  pose proof (earned_nonneg r rate_nonneg L M window_end) as HE. pose proof (earned_nonneg r rate_nonneg t M ltac:(lia)) as Htm.
  assert (slip == 16 * ulp * at_stake) as Eslip by (unfold slip, ulp; ring).
  assert (∀ b ok, tokens (bucket_of (allow rnd t k 1 rl).2 k) = b → (allow rnd t k 1 rl).1 = ok →
    inject_Z (n + Z.b2z ok) <= c + earned r L M + slack (j + 1) →
    inject_Z (n + Z.b2z ok) + b + earned r t M <= c + earned r L M + slack (j + 1) →
    - D - slack (j + 1) <= b + earned r t M →
    rounded_window (j + 1) (n + Z.b2z (allow rnd t k 1 rl).1) (allow rnd t k 1 rl).2) as Hdone.
  { intros b ok Eb Eo G1 G2 G3. rewrite Eo. split; [congruence|congruence|destruct ok; cbn; lia|done|].
    right. rewrite Hlast, Eb. split_and!; [lia|lia|done|done]. }
  clear Ec Er Hlast. unfold allow in *. revert H1 H2 H3 Hdone. set (b := refreshed rnd rl t (bucket_of rl k)).
  intros H1 H2 H3 Hdone. unfold ulp in *.
  destruct (Qle_bool 1 (tokens b)) eqn:E; cbn [fst snd] in *.
  - apply Qle_bool_iff in E. destruct (rnd_near rnd (tokens b - 1) (tokens b - 1)) as [G1 G2]; [lra|lra|].
    assert (0 <= rnd (tokens b - 1)) as G0 by (apply (rnd_nonneg rnd); lra).
    assert (tokens b <= at_stake) by (unfold at_stake; lra).
    apply (Hdone (rnd (tokens b - 1)) true); [unfold bucket_of; cbn [put_bucket buckets_]; by rewrite lookup_insert_eq|done|..];
      cbn [Z.b2z]; rewrite ?inject_Z_plus; change (inject_Z 1) with 1; unfold ulp in *; lra.
  - apply (Hdone (tokens b) false); [unfold bucket_of; cbn [put_bucket buckets_]; by rewrite lookup_insert_eq|done|..];
      cbn [Z.b2z]; rewrite ?Z.add_0_r; lra.
Qed.

Lemma other_rounded j n rl t k' :
  k' ≠ k → rounded_window j n rl → rounded_window j n (allow rnd t k' 1 rl).2.
Proof.
  intros Hne [Hc Hr Hn Hb Hk]. destruct (allow_cfg rnd t k' 1 rl) as [Ec Er].
  destruct (allow_other_client rnd t k' k rl Hne) as (_ & _ & E).
  split; [congruence|congruence|done|done|]. by rewrite E.
Qed.

(** Before the window: no bucket for the client, or one that owes at most
    [D]. *)
Definition owes_at_most (rl : TokenBucketRateLimiter) : Prop :=
  ∀ b, buckets_ rl !! k = Some b → lastRefill b = 0%Z ∨ - D <= tokens b ∧ (lastRefill b <= M)%Z.

Lemma rounded_opens rl : capacity_ rl = c → refillPerSecond_ rl = r → owes_at_most rl → rounded_window 0 0 rl.
Proof.
  intros Hc Hr Ho. pose proof (earned_nonneg r rate_nonneg L M window_end). split; [done|done|lia| |].
  - change (inject_Z 0) with 0. destruct (slack_bounds 0 ltac:(lia)). lra.
  - left. split; [done|]. unfold bucket_of. destruct (buckets_ rl !! k) as [b|] eqn:E; [by apply Ho|by left].
Qed.
End rounded.

(** ** Theorems *)

(** The rate holds among threads.  Whatever state the limiter is in,
    whatever the order in which the threads' calls reach it, and whatever the
    other clients do: of the calls whose clock readings lie in a window, at
    most the capacity plus the refill of that window are let through for one
    client (with exact arithmetic). *)
Theorem rate_bound_any_order k rl L M calls :
  0 <= capacity_ rl → 0 <= refillPerSecond_ rl → (0 < L)%Z → (L <= M)%Z →
  Forall (λ call, L <= call.1 <= M)%Z calls →
  inject_Z (passed k calls (allow_run rnd_exact rl calls).2)
    <= capacity_ rl + earned (refillPerSecond_ rl) L M.
Proof.
  intros Hc Hr HL HM Hf.
  assert (in_window k (capacity_ rl) (refillPerSecond_ rl) L M 0 rl) as H0 by (by apply window_opens).
  eapply run_in_window in H0 as [_ _ H _]; done.
Qed.

Lemma rate_bound_any_order_witness :
  let calls := [(1500000000, str "a"); (1000000000, str "a"); (1200000000, str "b"); (1700000000, str "a")]%Z in
  passed (str "a") calls (allow_run rnd_exact (newRateLimiter (inject_Z 1) (inject_Z 2)) calls).2 = 1%Z ∧
  inject_Z (passed (str "a") calls (allow_run rnd_exact (newRateLimiter (inject_Z 1) (inject_Z 2)) calls).2)
    <= inject_Z 1 + earned (inject_Z 2) 1000000000 2000000000.
Proof.
  split; [vm_compute; reflexivity|].
  apply (rate_bound_any_order (str "a") (newRateLimiter (inject_Z 1) (inject_Z 2)) 1000000000 2000000000
    [(1500000000, str "a"); (1000000000, str "a"); (1200000000, str "b"); (1700000000, str "a")]%Z);
    [vm_compute; congruence|vm_compute; congruence|lia|lia|repeat constructor; vm_compute; congruence].
Defined.

(** A call that comes late is charged for it.  A client whose burst is two
    requests sends two, through two workers; the one that read the clock
    first takes the mutex second, the bucket is refilled by a negative time
    and the request is refused, although the burst has room for it. *)
Theorem late_call_is_refused :
  let rl := newRateLimiter (inject_Z 2) (inject_Z 1000) in
  (allow_run rnd64 rl [(1000000000, str "c"); (1002000000, str "c")]%Z).2 = [true; true] ∧
  (allow_run rnd64 rl [(1002000000, str "c"); (1000000000, str "c")]%Z).2 = [true; false].
Proof. split; vm_compute; reflexivity. Qed.
