(* ===== verification/RetryPolicy.v ===== *)
(** * Retry policy (include/resilience/RetryPolicy.hpp)

    Bounded retries with exponential backoff and full jitter.  The draw from
    [std::uniform_real_distribution] is a parameter of [nextDelay]: a function
    that picks a number below the bound it is given. *)
From S2P Require Import Prelude Rounding.
Local Open Scope Q_scope.

Record RetryPolicy := mkRetryPolicy {
  maxRetries_ : Z;
  baseDelay_ : Z;   (* milliseconds *)
  maxDelay_ : Z     (* milliseconds *)
}.

Definition maxRetries (rp : RetryPolicy) : Z := maxRetries_ rp.

(** [std::min(cap, base * std::pow(2.0, attempt))]. *)
Definition backoff (rnd : Q → Q) (rp : RetryPolicy) (attempt : Z) : Q :=
  let base := inject_Z (baseDelay_ rp) in
  let cap := inject_Z (maxDelay_ rp) in
  double_min cap (rnd (base * Qpower 2 attempt)).

(** What a draw from the uniform distribution on [[0, bound)] guarantees. *)
Class UniformDraw (draw : Q → Q) : Prop :=
  uniform_draw : ∀ bound, 0 <= bound → 0 <= draw bound ∧ draw bound <= bound.

Definition nextDelay (rnd : Q → Q) (draw : Q → Q) (rp : RetryPolicy) (attempt : Z) : Z :=
  trunc (draw (backoff rnd rp attempt)).

Definition isRetryable (httpStatusOrErrno : Z) : bool :=
  if (httpStatusOrErrno <? 0)%Z then true
  else (httpStatusOrErrno =? 502)%Z || (httpStatusOrErrno =? 503)%Z || (httpStatusOrErrno =? 504)%Z.

(** Delays a configuration can hold: non-negative [int]s. *)
Definition rp_ok (rp : RetryPolicy) : Prop :=
  (0 <= baseDelay_ rp <= int_max)%Z ∧ (0 <= maxDelay_ rp <= int_max)%Z.

(** The backoff of the documented formula, on integers. *)
Definition backoff_ms (rp : RetryPolicy) (attempt : Z) : Z :=
  Z.min (maxDelay_ rp) (baseDelay_ rp * 2 ^ attempt).

Lemma backoff_exact rnd `{!Rounding rnd} rp attempt :
  rp_ok rp → (0 <= attempt)%Z → backoff rnd rp attempt == inject_Z (backoff_ms rp attempt).
Proof.
  intros [Hb Hc] Ha. unfold int_max in *. unfold backoff, backoff_ms. cbv zeta.
  rewrite pow2_Z, <- inject_Z_mult by done.
  set (x := (baseDelay_ rp * 2 ^ attempt)%Z).
  assert (0 <= x)%Z by (unfold x; pose proof (Z.pow_pos_nonneg 2 attempt ltac:(lia) Ha); nia).
  destruct (Z.le_gt_cases x (2 ^ 53)) as [Hs|Hl].
  - pose proof (rnd_int (rnd := rnd) x ltac:(lia)) as E. unfold double_min.
    destruct (Qle_bool _ _) eqn:Hle.
    + apply Qle_bool_iff in Hle. rewrite E, <- Zle_Qle in Hle. by rewrite Z.min_l.
    + rewrite E. f_equiv. rewrite Z.min_r; [done|].
      destruct (Z.le_gt_cases x (maxDelay_ rp)) as [|Hgt]; [done|]. exfalso.
      apply not_true_iff_false in Hle. apply Hle, Qle_bool_iff. rewrite E, <- Zle_Qle. lia.
  - assert (inject_Z (maxDelay_ rp) <= rnd (inject_Z x)) as Hge.
    { eapply Qle_trans; [|apply (rnd_ge_int rnd (inject_Z x) (2 ^ 53)); [lia|]];
        rewrite <- Zle_Qle; lia. }
    unfold double_min. rewrite (proj2 (Qle_bool_iff _ _) Hge). by rewrite Z.min_l by lia.
Qed.

(** A retry delay is the documented formula with full jitter: for every
    draw and in binary64 arithmetic it is between zero and
    [min(max_delay, base_delay * 2 ^ attempt)] milliseconds. *)
Theorem retry_delay_bounds draw `{!UniformDraw draw} rp attempt :
  rp_ok rp → (0 <= attempt)%Z →
  (0 <= nextDelay rnd64 draw rp attempt
     <= Z.min (maxDelay_ rp) (baseDelay_ rp * 2 ^ attempt))%Z.
Proof.
  intros Hok Ha. pose proof (backoff_exact rnd64 rp attempt Hok Ha) as E.
  fold (backoff_ms rp attempt). unfold nextDelay.
  assert (0 <= backoff_ms rp attempt)%Z as Hn.
  { destruct Hok. unfold backoff_ms. pose proof (Z.pow_pos_nonneg 2 attempt ltac:(lia) Ha).
    apply Z.min_glb; [lia|]. apply Z.mul_nonneg_nonneg; lia. }
  destruct (uniform_draw (draw := draw) (backoff rnd64 rp attempt)) as [D0 D1].
  { rewrite E. change 0 with (inject_Z 0). by rewrite <- Zle_Qle. }
  apply trunc_nonneg_le; [done|]. by rewrite E in D1 at 2.
Qed.

(** The draw of the middle of the interval. *)
Definition draw_middle (bound : Q) : Q := bound * (1 # 2).

#[global] Instance draw_middle_uniform : UniformDraw draw_middle.
Proof. intros b Hb. unfold draw_middle. lra. Qed.

Lemma retry_delay_bounds_witness :
  nextDelay rnd64 draw_middle (mkRetryPolicy 2 50 1000) 3 = 200%Z ∧
  (0 <= nextDelay rnd64 draw_middle (mkRetryPolicy 2 50 1000) 3 <= Z.min 1000 (50 * 2 ^ 3))%Z.
Proof.
  split; [vm_compute; reflexivity|].
  apply (retry_delay_bounds draw_middle (mkRetryPolicy 2 50 1000) 3);
    [unfold rp_ok, int_max; simpl; lia|lia].
Defined.
