(* ===== verification/LRUCache.v ===== *)
(** * LRU cache (include/cache/LRUCache.hpp)

    A [std::list] in recency order and an [unordered_map] from keys to list
    iterators, under one mutex: a method is one atomic step, the clock
    reading is its argument.  A list node has an identity, which is what an
    iterator holds; [push_front] allocates a fresh one.  Dereferencing an
    iterator whose node is gone would be undefined behaviour: the definitions
    leave the cache unchanged there, and the invariant shows that the case
    does not arise. *)
From S2P Require Import Prelude CircuitBreaker.

Section lru.
Context {Value : Type}.

Record Entry := mkEntry { e_key : bytes; e_value : Value; insertedAt : Z }.

Abbreviation node := (nat * Entry)%type.

Record LRUCache := mkLRUCache {
  cache_capacity : Z;           (* size_t *)
  cache_ttl : Z;                (* milliseconds *)
  list_ : list node;            (* front is most recently used *)
  index_ : gmap bytes nat;      (* key to iterator *)
  next_node : nat               (* identity of the next allocated node *)
}.

Definition newLRUCache (capacity ttl : Z) : LRUCache := mkLRUCache capacity ttl [] ∅ 0.

(** [*it]. *)
Definition deref (it : nat) (l : list node) : option Entry :=
  snd <$> List.find (λ p : node, bool_decide (p.1 = it)) l.

(** [list_.erase(it)]. *)
Definition erase_node (it : nat) (l : list node) : list node := filter (λ p, p.1 ≠ it) l.

(** [list_.splice(list_.begin(), list_, it)], the node now holding [e]. *)
Definition move_front (it : nat) (e : Entry) (l : list node) : list node :=
  (it, e) :: erase_node it l.

Definition with_list (c : LRUCache) (l : list node) (ix : gmap bytes nat) : LRUCache :=
  mkLRUCache (cache_capacity c) (cache_ttl c) l ix (next_node c).

(** [age > ttl_], tested when the cache has a time to live. *)
Definition expired (c : LRUCache) (now : Z) (e : Entry) : bool :=
  (0 <? cache_ttl c)%Z && (ns_of_ms (cache_ttl c) <? now - insertedAt e)%Z.

Definition cache_get (now : Z) (key : bytes) (c : LRUCache) : option Value * LRUCache :=
  match index_ c !! key with
  | None => (None, c)
  | Some it =>
      match deref it (list_ c) with
      | None => (None, c)
      | Some e =>
          if expired c now e
          then (None, with_list c (erase_node it (list_ c)) (delete key (index_ c)))
          else (Some (e_value e), with_list c (move_front it e (list_ c)) (index_ c))
      end
  end.

(** Lines 51-55: over capacity, drop the node at the back. *)
Definition evict (c : LRUCache) : LRUCache :=
  if (cache_capacity c <? Z.of_nat (size (index_ c)))%Z then
    match last (list_ c) with
    | None => c
    | Some lru =>
        with_list c (take (length (list_ c) - 1) (list_ c)) (delete (e_key lru.2) (index_ c))
    end
  else c.

Definition cache_put (now : Z) (key : bytes) (value : Value) (c : LRUCache) : LRUCache :=
  match index_ c !! key with
  | Some it =>
      match deref it (list_ c) with
      | None => c
      | Some e => with_list c (move_front it (mkEntry (e_key e) value now) (list_ c)) (index_ c)
      end
  | None =>
      evict (mkLRUCache (cache_capacity c) (cache_ttl c)
               ((next_node c, mkEntry key value now) :: list_ c)
               (<[key := next_node c]> (index_ c)) (S (next_node c)))
  end.

Definition invalidate (key : bytes) (c : LRUCache) : LRUCache :=
  match index_ c !! key with
  | Some it => with_list c (erase_node it (list_ c)) (delete key (index_ c))
  | None => c
  end.

Definition cache_clear (c : LRUCache) : LRUCache := with_list c [] ∅.

Definition cache_size (c : LRUCache) : Z := Z.of_nat (size (index_ c)).

(** ** Abstract specification

    A bounded list of entries with distinct keys, most recently used first. *)

Definition remove_key (k : bytes) (l : list Entry) : list Entry :=
  filter (λ e, e_key e ≠ k) l.

Definition lookup_key (k : bytes) (l : list Entry) : option Entry :=
  List.find (λ e, bool_decide (e_key e = k)) l.

Definition spec_get (is_expired : Entry → bool) (k : bytes) (l : list Entry)
    : option Value * list Entry :=
  match lookup_key k l with
  | None => (None, l)
  | Some e =>
      if is_expired e then (None, remove_key k l)
      else (Some (e_value e), e :: remove_key k l)
  end.

Definition spec_put (capacity : nat) (e : Entry) (l : list Entry) : list Entry :=
  take capacity (e :: remove_key (e_key e) l).

(** The abstraction function. *)
Definition abs (c : LRUCache) : list Entry := (list_ c).*2.

(** ** Invariant *)

Record cache_wf (c : LRUCache) : Prop := {
  ok_nodes : NoDup (list_ c).*1;
  ok_fresh : ∀ it e, (it, e) ∈ list_ c → it < next_node c;
  ok_index : ∀ k it, index_ c !! k = Some it ↔ ∃ e, (it, e) ∈ list_ c ∧ e_key e = k
}.

Definition cache_ok (c : LRUCache) : Prop :=
  cache_wf c ∧ (Z.of_nat (length (list_ c)) ≤ cache_capacity c)%Z.
End lru.

Arguments Entry : clear implicits.
Arguments LRUCache : clear implicits.

Section lru_facts.
Context {Value : Type}.
Implicit Types (c : LRUCache Value) (l : list (nat * Entry Value)) (es : list (Entry Value)).

Lemma deref_Some it l e : NoDup l.*1 → deref it l = Some e ↔ (it, e) ∈ l.
Proof.
  intros Hnd. unfold deref. split.
  - intros ([i e'] & Hf & ->)%fmap_Some. apply List.find_some in Hf as [Hin Hd].
    apply bool_decide_eq_true in Hd. simpl in *. subst. by apply list_elem_of_In.
  - intros Hin. induction l as [|[i e'] l IH]; [set_solver|].
    apply NoDup_cons in Hnd as [Hni Hnd]. simpl. destruct (bool_decide_reflect (i = it)) as [->|].
    + apply elem_of_cons in Hin as [[= ->]|Hin]; [done|].
      exfalso. apply Hni. apply list_elem_of_fmap. by exists (it, e).
    + apply elem_of_cons in Hin as [[= -> ->]|Hin]; [done|]. by apply IH.
Qed.

Lemma nodes_unique c it e e' :
  cache_wf c → (it, e) ∈ list_ c → (it, e') ∈ list_ c → e = e'.
Proof.
  intros Hok H1 H2. apply (deref_Some _ _ _ (ok_nodes _ Hok)) in H1.
  apply (deref_Some _ _ _ (ok_nodes _ Hok)) in H2. congruence.
Qed.

(** A node and its key determine each other. *)
Lemma node_key c it e it' e' :
  cache_wf c → (it, e) ∈ list_ c → (it', e') ∈ list_ c → it' = it ↔ e_key e' = e_key e.
Proof.
  intros Hok H H'. split.
  - intros ->. by rewrite (nodes_unique c it e e').
  - intros E. assert (index_ c !! e_key e = Some it) as I by (apply (ok_index _ Hok); eauto).
    assert (index_ c !! e_key e = Some it') as I' by (apply (ok_index _ Hok); eauto). congruence.
Qed.

Lemma erase_abs c it e :
  cache_wf c → (it, e) ∈ list_ c → (erase_node it (list_ c)).*2 = remove_key (e_key e) (abs c).
Proof.
  intros Hok Hin. unfold erase_node, remove_key, abs.
  rewrite (filter_agree (λ p, p.1 ≠ it) (λ p, e_key p.2 ≠ e_key e)).
  - by rewrite filter_fmap_compose.
  - intros [it' e'] Hin'. simpl. by rewrite (node_key c it e it' e').
Qed.

Lemma elem_of_erase it l p : p ∈ erase_node it l ↔ p ∈ l ∧ p.1 ≠ it.
Proof. unfold erase_node. rewrite list_elem_of_filter. tauto. Qed.

Lemma NoDup_erase it l : NoDup l.*1 → NoDup (erase_node it l).*1.
Proof.
  unfold erase_node. induction l as [|p l IH]; [done|].
  rewrite fmap_cons, NoDup_cons, filter_cons. intros [Hp Hl].
  destruct (decide (p.1 ≠ it)); [|by apply IH]. rewrite fmap_cons, NoDup_cons. split; [|by apply IH].
  intros (q & E & Hq)%list_elem_of_fmap. apply list_elem_of_filter in Hq as [_ Hq].
  apply Hp, list_elem_of_fmap. eauto.
Qed.

Lemma length_erase it e l :
  NoDup l.*1 → (it, e) ∈ l → length l = S (length (erase_node it l)).
Proof.
  unfold erase_node. induction l as [|[i e'] l IH]; intros Hnd Hin; [set_solver|].
  rewrite fmap_cons, NoDup_cons in Hnd. destruct Hnd as [Hni Hnd]. simpl in Hni.
  rewrite filter_cons. simpl. destruct (decide (i ≠ it)) as [Hne|Heq%dec_stable].
  - simpl. f_equal. apply IH; [done|]. apply elem_of_cons in Hin as [[= <- _]|]; done.
  - subst i. f_equal. f_equal. symmetry. apply filter_id. intros [j e''] Hj. simpl.
    intros ->. apply Hni, list_elem_of_fmap. by exists (it, e'').
Qed.

Lemma lookup_key_Some k es e : lookup_key k es = Some e → e ∈ es ∧ e_key e = k.
Proof.
  intros [Hin Hd]%List.find_some. apply bool_decide_eq_true in Hd.
  split; [by apply list_elem_of_In|done].
Qed.

Lemma lookup_key_None k es : lookup_key k es = None ↔ k ∉ e_key <$> es.
Proof.
  unfold lookup_key. induction es as [|e es IH]; simpl; [split; [set_solver|done]|].
  rewrite not_elem_of_cons. destruct (bool_decide_reflect (e_key e = k)); [|rewrite IH; split; [|tauto]; by split].
  split; [done|]. by intros [[]_].
Qed.

(** The index answers what a search through the list would. *)
Lemma lookup_key_abs c k :
  cache_wf c → lookup_key k (abs c) = index_ c !! k ≫= λ it, deref it (list_ c).
Proof.
  intros Hok. destruct (index_ c !! k) as [it|] eqn:Hk; simpl.
  - apply (ok_index _ Hok) in Hk as (e & Hin & Hek).
    rewrite (proj2 (deref_Some it _ e (ok_nodes _ Hok)) Hin).
    destruct (lookup_key k (abs c)) as [e'|] eqn:Hl.
    + apply lookup_key_Some in Hl as [Hin' Hek'].
      apply list_elem_of_fmap in Hin' as ([it' e''] & -> & Hin'). simpl in *.
      assert (it' = it) as -> by (apply (node_key c it e it' e''); congruence).
      f_equal. by apply (nodes_unique c it).
    + apply lookup_key_None in Hl. exfalso. apply Hl, list_elem_of_fmap. exists e.
      split; [done|]. apply list_elem_of_fmap. by exists (it, e).
  - apply lookup_key_None. intros (e & -> & He)%list_elem_of_fmap.
    apply list_elem_of_fmap in He as ([it e'] & -> & Hin).
    assert (index_ c !! e_key e' = Some it) by (apply (ok_index _ Hok); eauto). simpl in *. congruence.
Qed.

Lemma keys_nodup c : cache_wf c → NoDup (e_key <$> abs c).
Proof.
  intros Hok. unfold abs. rewrite <- list_fmap_compose.
  pose proof (ok_nodes _ Hok) as Hnd. pose proof (node_key c) as Hk.
  specialize (λ a b d e, Hk a b d e Hok).
  revert Hnd Hk. generalize (list_ c). intros l Hnd Hk.
  induction l as [|[it e] l IH]; [constructor|].
  rewrite fmap_cons, NoDup_cons in Hnd. rewrite fmap_cons, NoDup_cons.
  destruct Hnd as [Hni Hnd]. split.
  - intros ([it' e'] & E & Hin)%list_elem_of_fmap. simpl in E. apply Hni, list_elem_of_fmap.
    exists (it', e'). split; [|done]. simpl. symmetry. apply (Hk it e it' e'); [set_solver..|done].
  - apply IH; [done|]. intros a b d f Ha Hd. apply Hk; set_solver.
Qed.

Lemma size_index c : cache_wf c → size (index_ c) = length (list_ c).
Proof.
  intros Hok. rewrite <- (size_dom (D := gset bytes)).
  replace (dom (index_ c)) with (list_to_set (e_key <$> abs c) : gset bytes).
  - rewrite size_list_to_set by by apply keys_nodup. unfold abs. by rewrite !length_fmap.
  - apply set_eq. intros k. rewrite elem_of_list_to_set, elem_of_dom. unfold abs. split.
    + intros (e & -> & He)%list_elem_of_fmap.
      apply list_elem_of_fmap in He as ([it e'] & -> & Hin). exists it. apply (ok_index _ Hok). eauto.
    + intros [it (e & Hin & <-)%(ok_index _ Hok)]. apply list_elem_of_fmap. exists e.
      split; [done|]. apply list_elem_of_fmap. by exists (it, e).
Qed.

(** Unlinking a node and dropping its key from the index. *)
Lemma erase_wf c it e :
  cache_wf c → (it, e) ∈ list_ c →
  cache_wf (with_list c (erase_node it (list_ c)) (delete (e_key e) (index_ c))).
Proof.
  intros Hok Hin. split; simpl.
  - apply NoDup_erase, (ok_nodes _ Hok).
  - intros it' e' [Hin' _]%elem_of_erase. by eapply (ok_fresh _ Hok).
  - intros k it'. rewrite lookup_delete. destruct (decide (e_key e = k)) as [<-|Hne].
    + split; [done|]. intros (e' & [Hin' Hne]%elem_of_erase & E). simpl in *. exfalso.
      apply Hne. by apply (node_key c it e it' e').
    + rewrite (ok_index _ Hok). split.
      * intros (e' & Hin' & <-). exists e'. rewrite elem_of_erase. simpl. split_and!; [done| |done].
        intros E. apply Hne. symmetry. by apply (node_key c it e it' e').
      * intros (e' & [Hin' _]%elem_of_erase & <-). eauto.
Qed.

(** Moving a node to the front, possibly with a new value for its key. *)
Lemma move_front_wf c it e e' :
  cache_wf c → (it, e) ∈ list_ c → e_key e' = e_key e →
  cache_wf (with_list c (move_front it e' (list_ c)) (index_ c)).
Proof.
  intros Hok Hin Hk. unfold move_front. split; simpl.
  - apply NoDup_cons. split; [|apply NoDup_erase, (ok_nodes _ Hok)].
    intros (p & -> & [_ Hp]%elem_of_erase)%list_elem_of_fmap. done.
  - intros it1 e1 [[= -> ->]|[H1 _]%elem_of_erase]%elem_of_cons; eapply (ok_fresh _ Hok); eauto.
  - intros k it1. rewrite (ok_index _ Hok). split.
    + intros (e1 & H1 & <-). destruct (decide (it1 = it)) as [->|Hne].
      * exists e'. rewrite (nodes_unique c it e1 e); [|done..]. split; [set_solver|done].
      * exists e1. split; [|done]. apply elem_of_cons. right. by apply elem_of_erase.
    + intros (e1 & [[= -> ->]|[H1 _]%elem_of_erase]%elem_of_cons & <-); eauto.
Qed.

(** Dropping the last node is unlinking it by identity. *)
Lemma drop_last_erase l it e :
  NoDup l.*1 → last l = Some (it, e) → take (length l - 1) l = erase_node it l.
Proof.
  intros Hnd Hl. apply last_Some in Hl as [l' ->].
  rewrite fmap_app, NoDup_app in Hnd. destruct Hnd as (_ & Hd & _).
  rewrite length_app. simpl. rewrite Nat.add_sub, take_app_length.
  unfold erase_node. rewrite filter_app, filter_cons, decide_False by (simpl; tauto).
  rewrite filter_nil, app_nil_r. symmetry. apply filter_id. intros p Hp E.
  apply (Hd p.1); [apply list_elem_of_fmap; eauto|]. rewrite E. set_solver.
Qed.

Lemma evict_spec c :
  cache_wf c → (0 ≤ cache_capacity c)%Z →
  (Z.of_nat (length (list_ c)) ≤ cache_capacity c + 1)%Z →
  cache_ok (evict c) ∧ abs (evict c) = take (Z.to_nat (cache_capacity c)) (abs c).
Proof.
  intros Hok Hc Hl. unfold evict. rewrite (size_index c Hok).
  destruct (Z.ltb_spec (cache_capacity c) (Z.of_nat (length (list_ c)))) as [Hlt|Hge].
  - assert (length (list_ c) = S (Z.to_nat (cache_capacity c))) as Hlen by lia.
    destruct (last (list_ c)) as [[it e]|] eqn:Hlast.
    2: { apply last_None in Hlast. rewrite Hlast in Hlen. done. }
    pose proof Hlast as Hin. apply last_Some_elem_of in Hin.
    rewrite (drop_last_erase _ it e (ok_nodes _ Hok) Hlast). split.
    + split; [by apply erase_wf|]. simpl.
      pose proof (length_erase it e _ (ok_nodes _ Hok) Hin). lia.
    + unfold abs. simpl. rewrite <- (drop_last_erase _ it e (ok_nodes _ Hok) Hlast).
      rewrite <- fmap_take. do 2 f_equal. lia.
  - split; [by split|]. rewrite take_ge; [done|]. unfold abs. rewrite length_fmap. lia.
Qed.

Lemma cache_get_cfg now key c :
  cache_capacity (cache_get now key c).2 = cache_capacity c ∧
  cache_ttl (cache_get now key c).2 = cache_ttl c.
Proof.
  unfold cache_get. destruct (index_ c !! key); [|done]. destruct (deref _ _); [|done].
  by destruct (expired _ _ _).
Qed.

Lemma cache_put_cfg now key v c :
  cache_capacity (cache_put now key v c) = cache_capacity c ∧
  cache_ttl (cache_put now key v c) = cache_ttl c.
Proof.
  unfold cache_put, evict. destruct (index_ c !! key); [by destruct (deref _ _)|].
  destruct (_ <? _)%Z; [|done]. by destruct (last _).
Qed.

Lemma cache_get_refines now key c :
  cache_ok c →
  cache_ok (cache_get now key c).2 ∧
  (cache_get now key c).1 = (spec_get (expired c now) key (abs c)).1 ∧
  abs (cache_get now key c).2 = (spec_get (expired c now) key (abs c)).2.
Proof.
  intros [Hok Hsz]. unfold cache_get, spec_get. rewrite (lookup_key_abs c key Hok).
  destruct (index_ c !! key) as [it|] eqn:Hk; simpl; [|done].
  destruct (deref it (list_ c)) as [e|] eqn:Hd; simpl; [|done].
  apply (deref_Some _ _ _ (ok_nodes _ Hok)) in Hd.
  assert (e_key e = key) as Hek.
  { apply (ok_index _ Hok) in Hk as (e' & Hin & <-). by rewrite (nodes_unique c it e e'). }
  pose proof (length_erase it e _ (ok_nodes _ Hok) Hd) as Hlen.
  destruct (expired c now e); simpl; rewrite <- Hek; split_and!; try done.
  - split; [by apply erase_wf|]. simpl. lia.
  - unfold abs at 1. simpl. by apply erase_abs.
  - split; [by eapply move_front_wf|]. simpl. lia.
  - unfold abs at 1. simpl. f_equal. by apply erase_abs.
Qed.

Lemma remove_key_absent k es : k ∉ e_key <$> es → remove_key k es = es.
Proof.
  intros Hk. unfold remove_key. apply filter_id. intros e He E. apply Hk, list_elem_of_fmap. eauto.
Qed.

Lemma push_front_wf c k v now :
  cache_wf c → index_ c !! k = None →
  cache_wf (mkLRUCache (cache_capacity c) (cache_ttl c)
              ((next_node c, mkEntry k v now) :: list_ c)
              (<[k := next_node c]> (index_ c)) (S (next_node c))).
Proof.
  intros Hok Hk. split; simpl.
  - apply NoDup_cons. split; [|apply (ok_nodes _ Hok)].
    intros ([it e] & E & Hin)%list_elem_of_fmap. simpl in E. subst.
    pose proof (ok_fresh _ Hok _ _ Hin). lia.
  - intros it e [[= -> ->]|Hin]%elem_of_cons; [lia|]. pose proof (ok_fresh _ Hok _ _ Hin). lia.
  - intros k' it. rewrite lookup_insert. destruct (decide (k = k')) as [<-|Hne].
    + split; [intros [= <-]; exists (mkEntry k v now); split; [set_solver|done]|].
      intros (e & [[= -> ->]|Hin]%elem_of_cons & E); [done|].
      assert (index_ c !! k = Some it) by (apply (ok_index _ Hok); eauto). congruence.
    + rewrite (ok_index _ Hok). split; intros (e & Hin & E).
      * exists e. split; [set_solver|done].
      * apply elem_of_cons in Hin as [[= -> ->]|Hin]; [done|]. eauto.
Qed.

Lemma cache_put_refines now key v c :
  cache_ok c →
  cache_ok (cache_put now key v c) ∧
  abs (cache_put now key v c) = spec_put (Z.to_nat (cache_capacity c)) (mkEntry key v now) (abs c).
Proof.
  intros [Hok Hsz]. unfold cache_put, spec_put. simpl e_key.
  destruct (index_ c !! key) as [it|] eqn:Hk.
  - pose proof Hk as (e & Hin & Hek)%(ok_index _ Hok).
    rewrite (proj2 (deref_Some it _ e (ok_nodes _ Hok)) Hin).
    pose proof (length_erase it e _ (ok_nodes _ Hok) Hin) as Hlen.
    pose proof (erase_abs c it e Hok Hin) as Ha. rewrite Hek in *. split.
    + split; [by eapply move_front_wf|]. simpl. lia.
    + unfold abs at 1, move_front. cbn [list_ with_list]. rewrite fmap_cons, Ha.
      rewrite take_ge; [done|]. rewrite <- Ha. simpl. rewrite length_fmap. lia.
  - destruct (evict_spec _ (push_front_wf c key v now Hok Hk)) as [H1 H2]; simpl; [lia|lia|].
    split; [done|]. rewrite H2. simpl. rewrite remove_key_absent; [done|].
    apply lookup_key_None. by rewrite (lookup_key_abs c key Hok), Hk.
Qed.
End lru_facts.

(** ** Sequences of calls *)

Inductive cache_op (Value : Type) :=
  | OpGet (now : Z) (key : bytes)
  | OpPut (now : Z) (key : bytes) (value : Value)
  | OpInvalidate (key : bytes)
  | OpClear.
Arguments OpGet {Value} now key.
Arguments OpPut {Value} now key value.
Arguments OpInvalidate {Value} key.
Arguments OpClear {Value}.

Section lru_runs.
Context {Value : Type}.
Implicit Types (c : LRUCache Value) (es : list (Entry Value)) (ops : list (cache_op Value)).

(** One call: the answer (of a [get]) and the new cache. *)
Definition cache_step (c : LRUCache Value) (op : cache_op Value)
    : list (option Value) * LRUCache Value :=
  match op with
  | OpGet now key => let '(r, c') := cache_get now key c in ([r], c')
  | OpPut now key v => ([], cache_put now key v c)
  | OpInvalidate key => ([], invalidate key c)
  | OpClear => ([], cache_clear c)
  end.

Fixpoint cache_run (c : LRUCache Value) (ops : list (cache_op Value))
    : list (option Value) * LRUCache Value :=
  match ops with
  | [] => ([], c)
  | op :: ops' =>
      let '(r1, c1) := cache_step c op in
      let '(r2, c2) := cache_run c1 ops' in (r1 ++ r2, c2)
  end.

(** The same call on the specification, for a capacity and a time to live. *)
Definition spec_expired (ttl now : Z) (e : Entry Value) : bool :=
  (0 <? ttl)%Z && (ns_of_ms ttl <? now - insertedAt e)%Z.

Definition spec_step (capacity ttl : Z) (es : list (Entry Value)) (op : cache_op Value)
    : list (option Value) * list (Entry Value) :=
  match op with
  | OpGet now key => let '(r, es') := spec_get (spec_expired ttl now) key es in ([r], es')
  | OpPut now key v => ([], spec_put (Z.to_nat capacity) (mkEntry key v now) es)
  | OpInvalidate key => ([], remove_key key es)
  | OpClear => ([], [])
  end.

Fixpoint spec_run (capacity ttl : Z) (es : list (Entry Value)) (ops : list (cache_op Value))
    : list (option Value) * list (Entry Value) :=
  match ops with
  | [] => ([], es)
  | op :: ops' =>
      let '(r1, es1) := spec_step capacity ttl es op in
      let '(r2, es2) := spec_run capacity ttl es1 ops' in (r1 ++ r2, es2)
  end.

Lemma invalidate_refines key c :
  cache_ok c → cache_ok (invalidate key c) ∧ abs (invalidate key c) = remove_key key (abs c).
Proof.
  intros [Hok Hsz]. unfold invalidate. destruct (index_ c !! key) as [it|] eqn:Hk.
  - apply (ok_index _ Hok) in Hk as (e & Hin & <-).
    pose proof (length_erase it e _ (ok_nodes _ Hok) Hin). split.
    + split; [by apply erase_wf|]. simpl. lia.
    + unfold abs at 1. simpl. by apply erase_abs.
  - split; [done|]. rewrite remove_key_absent; [done|].
    apply lookup_key_None. by rewrite (lookup_key_abs c key Hok), Hk.
Qed.

Lemma new_cache_ok capacity ttl :
  (0 ≤ capacity)%Z → cache_ok (newLRUCache capacity ttl : LRUCache Value).
Proof.
  intros Hc. split; [|done]. split; simpl; [constructor|set_solver|].
  intros k it. rewrite lookup_empty. split; [done|]. intros (e & He & _). set_solver.
Qed.

Lemma cache_step_refines c op :
  cache_ok c →
  cache_ok (cache_step c op).2 ∧
  cache_capacity (cache_step c op).2 = cache_capacity c ∧
  cache_ttl (cache_step c op).2 = cache_ttl c ∧
  (cache_step c op).1 = (spec_step (cache_capacity c) (cache_ttl c) (abs c) op).1 ∧
  abs (cache_step c op).2 = (spec_step (cache_capacity c) (cache_ttl c) (abs c) op).2.
Proof.
  intros Hok. destruct op as [now key|now key v|key|]; simpl.
  - destruct (cache_get_refines now key c Hok) as (H1 & H2 & H3).
    destruct (cache_get_cfg now key c) as [H4 H5].
    change (expired c now) with (spec_expired (cache_ttl c) now) in *.
    destruct (cache_get now key c), (spec_get _ key (abs c)). simpl in *. split_and!; congruence.
  - destruct (cache_put_refines now key v c Hok). destruct (cache_put_cfg now key v c). done.
  - destruct (invalidate_refines key c Hok). split_and!; try done;
      unfold invalidate; by destruct (index_ c !! key).
  - split_and!; try done. destruct (new_cache_ok (cache_capacity c) (cache_ttl c)) as [[H1 H2 H3] _].
    { destruct Hok as [_ ?]. lia. }
    split; [split; [done|set_solver|done]|]. destruct Hok as [_ ?]. simpl. lia.
Qed.

Lemma cache_run_refines c ops :
  cache_ok c →
  cache_ok (cache_run c ops).2 ∧
  cache_capacity (cache_run c ops).2 = cache_capacity c ∧
  (cache_run c ops).1 = (spec_run (cache_capacity c) (cache_ttl c) (abs c) ops).1 ∧
  abs (cache_run c ops).2 = (spec_run (cache_capacity c) (cache_ttl c) (abs c) ops).2.
Proof.
  revert c. induction ops as [|op ops IH]; intros c Hok; [done|]. simpl.
  destruct (cache_step_refines c op Hok) as (Hok' & E1 & E2 & E3 & E4).
  destruct (cache_step c op) as [r1 c1], (spec_step _ _ (abs c) op) as [r1' es1]. simpl in *.
  destruct (IH c1 Hok') as (Hok2 & F1 & F3 & F4). rewrite E1, E2, E4 in *.
  destruct (cache_run c1 ops), (spec_run _ _ es1 ops). simpl in *. split_and!; congruence.
Qed.
End lru_runs.

(** C19: the cache implements its specification.  For every sequence of calls
    on a new cache, the list-and-index implementation gives the answers of the
    abstract bounded recency list with time to live, and holds the same
    entries in the same order. *)
Theorem lru_refines_spec {Value} (capacity ttl : Z) (ops : list (cache_op Value)) :
  (0 ≤ capacity)%Z →
  (cache_run (newLRUCache capacity ttl) ops).1 = (spec_run capacity ttl [] ops).1 ∧
  abs (cache_run (newLRUCache capacity ttl) ops).2 = (spec_run capacity ttl [] ops).2.
Proof.
  intros Hc. destruct (cache_run_refines (newLRUCache capacity ttl) ops) as (_ & _ & H);
    [by apply new_cache_ok|done].
Qed.

Lemma lru_refines_spec_witness :
  let ops := [OpPut 1 (str "a") 1; OpPut 2 (str "b") 2; OpGet 3 (str "a"); OpPut 4 (str "c") 3;
              OpGet 5 (str "b"); OpGet 6 (str "a"); OpGet 7 (str "c")]%Z in
  (cache_run (newLRUCache 2 0) ops).1 = [Some 1; None; Some 1; Some 3]%Z ∧
  (cache_run (newLRUCache 2 0) ops).1 = (spec_run 2 0 [] ops).1.
Proof.
  split; [vm_compute; reflexivity|].
  apply (lru_refines_spec 2 0
    [OpPut 1 (str "a") 1; OpPut 2 (str "b") 2; OpGet 3 (str "a"); OpPut 4 (str "c") 3;
     OpGet 5 (str "b"); OpGet 6 (str "a"); OpGet 7 (str "c")]%Z). lia.
Defined.

(** The two structures stay consistent and bounded.  After every sequence
    of calls, the cache holds at most [capacity] entries, the list and the
    index have the same size, every iterator of the index points at a live
    node that holds its key, and every node is reachable from the index: no
    dangling iterator is ever dereferenced and no node leaks. *)
Theorem lru_index_consistent {Value} (capacity ttl : Z) (ops : list (cache_op Value)) :
  (0 ≤ capacity)%Z →
  let c := (cache_run (newLRUCache capacity ttl) ops).2 in
  (cache_size c ≤ capacity)%Z ∧
  cache_size c = Z.of_nat (length (list_ c)) ∧
  (∀ k it, index_ c !! k = Some it → ∃ e, deref it (list_ c) = Some e ∧ e_key e = k) ∧
  (∀ it e, (it, e) ∈ list_ c → index_ c !! e_key e = Some it).
Proof.
  intros Hc c. destruct (cache_run_refines (newLRUCache capacity ttl) ops) as ((Hwf & Hsz) & Hcap & _);
    [by apply new_cache_ok|]. fold c in Hwf, Hsz, Hcap. simpl in Hcap. rewrite Hcap in Hsz.
  unfold cache_size. rewrite (size_index c Hwf). split_and!; [done|done| |].
  - intros k it (e & Hin & <-)%(ok_index _ Hwf). exists e. split; [|done].
    by apply (deref_Some _ _ _ (ok_nodes _ Hwf)).
  - intros it e Hin. apply (ok_index _ Hwf). eauto.
Qed.

Lemma lru_index_consistent_witness :
  (cache_size (cache_run (newLRUCache 1 0)
     [OpPut 1 (str "a") 1; OpPut 2 (str "b") 2]%Z).2 ≤ 1)%Z.
Proof.
  apply (lru_index_consistent 1 0 [OpPut 1 (str "a") 1; OpPut 2 (str "b") 2]%Z). lia.
Defined.

Lemma get_after_put {Value} (c : LRUCache Value) now now' key v :
  cache_ok c → (1 ≤ cache_capacity c)%Z →
  (cache_get now' key (cache_put now key v c)).1 =
    if (0 <? cache_ttl c)%Z && (ns_of_ms (cache_ttl c) <? now' - now)%Z then None else Some v.
Proof.
  intros Hok Hcap. destruct (cache_put_refines now key v c Hok) as [Hok' Habs].
  destruct (cache_get_refines now' key _ Hok') as (_ & -> & _). rewrite Habs. unfold spec_put.
  destruct (Z.to_nat (cache_capacity c)) as [|n] eqn:Hn; [lia|]. unfold spec_get. simpl.
  rewrite bool_decide_true by done. destruct (cache_put_cfg now key v c) as [_ E].
  unfold expired. rewrite E. simpl. by destruct (_ && _).
Qed.

(** What was put is what is got.  Right after a [put] into a cache of
    positive capacity, [get] of the same key returns the value as long as the
    time to live has not passed, and nothing once it has. *)
Theorem lru_get_after_put {Value} (c : LRUCache Value) now now' key v :
  cache_ok c → (1 ≤ cache_capacity c)%Z →
  (cache_get now' key (cache_put now key v c)).1 =
    if (0 <? cache_ttl c)%Z && (ns_of_ms (cache_ttl c) <? now' - now)%Z then None else Some v.
Proof. apply get_after_put. Qed.

Lemma lru_get_after_put_witness :
  (cache_get 30000000 (str "a") (cache_put 0 (str "a") 7%nat (newLRUCache 10 20))).1 = None ∧
  (cache_get 20000000 (str "a") (cache_put 0 (str "a") 7%nat (newLRUCache 10 20))).1 = Some 7%nat.
Proof.
  split.
  - apply (lru_get_after_put (newLRUCache 10 20) 0 30000000 (str "a") 7%nat);
      [apply new_cache_ok; lia|simpl; lia].
  - apply (lru_get_after_put (newLRUCache 10 20) 0 20000000 (str "a") 7%nat);
      [apply new_cache_ok; lia|simpl; lia].
Defined.

(** ** Recency

    The gateway's use of the cache: a lookup, and a [put] of the fetched value
    when it missed. *)

Definition cache_access {Value} (now : Z) (key : bytes) (fetched : Value) (c : LRUCache Value)
    : LRUCache Value :=
  match cache_get now key c with
  | (Some _, c') => c'
  | (None, c') => cache_put now key fetched c'
  end.

(** The keys of a sequence of accesses, most recent first, each once. *)
Definition recent_keys (ks : list bytes) : list bytes :=
  fold_left (λ acc k, k :: filter (λ x, x ≠ k) acc) ks [].

Lemma take_filter_one n (k : bytes) (l : list bytes) :
  NoDup l →
  take n (filter (λ x, x ≠ k) (take (S n) l)) = take n (filter (λ x, x ≠ k) l).
Proof.
  intros Hnd. revert n. induction l as [|x l IH]; intros n; [done|].
  apply NoDup_cons in Hnd as [Hx Hnd]. cbn [take]. rewrite !filter_cons.
  destruct (decide (x ≠ k)) as [Hne|Heq%dec_stable].
  - destruct n as [|n]; [done|]. cbn [take]. f_equal. by apply IH.
  - subst x. rewrite !filter_id; [by rewrite take_take, Nat.min_id| |].
    + intros y Hy ->. done.
    + intros y Hy ->. apply Hx. apply elem_of_take in Hy as (i & Hi & _).
      by eapply list_elem_of_lookup_2.
Qed.

Lemma take_cons_filter n (k : bytes) (l : list bytes) :
  NoDup l →
  take n (k :: filter (λ x, x ≠ k) (take n l)) = take n (k :: filter (λ x, x ≠ k) l).
Proof. intros Hnd. destruct n; [done|]. cbn [take]. f_equal. by apply take_filter_one. Qed.

Lemma keys_remove_key {Value} k (es : list (Entry Value)) :
  e_key <$> remove_key k es = filter (λ x, x ≠ k) (e_key <$> es).
Proof. unfold remove_key. by rewrite filter_fmap_compose. Qed.

Lemma access_keys {Value} now k (v : Value) c :
  cache_ok c → cache_ttl c = 0%Z →
  cache_ok (cache_access now k v c) ∧ cache_ttl (cache_access now k v c) = 0%Z ∧
  cache_capacity (cache_access now k v c) = cache_capacity c ∧
  e_key <$> abs (cache_access now k v c) =
    take (Z.to_nat (cache_capacity c)) (k :: filter (λ x, x ≠ k) (e_key <$> abs c)).
Proof.
  intros Hok Httl. unfold cache_access.
  destruct (cache_get_refines now k c Hok) as (Hok' & E1 & E2).
  destruct (cache_get_cfg now k c) as [C1 C2].
  unfold spec_get in E1, E2. unfold expired in E1, E2. rewrite Httl in *. simpl in E1, E2.
  destruct (cache_get now k c) as [[r|] c'] eqn:Hg; simpl in *.
  - destruct (lookup_key k (abs c)) as [e|] eqn:Hl; simplify_eq/=.
    apply lookup_key_Some in Hl as [Hin <-]. split_and!; [done|congruence|done|].
    rewrite E2. rewrite fmap_cons, keys_remove_key, take_ge; [done|].
    pose proof (proj2 Hok') as Hlen. rewrite C1 in Hlen.
    rewrite <- keys_remove_key. rewrite <- fmap_cons, <- E2. unfold abs. rewrite !length_fmap. lia.
  - destruct (lookup_key k (abs c)) as [e|] eqn:Hl; simplify_eq/=.
    destruct (cache_put_refines now k v c' Hok') as [Hok2 Habs].
    destruct (cache_put_cfg now k v c') as [D1 D2]. split_and!; [done|congruence|congruence|].
    rewrite Habs. unfold spec_put. rewrite fmap_take, fmap_cons, keys_remove_key. simpl. congruence.
Qed.

Lemma recent_keys_snoc ks k :
  recent_keys (ks ++ [k]) = k :: filter (λ x, x ≠ k) (recent_keys ks).
Proof. unfold recent_keys. by rewrite fold_left_app. Qed.

Lemma recent_keys_nodup ks : NoDup (recent_keys ks).
Proof.
  induction ks as [|k ks IH] using rev_ind; [constructor|]. rewrite recent_keys_snoc.
  apply NoDup_cons. split; [|by apply NoDup_filter]. intros [? _]%list_elem_of_filter. done.
Qed.

(** Least-recently-used eviction.  A cache without time to live that is
    used the way the gateway uses it holds, after any sequence of accesses,
    exactly the [capacity] most recently accessed distinct keys, in recency
    order. *)
Theorem lru_keeps_most_recent {Value} (capacity : Z) (accesses : list (Z * bytes * Value)) :
  (0 ≤ capacity)%Z →
  e_key <$> abs (fold_left (λ c a, cache_access a.1.1 a.1.2 a.2 c) accesses
                   (newLRUCache capacity 0)) =
  take (Z.to_nat capacity) (recent_keys ((λ a, a.1.2) <$> accesses)).
Proof.
  intros Hc.
  assert (∀ as_ : list (Z * bytes * Value),
    let c := fold_left (λ c a, cache_access a.1.1 a.1.2 a.2 c) as_ (newLRUCache capacity 0) in
    cache_ok c ∧ cache_ttl c = 0%Z ∧ cache_capacity c = capacity ∧
    e_key <$> abs c = take (Z.to_nat capacity) (recent_keys ((λ a, a.1.2) <$> as_))) as H.
  { intros as_ c. subst c. induction as_ as [|a as_ IH] using rev_ind.
    - split_and!; try done; [by apply new_cache_ok|]. by destruct (Z.to_nat capacity).
    - rewrite fold_left_app, fmap_app. cbn [fmap list_fmap fold_left]. rewrite recent_keys_snoc. destruct IH as (H1 & H2 & H3 & H4).
      destruct (access_keys a.1.1 a.1.2 a.2 _ H1 H2) as (G1 & G2 & G3 & G4).
      split_and!; [done|done|congruence|]. rewrite G4, H3, H4.
      apply take_cons_filter, recent_keys_nodup. }
  apply H.
Qed.

Lemma lru_keeps_most_recent_witness :
  e_key <$> abs (fold_left (λ c a, cache_access a.1.1 a.1.2 a.2 c)
    [(1, str "a", 0); (2, str "b", 0); (3, str "a", 0); (4, str "c", 0)]%Z (newLRUCache 2 0))
  = [str "c"; str "a"].
Proof.
  apply (lru_keeps_most_recent 2
    [(1, str "a", 0); (2, str "b", 0); (3, str "a", 0); (4, str "c", 0)]%Z). lia.
Defined.
