(* ===== verification/HttpMessage.v ===== *)
(** * HTTP messages (include/http/HttpRequest.hpp, include/http/HttpResponse.hpp)

    The request the parser fills in and the response the gateway builds and
    puts on the wire. *)
From S2P Require Import Prelude CxxString.

(** ** Requests *)

Record HttpRequest := mkHttpRequest {
  rq_method : bytes;
  rq_path : bytes;                  (* without the query string *)
  rq_query : bytes;
  rq_version : bytes;
  rq_headers : gmap bytes bytes;    (* lower-cased keys *)
  rq_body : bytes;
  rq_keepAlive : bool;
  rq_requestId : bytes              (* assigned by the gateway *)
}.

(** A default-constructed request. *)
Definition emptyRequest : HttpRequest := mkHttpRequest [] [] [] [] ∅ [] true [].

Definition set_requestId (r : HttpRequest) (id : bytes) : HttpRequest :=
  mkHttpRequest (rq_method r) (rq_path r) (rq_query r) (rq_version r) (rq_headers r)
    (rq_body r) (rq_keepAlive r) id.

Definition rq_header (r : HttpRequest) (lowerKey : bytes) : option bytes :=
  rq_headers r !! lowerKey.

(** The query part of a request target: absent when the query is empty. *)
Definition query_part (query : bytes) : bytes :=
  if decide (query = []) then [] else "?"%char :: query.

Definition cacheKey (r : HttpRequest) : bytes :=
  rq_method r ++ str " " ++ rq_path r ++ query_part (rq_query r).

(** ** Responses *)

Abbreviation header_list := (list (bytes * bytes)).

Record HttpResponse := mkHttpResponse {
  rs_statusCode : Z;
  rs_statusText : bytes;
  rs_headers : header_list;
  rs_body : bytes
}.

(** A default-constructed response. *)
Definition emptyResponse : HttpResponse := mkHttpResponse 200 (str "OK") [] [].

(** The loop of [setHeader]: the first header named [k] gets the value, or the
    header is appended. *)
Fixpoint set_header_list (k v : bytes) (hs : header_list) : header_list :=
  match hs with
  | [] => [(k, v)]
  | h :: hs' => if decide (h.1 = k) then (h.1, v) :: hs' else h :: set_header_list k v hs'
  end.

Definition setHeader (k v : bytes) (r : HttpResponse) : HttpResponse :=
  mkHttpResponse (rs_statusCode r) (rs_statusText r) (set_header_list k v (rs_headers r)) (rs_body r).

Definition make (code : Z) (text body : bytes) : HttpResponse := mkHttpResponse code text [] body.

Definition header_line (h : bytes * bytes) : bytes := h.1 ++ str ": " ++ h.2 ++ crlf.

Definition has_header (k : bytes) (hs : header_list) : bool := existsb (λ h, bool_decide (h.1 = k)) hs.

(** The two headers [serialize] adds unless the response carries them. *)
Definition framing_headers (keepAlive : bool) (r : HttpResponse) : header_list :=
  (if has_header (str "Content-Length") (rs_headers r) then []
   else [(str "Content-Length", to_string (size_of (rs_body r)))]) ++
  (if has_header (str "Connection") (rs_headers r) then []
   else [(str "Connection", if keepAlive then str "keep-alive" else str "close")]).

Definition serialize (keepAlive : bool) (r : HttpResponse) : bytes :=
  str "HTTP/1.1 " ++ to_string (rs_statusCode r) ++ str " " ++ rs_statusText r ++ crlf ++
  concat (header_line <$> (rs_headers r ++ framing_headers keepAlive r)) ++ crlf ++ rs_body r.

(** First value of a header, as a reader of the response sees it. *)
Definition get_header (k : bytes) (hs : header_list) : option bytes :=
  snd <$> List.find (λ h, bool_decide (h.1 = k)) hs.

(** ** Lemmas *)

Lemma get_set_header k v hs : get_header k (set_header_list k v hs) = Some v.
Proof.
  unfold get_header. induction hs as [|h hs IH]; simpl.
  - by rewrite bool_decide_true.
  - destruct (decide (h.1 = k)); simpl.
    + by rewrite bool_decide_true.
    + by rewrite bool_decide_false.
Qed.

(** Setting a header leaves the others alone, in their order. *)
Lemma filter_set_header (f : bytes → bool) k v hs :
  f k = false → filter (λ h : bytes * bytes, f h.1 = true) (set_header_list k v hs) = filter (λ h : bytes * bytes, f h.1 = true) hs.
Proof.
  intros Hk. assert (∀ v, ¬ f (k, v : bytes).1 = true) as Hn by (intros v'; cbn; congruence).
  induction hs as [|[k' v'] hs IH]; cbn [set_header_list fst].
  - by rewrite filter_cons_False by apply Hn.
  - destruct (decide (k' = k)) as [->|]; [by rewrite !filter_cons_False by apply Hn|]. by rewrite !filter_cons, IH.
Qed.

Lemma get_set_header_ne k k' v hs :
  k ≠ k' → get_header k' (set_header_list k v hs) = get_header k' hs.
Proof.
  intros Hne. unfold get_header. induction hs as [|h hs IH]; simpl.
  - by rewrite bool_decide_false.
  - destruct (decide (h.1 = k)) as [E|]; simpl.
    + rewrite !bool_decide_false by congruence. done.
    + by destruct (bool_decide (h.1 = k')).
Qed.

(** [setHeader] sets one header and only that one: it is found with the
    new value, every other header keeps its value, and the list of names
    changes only by appending the name when it was absent (an existing header
    is never duplicated). *)
Theorem set_header_spec k v r :
  get_header k (rs_headers (setHeader k v r)) = Some v ∧
  (∀ k', k ≠ k' → get_header k' (rs_headers (setHeader k v r)) = get_header k' (rs_headers r)) ∧
  (rs_headers (setHeader k v r)).*1 =
    (rs_headers r).*1 ++ (if has_header k (rs_headers r) then [] else [k]).
Proof.
  split_and!; [apply get_set_header|intros; by apply get_set_header_ne|].
  simpl. induction (rs_headers r) as [|h hs IH]; simpl; [done|].
  destruct (decide (h.1 = k)) as [E|E]; simpl.
  - rewrite bool_decide_true by done. simpl. by rewrite app_nil_r.
  - rewrite bool_decide_false by done. simpl. f_equal. apply IH.
Qed.

(** What the request parser guarantees about a request it completes, as far
    as the cache key is concerned (discharged in HttpParserSafety.v). *)
Class KeyableRequest (r : HttpRequest) : Prop := {
  key_method : SP ∉ rq_method r;
  key_path : "?"%char ∉ rq_path r
}.

(** The cache key identifies the request line.  Two parsed requests with
    the same cache key have the same method, path and query, so no response
    is ever served from the cache for a different target or method. *)
Theorem cache_key_injective r1 r2 `{!KeyableRequest r1, !KeyableRequest r2} :
  cacheKey r1 = cacheKey r2 →
  rq_method r1 = rq_method r2 ∧ rq_path r1 = rq_path r2 ∧ rq_query r1 = rq_query r2.
Proof.
  destruct KeyableRequest0 as [M1 P1], KeyableRequest1 as [M2 P2]. unfold cacheKey. intros E.
  assert (∀ (c : ascii) a b x y, c ∉ a → c ∉ b → a ++ c :: x = b ++ c :: y → a = b ∧ x = y) as Hcut.
  { clear. intros c a. induction a as [|d a IH]; intros [|d' b] x y Ha Hb E; simplify_eq/=.
    - done.
    - set_solver.
    - set_solver.
    - destruct (IH b x y) as [-> ->]; [set_solver..|done|done]. }
  destruct (Hcut SP _ _ _ _ M1 M2 E) as [Em Er]. split; [done|]. clear E.
  unfold query_part in Er.
  destruct (decide (rq_query r1 = [])) as [Q1|Q1], (decide (rq_query r2 = [])) as [Q2|Q2].
  - rewrite !app_nil_r in Er. split; congruence.
  - rewrite app_nil_r in Er. exfalso. apply P1. rewrite Er. set_solver.
  - rewrite app_nil_r in Er. exfalso. apply P2. rewrite <- Er. set_solver.
  - by destruct (Hcut _ _ _ _ _ P1 P2 Er).
Qed.

Lemma cache_key_injective_witness :
  let r1 := mkHttpRequest (str "GET") (str "/a") (str "x=1") (str "HTTP/1.1") ∅ [] true (str "req-1") in
  let r2 := mkHttpRequest (str "GET") (str "/a") (str "x=1") (str "HTTP/1.0") ∅ (str "b") false [] in
  cacheKey r1 = str "GET /a?x=1" ∧ rq_path r1 = rq_path r2.
Proof.
  intros r1 r2. split; [reflexivity|].
  assert (KeyableRequest r1) by (split; by_decide).
  assert (KeyableRequest r2) by (split; by_decide).
  exact (proj1 (proj2 (cache_key_injective r1 r2 eq_refl))).
Defined.
