(* ===== verification/HttpParser.v ===== *)
(** * Incremental HTTP/1.1 request parser
      (include/http/HttpParser.hpp, src/http/HttpParser.cpp)

    The parser object is a record; its methods are state-and-exception
    actions: a [throw] keeps the assignments made before it, and [parse]
    catches it.  A [size_t&] position is passed in and returned.  The header
    loop carries fuel; [parse] supplies one more than the buffer's length,
    which is proved enough ([parse_never_out_of_fuel]). *)
From S2P Require Import Prelude CxxString HttpMessage.

Inductive ParseStatus := Incomplete | Complete | Error.
#[global] Instance ParseStatus_eq_dec : EqDecision ParseStatus.
Proof. solve_decision. Defined.

Inductive State := RequestLine | Headers | Body | Done.
#[global] Instance State_eq_dec : EqDecision State.
Proof. solve_decision. Defined.

Record HttpParser := mkHttpParser {
  buffer_ : bytes;
  state_ : State;
  method_ : bytes;
  path_ : bytes;
  query_ : bytes;
  version_ : bytes;
  headers_ : gmap bytes bytes;
  contentLength_ : Z;
  chunked_ : bool;
  headerCount_ : Z;
  consumed_ : nat
}.

Definition newHttpParser : HttpParser :=
  mkHttpParser [] RequestLine [] [] [] [] ∅ 0 false 0 0.

Definition kMaxRequestLineLen : Z := 8192.
Definition kMaxHeaderBytes : Z := 32768.
Definition kMaxHeaderCount : Z := 100.
Definition kMaxBodyBytes : Z := 10 * 1024 * 1024.

(** The messages of the [runtime_error]s the parser throws; [OutOfFuel] is the
    model's own. *)
Inductive parse_error :=
  | RequestLineTooLong | MalformedRequestLine | UnsupportedVersion | InvalidMethod
  | InvalidTarget | HeadersTooLarge | MalformedHeader | InvalidHeader | TooManyHeaders
  | DuplicateFramingHeader | InvalidContentLength | BodyTooLarge | AmbiguousFraming
  | ChunkedUnsupported | OutOfFuel.
#[global] Instance parse_error_eq_dec : EqDecision parse_error.
Proof. solve_decision. Defined.

Abbreviation P := (ST HttpParser parse_error).

(** ** Assignments to the parser's members *)

Definition append (data : bytes) (p : HttpParser) : HttpParser :=
  mkHttpParser (buffer_ p ++ data) (state_ p) (method_ p) (path_ p) (query_ p) (version_ p)
    (headers_ p) (contentLength_ p) (chunked_ p) (headerCount_ p) (consumed_ p).

Definition reset (p : HttpParser) : HttpParser :=
  mkHttpParser [] RequestLine (method_ p) (path_ p) (query_ p) (version_ p)
    ∅ (contentLength_ p) (chunked_ p) 0 0.

Definition bufferedBytes (p : HttpParser) : Z := size_of (buffer_ p).

Definition set_line (method version : bytes) (p : HttpParser) : HttpParser :=
  mkHttpParser (buffer_ p) (state_ p) method (path_ p) (query_ p) version
    (headers_ p) (contentLength_ p) (chunked_ p) (headerCount_ p) (consumed_ p).

Definition set_target (path query : bytes) (p : HttpParser) : HttpParser :=
  mkHttpParser (buffer_ p) (state_ p) (method_ p) path query (version_ p)
    (headers_ p) (contentLength_ p) (chunked_ p) (headerCount_ p) (consumed_ p).

Definition count_header (p : HttpParser) : HttpParser :=
  mkHttpParser (buffer_ p) (state_ p) (method_ p) (path_ p) (query_ p) (version_ p)
    (headers_ p) (contentLength_ p) (chunked_ p) (u64 (headerCount_ p + 1)) (consumed_ p).

Definition store_header (key value : bytes) (p : HttpParser) : HttpParser :=
  mkHttpParser (buffer_ p) (state_ p) (method_ p) (path_ p) (query_ p) (version_ p)
    (<[key := value]> (headers_ p)) (contentLength_ p) (chunked_ p) (headerCount_ p) (consumed_ p).

Definition set_consumed (pos : nat) (p : HttpParser) : HttpParser :=
  mkHttpParser (buffer_ p) (state_ p) (method_ p) (path_ p) (query_ p) (version_ p)
    (headers_ p) (contentLength_ p) (chunked_ p) (headerCount_ p) pos.

Definition set_state (st : State) (p : HttpParser) : HttpParser :=
  mkHttpParser (buffer_ p) st (method_ p) (path_ p) (query_ p) (version_ p)
    (headers_ p) (contentLength_ p) (chunked_ p) (headerCount_ p) (consumed_ p).

Definition set_contentLength (n : Z) (p : HttpParser) : HttpParser :=
  mkHttpParser (buffer_ p) (state_ p) (method_ p) (path_ p) (query_ p) (version_ p)
    (headers_ p) n (chunked_ p) (headerCount_ p) (consumed_ p).

Definition set_chunked (b : bool) (p : HttpParser) : HttpParser :=
  mkHttpParser (buffer_ p) (state_ p) (method_ p) (path_ p) (query_ p) (version_ p)
    (headers_ p) (contentLength_ p) b (headerCount_ p) (consumed_ p).

(** ** Helpers *)

(** [trim]: when only characters of the second set are left, [b] is [npos] and
    [b - a + 1] wraps around. *)
Definition trim (s : bytes) : bytes :=
  match find_first_not_of [SP; HT] s with
  | None => []
  | Some a =>
      let b := npos_of (find_last_not_of [SP; HT; CR] s) in
      substrZ s a (u64 (b - Z.of_nat a + 1))
  end.

Definition method_char (c : ascii) : bool :=
  isupper c || isdigit c || bool_decide (c = "-"%char) || bool_decide (c = "_"%char).

(** Lines 31-60 of [parseRequestLine]: what is done with the line. *)
Definition read_request_line (line : bytes) : P unit :=
  match find_char SP line, rfind_char SP line with
  | Some sp1, Some sp2 =>
      if decide (sp1 = sp2) then throw MalformedRequestLine
      else
        let method := substr line 0 sp1 in
        let target := substr line (sp1 + 1) (sp2 - sp1 - 1) in
        let version := drop (sp2 + 1) line in
        modify (set_line method version);;
        guard_throw (negb (bool_decide (version = str "HTTP/1.1")) &&
                     negb (bool_decide (version = str "HTTP/1.0"))) UnsupportedVersion;;
        guard_throw (bool_decide (method = []) || negb (forallb method_char method)) InvalidMethod;;
        guard_throw (negb (bool_decide (head target = Some "/"%char)) ||
                     bool_decide (is_Some (find_first_of [CR; LF] target))) InvalidTarget;;
        match find_char "?"%char target with
        | None => modify (set_target target [])
        | Some q =>
            let path := substr target 0 q in
            modify (set_target (if decide (path = []) then str "/" else path)
                      (drop (q + 1) target))
        end
  | _, _ => throw MalformedRequestLine
  end.

Definition parseRequestLine (pos : nat) : P (option nat) :=
  p ← get;
  match find_from crlf (buffer_ p) pos with
  | None =>
      if (kMaxRequestLineLen <? size_of (buffer_ p))%Z then throw RequestLineTooLong
      else mret None
  | Some eol =>
      read_request_line (substr (buffer_ p) pos (eol - pos));;
      mret (Some (eol + 2))
  end.

Definition framing_header (key : bytes) : bool :=
  bool_decide (key = str "content-length") || bool_decide (key = str "transfer-encoding") ||
  bool_decide (key = str "host").

(** Lines 77-91 of [parseHeaders]: what is done with one header line. *)
Definition read_header_line (line : bytes) : P unit :=
  match find_char ":"%char line with
  | None => throw MalformedHeader
  | Some colon =>
      let key := to_lower (trim (substr line 0 colon)) in
      let value := trim (drop (colon + 1) line) in
      guard_throw (bool_decide (key = []) ||
                   bool_decide (is_Some (find_first_of [SP; HT; CR; LF] key)) ||
                   bool_decide (is_Some (find_first_of [CR; LF] value))) InvalidHeader;;
      modify count_header;;
      p ← get;
      guard_throw (kMaxHeaderCount <? headerCount_ p)%Z TooManyHeaders;;
      guard_throw (bool_decide (is_Some (headers_ p !! key)) && framing_header key)
        DuplicateFramingHeader;;
      modify (store_header key value)
  end.

Fixpoint parseHeaders (fuel : nat) (pos : nat) : P (option nat) :=
  match fuel with
  | O => throw OutOfFuel
  | S fuel' =>
      p ← get;
      match find_from crlf (buffer_ p) pos with
      | None =>
          if (kMaxHeaderBytes <? size_of (buffer_ p) -u Z.of_nat pos)%Z then throw HeadersTooLarge
          else mret None
      | Some eol =>
          if decide (eol = pos) then mret (Some (eol + 2))
          else
            read_header_line (substr (buffer_ p) pos (eol - pos));;
            modify (set_consumed (eol + 2));;
            parseHeaders fuel' (eol + 2)
      end
  end.

(** Lines 111-127 of [parse]: message framing, once the headers are read. *)
Definition read_framing : P unit :=
  p ← get;
  let cl := headers_ p !! str "content-length" in
  let te := headers_ p !! str "transfer-encoding" in
  match cl with
  | None => mret tt
  | Some v =>
      match parse_size v with
      | None => throw InvalidContentLength
      | Some n =>
          modify (set_contentLength n);;
          guard_throw (kMaxBodyBytes <? n)%Z BodyTooLarge
      end
  end;;
  let chunked :=
    match te with Some v => contains (str "chunked") (to_lower v) | None => false end in
  modify (set_chunked chunked);;
  guard_throw (bool_decide (is_Some te) && bool_decide (is_Some cl)) AmbiguousFraming;;
  guard_throw chunked ChunkedUnsupported;;
  modify (set_state Body).

(** Lines 101-105: [false] is an early return of [Incomplete]. *)
Definition line_phase : P bool :=
  p ← get;
  if decide (state_ p = RequestLine) then
    r ← parseRequestLine 0;
    match r with
    | None => mret false
    | Some pos => modify (set_state Headers);; modify (set_consumed pos);; mret true
    end
  else mret true.

(** Lines 106-128. *)
Definition headers_phase : P bool :=
  p ← get;
  if decide (state_ p = Headers) then
    r ← parseHeaders (S (length (buffer_ p))) (consumed_ p);
    match r with
    | None => mret false
    | Some pos => modify (set_consumed pos);; read_framing;; mret true
    end
  else mret true.

(** Lines 129-133: the body, [None] when it has not arrived yet. *)
Definition body_phase (out : HttpRequest) : P (option bytes) :=
  p ← get;
  if decide (state_ p = Body) then
    if (size_of (buffer_ p) -u Z.of_nat (consumed_ p) <? contentLength_ p)%Z then mret None
    else
      modify (set_consumed (consumed_ p + Z.to_nat (contentLength_ p)));;
      mret (Some (substrZ (buffer_ p) (consumed_ p) (contentLength_ p)))
  else mret (Some (rq_body out)).

(** Lines 135-146: the completed request. *)
Definition emit (out : HttpRequest) (body : bytes) (p : HttpParser) : HttpRequest :=
  mkHttpRequest (method_ p) (path_ p) (query_ p) (version_ p) (headers_ p) body
    (match headers_ p !! str "connection" with
     | Some v => negb (bool_decide (to_lower v = str "close"))
     | None => bool_decide (version_ p = str "HTTP/1.1")
     end)
    (rq_requestId out).

(** Lines 149-156: consumed bytes leave the buffer, progress is cleared. *)
Definition recycle (p : HttpParser) : HttpParser :=
  mkHttpParser (drop (consumed_ p) (buffer_ p)) RequestLine [] [] [] [] ∅ 0 false 0 0.

Definition parse_try (out : HttpRequest) : P (ParseStatus * HttpRequest) :=
  line ← line_phase;
  if line : bool then
    hdrs ← headers_phase;
    if hdrs : bool then
      ob ← body_phase out;
      match ob with
      | None => mret (Incomplete, out)
      | Some body =>
          p ← get;
          modify recycle;;
          mret (Complete, emit out body p)
      end
    else mret (Incomplete, out)
  else mret (Incomplete, out).

(** [parse]: any exception becomes [Error]. *)
Definition parse (out : HttpRequest) (p : HttpParser) : ParseStatus * HttpRequest * HttpParser :=
  match parse_try out p with
  | (inr (st, r), p') => (st, r, p')
  | (inl _, p') => (Error, out, p')
  end.

(** ** Unfolding the monad *)

Ltac st_unfold :=
  unfold guard_throw, mbind, st_bind, mret, st_ret, throw, get, modify in *.

(** An action that neither reads nor writes the buffer commutes with
    [append]. *)
Definition oblivious {A} (m : P A) : Prop :=
  ∀ d p, m (append d p) = ((m p).1, append d (m p).2).

Lemma oblivious_ret {A} (a : A) : oblivious (mret a).
Proof. by intros d p. Qed.

Lemma oblivious_throw {A} e : oblivious (throw e : P A).
Proof. by intros d p. Qed.

Lemma oblivious_modify f : (∀ d p, f (append d p) = append d (f p)) → oblivious (modify f).
Proof. intros Hf d p. simpl. by rewrite Hf. Qed.

Lemma oblivious_guard b e : oblivious (guard_throw b e).
Proof. unfold guard_throw. destruct b; [apply oblivious_throw|apply oblivious_ret]. Qed.

Lemma oblivious_bind {A B} (m : P A) (k : A → P B) :
  oblivious m → (∀ a, oblivious (k a)) → oblivious (m ≫= k).
Proof.
  intros Hm Hk d p. unfold mbind, st_bind. rewrite Hm.
  destruct (m p) as [[e|a] p']; simpl; [done|]. apply Hk.
Qed.

(** Reading members other than the buffer. *)
Lemma oblivious_get {A} (k : HttpParser → P A) :
  (∀ q d p, k (append d q) p = k q p) → (∀ q, oblivious (k q)) → oblivious (get ≫= k).
Proof. intros Hq Hk d p. unfold mbind, st_bind, get. rewrite Hq. apply Hk. Qed.

Create HintDb oblivious.
#[export] Hint Resolve oblivious_ret oblivious_throw oblivious_guard : oblivious.

Ltac oblivious :=
  cbv zeta;
  repeat lazymatch goal with
    | |- oblivious (mret _) => apply oblivious_ret
    | |- oblivious (throw _) => apply oblivious_throw
    | |- oblivious (guard_throw _ _) => apply oblivious_guard
    | |- oblivious (modify _) => apply oblivious_modify; intros ? ?; reflexivity
    | |- oblivious (get ≫= _) => apply oblivious_get; [intros ? ? ?; reflexivity|intros ?]
    | |- oblivious (_ ≫= _) => apply oblivious_bind; [|intros ?]
    | |- oblivious (match ?x with _ => _ end) => destruct x
    end.

Lemma read_request_line_oblivious line : oblivious (read_request_line line).
Proof. unfold read_request_line. oblivious. Qed.

Lemma read_header_line_oblivious line : oblivious (read_header_line line).
Proof. unfold read_header_line. oblivious. Qed.

Lemma read_framing_oblivious : oblivious read_framing.
Proof. unfold read_framing. oblivious. Qed.

(** Actions that leave the buffer as it is. *)
Definition keeps_buffer {A} (m : P A) : Prop := ∀ p, buffer_ (m p).2 = buffer_ p.

Lemma keeps_buffer_bind {A B} (m : P A) (k : A → P B) :
  keeps_buffer m → (∀ a, keeps_buffer (k a)) → keeps_buffer (m ≫= k).
Proof.
  intros Hm Hk p. unfold mbind, st_bind. specialize (Hm p).
  destruct (m p) as [[e|a] p']; simpl in *; [done|]. by rewrite Hk.
Qed.

Ltac keeps_buffer :=
  cbv zeta;
  repeat lazymatch goal with
    | |- keeps_buffer (mret _) => intros ?; reflexivity
    | |- keeps_buffer (throw _) => intros ?; reflexivity
    | |- keeps_buffer get => intros ?; reflexivity
    | |- keeps_buffer (guard_throw ?b _) => destruct b; intros ?; reflexivity
    | |- keeps_buffer (modify _) => intros ?; reflexivity
    | |- keeps_buffer (_ ≫= _) => apply keeps_buffer_bind; [|intros ?]
    | |- keeps_buffer (match ?x with _ => _ end) => destruct x
    end.

Lemma read_request_line_buffer line : keeps_buffer (read_request_line line).
Proof. unfold read_request_line. keeps_buffer. Qed.

Lemma read_header_line_buffer line : keeps_buffer (read_header_line line).
Proof. unfold read_header_line. keeps_buffer. Qed.

Lemma read_framing_buffer : keeps_buffer read_framing.
Proof. unfold read_framing. keeps_buffer. Qed.

Lemma parseHeaders_buffer fuel pos : keeps_buffer (parseHeaders fuel pos).
Proof.
  revert pos. induction fuel as [|f IH]; intros pos; simpl; keeps_buffer;
    [apply read_header_line_buffer|apply IH].
Qed.

(** The exceptions an action can raise. *)
Definition throws {A} (Q : parse_error → Prop) (m : P A) : Prop :=
  ∀ p e, (m p).1 = inl e → Q e.

Lemma throws_bind {A B} Q (m : P A) (k : A → P B) :
  throws Q m → (∀ a, throws Q (k a)) → throws Q (m ≫= k).
Proof.
  intros Hm Hk p e. unfold mbind, st_bind. specialize (Hm p).
  destruct (m p) as [[e'|a] p']; simpl in *; [intros [= ->]; by apply Hm|apply Hk].
Qed.

Ltac throws :=
  cbv zeta;
  repeat lazymatch goal with
    | |- throws _ (mret _) => by intros ? ?
    | |- throws _ get => by intros ? ?
    | |- throws _ (modify _) => by intros ? ?
    | |- throws _ (throw _) => by intros ? ? [= <-]
    | |- throws _ (guard_throw ?b _) => destruct b; [by intros ? ? [= <-]|by intros ? ?]
    | |- throws _ (_ ≫= _) => apply throws_bind; [|intros ?]
    | |- throws _ (match ?x with _ => _ end) => destruct x
    end.

(** A malformed line is an error whatever follows it: none of the errors on a
    line is a size limit or the model's fuel. *)
Definition line_error (e : parse_error) : Prop :=
  e ≠ OutOfFuel ∧ e ≠ RequestLineTooLong ∧ e ≠ HeadersTooLarge.

Lemma read_request_line_throws line : throws line_error (read_request_line line).
Proof. unfold read_request_line. throws. Qed.

Lemma read_header_line_throws line : throws line_error (read_header_line line).
Proof. unfold read_header_line. throws. Qed.

Lemma read_framing_throws : throws line_error read_framing.
Proof. unfold read_framing. throws. Qed.

(** ** The header loop *)

(** Enough fuel to read the rest of the buffer. *)
Definition enough (fuel pos : nat) (p : HttpParser) : Prop :=
  S (length (buffer_ p)) ≤ fuel + pos ∧ 0 < fuel.

Lemma parseHeaders_unfold f pos p :
  parseHeaders (S f) pos p =
  match find_from crlf (buffer_ p) pos with
  | None =>
      if (kMaxHeaderBytes <? size_of (buffer_ p) -u Z.of_nat pos)%Z
      then (inl HeadersTooLarge, p) else (inr None, p)
  | Some eol =>
      if decide (eol = pos) then (inr (Some (eol + 2)), p)
      else
        match read_header_line (substr (buffer_ p) pos (eol - pos)) p with
        | (inl e, p') => (inl e, p')
        | (inr _, p') => parseHeaders f (eol + 2) (set_consumed (eol + 2) p')
        end
  end.
Proof.
  simpl. unfold mbind at 1, st_bind at 1, get. destruct (find_from _ _ _) as [eol|].
  - destruct (decide _); [done|]. unfold mbind, st_bind.
    by destruct (read_header_line _ p) as [[e|[]] p'].
  - by destruct (_ <? _)%Z.
Qed.

Lemma enough_next f pos p p' eol :
  enough (S f) pos p → find_from crlf (buffer_ p) pos = Some eol → eol ≠ pos →
  buffer_ p' = buffer_ p → enough f (eol + 2) (set_consumed (eol + 2) p').
Proof.
  intros [H1 H2] (Hp & Hl & _)%find_from_Some Hne Hb. unfold enough. simpl. rewrite Hb.
  change (length crlf) with 2 in Hl. lia.
Qed.

Lemma parseHeaders_fuel f1 f2 pos p :
  enough f1 pos p → enough f2 pos p → parseHeaders f1 pos p = parseHeaders f2 pos p.
Proof.
  revert f2 pos p. induction f1 as [|f1 IH]; intros f2 pos p E1 E2; [by destruct E1; lia|].
  destruct f2 as [|f2]; [by destruct E2; lia|]. rewrite !parseHeaders_unfold.
  destruct (find_from _ _ _) as [eol|] eqn:Hf; [|done]. destruct (decide _) as [|Hne]; [done|].
  pose proof (read_header_line_buffer (substr (buffer_ p) pos (eol - pos)) p) as Hb.
  destruct (read_header_line _ p) as [[e|[]] p'] eqn:Hr; [done|]. simpl in Hb.
  apply IH; by eapply enough_next.
Qed.

Lemma parseHeaders_no_fuel_error f pos p p' :
  enough f pos p → parseHeaders f pos p ≠ (inl OutOfFuel, p').
Proof.
  revert pos p. induction f as [|f IH]; intros pos p E; [by destruct E; lia|].
  rewrite parseHeaders_unfold. destruct (find_from _ _ _) as [eol|] eqn:Hf; [|by case_if].
  destruct (decide _) as [|Hne]; [done|].
  pose proof (read_header_line_buffer (substr (buffer_ p) pos (eol - pos)) p) as Hb.
  pose proof (read_header_line_throws (substr (buffer_ p) pos (eol - pos)) p) as Ht.
  destruct (read_header_line _ p) as [[e|[]] q] eqn:Hr; simpl in Hb, Ht.
  - intros [= -> ->]. by destruct (Ht OutOfFuel eq_refl).
  - apply IH. by eapply enough_next.
Qed.

(** ** Framing *)

(** Members the framing step leaves alone. *)
Definition same_line_and_headers (p q : HttpParser) : Prop :=
  buffer_ q = buffer_ p ∧ method_ q = method_ p ∧ path_ q = path_ p ∧ query_ q = query_ p ∧
  version_ q = version_ p ∧ headers_ q = headers_ p ∧ consumed_ q = consumed_ p ∧
  headerCount_ q = headerCount_ p.

(** What the framing step checked when it succeeds. *)
Definition framing_checked (p q : HttpParser) : Prop :=
  match headers_ p !! str "content-length" with
  | None => contentLength_ q = contentLength_ p
  | Some v =>
      parse_size v = Some (contentLength_ q) ∧ (contentLength_ q ≤ kMaxBodyBytes)%Z ∧
      headers_ p !! str "transfer-encoding" = None
  end ∧
  (∀ v, headers_ p !! str "transfer-encoding" = Some v →
        contains (str "chunked") (to_lower v) = false).

Lemma read_framing_ok p r q :
  read_framing p = (inr r, q) →
  state_ q = Body ∧ same_line_and_headers p q ∧ framing_checked p q.
Proof.
  unfold read_framing, framing_checked. cbv zeta.
  unfold mbind, st_bind, guard_throw, modify, get, mret, st_ret, throw.
  set (cl := headers_ p !! str "content-length"). set (te := headers_ p !! str "transfer-encoding").
  destruct cl as [v|].
  - destruct (parse_size v) as [n|]; [|done]. destruct (Z.ltb_spec kMaxBodyBytes n); [done|].
    destruct te as [w|]; simpl; [done|]. intros [= <- <-]. done.
  - rewrite andb_false_r. destruct te as [w|]; simpl.
    + destruct (contains _ _) eqn:Hc; [done|]. intros [= <- <-]. split_and!; try done.
      by intros ? [= <-].
    + intros [= <- <-]. done.
Qed.
