(* ===== verification/HttpParserResume.v ===== *)
(** * Resumption of the request parser

    Bytes arrive in chunks of any size and [parse] is called after each one.
    These theorems state that the fragmentation does not matter: an
    incomplete parse resumed with more bytes gives what one parse of all the
    bytes gives, and a decided parse is not changed by bytes that follow.  The
    exception is the refusal of a line over its limit, which the parser tests
    only while the line has not ended. *)
From S2P Require Import Prelude CxxString HttpMessage HttpParser.

Lemma substr_app_stable (s d : bytes) pos n :
  pos + n ≤ length s → substr (s ++ d) pos n = substr s pos n.
Proof.
  intros H. unfold substr. rewrite drop_app_le by lia.
  rewrite take_app_le; [done|]. rewrite length_drop. lia.
Qed.

Lemma append_append d d' p : append d' (append d p) = append (d ++ d') p.
Proof. unfold append. simpl. by rewrite app_assoc. Qed.

(** ** The request line *)

Lemma parseRequestLine_unfold pos p :
  parseRequestLine pos p =
  match find_from crlf (buffer_ p) pos with
  | None =>
      if (kMaxRequestLineLen <? size_of (buffer_ p))%Z
      then (inl RequestLineTooLong, p) else (inr None, p)
  | Some eol =>
      match read_request_line (substr (buffer_ p) pos (eol - pos)) p with
      | (inl e, p') => (inl e, p')
      | (inr _, p') => (inr (Some (eol + 2)), p')
      end
  end.
Proof.
  unfold parseRequestLine, mbind, st_bind, get. destruct (find_from _ _ _).
  - by destruct (read_request_line _ p) as [[|[]] ?].
  - by destruct (_ <? _)%Z.
Qed.

Lemma parseRequestLine_stable pos p d r p' :
  parseRequestLine pos p = (r, p') → r ≠ inr None → r ≠ inl RequestLineTooLong →
  parseRequestLine pos (append d p) = (r, append d p').
Proof.
  rewrite !parseRequestLine_unfold. destruct (find_from crlf (buffer_ p) pos) as [eol|] eqn:Hf.
  - intros Hr _ _. simpl buffer_ at 1. rewrite (find_from_stable _ _ d _ _ Hf).
    destruct (find_from_Some _ _ _ _ Hf) as (H1 & H2 & _).
    simpl buffer_. rewrite substr_app_stable by lia.
    rewrite (read_request_line_oblivious _ d p).
    destruct (read_request_line _ p) as [[e|[]] q]; simpl in *; congruence.
  - case_if; intros [= <- <-]; done.
Qed.

(** ** The headers *)

Lemma parseHeaders_step f pos p d eol :
  find_from crlf (buffer_ p) pos = Some eol →
  parseHeaders (S f) pos (append d p) =
    if decide (eol = pos) then (inr (Some (eol + 2)), append d p)
    else
      match read_header_line (substr (buffer_ p) pos (eol - pos)) p with
      | (inl e, p') => (inl e, append d p')
      | (inr _, p') => parseHeaders f (eol + 2) (append d (set_consumed (eol + 2) p'))
      end.
Proof.
  intros Hf. rewrite parseHeaders_unfold. simpl buffer_ at 1.
  rewrite (find_from_stable _ _ d _ _ Hf). destruct (decide _); [done|].
  destruct (find_from_Some _ _ _ _ Hf) as (H1 & H2 & _).
  simpl buffer_. rewrite substr_app_stable by lia. rewrite (read_header_line_oblivious _ d p).
  by destruct (read_header_line _ p) as [[e|[]] q].
Qed.

Lemma enough_next_append f pos p p' d eol :
  enough (S f) pos (append d p) → find_from crlf (buffer_ p) pos = Some eol → eol ≠ pos →
  buffer_ p' = buffer_ p → enough f (eol + 2) (append d (set_consumed (eol + 2) p')).
Proof.
  intros [H1 H2] (Hp & Hl & _)%find_from_Some Hne Hb. unfold enough in *. simpl in *. rewrite Hb.
  rewrite length_app in *. change (length crlf) with 2 in Hl. lia.
Qed.

Lemma parseHeaders_stable f f' pos p d r p' :
  enough f pos p → enough f' pos (append d p) →
  parseHeaders f pos p = (r, p') → r ≠ inr None → r ≠ inl HeadersTooLarge →
  parseHeaders f' pos (append d p) = (r, append d p').
Proof.
  revert f' pos p. induction f as [|f IH]; intros f' pos p E1 E2; [by destruct E1; lia|].
  destruct f' as [|f']; [by destruct E2; lia|].
  rewrite parseHeaders_unfold. destruct (find_from crlf (buffer_ p) pos) as [eol|] eqn:Hf.
  - rewrite (parseHeaders_step f' pos p d eol Hf). destruct (decide _) as [|Hne].
    + intros [= <- <-]. done.
    + pose proof (read_header_line_buffer (substr (buffer_ p) pos (eol - pos)) p) as Hb.
      destruct (read_header_line _ p) as [[e|[]] q]; simpl in Hb.
      * intros [= <- <-]. done.
      * intros Hr H1 H2. apply IH; try done; [by eapply enough_next|by eapply enough_next_append].
  - case_if; intros [= <- <-]; done.
Qed.

Lemma read_header_line_state line p : state_ (read_header_line line p).2 = state_ p.
Proof.
  unfold read_header_line. destruct (find_char _ _); [|done]. cbv zeta.
  unfold mbind, st_bind, guard_throw, modify, get.
  destruct (_ || _); [done|]. simpl. destruct (_ <? _)%Z; [done|]. by destruct (_ && _).
Qed.

Lemma parseHeaders_resume f f1 pos p d p' :
  enough f pos p → enough f1 pos (append d p) → consumed_ p = pos →
  parseHeaders f pos p = (inr None, p') →
  state_ p' = state_ p ∧ buffer_ p' = buffer_ p ∧
  ∀ f2, enough f2 (consumed_ p') (append d p') →
    parseHeaders f1 pos (append d p) = parseHeaders f2 (consumed_ p') (append d p').
Proof.
  revert f1 pos p. induction f as [|f IH]; intros f1 pos p E1 E2 Hc; [by destruct E1; lia|].
  destruct f1 as [|f1]; [by destruct E2; lia|].
  rewrite parseHeaders_unfold. destruct (find_from crlf (buffer_ p) pos) as [eol|] eqn:Hf.
  - destruct (decide _) as [|Hne]; [done|].
    pose proof (read_header_line_buffer (substr (buffer_ p) pos (eol - pos)) p) as Hb.
    pose proof (read_header_line_state (substr (buffer_ p) pos (eol - pos)) p) as Hs.
    rewrite (parseHeaders_step f1 pos p d eol Hf), decide_False by done.
    destruct (read_header_line _ p) as [[e|[]] q]; simpl in Hb, Hs; [done|].
    intros Hr. destruct (IH f1 (eol + 2) (set_consumed (eol + 2) q)) as (I1 & I2 & I3);
      [by eapply enough_next|by eapply enough_next_append|done|done|].
    simpl in I1, I2. split_and!; [congruence|congruence|done].
  - case_if; intros [= <-]. split_and!; [done..|]. intros f2 E3. rewrite Hc in *.
    by apply parseHeaders_fuel.
Qed.

(** ** The phases of [parse] *)

Lemma line_phase_unfold p :
  line_phase p =
  if decide (state_ p = RequestLine) then
    match parseRequestLine 0 p with
    | (inl e, p') => (inl e, p')
    | (inr None, p') => (inr false, p')
    | (inr (Some pos), p') => (inr true, set_consumed pos (set_state Headers p'))
    end
  else (inr true, p).
Proof.
  unfold line_phase, mbind, st_bind, get. destruct (decide _); [|done].
  by destruct (parseRequestLine 0 p) as [[|[|]] ?].
Qed.

Lemma headers_phase_unfold p :
  headers_phase p =
  if decide (state_ p = Headers) then
    match parseHeaders (S (length (buffer_ p))) (consumed_ p) p with
    | (inl e, p') => (inl e, p')
    | (inr None, p') => (inr false, p')
    | (inr (Some pos), p') =>
        match read_framing (set_consumed pos p') with
        | (inl e, p'') => (inl e, p'')
        | (inr _, p'') => (inr true, p'')
        end
    end
  else (inr true, p).
Proof.
  unfold headers_phase, mbind, st_bind, get, modify. destruct (decide _); [|done].
  destruct (parseHeaders _ _ p) as [[|[pos|]] ?]; [done| |done]. simpl.
  by destruct (read_framing _) as [[|[]] ?].
Qed.

Lemma parse_try_unfold out p :
  parse_try out p =
  match line_phase p with
  | (inl e, p1) => (inl e, p1)
  | (inr false, p1) => (inr (Incomplete, out), p1)
  | (inr true, p1) =>
      match headers_phase p1 with
      | (inl e, p2) => (inl e, p2)
      | (inr false, p2) => (inr (Incomplete, out), p2)
      | (inr true, p2) =>
          match body_phase out p2 with
          | (inl e, p3) => (inl e, p3)
          | (inr None, p3) => (inr (Incomplete, out), p3)
          | (inr (Some body), p3) => (inr (Complete, emit out body p3), recycle p3)
          end
      end
  end.
Proof.
  unfold parse_try, mbind, st_bind, get, modify.
  destruct (line_phase p) as [[|[]] p1]; [done| |done].
  destruct (headers_phase p1) as [[|[]] p2]; [done| |done].
  by destruct (body_phase out p2) as [[|[|]] p3].
Qed.

Lemma enough_full pos p : enough (S (length (buffer_ p))) pos p.
Proof. split; lia. Qed.

(** What a phase concluded is not changed by bytes that follow, unless it ran
    into a size limit. *)
Lemma line_phase_stable p d r p' :
  line_phase p = (r, p') → r ≠ inr false → r ≠ inl RequestLineTooLong →
  line_phase (append d p) = (r, append d p').
Proof.
  rewrite !line_phase_unfold. simpl state_. destruct (decide _); [|by intros [= <- <-]].
  destruct (parseRequestLine 0 p) as [r0 p0] eqn:Hr. intros E H1 H2.
  rewrite (parseRequestLine_stable 0 p d r0 p0 Hr); [|by intros ->; simplify_eq..].
  destruct r0 as [|[|]]; simplify_eq; done.
Qed.

Lemma headers_phase_stable p d r p' :
  headers_phase p = (r, p') → r ≠ inr false → r ≠ inl HeadersTooLarge →
  headers_phase (append d p) = (r, append d p').
Proof.
  rewrite !headers_phase_unfold. simpl state_. destruct (decide _); [|by intros [= <- <-]].
  destruct (parseHeaders _ _ p) as [r0 p0] eqn:Hr. intros E H1 H2.
  change (consumed_ (append d p)) with (consumed_ p).
  rewrite (parseHeaders_stable _ (S (length (buffer_ (append d p)))) _ p d r0 p0
             (enough_full _ _) (enough_full _ _) Hr); [|by intros ->; simplify_eq..].
  destruct r0 as [|[pos|]]; simplify_eq; try done.
  change (set_consumed pos (append d p0)) with (append d (set_consumed pos p0)).
  rewrite (read_framing_oblivious d). destruct (read_framing (set_consumed pos p0)) as [[|[]] ?];
    by simplify_eq/=.
Qed.

(** ** Resumption *)

Lemma headers_phase_resume p d p' :
  headers_phase p = (inr false, p') →
  state_ p' = Headers ∧ headers_phase (append d p') = headers_phase (append d p).
Proof.
  rewrite (headers_phase_unfold p). destruct (decide _) as [Hst|]; [|done].
  destruct (parseHeaders _ _ p) as [[e|[pos|]] p0] eqn:Hr; [done| |].
  { by destruct (read_framing _) as [[|[]] ?]. }
  intros [= <-].
  destruct (parseHeaders_resume _ (S (length (buffer_ (append d p)))) _ p d p0
              (enough_full _ _) (enough_full _ _) eq_refl Hr) as (H1 & H2 & H3).
  split; [congruence|]. rewrite !headers_phase_unfold. simpl state_. rewrite H1.
  destruct (decide (state_ p = Headers)); [|done].
  change (consumed_ (append d p)) with (consumed_ p).
  rewrite (H3 (S (length (buffer_ (append d p0))))); [|apply enough_full]. done.
Qed.

Lemma headers_phase_done p p' :
  headers_phase p = (inr true, p') → headers_phase p' = (inr true, p').
Proof.
  rewrite (headers_phase_unfold p). destruct (decide _) as [Hst|Hst].
  - destruct (parseHeaders _ _ p) as [[err|[pos|]] p0]; [done| |done].
    destruct (read_framing (set_consumed pos p0)) as [[e|[]] q] eqn:Hf; [done|]. intros [= <-].
    destruct (read_framing_ok _ _ _ Hf) as [Hq _].
    rewrite headers_phase_unfold, decide_False; [done|congruence].
  - intros [= <-]. rewrite headers_phase_unfold, decide_False; done.
Qed.

Lemma line_phase_state p p' : line_phase p = (inr true, p') → state_ p' ≠ RequestLine.
Proof.
  rewrite line_phase_unfold. destruct (decide _); [|by intros [= <-]].
  destruct (parseRequestLine 0 p) as [[err|[pos|]] p0]; [done| |done]. by intros [= <-].
Qed.

Lemma headers_phase_state p p' :
  state_ p ≠ RequestLine → headers_phase p = (inr true, p') → state_ p' ≠ RequestLine.
Proof.
  intros Hne. rewrite headers_phase_unfold. destruct (decide _); [|by intros [= <-]].
  destruct (parseHeaders _ _ p) as [[err|[pos|]] p0]; [done| |done].
  destruct (read_framing (set_consumed pos p0)) as [[err|[]] q] eqn:Hf; [done|]. intros [= <-].
  destruct (read_framing_ok _ _ _ Hf) as [-> _]. done.
Qed.

Lemma line_phase_skip p : state_ p ≠ RequestLine → line_phase p = (inr true, p).
Proof. intros H. by rewrite line_phase_unfold, decide_False. Qed.

Lemma body_phase_None out p p' : body_phase out p = (inr None, p') → p' = p.
Proof.
  unfold body_phase, mbind, st_bind, get. destruct (decide _); [|done].
  destruct (_ <? _)%Z; [|done]. by intros [= <-].
Qed.

Lemma parse_try_resume out p p' d r :
  parse_try out p = (inr (Incomplete, r), p') →
  r = out ∧ parse_try out (append d p') = parse_try out (append d p).
Proof.
  rewrite (parse_try_unfold out p).
  destruct (line_phase p) as [[e|[]] p1] eqn:H1; [done| |].
  2: { intros [= <- <-]. split; [done|]. revert H1. rewrite line_phase_unfold.
       destruct (decide _); [|done]. rewrite parseRequestLine_unfold.
       destruct (find_from _ _ _); [by destruct (read_request_line _ p) as [[|[]] ?]|].
       case_if; [done|]. by intros [= <-]. }
  pose proof (line_phase_stable p d _ _ H1 ltac:(done) ltac:(done)) as S1.
  destruct (headers_phase p1) as [[e|[]] p2] eqn:H2; [done| |].
  - destruct (body_phase out p2) as [[e|[b|]] p3] eqn:H3; try done. intros [= <- <-].
    apply body_phase_None in H3 as ->. split; [done|].
    pose proof (headers_phase_stable p1 d _ _ H2 ltac:(done) ltac:(done)) as S2.
    pose proof (headers_phase_stable p2 d _ _ (headers_phase_done _ _ H2) ltac:(done) ltac:(done)) as S3.
    assert (line_phase (append d p2) = (inr true, append d p2)) as S4.
    { apply line_phase_skip. simpl. eauto using headers_phase_state, line_phase_state. }
    rewrite !parse_try_unfold. rewrite S1, S4, S2, S3. done.
  - intros [= <- <-]. split; [done|]. destruct (headers_phase_resume p1 d p2 H2) as [Hs Hr].
    rewrite !parse_try_unfold, S1, <- Hr.
    rewrite line_phase_skip; [done|]. simpl. congruence.
Qed.

(** ** The parser's invariant *)

(** Consumed bytes are in the buffer, so that the unsigned subtractions
    [size() - pos] and [size() - consumed_] never wrap, and the stored body
    length is a [size_t]. *)
Definition parser_ok (p : HttpParser) : Prop :=
  consumed_ p ≤ length (buffer_ p) ∧ (0 ≤ contentLength_ p < 2 ^ 64)%Z.

Lemma newHttpParser_ok : parser_ok newHttpParser.
Proof. split; simpl; lia. Qed.

Lemma append_ok d p : parser_ok p → parser_ok (append d p).
Proof. intros [H1 H2]. split; simpl; [rewrite length_app; lia|done]. Qed.

Lemma set_consumed_ok pos p : pos ≤ length (buffer_ p) → parser_ok p → parser_ok (set_consumed pos p).
Proof. intros H [H1 H2]. by split. Qed.

(** Actions that preserve the invariant, whether they throw or not. *)
Definition keeps_ok {A} (m : P A) : Prop := ∀ p, parser_ok p → parser_ok (m p).2.

Lemma keeps_ok_bind {A B} (m : P A) (k : A → P B) :
  keeps_ok m → (∀ a, keeps_ok (k a)) → keeps_ok (m ≫= k).
Proof.
  intros Hm Hk p Hp. unfold mbind, st_bind. specialize (Hm p Hp).
  destruct (m p) as [[e|a] p']; simpl in *; [done|]. by apply Hk.
Qed.

Ltac keeps_ok :=
  cbv zeta;
  repeat lazymatch goal with
    | |- keeps_ok (mret _) => by intros ? ?
    | |- keeps_ok (throw _) => by intros ? ?
    | |- keeps_ok get => by intros ? ?
    | |- keeps_ok (guard_throw ?b _) => destruct b; by intros ? ?
    | |- keeps_ok (modify _) => by intros ? ?
    | |- keeps_ok (_ ≫= _) => apply keeps_ok_bind; [|intros ?]
    | |- keeps_ok (match ?x with _ => _ end) => destruct x
    end.

Lemma read_request_line_ok line : keeps_ok (read_request_line line).
Proof. unfold read_request_line. keeps_ok. Qed.

Lemma read_header_line_ok line : keeps_ok (read_header_line line).
Proof. unfold read_header_line. keeps_ok. Qed.

Lemma read_framing_keeps_ok : keeps_ok read_framing.
Proof.
  unfold read_framing. apply keeps_ok_bind; [by intros ? ?|]. intros q. cbv zeta.
  apply keeps_ok_bind; [|intros ?; keeps_ok].
  destruct (headers_ q !! _) as [v|]; [|by intros ? ?].
  destruct (parse_size v) as [n|] eqn:Hn; [|by intros ? ?]. apply keeps_ok_bind; [|intros ?; keeps_ok].
  intros p [H1 _]. split; [done|]. by apply parse_size_range in Hn.
Qed.

Lemma parseRequestLine_ok pos : keeps_ok (parseRequestLine pos).
Proof. unfold parseRequestLine. keeps_ok. apply read_request_line_ok. Qed.

Lemma parseRequestLine_pos pos p n p' :
  parseRequestLine pos p = (inr (Some n), p') → 0 < n ≤ length (buffer_ p').
Proof.
  rewrite parseRequestLine_unfold. destruct (find_from _ _ _) as [eol|] eqn:Hf; [|by case_if].
  destruct (find_from_Some _ _ _ _ Hf) as (H1 & H2 & _). change (length crlf) with 2 in H2.
  pose proof (read_request_line_buffer (substr (buffer_ p) pos (eol - pos)) p) as Hb.
  destruct (read_request_line _ p) as [[e|[]] q]; simpl in Hb; [done|].
  intros [= <- <-]. rewrite Hb. lia.
Qed.

Lemma parseHeaders_ok f pos p :
  parser_ok p →
  parser_ok (parseHeaders f pos p).2 ∧
  ∀ n, (parseHeaders f pos p).1 = inr (Some n) → n ≤ length (buffer_ p).
Proof.
  revert pos p. induction f as [|f IH]; intros pos p Hp; [done|]. rewrite parseHeaders_unfold.
  destruct (find_from _ _ _) as [eol|] eqn:Hf; [|by case_if].
  destruct (find_from_Some _ _ _ _ Hf) as (H1 & H2 & _). change (length crlf) with 2 in H2.
  destruct (decide _) as [->|Hne]; [split; [done|]; intros n [= <-]; lia|].
  pose proof (read_header_line_buffer (substr (buffer_ p) pos (eol - pos)) p) as Hb.
  pose proof (read_header_line_ok (substr (buffer_ p) pos (eol - pos)) p Hp) as Hq.
  destruct (read_header_line _ p) as [[e|[]] q]; simpl in Hb, Hq; [done|].
  destruct (IH (eol + 2) (set_consumed (eol + 2) q)) as [I1 I2].
  { apply set_consumed_ok; [rewrite Hb; lia|done]. }
  split; [done|]. intros n Hn. specialize (I2 n Hn). simpl in I2. congruence.
Qed.

Lemma line_phase_ok : keeps_ok line_phase.
Proof.
  intros p Hp. rewrite line_phase_unfold. destruct (decide _); [|done].
  pose proof (parseRequestLine_ok 0 p Hp) as Hq. pose proof (parseRequestLine_pos 0 p) as Hn.
  destruct (parseRequestLine 0 p) as [[err|[pos|]] q]; simpl in *; [done| |done].
  destruct (Hn pos q eq_refl). apply set_consumed_ok; [simpl; lia|]. destruct Hq. by split.
Qed.

Lemma headers_phase_ok : keeps_ok headers_phase.
Proof.
  intros p Hp. rewrite headers_phase_unfold. destruct (decide _); [|done].
  destruct (parseHeaders_ok (S (length (buffer_ p))) (consumed_ p) p Hp) as [Hq Hn].
  pose proof (parseHeaders_buffer (S (length (buffer_ p))) (consumed_ p) p) as Hb.
  destruct (parseHeaders _ _ p) as [[err|[pos|]] q]; simpl in *; [done| |done].
  pose proof (read_framing_keeps_ok (set_consumed pos q)) as Hr.
  destruct (read_framing (set_consumed pos q)) as [[err|[]] q']; simpl in *;
    apply Hr, set_consumed_ok; try done; rewrite Hb; by apply Hn.
Qed.

Lemma size_minus_consumed p :
  parser_ok p → (size_of (buffer_ p) < 2 ^ 64)%Z →
  u64 (size_of (buffer_ p) - Z.of_nat (consumed_ p)) =
    (size_of (buffer_ p) - Z.of_nat (consumed_ p))%Z.
Proof. intros [H1 _] H2. apply u64_small. unfold size_of in *. lia. Qed.

Lemma body_phase_ok out p :
  (size_of (buffer_ p) < 2 ^ 64)%Z → parser_ok p → parser_ok (body_phase out p).2.
Proof.
  intros Hsz Hp. unfold body_phase, mbind, st_bind, get, modify. destruct (decide _); [|done].
  rewrite (size_minus_consumed p Hp Hsz). destruct (Z.ltb_spec (size_of (buffer_ p) - Z.of_nat (consumed_ p))
    (contentLength_ p)); [done|]. apply set_consumed_ok; [|done].
  destruct Hp as [H1 H2]. unfold size_of in *. lia.
Qed.

Lemma line_phase_buffer : keeps_buffer line_phase.
Proof.
  intros p. rewrite line_phase_unfold. destruct (decide _); [|done].
  rewrite parseRequestLine_unfold. destruct (find_from _ _ _) as [eol|]; [|by case_if].
  pose proof (read_request_line_buffer (substr (buffer_ p) 0 (eol - 0)) p) as Hb.
  by destruct (read_request_line _ p) as [[|[]] q].
Qed.

Lemma headers_phase_buffer : keeps_buffer headers_phase.
Proof.
  intros p. rewrite headers_phase_unfold. destruct (decide _); [|done].
  pose proof (parseHeaders_buffer (S (length (buffer_ p))) (consumed_ p) p) as Hb.
  destruct (parseHeaders _ _ p) as [[err|[pos|]] q]; simpl in *; [done| |done].
  pose proof (read_framing_buffer (set_consumed pos q)) as Hr.
  destruct (read_framing _) as [[err|[]] q']; simpl in *; congruence.
Qed.

Lemma body_phase_buffer out : keeps_buffer (body_phase out).
Proof.
  intros p. unfold body_phase, mbind, st_bind, get. destruct (decide _); [|done].
  by destruct (_ <? _)%Z.
Qed.

(** The buffer is left untouched unless a request is completed. *)
Lemma parse_buffer out p :
  (parse out p).1.1 ≠ Complete → buffer_ (parse out p).2 = buffer_ p.
Proof.
  unfold parse. rewrite parse_try_unfold.
  pose proof (line_phase_buffer p) as H1.
  destruct (line_phase p) as [[e|[]] p1]; simpl in *; [done| |done].
  pose proof (headers_phase_buffer p1) as H2.
  destruct (headers_phase p1) as [[e|[]] p2]; simpl in *; [congruence| |congruence].
  pose proof (body_phase_buffer out p2) as H3.
  destruct (body_phase out p2) as [[e|[|]] p3]; simpl in *; [congruence|done|congruence].
Qed.

Lemma parse_keeps_ok out p :
  (size_of (buffer_ p) < 2 ^ 64)%Z → parser_ok p → parser_ok (parse out p).2.
Proof.
  intros Hsz Hp. unfold parse. rewrite parse_try_unfold.
  pose proof (line_phase_ok p Hp) as H1. pose proof (line_phase_buffer p) as B1.
  destruct (line_phase p) as [[e|[]] p1]; simpl in *; [done| |done].
  pose proof (headers_phase_ok p1 H1) as H2. pose proof (headers_phase_buffer p1) as B2.
  destruct (headers_phase p1) as [[e|[]] p2]; simpl in *; [done| |done].
  pose proof (body_phase_ok out p2 ltac:(congruence) H2) as H3.
  destruct (body_phase out p2) as [[e|[|]] p3]; simpl in *; [done| |done].
  split; simpl; lia.
Qed.

(** Everything but running into a size limit is final. *)
Lemma body_phase_stable out p d body p' :
  parser_ok p → (size_of (buffer_ p ++ d) < 2 ^ 64)%Z →
  body_phase out p = (inr (Some body), p') →
  body_phase out (append d p) = (inr (Some body), append d p').
Proof.
  intros Hp Hsz. unfold body_phase, mbind, st_bind, get, modify, mret, st_ret. simpl state_.
  destruct (decide _); [|by intros [= <- <-]].
  rewrite (size_minus_consumed _ (append_ok d p Hp) Hsz).
  assert (size_of (buffer_ p) < 2 ^ 64)%Z as Hsz'.
  { unfold size_of in *. rewrite length_app in Hsz. lia. }
  rewrite (size_minus_consumed p Hp Hsz').
  destruct Hp as [Hc Hl]. cbn [consumed_ contentLength_ buffer_ append].
  assert (size_of (buffer_ p ++ d) = size_of (buffer_ p) + size_of d)%Z as Hadd.
  { unfold size_of. rewrite length_app. lia. }
  destruct (Z.ltb_spec (size_of (buffer_ p) - Z.of_nat (consumed_ p)) (contentLength_ p)); [done|].
  destruct (Z.ltb_spec (size_of (buffer_ p ++ d) - Z.of_nat (consumed_ p)) (contentLength_ p));
    [unfold size_of in *; lia|].
  intros [= <- <-]. f_equal. f_equal. f_equal.
  unfold substrZ. rewrite drop_app_le by done. unfold size_of in *.
  rewrite length_app, length_drop, !Z.min_l by lia.
  rewrite take_app_le; [done|]. rewrite length_drop. lia.
Qed.

(** A size limit is run into only while a line is still unfinished: [s] has no
    line end from [start] on, where the request line ([start] is 0) is over
    [kMaxRequestLineLen] or a header line over [kMaxHeaderBytes]. *)
Definition over_limit (s : bytes) : Prop :=
  (find crlf s = None ∧ (kMaxRequestLineLen < size_of s)%Z) ∨
  ∃ start, start ≤ length s ∧ find crlf (drop start s) = None ∧
           (kMaxHeaderBytes < size_of (drop start s))%Z.

Lemma over_limit_size s : over_limit s → (kMaxRequestLineLen < size_of s)%Z.
Proof.
  unfold over_limit, kMaxRequestLineLen, kMaxHeaderBytes, size_of.
  intros [[_ H]|(start & _ & _ & H)]; [done|]. rewrite length_drop in H. lia.
Qed.

Lemma find_from_None n s pos : pos ≤ length s → find_from n s pos = None → find n (drop pos s) = None.
Proof.
  intros H. unfold find_from. destruct (Nat.ltb_spec (length s) pos); [lia|].
  by destruct (find n (drop pos s)).
Qed.

Lemma line_phase_limit p p' :
  line_phase p = (inl RequestLineTooLong, p') → over_limit (buffer_ p).
Proof.
  rewrite line_phase_unfold. destruct (decide _); [|done].
  rewrite parseRequestLine_unfold. destruct (find_from _ _ _) as [eol|] eqn:Hf.
  - pose proof (read_request_line_throws (substr (buffer_ p) 0 (eol - 0)) p) as Ht.
    destruct (read_request_line _ p) as [[err|[]] q]; [|done]. intros [= -> _].
    by destruct (Ht _ eq_refl) as (_ & ? & _).
  - destruct (Z.ltb_spec kMaxRequestLineLen (size_of (buffer_ p))); [|done]. intros _. left.
    by rewrite find_from_0 in Hf.
Qed.

Lemma parseHeaders_limit f pos p p' :
  (size_of (buffer_ p) < 2 ^ 64)%Z → pos ≤ length (buffer_ p) →
  parseHeaders f pos p = (inl HeadersTooLarge, p') → over_limit (buffer_ p).
Proof.
  revert pos p. induction f as [|f IH]; intros pos p Hlim Hpos; [done|].
  rewrite parseHeaders_unfold. destruct (find_from _ _ _) as [eol|] eqn:Hf.
  - destruct (decide _); [done|]. destruct (find_from_Some _ _ _ _ Hf) as (_ & Hl & _).
    pose proof (read_header_line_throws (substr (buffer_ p) pos (eol - pos)) p) as Ht.
    pose proof (read_header_line_buffer (substr (buffer_ p) pos (eol - pos)) p) as Hb.
    destruct (read_header_line _ p) as [[err|[]] q]; simpl in Hb.
    + intros [= -> _]. by destruct (Ht _ eq_refl) as (_ & _ & ?).
    + change (length crlf) with 2 in Hl. intros Hr. rewrite <- Hb.
      apply (IH (eol + 2) (set_consumed (eol + 2) q)); simpl; rewrite ?Hb; [done|lia|done].
  - unfold size_of in *. rewrite u64_small by lia.
    destruct (Z.ltb_spec kMaxHeaderBytes (Z.of_nat (length (buffer_ p)) - Z.of_nat pos)); [|done].
    intros _. right. exists pos. split_and!; [done|by apply find_from_None|].
    unfold size_of. rewrite length_drop. lia.
Qed.

Lemma headers_phase_limit p p' :
  (size_of (buffer_ p) < 2 ^ 64)%Z → parser_ok p →
  headers_phase p = (inl HeadersTooLarge, p') → over_limit (buffer_ p).
Proof.
  intros Hlim [Hc _]. rewrite headers_phase_unfold. destruct (decide _); [|done].
  pose proof (parseHeaders_limit (S (length (buffer_ p))) (consumed_ p) p) as Hno.
  destruct (parseHeaders _ _ p) as [[err|[pos|]] q]; [| |done].
  - intros [= -> _]. by apply (Hno q).
  - pose proof (read_framing_throws (set_consumed pos q)) as Ht.
    destruct (read_framing _) as [[err|[]] q']; [|done]. intros [= -> _].
    by destruct (Ht _ eq_refl) as (_ & _ & ?).
Qed.

Lemma body_phase_no_throw out p e p' : body_phase out p ≠ (inl e, p').
Proof.
  unfold body_phase, mbind, st_bind, get. destruct (decide _); [|done]. by destruct (_ <? _)%Z.
Qed.

(** A decided parse stays as it is when more bytes arrive, except for the
    refusal of a line that is already over its limit. *)
Lemma parse_decided out p d st r p' :
  parser_ok p → (size_of (buffer_ p ++ d) < 2 ^ 64)%Z → st ≠ Incomplete →
  parse out p = (st, r, p') →
  parse out (append d p) = (st, r, append d p') ∨ (st = Error ∧ over_limit (buffer_ p)).
Proof.
  intros Hp Hsz Hst. unfold parse. rewrite !parse_try_unfold.
  assert (size_of (buffer_ p) < 2 ^ 64)%Z as Hsz0.
  { unfold size_of in *. rewrite length_app in Hsz. lia. }
  pose proof (line_phase_ok p Hp) as O1. pose proof (line_phase_buffer p) as B1.
  destruct (line_phase p) as [[e|[]] p1] eqn:H1; simpl in O1, B1; [| |by intros [= <- <- <-]].
  { intros [= <- <- <-]. destruct (decide (e = RequestLineTooLong)) as [->|Hne].
    - right. by apply line_phase_limit in H1.
    - left. rewrite (line_phase_stable p d _ _ H1); [done|done|congruence]. }
  rewrite (line_phase_stable p d _ _ H1) by done.
  pose proof (headers_phase_ok p1 O1) as O2. pose proof (headers_phase_buffer p1) as B2.
  destruct (headers_phase p1) as [[e|[]] p2] eqn:H2; simpl in O2, B2; [| |by intros [= <- <- <-]].
  { intros [= <- <- <-]. destruct (decide (e = HeadersTooLarge)) as [->|Hne].
    - right. apply headers_phase_limit in H2; [|congruence|done]. by rewrite B1 in H2.
    - left. rewrite (headers_phase_stable p1 d _ _ H2); [done|done|congruence]. }
  rewrite (headers_phase_stable p1 d _ _ H2) by done.
  destruct (body_phase out p2) as [[e|[body|]] p3] eqn:H3; simpl; try by intros [= <- <- <-].
  - by apply body_phase_no_throw in H3.
  - assert (size_of (buffer_ p2 ++ d) < 2 ^ 64)%Z as Hsz2 by by rewrite B2, B1.
    rewrite (body_phase_stable out p2 d body p3 O2 Hsz2 H3). intros [= <- <- <-]. left. f_equal.
    unfold recycle, append. simpl. rewrite drop_app_le; [done|].
    pose proof (body_phase_ok out p2) as O3. rewrite H3 in O3. apply O3; [congruence|done].
Qed.

(** ** Theorems *)

Lemma parse_resume out p d r p' :
  parse out p = (Incomplete, r, p') →
  r = out ∧ buffer_ p' = buffer_ p ∧ parse out (append d p') = parse out (append d p).
Proof.
  intros H. pose proof (parse_buffer out p) as Hb. rewrite H in Hb. simpl in Hb.
  unfold parse in H. destruct (parse_try out p) as [[e|[st r0]] q] eqn:Ht; [done|].
  injection H as -> -> ->. destruct (parse_try_resume out p p' d r Ht) as [-> Hr].
  split_and!; [done|by apply Hb|]. unfold parse. by rewrite Hr.
Qed.

(** An incomplete parse can be resumed.  When [parse] answers
    [Incomplete] it leaves the output request and the buffered bytes as they
    were, and parsing again after more bytes arrived gives the status, the
    request and the parser that one parse of all the bytes would give. *)
Theorem parser_resumes out p d r p' :
  parse out p = (Incomplete, r, p') →
  r = out ∧ buffer_ p' = buffer_ p ∧ parse out (append d p') = parse out (append d p).
Proof. apply parse_resume. Qed.

Definition crlf_line (s : string) : bytes := str s ++ crlf.

Lemma parser_resumes_witness :
  let p := append (crlf_line "GET /a HTTP/1.1" ++ str "Host: ") newHttpParser in
  let d := crlf_line "x" ++ crlf in
  let p' := (parse emptyRequest p).2 in
  parse emptyRequest (append d p') = parse emptyRequest (append d p) ∧
  (parse emptyRequest (append d p')).1.1 = Complete.
Proof.
  intros p d p'. split; [|vm_compute; reflexivity].
  apply (parser_resumes emptyRequest p d emptyRequest p'). vm_compute. reflexivity.
Defined.

(** Bytes arriving in chunks, as the worker feeds them: [parse] after each
    chunk until it decides, later chunks only buffered. *)
Fixpoint feed (out : HttpRequest) (p : HttpParser) (chunks : list bytes)
    : ParseStatus * HttpRequest * HttpParser :=
  match chunks with
  | [] => parse out p
  | d :: ds =>
      match parse out p with
      | (Incomplete, _, p') => feed out (append d p') ds
      | (st, r, p') => (st, r, append (concat chunks) p')
      end
  end.

Lemma append_nil p : append [] p = p.
Proof. unfold append. destruct p. simpl. by rewrite app_nil_r. Qed.

Lemma feed_parse out p chunks :
  parser_ok p → (size_of (buffer_ p ++ concat chunks) < 2 ^ 64)%Z →
  feed out p chunks = parse out (append (concat chunks) p) ∨
  ((feed out p chunks).1.1 = Error ∧
   ∃ front, front `prefix_of` chunks ∧ over_limit (buffer_ p ++ concat front)).
Proof.
  revert p. induction chunks as [|d ds IH]; intros p Hp Hsz; simpl; [left; by rewrite append_nil|].
  assert (size_of (buffer_ p) < 2 ^ 64)%Z as Hs.
  { unfold size_of in *. rewrite length_app in Hsz. lia. }
  destruct (parse out p) as [[st r] p'] eqn:Hparse.
  pose proof (parse_decided out p (d ++ concat ds) st r p' Hp Hsz) as Hdec.
  destruct st; [|by left; destruct (Hdec ltac:(done) Hparse) as [->|[? _]]|].
  2: { destruct (Hdec ltac:(done) Hparse) as [->|[_ Hover]]; [by left|]. right. split; [done|].
       exists []. split; [apply prefix_nil|]. by rewrite app_nil_r. }
  destruct (parse_resume out p d r p' Hparse) as (_ & Hb & _).
  pose proof (parse_keeps_ok out p Hs Hp) as Hok. rewrite Hparse in Hok. simpl in Hok.
  destruct (IH (append d p')) as [->|(He & front & Hf & Hover)].
  - by apply append_ok.
  - simpl. rewrite Hb, <- app_assoc. exact Hsz.
  - left. rewrite append_append.
    by destruct (parse_resume out p (d ++ concat ds) r p' Hparse) as (_ & _ & ?).
  - right. split; [done|]. exists (d :: front). split; [by apply prefix_cons|].
    simpl in Hover |- *. by rewrite app_assoc, <- Hb.
Qed.

(** C11: fragmentation does not matter, up to the size limits.  However the
    bytes are cut into chunks, feeding the chunks one by one ends in the
    status, the request and the parser state (leftover bytes included) that
    parsing all of them at once gives; the one exception is a refusal: some of
    the chunks ended in a line not yet finished that was already over its
    limit (8192 bytes for a request line, 32768 for a header line), and then
    feeding them answers an error. *)
Theorem parser_fragmentation out p chunks :
  parser_ok p → (size_of (buffer_ p ++ concat chunks) < 2 ^ 64)%Z →
  feed out p chunks = parse out (append (concat chunks) p) ∨
  ((feed out p chunks).1.1 = Error ∧
   ∃ front, front `prefix_of` chunks ∧ over_limit (buffer_ p ++ concat front)).
Proof. apply feed_parse. Qed.

Lemma parser_fragmentation_witness :
  let raw := crlf_line "GET /a HTTP/1.1" ++ crlf_line "Host: x" ++ crlf ++ str "GET /b" in
  let r := feed emptyRequest newHttpParser (map (λ c, [c]) raw) in
  r.1.1 = Complete ∧ rq_path r.1.2 = str "/a" ∧ buffer_ r.2 = str "GET /b" ∧
  r = parse emptyRequest (append (concat (map (λ c, [c]) raw)) newHttpParser).
Proof.
  intros raw r. split_and!; [vm_compute; reflexivity..|].
  destruct (parser_fragmentation emptyRequest newHttpParser (map (λ c, [c]) raw)) as [H|[He _]];
    [apply newHttpParser_ok|vm_compute; reflexivity|exact H|].
  vm_compute in He. discriminate He.
Defined.

(** A stream of up to [kMaxRequestLineLen] bytes is below every limit. *)
Theorem small_stream_fragmentation out p chunks :
  parser_ok p → (size_of (buffer_ p ++ concat chunks) ≤ kMaxRequestLineLen)%Z →
  feed out p chunks = parse out (append (concat chunks) p).
Proof.
  intros Hp Hsz. destruct (feed_parse out p chunks Hp) as [|(_ & front & [back ->] & Hover)]; [|done|].
  - unfold kMaxRequestLineLen in *. lia.
  - apply over_limit_size in Hover. unfold size_of in *.
    rewrite concat_app, !length_app in Hsz. rewrite length_app in Hover. lia.
Qed.

(** The exception is real: the limits are only tested while the line has not
    ended, so a request line over the limit is accepted when it arrives whole
    and refused when its end arrives in a later read. *)
Definition long_target : bytes := str "GET /" ++ repeat "a"%char 9000.
Definition long_tail : bytes := str " HTTP/1.1" ++ crlf ++ str "Host: x" ++ crlf ++ crlf.

Theorem long_line_depends_on_reads :
  (parse emptyRequest (append (long_target ++ long_tail) newHttpParser)).1.1 = Complete ∧
  (feed emptyRequest newHttpParser [long_target; long_tail]).1.1 = Error.
Proof. split; vm_compute; reflexivity. Qed.
