(* ===== verification/HttpParserSafety.v ===== *)
(** * What the request parser guarantees

    Every request [parse] completes is well formed: the method, target and
    header rules of src/http/HttpParser.cpp hold of it, its body has exactly
    the declared length, and its framing is unambiguous.  A complete parse
    consumes bytes, so draining a buffer terminates, and no parse runs out of
    the model's fuel. *)
From S2P Require Import Prelude CxxString HttpMessage HttpParser HttpParserResume.

(** ** The invariant of the parser's progress *)

Definition line_wf (method path query version : bytes) : Prop :=
  method ≠ [] ∧ forallb method_char method = true ∧
  head path = Some "/"%char ∧ "?"%char ∉ path ∧
  (∀ c, c ∈ [CR; LF] → c ∉ path ∧ c ∉ query) ∧
  (version = str "HTTP/1.1" ∨ version = str "HTTP/1.0").

(** A value without blanks around it, which [trim] leaves as it is. *)
Definition trimmed (v : bytes) : Prop :=
  (∀ c, head v = Some c → c ∉ [SP; HT]) ∧ (∀ c, last v = Some c → c ∉ [SP; HT; CR]).

Definition header_wf (key value : bytes) : Prop :=
  key ≠ [] ∧ to_lower key = key ∧ (∀ c, c ∈ [SP; HT; CR; LF; ":"%char] → c ∉ key) ∧
  (∀ c, c ∈ [CR; LF] → c ∉ value) ∧ trimmed value.

(** The length a request with these headers declares. *)
Definition framing_wf (headers : gmap bytes bytes) (len : Z) : Prop :=
  match headers !! str "content-length" with
  | None => len = 0%Z
  | Some v =>
      parse_size v = Some len ∧ (len ≤ kMaxBodyBytes)%Z ∧
      headers !! str "transfer-encoding" = None
  end ∧
  (∀ v, headers !! str "transfer-encoding" = Some v →
        contains (str "chunked") (to_lower v) = false).

Definition headers_wf (p : HttpParser) : Prop :=
  map_Forall header_wf (headers_ p) ∧
  (Z.of_nat (size (headers_ p)) ≤ headerCount_ p ≤ kMaxHeaderCount)%Z.

Definition progress_wf (p : HttpParser) : Prop :=
  match state_ p with
  | RequestLine => headers_ p = ∅ ∧ headerCount_ p = 0%Z ∧ contentLength_ p = 0%Z ∧ consumed_ p = 0
  | Headers =>
      line_wf (method_ p) (path_ p) (query_ p) (version_ p) ∧ contentLength_ p = 0%Z ∧
      0 < consumed_ p
  | Body =>
      line_wf (method_ p) (path_ p) (query_ p) (version_ p) ∧
      framing_wf (headers_ p) (contentLength_ p) ∧ 0 < consumed_ p
  | Done => False
  end.

Definition parser_wf (p : HttpParser) : Prop := parser_ok p ∧ headers_wf p ∧ progress_wf p.

(** The promise of the parser about a request it hands out. *)
Record request_wf (r : HttpRequest) : Prop := {
  wf_line : line_wf (rq_method r) (rq_path r) (rq_query r) (rq_version r);
  wf_headers : map_Forall header_wf (rq_headers r);
  wf_count : (Z.of_nat (size (rq_headers r)) ≤ kMaxHeaderCount)%Z;
  wf_framing : framing_wf (rq_headers r) (size_of (rq_body r));
  wf_keepAlive : rq_keepAlive r = 
    match rq_headers r !! str "connection" with
    | Some v => negb (bool_decide (to_lower v = str "close"))
    | None => bool_decide (rq_version r = str "HTTP/1.1")
    end
}.

Lemma newHttpParser_wf : parser_wf newHttpParser.
Proof. split_and!; [apply newHttpParser_ok|..]; [|done]. split; [apply map_Forall_empty|by_decide]. Qed.

Lemma append_wf d p : parser_wf p → parser_wf (append d p).
Proof. intros (H1 & H2 & H3). split_and!; [by apply append_ok|done|done]. Qed.

(** ** The request line *)

Lemma not_found set s : ¬ is_Some (find_first_of set s) → ∀ c, c ∈ set → c ∉ s.
Proof.
  intros Hn c Hc Hs. unfold find_first_of in Hn. apply eq_None_not_Some in Hn.
  apply find_if_None in Hn. rewrite Forall_forall in Hn. specialize (Hn c Hs).
  apply one_of_false in Hn. done.
Qed.

Lemma find_char_Some c s i :
  find_char c s = Some i → c ∉ take i s ∧ s = take i s ++ c :: drop (i + 1) s.
Proof.
  intros (a & c' & b & -> & <- & Ha & Hc)%find_if_Some. apply eqc_true in Hc as <-.
  rewrite take_app_length. split.
  - intros Hin. rewrite Forall_forall in Ha. specialize (Ha c Hin). by apply eqc_false in Ha.
  - by rewrite drop_app_ge, Nat.add_sub' by lia.
Qed.

Lemma head_take n (s : bytes) c : head s = Some c → n ≠ 0 → head (take n s) = Some c.
Proof. destruct s, n; done. Qed.

Lemma read_request_line_wf line p u q :
  read_request_line line p = (inr u, q) →
  line_wf (method_ q) (path_ q) (query_ q) (version_ q) ∧
  state_ q = state_ p ∧ headers_ q = headers_ p ∧ contentLength_ q = contentLength_ p ∧
  headerCount_ q = headerCount_ p.
Proof.
  unfold read_request_line. destruct (find_char SP line) as [sp1|]; [|done].
  destruct (rfind_char SP line) as [sp2|]; [|done]. destruct (decide _); [done|]. cbv zeta.
  set (method := substr line 0 sp1). set (target := substr line (sp1 + 1) _).
  set (version := drop (sp2 + 1) line).
  unfold guard_throw, mbind, st_bind, mret, st_ret, throw, modify.
  destruct (negb _ && negb _) eqn:Hv; [done|]. destruct (_ || negb (forallb _ _)) eqn:Hm; [done|].
  destruct (_ || bool_decide (is_Some _)) eqn:Ht; [done|].
  assert (version = str "HTTP/1.1" ∨ version = str "HTTP/1.0") as Hv'.
  { apply andb_false_iff in Hv as [Hv|Hv]; apply negb_false_iff, bool_decide_eq_true in Hv; auto. }
  apply orb_false_iff in Hm as [Hm1%bool_decide_eq_false Hm2%negb_false_iff].
  apply orb_false_iff in Ht as [Ht1%negb_false_iff%bool_decide_eq_true Ht2%bool_decide_eq_false].
  pose proof (not_found _ _ Ht2) as Hcl.
  destruct (find_char "?"%char target) as [qm|] eqn:Hq; simpl; intros [= <- <-]; simpl.
  - destruct (find_char_Some _ _ _ Hq) as [Hnq Hsplit].
    destruct (decide (substr target 0 qm = [])) as [E|E]; unfold substr in *; rewrite drop_0 in *.
    + destruct qm; [|by destruct target]. exfalso. simpl in Hsplit. rewrite Hsplit in Ht1. done.
    + split_and!; try done. split_and!; try done.
      * apply head_take; [done|]. by intros ->.
      * intros c Hc. specialize (Hcl c Hc). rewrite Hsplit in Hcl. set_solver.
  - split_and!; try done. split_and!; try done.
    + unfold find_char in Hq. apply find_if_None in Hq. rewrite Forall_forall in Hq.
      intros Hin. specialize (Hq _ Hin). by apply eqc_false in Hq.
    + intros c Hc. split; [by apply Hcl|set_solver].
Qed.

(** ** The headers *)

(** Members a header line leaves alone. *)
Definition same_line (p q : HttpParser) : Prop :=
  state_ q = state_ p ∧ method_ q = method_ p ∧ path_ q = path_ p ∧ query_ q = query_ p ∧
  version_ q = version_ p ∧ contentLength_ q = contentLength_ p.

Lemma tolower_blank c d : d ∈ [SP; HT; CR; LF; ":"%char] → tolower c = d → c = d.
Proof.
  intros Hd. repeat (apply elem_of_cons in Hd as [->|Hd]; [by destruct c as [[] [] [] [] [] [] [] []]|]).
  by apply elem_of_nil in Hd.
Qed.

Lemma to_lower_blank d k : d ∈ [SP; HT; CR; LF; ":"%char] → d ∉ k → d ∉ to_lower k.
Proof.
  intros Hd Hk Hin. unfold to_lower in Hin. apply list_elem_of_fmap in Hin as (c & E & Hc).
  symmetry in E. apply tolower_blank in E; [|done]. by subst.
Qed.

(** [trim] returns a part of its argument. *)
Lemma trim_elem c s : c ∈ trim s → c ∈ s.
Proof.
  unfold trim. destruct (find_first_not_of _ s); [|by intros ?%elem_of_nil].
  unfold substrZ. intros H%elem_of_take. destruct H as (i & H & _).
  rewrite lookup_drop in H. by eapply list_elem_of_lookup_2.
Qed.

(** Cutting a string at both ends. *)
Lemma substr_between (x y z : bytes) : take (length y) (drop (length x) (x ++ y ++ z)) = y.
Proof. by rewrite drop_app_length, take_app_length. Qed.

(** What [trim] returns is trimmed, unless it kept a CR. *)
Lemma trim_trimmed s : (size_of s < 2 ^ 64)%Z → CR ∉ trim s → trimmed (trim s).
Proof.
  intros Hsz. unfold trim. destruct (find_first_not_of _ s) as [a|] eqn:Ha; [|done].
  apply find_if_Some in Ha as (x & c & y & -> & <- & Hx & Hc).
  apply negb_true_iff, one_of_false in Hc.
  destruct (find_last_not_of _ _) as [b|] eqn:Hb; simpl npos_of.
  - apply rfind_if_Some in Hb as (x' & d & y' & E & <- & Hy & Hd).
    apply negb_true_iff, one_of_false in Hd.
    assert (length x ≤ length x') as Hle.
    { destruct (le_lt_dec (length x) (length x')) as [|Hlt]; [done|exfalso].
      assert ((x ++ c :: y) !! length x' = Some d) as Hl
        by (by rewrite E, lookup_app_r, Nat.sub_diag).
      rewrite lookup_app_l in Hl by done. apply list_elem_of_lookup_2 in Hl.
      rewrite Forall_forall in Hx. apply Hx, negb_false_iff, one_of_true in Hl. set_solver. }
    unfold size_of in Hsz. rewrite E, length_app in Hsz. simpl in Hsz. rewrite u64_small by lia.
    intros _. assert (∃ m, c :: y = m ++ d :: y') as [m Em].
    { exists (drop (length x) x'). apply (f_equal (drop (length x))) in E.
      by rewrite drop_app_length, drop_app_le in E. }
    rewrite Em in E. rewrite app_assoc in E. apply app_inj_2 in E as [<- _]; [|done].
    assert (substrZ (x ++ c :: y) (length x) (Z.of_nat (length (x ++ m)) - Z.of_nat (length x) + 1) =
            m ++ [d]) as ->.
    { rewrite Em. unfold substrZ, size_of. rewrite drop_app_length, !length_app. simpl length.
      rewrite (cons_middle d m y'), app_assoc, take_app_le, take_ge; rewrite ?length_app; simpl length; try lia. done. }
    split.
    + intros e He. destruct m as [|e' m]; simplify_eq/=; done.
    + intros e. rewrite last_snoc. by intros [= <-].
  - apply rfind_if_None in Hb. rewrite Forall_forall in Hb.
    assert (c = CR) as ->.
    { assert (c ∈ x ++ c :: y) as Hin by (apply elem_of_app; right; apply list_elem_of_here).
      apply Hb, negb_false_iff, one_of_true in Hin. set_solver. }
    unfold substrZ. rewrite drop_app_length.
    destruct (Z.to_nat _); [by rewrite take_0|]. intros Hcr. exfalso. apply Hcr. simpl.
    apply list_elem_of_here.
Qed.

Lemma read_header_line_wf line p u q :
  (size_of line < 2 ^ 64)%Z →
  read_header_line line p = (inr u, q) → headers_wf p → headers_wf q ∧ same_line p q.
Proof.
  intros Hsz. unfold read_header_line. destruct (find_char _ line) as [colon|] eqn:Hcol; [|done].
  apply find_char_Some in Hcol as [Hcol _]. cbv zeta.
  set (key := to_lower _). set (value := trim _).
  unfold guard_throw, mbind, st_bind, mret, st_ret, throw, modify, get.
  destruct (_ || _) eqn:Hk; [done|]. cbn [headerCount_ count_header headers_].
  destruct (Z.ltb_spec kMaxHeaderCount (u64 (headerCount_ p + 1))); [done|].
  destruct (_ && _); [done|]. intros [= <- <-] [Hh Hc].
  apply orb_false_iff in Hk as [[Hk1 Hk2]%orb_false_iff Hk3].
  apply bool_decide_eq_false in Hk1, Hk2, Hk3.
  split; [|done]. split; simpl.
  - apply map_Forall_insert_2; [|done]. split_and!; [done|apply to_lower_idemp| |by apply not_found|].
    + intros c Hin'. apply (elem_of_app [SP; HT; CR; LF] [":"%char]) in Hin' as [Hin'|Hin'].
      * by apply (not_found _ _ Hk2).
      * apply list_elem_of_singleton in Hin' as ->. apply to_lower_blank; [by_decide|].
        intros Hin%trim_elem. unfold substr in Hin. by rewrite drop_0 in Hin.
    + apply trim_trimmed; [unfold size_of in *; rewrite length_drop; lia|].
      apply (not_found _ _ Hk3). by_decide.
  - unfold kMaxHeaderCount in *. rewrite u64_small in * by lia.
    rewrite map_size_insert. destruct (headers_ p !! key); simpl; lia.
Qed.

Lemma parseHeaders_wf f pos p r q :
  (size_of (buffer_ p) < 2 ^ 64)%Z → parseHeaders f pos p = (inr r, q) → headers_wf p →
  headers_wf q ∧ same_line p q ∧ (0 < consumed_ p → 0 < consumed_ q).
Proof.
  revert pos p. induction f as [|f IH]; intros pos p Hsz; [done|]. rewrite parseHeaders_unfold.
  destruct (find_from _ _ _) as [eol|]; [|case_if; by intros [= <- <-]].
  destruct (decide _); [by intros [= <- <-]|].
  pose proof (read_header_line_buffer (substr (buffer_ p) pos (eol - pos)) p) as Hb.
  destruct (read_header_line _ p) as [[e|u] p'] eqn:Hr; [done|]. intros H Hp. simpl in Hb.
  destruct (fun Hsz' => read_header_line_wf _ _ _ _ Hsz' Hr Hp) as [Hw Hs].
  { unfold substr, size_of in *. rewrite length_take, length_drop. lia. }
  destruct (IH (eol + 2) (set_consumed (eol + 2) p') ltac:(simpl; by rewrite Hb) H Hw) as (Hq & Hs' & Hc). split_and!; [done| |].
  - unfold same_line in *. simpl in Hs'. intuition congruence.
  - intros _. apply Hc. simpl. lia.
Qed.

Lemma framing_checked_wf p q :
  framing_checked p q → contentLength_ p = 0%Z → framing_wf (headers_ p) (contentLength_ q).
Proof. intros [H1 H2] H0. split; [|done]. destruct (headers_ p !! _); [done|congruence]. Qed.

Lemma parseHeaders_ge f pos p n : (parseHeaders f pos p).1 = inr (Some n) → pos < n.
Proof.
  revert pos p. induction f as [|f IH]; intros pos p; [done|]. rewrite parseHeaders_unfold.
  destruct (find_from _ _ _) as [eol|] eqn:Hf; [|by case_if].
  apply find_from_Some in Hf as (Hp & _). destruct (decide _); [intros [= <-]; lia|].
  destruct (read_header_line _ p) as [[e|u] p']; [done|]. intros H%IH. lia.
Qed.

(** ** Phases *)

Lemma line_phase_wf p b q :
  parser_wf p → line_phase p = (inr b, q) → parser_wf q.
Proof.
  intros (Hok & Hh & Hp) H. pose proof (line_phase_ok p Hok) as Hok'. rewrite H in Hok'.
  revert H. rewrite line_phase_unfold. destruct (decide _) as [E|]; [|by intros [= <- <-]].
  rewrite parseRequestLine_unfold. destruct (find_from _ _ _) as [eol|].
  2: { case_if; [done|]. by intros [= <- <-]. }
  destruct (read_request_line _ p) as [[e|u] p'] eqn:Hr; [done|]. intros [= <- <-].
  destruct (read_request_line_wf _ _ _ _ Hr) as (Hl & Hst & Hhd & Hcl & Hct).
  unfold progress_wf in Hp. rewrite E in Hp. destruct Hp as (P1 & P2 & P3 & P4).
  split_and!; [done|..].
  - unfold headers_wf in *. simpl. by rewrite Hhd, Hct.
  - unfold progress_wf. simpl. split_and!; [done|congruence|lia].
Qed.

Lemma headers_phase_wf p b q :
  (size_of (buffer_ p) < 2 ^ 64)%Z → parser_wf p → headers_phase p = (inr b, q) → parser_wf q.
Proof.
  intros Hsz (Hok & Hh & Hp) H. pose proof (headers_phase_ok p Hok) as Hok'. rewrite H in Hok'.
  revert H. rewrite headers_phase_unfold. destruct (decide _) as [E|]; [|by intros [= <- <-]].
  unfold progress_wf in Hp. rewrite E in Hp. destruct Hp as (P1 & P2 & P3).
  pose proof (parseHeaders_ok (S (length (buffer_ p))) (consumed_ p) p Hok) as [_ Hn].
  pose proof (parseHeaders_ge (S (length (buffer_ p))) (consumed_ p) p) as Hge.
  destruct (parseHeaders _ _ p) as [[e|r] p'] eqn:Hr; [done|].
  destruct (parseHeaders_wf _ _ _ _ _ Hsz Hr Hh) as (Hw & (S1 & S2 & S3 & S4 & S5 & S6) & Hc).
  destruct r as [pos|].
  - destruct (read_framing _) as [[e|u] p''] eqn:Hf; [done|]. intros [= <- <-].
    destruct (read_framing_ok _ _ _ Hf) as (F1 & (_ & F2 & F3 & F4 & F5 & F6 & F7 & F8) & F9).
    simpl in *. split_and!; [done| |].
    + unfold headers_wf in *. by rewrite F6, F8.
    + unfold progress_wf. rewrite F1, F2, F3, F4, F5, F6, F7. split_and!; [congruence| |].
      * apply (framing_checked_wf _ _ F9). simpl. congruence.
      * specialize (Hge pos eq_refl). lia.
  - intros [= <- <-]. split_and!; [done|done|]. unfold progress_wf. rewrite S1, E.
    split_and!; [congruence|congruence|auto].
Qed.

Lemma body_phase_wf out p body q :
  (size_of (buffer_ p) < 2 ^ 64)%Z → parser_wf p → state_ p ≠ RequestLine → state_ p ≠ Headers →
  body_phase out p = (inr (Some body), q) →
  size_of body = contentLength_ p ∧ 0 < consumed_ q ∧
  q = set_consumed (consumed_ q) p ∧ consumed_ q ≤ length (buffer_ q).
Proof.
  intros Hsz (Hok & _ & Hp) Hn1 Hn2 H. pose proof (body_phase_ok out p Hsz Hok) as [Hok' _].
  rewrite H in Hok'. simpl in Hok'. revert H.
  unfold body_phase, mbind, st_bind, get, modify, mret, st_ret.
  unfold progress_wf in Hp. destruct (state_ p) eqn:E; [done|done| |done]. simpl.
  destruct Hok as [Hc Hl]. rewrite (size_minus_consumed p) by done.
  destruct (Z.ltb_spec (size_of (buffer_ p) - Z.of_nat (consumed_ p)) (contentLength_ p)); [done|].
  intros [= <- <-]. split_and!; [|simpl; destruct Hp as (_ & _ & ?); lia|done|done].
  unfold substrZ, size_of in *. rewrite length_take, length_drop. lia.
Qed.

Lemma line_phase_not_RequestLine p q : line_phase p = (inr true, q) → state_ q ≠ RequestLine.
Proof. apply line_phase_state. Qed.

Lemma headers_phase_not_Headers p q : headers_phase p = (inr true, q) → state_ q ≠ Headers.
Proof.
  rewrite headers_phase_unfold. destruct (decide _); [|by intros [= <-]].
  destruct (parseHeaders _ _ p) as [[err|[pos|]] p']; [done| |done].
  destruct (read_framing _) as [[err|u] p''] eqn:Hf; [done|]. intros [= <-].
  destruct (read_framing_ok _ _ _ Hf) as (-> & _). done.
Qed.

(** One step of the parser from a well-formed state, all outcomes but
    [Error]. *)
Lemma parse_wf out p st r p' :
  (size_of (buffer_ p) < 2 ^ 64)%Z → parser_wf p → parse out p = (st, r, p') → st ≠ Error →
  parser_wf p' ∧
  (st = Complete → request_wf r ∧ ∃ n, 0 < n ≤ length (buffer_ p) ∧ buffer_ p' = drop n (buffer_ p)).
Proof.
  intros Hsz Hp. unfold parse. rewrite parse_try_unfold.
  pose proof (line_phase_buffer p) as B1.
  destruct (line_phase p) as [[e|[]] p1] eqn:H1; simpl in B1; [by intros [= <- <- <-]| |].
  2: { pose proof (line_phase_wf _ _ _ Hp H1). by intros [= <- <- <-]. }
  pose proof (line_phase_wf _ _ _ Hp H1) as W1. pose proof (headers_phase_buffer p1) as B2.
  destruct (headers_phase p1) as [[e|[]] p2] eqn:H2; simpl in B2; [by intros [= <- <- <-]| |].
  2: { pose proof (headers_phase_wf _ _ _ ltac:(by rewrite B1) W1 H2). by intros [= <- <- <-]. }
  pose proof (headers_phase_wf _ _ _ ltac:(by rewrite B1) W1 H2) as W2.
  destruct (body_phase out p2) as [[e|[body|]] p3] eqn:H3; simpl.
  - by apply body_phase_no_throw in H3.
  - intros [= <- <- <-] _.
    pose proof (headers_phase_state _ _ (line_phase_not_RequestLine _ _ H1) H2) as Hs1.
    pose proof (headers_phase_not_Headers _ _ H2) as Hs2.
    destruct (body_phase_wf out p2 body p3) as (E1 & E2 & E3 & E4); try done.
    { by rewrite B2, B1. }
    assert (buffer_ p3 = buffer_ p) as B3 by (rewrite E3; simpl; congruence).
    split; [|intros _; split].
    + split_and!; [split; simpl; lia| |done]. split; [apply map_Forall_empty|by_decide].
    + destruct W2 as (_ & [Hh Hc] & Hpr). unfold progress_wf in Hpr.
      destruct (state_ p2) eqn:E; [done|done| |done]. destruct Hpr as (Hl & Hf & _).
      rewrite E3. split; simpl; [done|done|lia|by rewrite E1|done].
    + exists (consumed_ p3). simpl. rewrite B3 in *. split; [lia|done].
  - apply body_phase_None in H3 as ->. by intros [= <- <- <-].
Qed.

Lemma parse_try_no_Error out p r p' : parse_try out p ≠ (inr (Error, r), p').
Proof.
  rewrite parse_try_unfold. destruct (line_phase p) as [[e|[]] p1]; [done|..|done].
  destruct (headers_phase p1) as [[e|[]] p2]; [done|..|done].
  by destruct (body_phase out p2) as [[e|[body|]] p3].
Qed.

Lemma line_phase_no_fuel p p' : line_phase p ≠ (inl OutOfFuel, p').
Proof.
  rewrite line_phase_unfold. destruct (decide _); [|done].
  rewrite parseRequestLine_unfold. destruct (find_from _ _ _) as [eol|]; [|by case_if].
  pose proof (read_request_line_throws (substr (buffer_ p) 0 (eol - 0)) p) as Ht.
  destruct (read_request_line _ p) as [[err|[]] q]; [|done]. intros [= -> _].
  by destruct (Ht _ eq_refl).
Qed.

Lemma headers_phase_no_fuel p p' : headers_phase p ≠ (inl OutOfFuel, p').
Proof.
  rewrite headers_phase_unfold. destruct (decide _); [|done].
  pose proof (parseHeaders_no_fuel_error (S (length (buffer_ p))) (consumed_ p) p) as Hn.
  destruct (parseHeaders _ _ p) as [[err|[pos|]] q]; [|..|done].
  - intros [= -> _]. by apply (Hn q); [apply enough_full|].
  - pose proof (read_framing_throws (set_consumed pos q)) as Ht.
    destruct (read_framing _) as [[err|[]] q']; [|done]. intros [= -> _].
    by destruct (Ht _ eq_refl).
Qed.

(** ** Theorems *)

(** C37: a completed request is well formed.  From a parser that only ever
    answered [Incomplete] or [Complete], the request handed out has a
    non-empty method of the allowed characters, a path starting with a slash
    and free of [?], CR and LF, a supported version, at most
    [kMaxHeaderCount] headers with lower-case names free of blanks and colons
    and values free of CR, LF and surrounding blanks, a body of exactly the declared Content-Length (at most
    [kMaxBodyBytes], none when absent), never both Content-Length and
    Transfer-Encoding, never a chunked body, and the keep-alive flag of its
    Connection header or version; and the parser is well formed again. *)
Theorem parser_request_wf out p r p' :
  parser_wf p → (size_of (buffer_ p) < 2 ^ 64)%Z → parse out p = (Complete, r, p') →
  request_wf r ∧ parser_wf p'.
Proof. intros Hp Hsz H. destruct (parse_wf out p _ _ _ Hsz Hp H) as [? Hc]; [done|]. by destruct Hc. Qed.

Definition parser_request_wf_raw : bytes :=
  str "POST /a?x=1 HTTP/1.1" ++ crlf ++ str "Content-Length: 5" ++ crlf ++ crlf ++ str "helloGET".

Lemma parser_request_wf_witness :
  let p := append parser_request_wf_raw newHttpParser in
  let res := parse emptyRequest p in
  rq_body res.1.2 = str "hello" ∧ request_wf res.1.2.
Proof.
  intros p res. split; [vm_compute; reflexivity|].
  refine (proj1 (parser_request_wf emptyRequest p res.1.2 res.2 _ _ _)).
  - apply append_wf, newHttpParser_wf.
  - vm_compute. reflexivity.
  - vm_compute. reflexivity.
Defined.

(** A completed request consumes input.  What stays buffered is a proper
    suffix of what was buffered, so the worker's loop that drains pipelined
    requests terminates; [Incomplete] and [Error] leave the buffer as it
    was. *)
Theorem parser_progress out p st r p' :
  parser_wf p → (size_of (buffer_ p) < 2 ^ 64)%Z → parse out p = (st, r, p') →
  match st with
  | Complete => ∃ n, 0 < n ≤ length (buffer_ p) ∧ buffer_ p' = drop n (buffer_ p)
  | _ => buffer_ p' = buffer_ p ∧ r = out
  end.
Proof.
  intros Hp Hsz H. destruct st.
  - by destruct (parse_resume out p [] r p' H) as (-> & -> & _).
  - destruct (parse_wf out p _ _ _ Hsz Hp H) as [_ Hc]; [done|]. by destruct Hc.
  - pose proof (parse_buffer out p) as Hb. rewrite H in Hb. split; [by apply Hb|].
    unfold parse in H. destruct (parse_try out p) as [[e|[st r0]] q] eqn:Ht; [by simplify_eq|].
    injection H as -> -> ->. by apply parse_try_no_Error in Ht.
Qed.

Lemma parser_progress_witness :
  let p := append parser_request_wf_raw newHttpParser in
  ∃ n, 0 < n ≤ length (buffer_ p) ∧ buffer_ (parse emptyRequest p).2 = drop n (buffer_ p).
Proof.
  intros p.
  refine (parser_progress emptyRequest p Complete (parse emptyRequest p).1.2 (parse emptyRequest p).2 _ _ _).
  - apply append_wf, newHttpParser_wf.
  - vm_compute. reflexivity.
  - vm_compute. reflexivity.
Defined.

(** The header loop terminates.  The fuel [parse] hands to the header
    loop is never used up, from any parser state whatsoever, so every
    [Error] it answers is one of the parser's own exceptions. *)
Theorem parse_never_out_of_fuel out p p' : parse_try out p ≠ (inl OutOfFuel, p').
Proof.
  rewrite parse_try_unfold. destruct (line_phase p) as [[e|[]] p1] eqn:H1; [|..|done].
  { intros [= -> ->]. by apply line_phase_no_fuel in H1. }
  destruct (headers_phase p1) as [[e|[]] p2] eqn:H2; [|..|done].
  { intros [= -> ->]. by apply headers_phase_no_fuel in H2. }
  destruct (body_phase out p2) as [[e|[body|]] p3] eqn:H3; [|done..].
  by apply body_phase_no_throw in H3.
Qed.

(** The parser meets what the cache key relies on. *)
Lemma method_char_not_SP s : forallb method_char s = true → SP ∉ s.
Proof. rewrite forallb_forall. intros H Hin%list_elem_of_In. by specialize (H _ Hin). Qed.

#[export] Instance request_wf_keyable r : request_wf r → KeyableRequest r.
Proof.
  intros [(_ & Hm & _ & Hq & _) _ _ _ _]. split; [by apply method_char_not_SP|done].
Qed.
