(* ===== verification/HttpParserRoundTrip.v ===== *)
(** * Printing a request and parsing it back

    The reference printer writes a request the way a client does; parsing
    what it wrote gives the request back and leaves the bytes that follow it
    in the buffer for the next pipelined request. *)
From S2P Require Import Prelude CxxString HttpMessage HttpParser HttpParserResume HttpParserSafety.

Abbreviation header_fields := (list (bytes * bytes)).

Definition print_target (path query : bytes) : bytes :=
  path ++ if decide (query = []) then [] else "?"%char :: query.

Definition print_line (method path query version : bytes) : bytes :=
  method ++ SP :: print_target path query ++ SP :: version.

Definition print_header (h : bytes * bytes) : bytes := h.1 ++ ":"%char :: SP :: h.2.

Definition print_headers (hs : header_fields) : bytes := concat ((λ h, print_header h ++ crlf) <$> hs).

Definition print_request (method path query version : bytes) (hs : header_fields) (body : bytes) : bytes :=
  print_line method path query version ++ crlf ++ print_headers hs ++ crlf ++ body.

(** A field a client may send: any case in the name. *)
Definition printable_header (h : bytes * bytes) : Prop :=
  h.1 ≠ [] ∧ (∀ c, c ∈ [SP; HT; CR; LF; ":"%char] → c ∉ h.1) ∧
  (∀ c, c ∈ [CR; LF] → c ∉ h.2) ∧ trimmed h.2.

(** The header map of a list of fields: names in lower case, the last of
    several fields of one name wins. *)
Definition fold_headers (hs : header_fields) : gmap bytes bytes :=
  foldl (λ m h, <[to_lower h.1 := h.2]> m) ∅ hs.

Definition field_names (hs : header_fields) : list bytes := (λ h, to_lower h.1) <$> hs.

Record printable (method path query version : bytes) (hs : header_fields) (body : bytes) : Prop := {
  pr_line : line_wf method path query version;
  pr_headers : Forall printable_header hs;
  pr_nodup : NoDup (filter (λ k, framing_header k = true) (field_names hs));
  pr_count : (Z.of_nat (length hs) ≤ kMaxHeaderCount)%Z;
  pr_framing : framing_wf (fold_headers hs) (size_of body)
}.

(** ** Trimming *)

Lemma trim_pad ws v :
  Forall (λ c, c ∈ [SP; HT]) ws → trimmed v → (size_of (ws ++ v) < 2 ^ 64)%Z → trim (ws ++ v) = v.
Proof. intros Hws [Hh Hl]. by apply trim_with_pad. Qed.

(** ** One line *)

Lemma print_target_slash path query :
  head path = Some "/"%char → head (print_target path query) = Some "/"%char.
Proof. by destruct path. Qed.

Lemma method_chars_clean c s :
  forallb method_char s = true → method_char c = false → c ∉ s.
Proof. rewrite forallb_forall. intros H Hc Hin%list_elem_of_In. specialize (H _ Hin). congruence. Qed.

Lemma rfind_char_hit c a b : c ∉ b → rfind_char c (a ++ c :: b) = Some (length a).
Proof. intros H. apply rfind_if_hit; [by apply Forall_eqc_false|by apply eqc_true]. Qed.

Lemma find_first_of_miss set s : (∀ c, c ∈ set → c ∉ s) → find_first_of set s = None.
Proof.
  intros H. apply find_if_None, Forall_forall. intros c Hc. apply one_of_false. intros Hs.
  by apply (H c).
Qed.

Lemma version_no_SP v : v = str "HTTP/1.1" ∨ v = str "HTTP/1.0" → SP ∉ v.
Proof. intros [-> | ->]; by_decide. Qed.

Lemma read_request_line_print method path query version p :
  line_wf method path query version →
  read_request_line (print_line method path query version) p =
  (inr tt, set_target path query (set_line method version p)).
Proof.
  intros (Hm & Hmc & Hslash & Hq & Hcl & Hv). unfold read_request_line, print_line.
  set (t := print_target path query).
  assert (SP ∉ method) as Hsp by (by apply method_char_not_SP).
  rewrite (find_char_hit SP method (t ++ SP :: version)) by done.
  assert (method ++ SP :: t ++ SP :: version = (method ++ SP :: t) ++ SP :: version) as E
    by (by rewrite <- app_assoc).
  rewrite E, (rfind_char_hit SP (method ++ SP :: t) version) by (by apply version_no_SP).
  rewrite length_app. change (length (SP :: t)) with (S (length t)). rewrite decide_False by lia. cbv zeta.
  assert (substr ((method ++ SP :: t) ++ SP :: version) 0 (length method) = method) as ->.
  { rewrite <- E. unfold substr. by rewrite drop_0, take_app_length. }
  assert (substr ((method ++ SP :: t) ++ SP :: version) (length method + 1)
            (length method + S (length t) - length method - 1) = t) as ->.
  { rewrite <- E. change (SP :: t ++ SP :: version) with ([SP] ++ t ++ SP :: version).
    rewrite app_assoc. replace (length method + 1) with (length (method ++ [SP]))
      by (rewrite length_app; done).
    replace (length method + S (length t) - length method - 1) with (length t) by lia.
    apply substr_mid. }
  assert (drop (length method + S (length t) + 1) ((method ++ SP :: t) ++ SP :: version) = version) as ->.
  { rewrite drop_app_ge by (rewrite length_app; simpl; lia). rewrite length_app. simpl.
    by replace (length method + S (length t) + 1 - (length method + S (length t))) with 1 by lia. }
  unfold guard_throw, mbind, st_bind, mret, st_ret, throw, modify.
  replace (negb (bool_decide (version = str "HTTP/1.1")) &&
           negb (bool_decide (version = str "HTTP/1.0"))) with false
    by (destruct Hv as [-> | ->]; reflexivity).
  rewrite (bool_decide_false (method = [])), Hmc by done. simpl negb. simpl orb.
  rewrite (bool_decide_true (head t = _)) by (by apply print_target_slash).
  rewrite (find_first_of_miss [CR; LF] t).
  2: { intros c Hc. destruct (Hcl c Hc). unfold t, print_target. destruct (decide _); set_solver. }
  simpl. unfold t, print_target. destruct (decide (query = [])) as [->|Hne].
  - by rewrite app_nil_r, find_char_miss.
  - rewrite find_char_hit by done. unfold substr. rewrite drop_0, take_app_length.
    rewrite decide_False by (by intros ->). f_equal. f_equal.
    rewrite drop_app_ge by lia. by replace (length path + 1 - length path) with 1 by lia.
Qed.

Definition store (h : bytes * bytes) (p : HttpParser) : HttpParser :=
  store_header (to_lower h.1) h.2 (count_header p).

Lemma read_header_line_print h p :
  printable_header h → (size_of (print_header h) < 2 ^ 64)%Z →
  (0 ≤ headerCount_ p < kMaxHeaderCount)%Z → (framing_header (to_lower h.1) = true → headers_ p !! to_lower h.1 = None) →
  read_header_line (print_header h) p = (inr tt, store h p).
Proof.
  destruct h as [k v]. intros (Hk & Hkc & Hvc & Htr) Hsz Hcnt Hnone.
  unfold read_header_line, print_header, store in *. cbn [fst snd] in *.
  rewrite find_char_hit by (apply Hkc; by_decide).
  unfold size_of in Hsz. rewrite length_app in Hsz. simpl in Hsz.
  unfold substr. rewrite drop_0, take_app_length.
  rewrite drop_app_ge by lia. replace (length k + 1 - length k) with 1 by lia.
  change (drop 1 (":"%char :: SP :: v)) with ([SP] ++ v).
  rewrite (trim_pad [SP] v); [|repeat constructor|done|unfold size_of; simpl; lia].
  assert (trim k = k) as ->.
  { apply (trim_pad [] k); [done| |unfold size_of; simpl; lia].
    split; intros c Hc Hin.
    - apply (Hkc c); [by apply (elem_of_app [SP; HT] [CR; LF; ":"%char]); left|].
      destruct k; simplify_eq/=. apply list_elem_of_here.
    - apply (Hkc c); [by apply (elem_of_app [SP; HT; CR] [LF; ":"%char]); left|].
      apply last_Some in Hc as [? ->]. apply elem_of_app. right. apply list_elem_of_here. }
  unfold guard_throw, mbind, st_bind, mret, st_ret, throw, modify, get.
  rewrite (bool_decide_false (to_lower k = [])) by (by destruct k).
  rewrite !find_first_of_miss; [|done|].
  2: { intros c Hc. apply to_lower_blank; [|apply Hkc]; by apply (elem_of_app [SP; HT; CR; LF] [":"%char]); left. }
  cbn [orb is_Some_dec bool_decide headerCount_ count_header headers_].
  unfold kMaxHeaderCount in *. rewrite u64_small by lia.
  destruct (Z.ltb_spec 100 (headerCount_ p + 1)); [lia|].
  destruct (framing_header (to_lower k)); [by rewrite Hnone|by rewrite andb_false_r].
Qed.

(** ** The header block *)

Definition stored (hs : header_fields) (p : HttpParser) : HttpParser := foldl (flip store) p hs.

Lemma store_consumed n h p : set_consumed n (store h (set_consumed n p)) = set_consumed n (store h p).
Proof. done. Qed.

Lemma stored_consumed n m hs p :
  set_consumed n (stored hs (set_consumed m p)) = set_consumed n (stored hs p).
Proof.
  revert p. induction hs as [|h hs IH]; intros p; simpl; [done|].
  change (store h (set_consumed m p)) with (set_consumed m (store h p)). apply IH.
Qed.

Lemma printable_header_no_LF h : printable_header h → LF ∉ print_header h.
Proof.
  intros (_ & Hk & Hv & _). unfold print_header.
  specialize (Hk LF). specialize (Hv LF).
  rewrite elem_of_app, !elem_of_cons. intros [?|[?|[?|?]]]; [apply Hk; [by_decide|done]|done|done|].
  apply Hv; [by_decide|done].
Qed.

Lemma find_header_end pre h rest :
  printable_header h →
  find_from crlf (pre ++ print_header h ++ crlf ++ rest) (length pre) =
  Some (length pre + length (print_header h)).
Proof.
  intros Hh. rewrite find_from_here, find_crlf_line by (by apply printable_header_no_LF). done.
Qed.

Lemma print_header_nonempty h : length (print_header h) ≠ 0.
Proof. unfold print_header. rewrite length_app. simpl. lia. Qed.

(** Room in the parser for these headers. *)
Definition room (hs : header_fields) (p : HttpParser) : Prop :=
  (0 ≤ headerCount_ p)%Z ∧ (headerCount_ p + Z.of_nat (length hs) ≤ kMaxHeaderCount)%Z ∧
  NoDup (filter (λ k, framing_header k = true) (field_names hs)) ∧
  ∀ k, k ∈ field_names hs → framing_header k = true → headers_ p !! k = None.

Lemma room_store h hs p n : room (h :: hs) p → room hs (set_consumed n (store h p)).
Proof.
  intros (H1 & H2 & H3 & H4). unfold kMaxHeaderCount in *. rewrite length_cons in H2.
  unfold field_names in *. rewrite fmap_cons, filter_cons in H3. unfold store. split_and!; simpl.
  - apply u64_range.
  - unfold kMaxHeaderCount. rewrite u64_small by lia. lia.
  - case_decide; [by apply NoDup_cons in H3 as [_ ?]|done].
  - intros k Hk Hf. rewrite lookup_insert_ne; [apply H4; [by apply list_elem_of_further|done]|].
    intros <-. rewrite decide_True in H3 by done. apply NoDup_cons in H3 as [H3 _].
    apply H3. by apply list_elem_of_filter.
Qed.

Lemma parseHeaders_print hs pre rest f p :
  Forall printable_header hs → room hs p → (size_of (buffer_ p) < 2 ^ 64)%Z →
  buffer_ p = pre ++ print_headers hs ++ crlf ++ rest →
  enough f (length pre) p →
  ∃ q, parseHeaders f (length pre) p =
         (inr (Some (length (pre ++ print_headers hs ++ crlf))), q) ∧
       ∀ n, set_consumed n q = set_consumed n (stored hs p).
Proof.
  revert pre f p. induction hs as [|h hs IH]; intros pre f p Hhs Hroom Hsz Hbuf Hf;
    (destruct f as [|f]; [by destruct Hf; lia|]); rewrite parseHeaders_unfold, Hbuf.
  - change (print_headers []) with (@nil ascii).
    rewrite find_from_here, (find_crlf_line [] rest) by by_decide. simpl.
    rewrite decide_True by lia. exists p. split; [|done]. f_equal. f_equal. f_equal.
    rewrite length_app. simpl. lia.
  - apply Forall_cons in Hhs as [Hh Hhs].
    change (print_headers (h :: hs)) with ((print_header h ++ crlf) ++ print_headers hs).
    assert (∀ r, pre ++ ((print_header h ++ crlf) ++ print_headers hs) ++ r =
                 pre ++ print_header h ++ crlf ++ print_headers hs ++ r) as Eb.
    { intros r. by rewrite <- !app_assoc. }
    change (print_headers (h :: hs)) with ((print_header h ++ crlf) ++ print_headers hs) in Hbuf.
    rewrite Eb in Hbuf. rewrite !Eb, find_header_end by done.
    pose proof (print_header_nonempty h). rewrite decide_False by lia.
    rewrite Nat.add_sub', substr_mid.
    destruct Hroom as (R1 & R2 & R3 & R4) eqn:HR. clear HR.
    rewrite read_header_line_print; [|done| | |].
    2: { rewrite Hbuf in Hsz. unfold size_of in *. rewrite !length_app in Hsz. lia. }
    2: { unfold kMaxHeaderCount in *. rewrite length_cons in R2. lia. }
    2: { apply R4. apply list_elem_of_here. }
    set (pos := length pre + length (print_header h) + 2).
    assert (pos = length (pre ++ print_header h ++ crlf)) as Epos
      by (unfold pos; rewrite !length_app; simpl; lia).
    destruct (IH (pre ++ print_header h ++ crlf) f (set_consumed pos (store h p)))
      as (q & Hq & Hn).
    + done.
    + by apply room_store.
    + done.
    + simpl. by rewrite Hbuf, <- !app_assoc.
    + rewrite <- Epos. destruct Hf as [Hf1 Hf2]. unfold enough. simpl. rewrite Hbuf in *.
      rewrite !length_app in *. change (length crlf) with 2 in *. unfold pos. lia.
    + exists q. rewrite <- Epos in Hq. rewrite Hq. split.
      * by rewrite <- !app_assoc.
      * intros n. rewrite Hn. exact (stored_consumed n pos hs (store h p)).
Qed.

(** The members after a block of headers. *)
Lemma stored_fields hs p :
  (0 ≤ headerCount_ p)%Z → (headerCount_ p + Z.of_nat (length hs) ≤ kMaxHeaderCount)%Z →
  stored hs p = mkHttpParser (buffer_ p) (state_ p) (method_ p) (path_ p) (query_ p) (version_ p)
    (foldl (λ m h, <[to_lower h.1 := h.2]> m) (headers_ p) hs) (contentLength_ p) (chunked_ p)
    (headerCount_ p + Z.of_nat (length hs)) (consumed_ p).
Proof.
  unfold kMaxHeaderCount. revert p. induction hs as [|h hs IH]; intros p H0 H1.
  - simpl. rewrite Z.add_0_r. by destruct p.
  - rewrite length_cons in H1. simpl stored.
    rewrite IH; unfold store; simpl headerCount_; rewrite u64_small by lia; [|lia..].
    rewrite length_cons. simpl. f_equal. lia.
Qed.

(** Distinct lower-case names: the map of the list. *)
Lemma fold_headers_distinct hs :
  NoDup hs.*1 → Forall (λ h, to_lower h.1 = h.1) hs → fold_headers hs = list_to_map hs.
Proof.
  unfold fold_headers. induction hs as [|h hs IH] using rev_ind; intros Hnd Hlow; [done|].
  assert (hs ++ [h] ≡ₚ h :: hs) as Hp by (by rewrite Permutation_app_comm).
  apply Forall_app in Hlow as [Hl [Hh _]%Forall_cons].
  rewrite (list_to_map_proper _ _ Hnd Hp), foldl_snoc. simpl. rewrite IH, Hh; [by destruct h| |done].
  rewrite fmap_app in Hnd. by apply NoDup_app in Hnd as [? _].
Qed.

(** ** Framing and the whole request *)

Lemma read_framing_print hs len p :
  framing_wf hs len → headers_ p = hs → contentLength_ p = 0%Z → chunked_ p = false →
  read_framing p = (inr tt, set_state Body (set_contentLength len p)).
Proof.
  intros [Hcl Hte] <- Hc0 Hch. unfold read_framing. cbv zeta.
  unfold mbind, st_bind, guard_throw, modify, get, mret, st_ret, throw.
  assert (match headers_ p !! str "transfer-encoding" with
          | Some v => contains (str "chunked") (to_lower v) | None => false end = false) as Hno.
  { destruct (headers_ p !! str "transfer-encoding") as [v|]; [by apply Hte|done]. }
  rewrite Hno. destruct (headers_ p !! str "content-length") as [v|].
  - destruct Hcl as (-> & Hle & ->). destruct (Z.ltb_spec kMaxBodyBytes len); [lia|].
    simpl. unfold set_chunked, set_contentLength, set_state. simpl. by rewrite Hch.
  - subst len. rewrite andb_false_r. unfold set_chunked, set_contentLength, set_state. simpl.
    by rewrite Hch, Hc0.
Qed.

Lemma print_line_no_LF method path query version :
  line_wf method path query version → LF ∉ print_line method path query version.
Proof.
  intros (_ & Hm & _ & _ & Hcl & Hv). destruct (Hcl LF) as [Hp Hq]; [by_decide|].
  unfold print_line, print_target. rewrite !elem_of_app, !elem_of_cons, !elem_of_app, !elem_of_cons.
  assert (LF ∉ method) by (by apply method_chars_clean).
  assert (LF ∉ version) by (destruct Hv as [-> | ->]; by_decide).
  destruct (decide (query = [])); rewrite ?elem_of_cons; set_solver.
Qed.

Lemma body_phase_print out p body rest :
  state_ p = Body → contentLength_ p = size_of body →
  buffer_ p = take (consumed_ p) (buffer_ p) ++ body ++ rest →
  (size_of (buffer_ p) < 2 ^ 64)%Z → consumed_ p ≤ length (buffer_ p) →
  body_phase out p = (inr (Some body), set_consumed (consumed_ p + length body) p).
Proof.
  intros Hst Hcl Hbuf Hsz Hc. unfold body_phase, mbind, st_bind, get, modify, mret, st_ret.
  rewrite decide_True, Hcl by done. rewrite size_minus_consumed; [|split; [done|]|done].
  2: { rewrite Hcl. unfold size_of in *. rewrite Hbuf, !length_app in Hsz. lia. }
  assert (drop (consumed_ p) (buffer_ p) = body ++ rest) as Hd.
  { rewrite Hbuf at 1. apply drop_app_length'. rewrite length_take. lia. }
  pose proof (f_equal length Hd) as Hlen. rewrite length_drop, length_app in Hlen.
  destruct (Z.ltb_spec (size_of (buffer_ p) - Z.of_nat (consumed_ p)) (size_of body));
    unfold size_of in *; [lia|].
  f_equal; [f_equal; f_equal|f_equal; lia].
  unfold substrZ. rewrite Hd. unfold size_of. rewrite length_app, take_app_le, take_ge by lia. done.
Qed.

(** What the parser infers about keeping the connection open. *)
Definition wants_keep_alive (version : bytes) (headers : gmap bytes bytes) : bool :=
  match headers !! str "connection" with
  | Some v => negb (bool_decide (to_lower v = str "close"))
  | None => bool_decide (version = str "HTTP/1.1")
  end.

Lemma print_parses out method path query version hs body rest :
  printable method path query version hs body →
  (size_of (print_request method path query version hs body ++ rest) < 2 ^ 64)%Z →
  parse out (append (print_request method path query version hs body ++ rest) newHttpParser) =
  (Complete,
   mkHttpRequest method path query version (fold_headers hs) body
     (wants_keep_alive version (fold_headers hs)) (rq_requestId out),
   append rest newHttpParser).
Proof.
  intros [Hl Hhs Hnd Hcnt Hfr] Hsz. set (p := append _ newHttpParser).
  set (line := print_line method path query version) in *.
  assert (buffer_ p = (line ++ crlf) ++ print_headers hs ++ crlf ++ body ++ rest) as Hbuf.
  { unfold p, print_request. cbn [buffer_ append newHttpParser]. rewrite app_nil_l.
    fold line. by rewrite <- !app_assoc. }
  unfold parse. rewrite parse_try_unfold, line_phase_unfold, decide_True by done.
  rewrite parseRequestLine_unfold, find_from_0.
  rewrite Hbuf, <- app_assoc, find_crlf_line by (by apply print_line_no_LF).
  rewrite Nat.sub_0_r. unfold substr. rewrite drop_0, take_app_length.
  unfold line at 1. rewrite read_request_line_print by done.
  set (p1 := set_consumed _ _).
  rewrite headers_phase_unfold, decide_True by done.
  destruct (parseHeaders_print hs (line ++ crlf) (body ++ rest) (S (length (buffer_ p1))) p1)
    as (q & Hq & Hn).
  - done.
  - split_and!; [simpl; lia|simpl; lia|done|by intros].
  - exact Hsz.
  - exact Hbuf.
  - apply enough_full.
  - assert (consumed_ p1 = length (line ++ crlf)) as ->
      by (by rewrite length_app).
    rewrite Hq, Hn, stored_fields by (simpl; lia).
    rewrite (read_framing_print (fold_headers hs) (size_of body)) by done.
    change (foldl _ (headers_ p1) hs) with (fold_headers hs).
    set (pre := (line ++ crlf) ++ print_headers hs ++ crlf).
    assert (buffer_ p = pre ++ body ++ rest) as Hpre.
    { rewrite Hbuf. unfold pre. by rewrite <- !app_assoc. }
    rewrite (body_phase_print _ _ body rest); [|done|done| |exact Hsz|];
      cbn [consumed_ buffer_ set_consumed set_state set_contentLength];
      change (buffer_ p1) with (buffer_ p); rewrite Hpre.
    + unfold append, recycle, emit, wants_keep_alive.
      cbn [buffer_ consumed_ set_consumed set_state set_contentLength headers_ method_ path_ query_
           version_].
      by rewrite app_assoc, <- length_app, drop_app_length.
    + by rewrite take_app_length.
    + rewrite length_app. lia.
Qed.

(** The values of the fields of one name, in the order in which they are
    sent. *)
Definition values_of (k : bytes) (hs : header_fields) : list bytes := (filter (λ h, to_lower h.1 = k) hs).*2.

Lemma fold_headers_last hs k : fold_headers hs !! k = last (values_of k hs).
Proof.
  unfold fold_headers, values_of. induction hs as [|h hs IH] using rev_ind; [done|].
  rewrite foldl_snoc, filter_app, fmap_app. destruct (decide (to_lower h.1 = k)) as [<-|Hne].
  - rewrite lookup_insert_eq, filter_cons_True, filter_nil by done. cbn [fmap list_fmap]. by rewrite last_snoc.
  - rewrite lookup_insert_ne, filter_cons_False, filter_nil by done. cbn [fmap list_fmap]. by rewrite app_nil_r.
Qed.

(** C10: parsing inverts printing, but for repeated fields.  For every printable
    request (any method, target, version, list of header fields without a
    repeated framing field, and body within the parser's limits), parsing its
    printed bytes followed by anything completes and leaves a fresh parser
    that has buffered exactly what followed it; method, path, query, version
    and body are those printed, the connection is kept as the version and the
    Connection field say, and under each header name (in lower case) is the
    value of the last field of that name: the value sent, when the name was
    sent once, and nothing when it was not sent.  The earlier values of a
    repeated field are lost. *)
Theorem parse_print out method path query version hs body rest :
  printable method path query version hs body →
  (size_of (print_request method path query version hs body ++ rest) < 2 ^ 64)%Z →
  ∃ r, parse out (append (print_request method path query version hs body ++ rest) newHttpParser) =
      (Complete, r, append rest newHttpParser) ∧
    rq_method r = method ∧ rq_path r = path ∧ rq_query r = query ∧ rq_version r = version ∧ rq_body r = body ∧
    rq_requestId r = rq_requestId out ∧
    (∀ k, rq_headers r !! k = last (values_of k hs)) ∧
    rq_keepAlive r = match last (values_of (str "connection") hs) with
                     | Some v => bool_decide (to_lower v ≠ str "close")
                     | None => bool_decide (version = str "HTTP/1.1")
                     end.
Proof.
  intros Hp Hsz. eexists. split; [by apply print_parses|].
  cbn [rq_method rq_path rq_query rq_version rq_body rq_requestId rq_headers rq_keepAlive]. split_and!; try done.
  - intros k. apply fold_headers_last.
  - unfold wants_keep_alive. rewrite fold_headers_last. destruct (last (values_of (str "connection") hs)) as [v|]; [|done]. by repeat case_bool_decide.
Qed.

Definition post_fields : header_fields :=
  [(str "Host", str "api.local"); (str "Content-Length", str "5"); (str "connection", str "Close")].

Lemma parse_print_witness :
  let raw := print_request (str "POST") (str "/v1/items") (str "q=1") (str "HTTP/1.1")
               post_fields (str "hello") ++ str "GET /next" in
  ∃ r, parse emptyRequest (append raw newHttpParser) = (Complete, r, append (str "GET /next") newHttpParser) ∧
    rq_method r = str "POST" ∧ rq_path r = str "/v1/items" ∧ rq_query r = str "q=1" ∧ rq_version r = str "HTTP/1.1" ∧
    rq_body r = str "hello" ∧ rq_requestId r = [] ∧
    (∀ k, rq_headers r !! k = last (values_of k post_fields)) ∧ rq_keepAlive r = false.
Proof.
  refine (parse_print emptyRequest (str "POST") (str "/v1/items") (str "q=1") (str "HTTP/1.1")
            post_fields (str "hello") (str "GET /next") _ _); [split|vm_compute; reflexivity].
  - split_and!; try by_decide. intros c Hc. repeat (apply elem_of_cons in Hc as [->|Hc]; [by_decide|]).
    by apply elem_of_nil in Hc.
  - repeat constructor; try by_decide; cbn; intros c Hc;
      repeat (apply elem_of_cons in Hc as [->|Hc]; [by_decide|]); try (by apply elem_of_nil in Hc);
      simplify_eq; by_decide.
  - by_decide.
  - by_decide.
  - split; [vm_compute; split_and!; congruence|by intros].
Defined.

(** Repeated fields are not coalesced: of two values of one field the first is
    lost. *)
Theorem repeated_field_overwritten :
  let raw := print_request (str "GET") (str "/") [] (str "HTTP/1.1") [(str "Cookie", str "a=1"); (str "Cookie", str "b=2")] [] in
  (λ r, rq_headers r !! str "cookie") (parse emptyRequest (append raw newHttpParser)).1.2 = Some (str "b=2").
Proof. vm_compute. reflexivity. Qed.
