(* ===== verification/LoadBalancer.v ===== *)
(** * Backends and load balancing (include/routing/LoadBalancer.hpp)

    Backends are shared objects ([shared_ptr<Backend>]): a store of backends
    addressed by position, and a load balancer holds addresses.  [pick] is
    modelled as one thread runs it; the round robin's loop is also modelled
    as a step relation, one [fetch_add] per step, for any number of threads
    picking from the same balancer. *)
From S2P Require Import Prelude CxxString CircuitBreaker.

Record Backend := mkBackend {
  host : bytes;
  port : Z;
  healthy : bool;
  activeConnections : Z;
  circuitBreaker : CircuitBreaker
}.

Definition address (b : Backend) : bytes := host b ++ str ":" ++ to_string (port b).

(** The shared backends; a pointer is a position. *)
Abbreviation bstore := (list Backend).
Abbreviation bptr := nat.

Inductive LbStrategy := RoundRobin | LeastConnections.
#[global] Instance LbStrategy_eq_dec : EqDecision LbStrategy.
Proof. solve_decision. Defined.

Record LoadBalancer := mkLoadBalancer {
  backends_ : list bptr;
  strategy_ : LbStrategy;
  rrCounter_ : Z           (* atomic size_t *)
}.

Definition newLoadBalancer (backends : list bptr) (strategy : LbStrategy) : LoadBalancer :=
  mkLoadBalancer backends strategy 0.

Definition is_healthy (st : bstore) (b : bptr) : bool := from_option healthy false (st !! b).
Definition conns (st : bstore) (b : bptr) : Z := from_option activeConnections 0%Z (st !! b).

(** [rrCounter_.fetch_add(1)]. *)
Definition fetch_add (lb : LoadBalancer) : Z * LoadBalancer :=
  (rrCounter_ lb, mkLoadBalancer (backends_ lb) (strategy_ lb) (rrCounter_ lb +u 1)).

(** [backends_[c % n]]. *)
Definition at_ticket (lb : LoadBalancer) (c : Z) : option bptr :=
  backends_ lb !! Z.to_nat (c mod size_of (backends_ lb)).

(** Lines 53-56, [i] iterations left. *)
Fixpoint rr_loop (i : nat) (st : bstore) (lb : LoadBalancer) : option bptr * LoadBalancer :=
  match i with
  | O => (None, lb)
  | S i' =>
      let '(c, lb') := fetch_add lb in
      match at_ticket lb c with
      | Some b => if is_healthy st b then (Some b, lb') else rr_loop i' st lb'
      | None => rr_loop i' st lb'
      end
  end.

Definition pickRoundRobin (st : bstore) (lb : LoadBalancer) : option bptr * LoadBalancer :=
  rr_loop (length (backends_ lb)) st lb.

(** Lines 63-70: one backend against the best so far. *)
Definition least_step (st : bstore) (best : option bptr * Z) (b : bptr) : option bptr * Z :=
  if is_healthy st b then
    if bool_decide (best.1 = None) || (conns st b <? best.2)%Z then (Some b, conns st b) else best
  else best.

Definition pickLeastConnections (st : bstore) (lb : LoadBalancer) : option bptr :=
  (foldl (least_step st) (None, (-1)%Z) (backends_ lb)).1.

Definition pick (st : bstore) (lb : LoadBalancer) : option bptr * LoadBalancer :=
  if decide (backends_ lb = []) then (None, lb)
  else
    match strategy_ lb with
    | RoundRobin => pickRoundRobin st lb
    | LeastConnections => (pickLeastConnections st lb, lb)
    end.

(** ** Round robin *)

Lemma fetch_add_unfold lb c lb' :
  fetch_add lb = (c, lb') →
  c = rrCounter_ lb ∧ backends_ lb' = backends_ lb ∧ strategy_ lb' = strategy_ lb ∧
  rrCounter_ lb' = (c +u 1)%Z.
Proof. by intros [= <- <-]. Qed.

Lemma at_ticket_lookup lb c :
  backends_ lb ≠ [] → ∃ b, at_ticket lb c = Some b ∧ b ∈ backends_ lb.
Proof.
  intros Hne. unfold at_ticket. destruct (backends_ lb !! _) as [b|] eqn:E.
  - exists b. split; [done|]. by eapply list_elem_of_lookup_2.
  - apply lookup_ge_None in E. unfold size_of in E.
    assert (length (backends_ lb) ≠ 0) by (by destruct (backends_ lb)).
    pose proof (Z.mod_pos_bound c (Z.of_nat (length (backends_ lb))) ltac:(lia)). lia.
Qed.

Lemma at_ticket_backends lb lb' c : backends_ lb' = backends_ lb → at_ticket lb' c = at_ticket lb c.
Proof. unfold at_ticket. by intros ->. Qed.

(** What [i] iterations from ticket [c] find. *)
Lemma rr_loop_spec i st lb r lb' :
  backends_ lb ≠ [] → (0 ≤ rrCounter_ lb)%Z → (rrCounter_ lb + Z.of_nat i ≤ 2 ^ 64)%Z →
  rr_loop i st lb = (r, lb') →
  backends_ lb' = backends_ lb ∧ strategy_ lb' = strategy_ lb ∧
  match r with
  | Some b => ∃ j, j < i ∧ at_ticket lb (rrCounter_ lb + Z.of_nat j) = Some b ∧
      is_healthy st b = true ∧
      (∀ k b', k < j → at_ticket lb (rrCounter_ lb + Z.of_nat k) = Some b' → is_healthy st b' = false) ∧
      rrCounter_ lb' = u64 (rrCounter_ lb + Z.of_nat j + 1)
  | None => ∀ k b', k < i → at_ticket lb (rrCounter_ lb + Z.of_nat k) = Some b' → is_healthy st b' = false
  end.
Proof.
  revert lb. induction i as [|i IH]; intros lb Hne H0 Hmax; simpl.
  { intros [= <- <-]. split_and!; [done..|]. intros; lia. }
  destruct (at_ticket_lookup lb (rrCounter_ lb) Hne) as (b & Hb & _). rewrite Hb.
  destruct (is_healthy st b) eqn:Hh.
  - intros [= <- <-]. split_and!; [done..|]. exists 0. rewrite Z.add_0_r.
    split_and!; [lia|done|done|lia|done].
  - set (lb1 := mkLoadBalancer _ _ _). intros H.
    destruct i as [|i].
    { simpl in H. injection H as <- <-. split_and!; [done..|].
      intros [|k] b' Hk; [|lia]. rewrite Z.add_0_r. congruence. }
    assert (rrCounter_ lb1 = rrCounter_ lb + 1)%Z as Ec by (simpl; apply u64_small; lia).
    destruct (IH lb1) as (B & St & Hr); [done|lia|lia|done|]. split_and!; [done..|].
    assert (∀ k, at_ticket lb1 (rrCounter_ lb1 + Z.of_nat k) =
                 at_ticket lb (rrCounter_ lb + Z.of_nat (S k))) as Et.
    { intros k. rewrite (at_ticket_backends lb lb1) by done. f_equal. lia. }
    assert (∀ (n : nat), (∀ k b', k < n → at_ticket lb1 (rrCounter_ lb1 + Z.of_nat k) = Some b' →
               is_healthy st b' = false) →
             ∀ k b', k < S n → at_ticket lb (rrCounter_ lb + Z.of_nat k) = Some b' →
               is_healthy st b' = false) as Hshift.
    { intros n Hn [|k] b' Hk; [rewrite Z.add_0_r; congruence|]. rewrite <- Et. apply Hn. lia. }
    destruct r as [b0|]; [|by apply Hshift].
    destruct Hr as (j & Hj & R1 & R2 & R3 & R4). exists (S j).
    split_and!; [lia|by rewrite <- Et|done|by apply Hshift|]. rewrite R4. f_equal. lia.
Qed.

(** Among [n] consecutive tickets every backend comes up. *)
Lemma ticket_covers lb c k b :
  (0 ≤ c)%Z → backends_ lb !! k = Some b →
  ∃ j, j < length (backends_ lb) ∧ at_ticket lb (c + Z.of_nat j) = Some b.
Proof.
  intros Hc Hk. pose proof (lookup_lt_Some _ _ _ Hk) as Hlt. set (n := Z.of_nat (length (backends_ lb))).
  exists (Z.to_nat ((Z.of_nat k - c) mod n)). 
  pose proof (Z.mod_pos_bound (Z.of_nat k - c) n ltac:(lia)).
  split; [lia|]. unfold at_ticket, size_of. fold n. rewrite Z2Nat.id by lia.
  rewrite Z.add_mod_idemp_r by lia. replace (c + (Z.of_nat k - c))%Z with (Z.of_nat k) by lia.
  rewrite Z.mod_small by lia. by rewrite Nat2Z.id.
Qed.

(** ** Least connections *)

(** The scan after a prefix of the backends: the first of the healthy ones
    with the fewest connections. *)
Definition least_ok (st : bstore) (seen : list bptr) (best : option bptr * Z) : Prop :=
  match best.1 with
  | None => ∀ b, b ∈ seen → is_healthy st b = false
  | Some m =>
      is_healthy st m = true ∧ best.2 = conns st m ∧
      ∃ l1 l2, seen = l1 ++ m :: l2 ∧
        (∀ b, b ∈ l1 → is_healthy st b = true → (conns st m < conns st b)%Z) ∧
        (∀ b, b ∈ l2 → is_healthy st b = true → (conns st m ≤ conns st b)%Z)
  end.

Lemma least_step_ok st seen best b :
  least_ok st seen best → least_ok st (seen ++ [b]) (least_step st best b).
Proof.
  destruct best as [[m|] c]; unfold least_ok, least_step; simpl.
  - intros (Hm & -> & l1 & l2 & -> & H1 & H2).
    assert (is_healthy st b = true → (conns st m ≤ conns st b)%Z →
            ∀ b', b' ∈ l2 ++ [b] → is_healthy st b' = true → (conns st m ≤ conns st b')%Z) as Hext.
    { intros ? ? b' [Hin|Hin%list_elem_of_singleton]%elem_of_app ?; [auto|by subst]. }
    destruct (is_healthy st b) eqn:Hb; simpl;
      [destruct (Z.ltb_spec (conns st b) (conns st m)); simpl|]; split_and!; try done.
    + exists (l1 ++ m :: l2), []. split_and!; [done| |by intros b' ?%elem_of_nil].
      intros b' [Hin|[->|Hin]%elem_of_cons]%elem_of_app Hh; [specialize (H1 b' Hin Hh)|..|
        specialize (H2 b' Hin Hh)]; lia.
    + exists l1, (l2 ++ [b]). rewrite <- app_assoc. split_and!; [done|done|]. by apply Hext.
    + exists l1, (l2 ++ [b]). rewrite <- app_assoc. split_and!; [done|done|].
      intros b' [Hin|Hin%list_elem_of_singleton]%elem_of_app ?; [auto|congruence].
  - intros Hnone. destruct (is_healthy st b) eqn:Hb; simpl.
    + split_and!; [done|done|]. exists seen, []. split_and!; [done| |by intros b' ?%elem_of_nil].
      intros b' Hin Hh. by rewrite Hnone in Hh.
    + intros b' [Hin|Hin%list_elem_of_singleton]%elem_of_app; [auto|congruence].
Qed.

Lemma least_scan_ok st l seen best :
  least_ok st seen best → least_ok st (seen ++ l) (foldl (least_step st) best l).
Proof.
  revert seen best. induction l as [|b l IH]; intros seen best H; simpl; [by rewrite app_nil_r|].
  rewrite cons_middle, app_assoc. by apply IH, least_step_ok.
Qed.

Lemma pickLeastConnections_spec st lb :
  least_ok st (backends_ lb) (foldl (least_step st) (None, (-1)%Z) (backends_ lb)).
Proof. apply (least_scan_ok st (backends_ lb) []). intros b Hb. by apply elem_of_nil in Hb. Qed.

(** ** What a balancer promises its clients *)

Definition some_healthy (st : bstore) (lb : LoadBalancer) : Prop :=
  ∃ b, b ∈ backends_ lb ∧ is_healthy st b = true.

(** The counter has not come to its wrap-around. *)
Definition rr_room (lb : LoadBalancer) : Prop :=
  (0 ≤ rrCounter_ lb)%Z ∧ (rrCounter_ lb + size_of (backends_ lb) ≤ 2 ^ 64)%Z.

Lemma pick_sound st lb r lb' :
  rr_room lb → pick st lb = (r, lb') →
  backends_ lb' = backends_ lb ∧ strategy_ lb' = strategy_ lb ∧
  match r with
  | Some b => b ∈ backends_ lb ∧ is_healthy st b = true
  | None => ∀ b, b ∈ backends_ lb → is_healthy st b = false
  end.
Proof.
  intros [H0 Hmax]. unfold pick. destruct (decide _) as [E|Hne].
  { intros [= <- <-]. rewrite E. split_and!; [done..|]. intros b Hb. by apply elem_of_nil in Hb. }
  destruct (strategy_ lb) eqn:Hs.
  - intros Hp. destruct (rr_loop_spec _ _ _ _ _ Hne H0 Hmax Hp) as (B & St & Hr).
    split_and!; [done|congruence|]. destruct r as [b|].
    + destruct Hr as (j & _ & Hj & Hh & _). split; [|done]. by eapply list_elem_of_lookup_2.
    + intros b [k Hk]%list_elem_of_lookup. destruct (ticket_covers lb _ k b H0 Hk) as (j & Hj & Ht).
      by eapply Hr.
  - intros [= <- <-]. split_and!; [done..|]. unfold pickLeastConnections.
    pose proof (pickLeastConnections_spec st lb) as Hl. unfold least_ok in Hl.
    destruct (foldl _ _ _) as [[m|] c]; simpl in *; [|done].
    destruct Hl as (Hh & _ & l1 & l2 & -> & _). split; [set_solver|done].
Qed.

(** ** Several threads picking at once *)

(** A thread inside [pickRoundRobin]: iterations left, and its answer. *)
Record rr_thread := mkThread { iterations : nat; answer : option (option bptr) }.

Definition start_pick (lb : LoadBalancer) : rr_thread := mkThread (length (backends_ lb)) None.

(** One iteration of one thread on the shared counter [c]. *)
Definition thread_tick (st : bstore) (lb : LoadBalancer) (c : Z) (t : rr_thread) : Z * rr_thread :=
  match answer t, iterations t with
  | Some _, _ => (c, t)
  | None, O => (c, mkThread 0 (Some None))
  | None, S i =>
      ((c +u 1)%Z,
       match at_ticket lb c with
       | Some b => if is_healthy st b then mkThread i (Some (Some b)) else mkThread i None
       | None => mkThread i None
       end)
  end.

Definition rr_tick (st : bstore) (lb : LoadBalancer) (s : Z * list rr_thread) (i : nat)
    : Z * list rr_thread :=
  match s.2 !! i with
  | None => s
  | Some t => let '(c, t') := thread_tick st lb s.1 t in (c, <[i := t']> s.2)
  end.

(** The states any interleaving reaches from [m] threads entering [pick]. *)
Inductive rr_reach (st : bstore) (lb : LoadBalancer) (m : nat) : Z * list rr_thread → Prop :=
  | rr_start : rr_reach st lb m (rrCounter_ lb, replicate m (start_pick lb))
  | rr_next s i : rr_reach st lb m s → rr_reach st lb m (rr_tick st lb s i).

(** What holds of every thread at any time. *)
Definition thread_ok (st : bstore) (lb : LoadBalancer) (t : rr_thread) : Prop :=
  iterations t ≤ length (backends_ lb) ∧
  match answer t with
  | None => iterations t = length (backends_ lb) ∨ ∃ b, b ∈ backends_ lb ∧ is_healthy st b = false
  | Some (Some b) => b ∈ backends_ lb ∧ is_healthy st b = true
  | Some None => ∃ b, b ∈ backends_ lb ∧ is_healthy st b = false
  end.

Lemma thread_tick_ok st lb c t :
  backends_ lb ≠ [] → thread_ok st lb t → thread_ok st lb (thread_tick st lb c t).2.
Proof.
  intros Hne [Hi Ha]. unfold thread_tick. destruct t as [i [a|]]; simpl in *; [done|].
  destruct i as [|i]; simpl.
  - split; simpl; [lia|]. destruct Ha as [Ha|Ha]; [|done].
    destruct (backends_ lb); [done|]. discriminate.
  - destruct (at_ticket_lookup lb c Hne) as (b & Hb & Hin). rewrite Hb.
    destruct (is_healthy st b) eqn:Hh; split; simpl; try lia; [done|]. right. by exists b.
Qed.

Lemma rr_reach_ok st lb m s :
  backends_ lb ≠ [] → rr_reach st lb m s → Forall (thread_ok st lb) s.2.
Proof.
  intros Hne. induction 1 as [|s i _ IH]; simpl.
  - apply Forall_replicate. split; simpl; [done|by left].
  - unfold rr_tick. destruct (s.2 !! i) as [t|] eqn:Ht; [|done].
    pose proof (thread_tick_ok st lb s.1 t Hne (Forall_lookup_1 _ _ _ _ IH Ht)).
    destruct (thread_tick st lb s.1 t) as [c t']. simpl in *. by apply Forall_insert.
Qed.

(** A thread that is alone runs [rr_loop]. *)
Definition run_alone (st : bstore) (lb : LoadBalancer) (n : nat) (s : Z * rr_thread) : Z * rr_thread :=
  Nat.iter n (λ s, thread_tick st lb s.1 s.2) s.

Lemma run_alone_done st lb n c i r :
  run_alone st lb n (c, mkThread i (Some r)) = (c, mkThread i (Some r)).
Proof. unfold run_alone. induction n as [|n IHn]; [done|]. by rewrite Nat.iter_succ, IHn. Qed.

Lemma run_alone_S st lb n s :
  run_alone st lb (S n) s = run_alone st lb n (thread_tick st lb s.1 s.2).
Proof. unfold run_alone. by rewrite Nat.iter_succ_r. Qed.

Lemma thread_alone st lb0 i lb :
  backends_ lb = backends_ lb0 →
  let s := run_alone st lb0 (S i) (rrCounter_ lb, mkThread i None) in
  s.1 = rrCounter_ (rr_loop i st lb).2 ∧ answer s.2 = Some (rr_loop i st lb).1.
Proof.
  revert lb. induction i as [|i IH]; intros lb Hb; [done|]. cbv zeta.
  rewrite run_alone_S. cbn [rr_loop fetch_add thread_tick answer iterations fst snd].
  rewrite (at_ticket_backends lb0 lb) by done.
  set (lb1 := mkLoadBalancer _ _ _). change (rrCounter_ lb +u 1)%Z with (rrCounter_ lb1).
  destruct (at_ticket lb0 (rrCounter_ lb)) as [b|]; [destruct (is_healthy st b)|];
    [by rewrite run_alone_done|by apply IH..].
Qed.

(** ** Theorems *)

Definition demo_backend (up : bool) (n : Z) : Backend :=
  mkBackend (str "10.0.0.1") 9001 up n (newCircuitBreaker 5 30000 3).

(** [pick] is sound and complete.  With either strategy it answers a
    healthy backend of its own pool whenever the pool has one, and no backend
    exactly when all of them are unhealthy; the pool and the strategy never
    change. *)
Theorem lb_pick_spec st lb r lb' :
  rr_room lb → pick st lb = (r, lb') →
  backends_ lb' = backends_ lb ∧ strategy_ lb' = strategy_ lb ∧
  (∀ b, r = Some b → b ∈ backends_ lb ∧ is_healthy st b = true) ∧
  (r = None ↔ ∀ b, b ∈ backends_ lb → is_healthy st b = false).
Proof.
  intros Hroom Hp. destruct (pick_sound _ _ _ _ Hroom Hp) as (B & St & Hr).
  split_and!; [done|done|by intros b ->|]. destruct r as [b|]; [|done].
  split; [done|]. intros Hno. destruct Hr as [Hin Hh]. by rewrite Hno in Hh.
Qed.

Lemma lb_pick_spec_witness :
  let st := [demo_backend false 0; demo_backend true 7; demo_backend true 3] in
  let lb := newLoadBalancer [0; 1; 2] RoundRobin in
  (pick st lb).1 = Some 1 ∧ is_healthy st 1 = true.
Proof.
  intros st lb. split; [vm_compute; reflexivity|].
  refine (proj2 (proj1 (proj2 (proj2 (lb_pick_spec st lb (Some 1) (pick st lb).2 _ _))) 1 eq_refl)).
  - split; vm_compute; congruence.
  - vm_compute. reflexivity.
Defined.

(** [k] picks in a row. *)
Fixpoint pick_run (k : nat) (st : bstore) (lb : LoadBalancer) : list (option bptr) * LoadBalancer :=
  match k with
  | O => ([], lb)
  | S k' =>
      let '(r, lb1) := pick st lb in
      let '(rs, lb2) := pick_run k' st lb1 in (r :: rs, lb2)
  end.

Lemma rr_all_healthy st lb :
  backends_ lb ≠ [] → strategy_ lb = RoundRobin →
  (∀ b, b ∈ backends_ lb → is_healthy st b = true) →
  pick st lb = (at_ticket lb (rrCounter_ lb), (fetch_add lb).2).
Proof.
  intros Hne Hs Hall. unfold pick. rewrite decide_False, Hs by done. unfold pickRoundRobin.
  destruct (length (backends_ lb)) as [|n] eqn:E; [by destruct (backends_ lb)|]. simpl.
  destruct (at_ticket_lookup lb (rrCounter_ lb) Hne) as (b & Hb & Hin). rewrite Hb.
  by rewrite Hall.
Qed.

Lemma pick_run_all_healthy k st lb :
  backends_ lb ≠ [] → strategy_ lb = RoundRobin →
  (∀ b, b ∈ backends_ lb → is_healthy st b = true) →
  (0 ≤ rrCounter_ lb)%Z → (rrCounter_ lb + Z.of_nat k ≤ 2 ^ 64)%Z →
  (pick_run k st lb).1 = (λ j, at_ticket lb (rrCounter_ lb + Z.of_nat j)) <$> seq 0 k.
Proof.
  revert lb. induction k as [|k IH]; intros lb Hne Hs Hall H0 Hmax; [done|].
  cbn [pick_run]. rewrite rr_all_healthy by done. set (lb1 := (fetch_add lb).2).
  destruct k as [|k]; [simpl; by rewrite Z.add_0_r|].
  assert (rrCounter_ lb1 = rrCounter_ lb + 1)%Z as Ec by (simpl; apply u64_small; lia).
  specialize (IH lb1 Hne Hs Hall ltac:(lia) ltac:(lia)).
  destruct (pick_run (S k) st lb1) as [rs lb2]. cbn [fst] in *. rewrite IH.
  change (seq 0 (S (S k))) with (0 :: seq 1 (S k)). rewrite <- seq_shift, fmap_cons, Z.add_0_r.
  f_equal. change (map S) with (fmap (M := list) S). rewrite <- list_fmap_compose.
  apply list_fmap_ext. intros i x _. unfold compose.
  rewrite (at_ticket_backends lb lb1), Ec by done. f_equal. lia.
Qed.

(** Round robin is fair.  While all backends are healthy, any [n]
    consecutive picks from a pool of [n] answer the pool rotated to the
    current ticket: every backend exactly once, in order. *)
Theorem lb_round_robin_fair st lb :
  backends_ lb ≠ [] → strategy_ lb = RoundRobin →
  (∀ b, b ∈ backends_ lb → is_healthy st b = true) → rr_room lb →
  let n := length (backends_ lb) in
  let k := Z.to_nat (rrCounter_ lb mod Z.of_nat n) in
  (pick_run n st lb).1 = Some <$> (drop k (backends_ lb) ++ take k (backends_ lb)).
Proof.
  intros Hne Hs Hall [H0 Hmax] n k. unfold size_of in Hmax. rewrite pick_run_all_healthy by done.
  assert (n ≠ 0) as Hn by (unfold n; by destruct (backends_ lb)).
  pose proof (Z.mod_pos_bound (rrCounter_ lb) (Z.of_nat n) ltac:(lia)).
  apply list_eq. intros i. rewrite !list_lookup_fmap.
  destruct (decide (i < n)) as [Hi|Hi].
  - rewrite lookup_seq_lt by done. simpl. unfold at_ticket, size_of. fold n.
    replace (rrCounter_ lb + Z.of_nat i)%Z with (Z.of_nat i + rrCounter_ lb)%Z by lia.
    rewrite <- Z.add_mod_idemp_r by lia.
    destruct (decide (i < n - k)) as [Hk|Hk].
    + rewrite lookup_app_l by (rewrite length_drop; fold n; lia). rewrite lookup_drop.
      rewrite Z.mod_small by lia.
      replace (Z.to_nat _) with (k + i) by lia.
      destruct (backends_ lb !! (k + i)) eqn:E; [done|].
      apply lookup_ge_None in E. fold n in E. lia.
    + rewrite lookup_app_r by (rewrite length_drop; fold n; lia). rewrite length_drop. fold n.
      rewrite lookup_take_lt by lia.
      rewrite <- (Z.mod_add _ (-1)), Z.mod_small by lia.
      replace (Z.to_nat _) with (i - (n - k)) by lia.
      destruct (backends_ lb !! (i - (n - k))) eqn:E; [done|].
      apply lookup_ge_None in E. fold n in E. lia.
  - rewrite lookup_seq_ge by lia. symmetry. apply fmap_None, lookup_ge_None.
    rewrite length_app, length_drop, length_take. fold n. lia.
Qed.

Lemma lb_round_robin_fair_witness :
  let st := [demo_backend true 0; demo_backend true 0; demo_backend true 0] in
  let lb := mkLoadBalancer [0; 1; 2] RoundRobin 7 in
  (pick_run 3 st lb).1 = Some <$> [1; 2; 0].
Proof.
  intros st lb. refine (lb_round_robin_fair st lb _ _ _ _); [done|done| |split; vm_compute; congruence].
  intros b Hb. simpl in Hb. repeat (apply elem_of_cons in Hb as [->|Hb]; [done|]).
  by apply elem_of_nil in Hb.
Defined.

(** Least connections picks the least loaded backend.  The answer is
    healthy, has no more active connections than any healthy backend of the
    pool, and strictly fewer than the healthy ones listed before it (ties go
    to the first). *)
Theorem lb_least_connections_minimal st lb b lb' :
  strategy_ lb = LeastConnections → pick st lb = (Some b, lb') →
  lb' = lb ∧ is_healthy st b = true ∧
  ∃ l1 l2, backends_ lb = l1 ++ b :: l2 ∧
    (∀ b', b' ∈ l1 → is_healthy st b' = true → (conns st b < conns st b')%Z) ∧
    (∀ b', b' ∈ l2 → is_healthy st b' = true → (conns st b ≤ conns st b')%Z).
Proof.
  intros Hs. unfold pick. destruct (decide _); [done|]. rewrite Hs. intros [= Hp <-].
  unfold pickLeastConnections in Hp. pose proof (pickLeastConnections_spec st lb) as Hl.
  unfold least_ok in Hl. rewrite Hp in Hl. destruct Hl as (? & _ & ?). done.
Qed.

Lemma lb_least_connections_minimal_witness :
  let st := [demo_backend true 4; demo_backend false 0; demo_backend true 2; demo_backend true 2] in
  let lb := newLoadBalancer [0; 1; 2; 3] LeastConnections in
  (pick st lb).1 = Some 2 ∧ is_healthy st 2 = true.
Proof.
  intros st lb. split; [reflexivity|].
  exact (proj1 (proj2 (lb_least_connections_minimal st lb 2 lb eq_refl eq_refl))).
Defined.

(** Picking from many threads is safe.  Under every interleaving of any
    number of threads in the round robin's loop, a thread that got a backend
    got a healthy one of the pool, a thread only gives up after seeing an
    unhealthy one, and a thread that runs alone answers what [pick] answers
    and leaves the counter [pick] leaves. *)
Theorem lb_concurrent_safe st lb m c ts i t :
  backends_ lb ≠ [] → rr_reach st lb m (c, ts) → ts !! i = Some t →
  (∀ b, answer t = Some (Some b) → b ∈ backends_ lb ∧ is_healthy st b = true) ∧
  (answer t = Some None → ∃ b, b ∈ backends_ lb ∧ is_healthy st b = false) ∧
  let s := run_alone st lb (S (length (backends_ lb))) (rrCounter_ lb, start_pick lb) in
  s.1 = rrCounter_ (pickRoundRobin st lb).2 ∧ answer s.2 = Some (pickRoundRobin st lb).1.
Proof.
  intros Hne Hr Ht. pose proof (rr_reach_ok _ _ _ _ Hne Hr) as Hok. simpl in Hok.
  pose proof (Forall_lookup_1 _ _ _ _ Hok Ht) as [_ Ha]. split_and!.
  - intros b Hb. by rewrite Hb in Ha.
  - intros Hb. by rewrite Hb in Ha.
  - by apply (thread_alone st lb (length (backends_ lb)) lb).
Qed.

Lemma lb_concurrent_safe_witness :
  let st := [demo_backend false 0; demo_backend true 0] in
  let lb := newLoadBalancer [0; 1] RoundRobin in
  is_healthy st 1 = true ∧ 1 ∈ backends_ lb.
Proof.
  intros st lb.
  assert (rr_reach st lb 2 (foldl (rr_tick st lb) (0%Z, replicate 2 (start_pick lb)) [0; 1])) as Hr.
  { apply (rr_next st lb 2 (rr_tick st lb (0%Z, replicate 2 (start_pick lb)) 0)).
    apply (rr_next st lb 2 (0%Z, replicate 2 (start_pick lb)) 0). apply (rr_start st lb 2). }
  pose proof (lb_concurrent_safe st lb 2 2%Z _ 1 (mkThread 1 (Some (Some 1))) ltac:(discriminate) Hr
    eq_refl) as (H & _). destruct (H 1 eq_refl). done.
Defined.

(** The round robin can miss a healthy backend.  Two interleaved picks
    over a pool of one unhealthy and one healthy backend: the first thread's
    two tickets both land on the unhealthy one and it answers no backend.
    And one thread alone misses the only healthy backend of a pool of three
    when the counter wraps around within its scan. *)
Theorem lb_round_robin_can_miss :
  (let st := [demo_backend false 0; demo_backend true 0] in
   let lb := newLoadBalancer [0; 1] RoundRobin in
   some_healthy st lb ∧
   ∃ s, rr_reach st lb 2 s ∧ answer <$> s.2 !! 0 = Some (Some None)) ∧
  (let st := [demo_backend false 0; demo_backend false 0; demo_backend true 0] in
   let lb := mkLoadBalancer [0; 1; 2] RoundRobin (2 ^ 64 - 1) in
   some_healthy st lb ∧ (pick st lb).1 = None).
Proof.
  split; cbv zeta.
  - split; [exists 1; split; by_decide|].
    exists (foldl (rr_tick [demo_backend false 0; demo_backend true 0] (newLoadBalancer [0; 1] RoundRobin))
              (0%Z, replicate 2 (start_pick (newLoadBalancer [0; 1] RoundRobin))) [0; 1; 0; 0]).
    split; [|vm_compute; reflexivity]. simpl foldl. do 4 apply rr_next.
    apply (rr_start _ (newLoadBalancer [0; 1] RoundRobin)).
  - split; [exists 2; split; by_decide|]. vm_compute. reflexivity.
Qed.
