(* ===== verification/Router.v ===== *)
(** * Routing (include/routing/Router.hpp)

    Routes are kept sorted by decreasing prefix length.  [std::sort] is not
    stable, so its result is only known up to the order of elements that the
    comparator does not tell apart: the definitions take the sort as an
    argument, a function of the comparator, and a class states what the
    standard guarantees of it for every comparator that is a strict weak
    order.  That the one of [addRoute] is such an order, and sorts the longest
    prefix first, is proved. *)
From S2P Require Import Prelude CxxString.

(** A route refers to its load balancer by position. *)
Record Route := mkRoute { pathPrefix : bytes; lb : nat; cacheable : bool }.

(** The comparator of [addRoute]. *)
Definition longer (a b : Route) : bool := (size_of (pathPrefix b) <? size_of (pathPrefix a))%Z.

(** What the standard requires of a comparator ([Compare]). *)
Record strict_weak (less : Route → Route → bool) : Prop := {
  sw_asym a b : less a b = true → less b a = false;
  sw_split a b c : less a c = true → less a b = true ∨ less b c = true
}.

(** [std::sort]: a permutation in which no element is [less] than one before
    it. *)
Class StdSort (sort : (Route → Route → bool) → list Route → list Route) : Prop := {
  sort_permutes less l : sort less l ≡ₚ l;
  sort_sorts less l : strict_weak less → StronglySorted (λ a b, less b a = false) (sort less l)
}.

Section router.
Context (sort : (Route → Route → bool) → list Route → list Route).

Definition addRoute (r : Route) (routes : list Route) : list Route := sort longer (routes ++ [r]).

(** The condition of [match]'s loop. *)
Definition route_matches (path : bytes) (r : Route) : bool :=
  let pre := pathPrefix r in
  let exact := bool_decide (path = pre) in
  let nested :=
    bool_decide (pre = str "/") ||
    ((size_of pre <? size_of path)%Z && is_prefix pre path &&
     bool_decide (path !! length pre = Some "/"%char)) in
  exact || nested.

Definition match_route (path : bytes) (routes : list Route) : option Route :=
  List.find (route_matches path) routes.

Definition addRoutes (rs : list Route) : list Route := foldl (flip addRoute) [] rs.
End router.

(** ** Matching *)

(** A route covers its prefix, everything below it, and everything when the
    prefix is the root. *)
Definition covers (r : Route) (path : bytes) : Prop :=
  path = pathPrefix r ∨ pathPrefix r = str "/" ∨ ∃ rest, path = pathPrefix r ++ "/"%char :: rest.

Lemma route_matches_spec path r : route_matches path r = true ↔ covers r path.
Proof.
  unfold route_matches, covers. cbv zeta. rewrite !orb_true_iff, !andb_true_iff, !bool_decide_eq_true.
  rewrite Z.ltb_lt, is_prefix_spec. split.
  - intros [?|[?|[[_ [rest ->]] Hc]]]; [by left|by right; left|right; right].
    rewrite lookup_app_r in Hc by done. rewrite Nat.sub_diag in Hc.
    destruct rest as [|c rest]; [done|]. injection Hc as ->. by exists rest.
  - intros [?|[?|[rest ->]]]; [by left|by right; left|right; right].
    split_and!; [|by eexists|].
    + unfold size_of. rewrite length_app. simpl. lia.
    + rewrite lookup_app_r, Nat.sub_diag by done. done.
Qed.

(** Two routes that match one absolute path with prefixes of one length have
    one prefix. *)
Lemma matches_same_length path r1 r2 :
  head path = Some "/"%char → head (pathPrefix r1) = Some "/"%char →
  head (pathPrefix r2) = Some "/"%char →
  route_matches path r1 = true → route_matches path r2 = true →
  length (pathPrefix r1) = length (pathPrefix r2) → pathPrefix r1 = pathPrefix r2.
Proof.
  intros Hp Hh1 Hh2 H1 H2 Hlen.
  assert (∀ r, head (pathPrefix r) = Some "/"%char → route_matches path r = true →
               pathPrefix r = take (length (pathPrefix r)) path) as Htake.
  { intros r Hr [Hm|[Hm|[rest Hm]]]%route_matches_spec.
    - by rewrite Hm, take_ge.
    - rewrite Hm. destruct path as [|c path]; simplify_eq/=. by rewrite take_0.
    - rewrite Hm. by rewrite take_app_length. }
  rewrite (Htake r1), (Htake r2) by done. by rewrite Hlen.
Qed.

Lemma find_first {A} (f : A → bool) l :
  match List.find f l with
  | Some x => ∃ l1 l2, l = l1 ++ x :: l2 ∧ f x = true ∧ ∀ y, y ∈ l1 → f y = false
  | None => ∀ y, y ∈ l → f y = false
  end.
Proof.
  induction l as [|x l IH]; simpl; [by intros y ?%elem_of_nil|]. destruct (f x) eqn:Hx.
  - exists [], l. split_and!; [done|done|by intros y ?%elem_of_nil].
  - destruct (List.find f l) as [z|].
    + destruct IH as (l1 & l2 & -> & Hz & Hb). exists (x :: l1), l2. split_and!; [done|done|].
      intros y [->|Hy]%elem_of_cons; auto.
    + intros y [->|Hy]%elem_of_cons; auto.
Qed.

Section sorted.
Context (sort : (Route → Route → bool) → list Route → list Route) `{!StdSort sort}.

Lemma longer_strict_weak : strict_weak longer.
Proof. split; unfold longer; intros *; rewrite !Z.ltb_lt, ?Z.ltb_ge; lia. Qed.

Lemma addRoutes_snoc rs r : addRoutes sort (rs ++ [r]) = addRoute sort r (addRoutes sort rs).
Proof. unfold addRoutes. by rewrite foldl_snoc. Qed.

Lemma addRoutes_perm rs : addRoutes sort rs ≡ₚ rs.
Proof.
  induction rs as [|r rs IH] using rev_ind; [done|].
  rewrite addRoutes_snoc. unfold addRoute. by rewrite sort_permutes, IH.
Qed.

Lemma addRoutes_sorted rs : StronglySorted (λ a b, longer b a = false) (addRoutes sort rs).
Proof.
  destruct rs as [|r rs _] using rev_ind; [constructor|].
  rewrite addRoutes_snoc. unfold addRoute. apply sort_sorts, longer_strict_weak.
Qed.

(** The first match in a sorted list is a longest one. *)
Lemma sorted_first_longest l1 x l2 y :
  StronglySorted (λ a b, longer b a = false) (l1 ++ x :: l2) → y ∈ x :: l2 →
  length (pathPrefix y) ≤ length (pathPrefix x).
Proof.
  intros Hs [->|Hy]%elem_of_cons; [done|].
  apply StronglySorted_app in Hs as (_ & _ & Hs). apply StronglySorted_inv in Hs as [_ Hs].
  rewrite Forall_forall in Hs. specialize (Hs y Hy). unfold longer, size_of in Hs. apply Z.ltb_ge in Hs. lia.
Qed.

Lemma match_longest rs path :
  match match_route path (addRoutes sort rs) with
  | Some r => r ∈ rs ∧ route_matches path r = true ∧
      ∀ r', r' ∈ rs → route_matches path r' = true →
            length (pathPrefix r') ≤ length (pathPrefix r)
  | None => ∀ r, r ∈ rs → route_matches path r = false
  end.
Proof.
  pose proof (find_first (route_matches path) (addRoutes sort rs)) as Hf.
  pose proof (addRoutes_sorted rs) as Hs. pose proof (addRoutes_perm rs) as Hp.
  fold (match_route path (addRoutes sort rs)) in Hf.
  destruct (match_route path (addRoutes sort rs)) as [r|].
  - destruct Hf as (l1 & l2 & El & Hm & Hb). rewrite El in *.
    split_and!; [rewrite <- Hp; set_solver|done|].
    intros r' Hr'. rewrite <- Hp in Hr'. apply elem_of_app in Hr' as [Hr'|Hr'].
    + by rewrite Hb.
    + intros _. by eapply sorted_first_longest.
  - intros r Hr. apply Hf. by rewrite Hp.
Qed.
End sorted.

(** stdpp's merge sort is one such sort. *)
#[global] Instance not_less_dec (less : Route → Route → bool) : RelDecision (λ a b : Route, less b a = false) := λ a b, bool_eq_dec (less b a) false.

Definition merge_routes (less : Route → Route → bool) (l : list Route) : list Route := merge_sort (λ a b, less b a = false) l.

#[export] Instance merge_routes_sorts : StdSort merge_routes.
Proof.
  split; [intros less l; apply merge_sort_Permutation|]. intros less l [Ha Hs]. apply StronglySorted_merge_sort.
  - intros a b c H1 H2. destruct (less c a) eqn:E; [|done]. destruct (Hs c b a E); congruence.
  - intros a b. destruct (less b a) eqn:E; [right; by apply Ha|by left].
Qed.

(** ** Theorems *)

(** C33: longest-prefix routing.  Whatever order the routes were added in and
    however the sort orders routes its comparator does not tell apart,
    [match] answers a route that was added and that covers the path (the
    prefix is the path, or the path goes on with a slash after it, or the
    prefix is the root), such that no added route that covers the path has a
    longer prefix; it answers nothing exactly when no route covers the
    path. *)
Theorem router_longest_prefix sort `{!StdSort sort} rs path :
  match match_route path (addRoutes sort rs) with
  | Some r => r ∈ rs ∧ covers r path ∧ ∀ r', r' ∈ rs → covers r' path → length (pathPrefix r') ≤ length (pathPrefix r)
  | None => ∀ r, r ∈ rs → ¬ covers r path
  end.
Proof.
  pose proof (match_longest sort rs path) as H. destruct (match_route path (addRoutes sort rs)) as [r|].
  - destruct H as (Hr & Hm & Hl). split_and!; [done|by apply route_matches_spec|].
    intros r' Hr' Hc. apply Hl; [done|]. by apply route_matches_spec.
  - intros r Hr Hc%route_matches_spec. rewrite H in Hc; done.
Qed.

Definition demo_routes : list Route :=
  [mkRoute (str "/api") 0 false; mkRoute (str "/api/users") 1 true; mkRoute (str "/") 2 false].

Lemma router_longest_prefix_witness :
  match_route (str "/api/users/7") (addRoutes merge_routes demo_routes) =
    Some (mkRoute (str "/api/users") 1 true) ∧
  match_route (str "/apix") (addRoutes merge_routes demo_routes) = Some (mkRoute (str "/") 2 false) ∧
  mkRoute (str "/api/users") 1 true ∈ demo_routes.
Proof.
  assert (match_route (str "/api/users/7") (addRoutes merge_routes demo_routes) =
          Some (mkRoute (str "/api/users") 1 true)) as E by (vm_compute; reflexivity).
  split_and!; [done|vm_compute; reflexivity|].
  pose proof (router_longest_prefix merge_routes demo_routes (str "/api/users/7")) as H.
  rewrite E in H. exact (proj1 H).
Defined.

(** Routing does not depend on the order of the configuration.  For
    absolute paths and routes with distinct absolute prefixes, any two
    registration orders and any two conforming sorts give the same route. *)
Theorem router_order_independent sort1 sort2 `{!StdSort sort1, !StdSort sort2} rs1 rs2 path :
  rs1 ≡ₚ rs2 → NoDup (pathPrefix <$> rs1) →
  (∀ r, r ∈ rs1 → head (pathPrefix r) = Some "/"%char) → head path = Some "/"%char →
  match_route path (addRoutes sort1 rs1) = match_route path (addRoutes sort2 rs2).
Proof.
  intros Hp Hnd Hroot Hpath.
  pose proof (match_longest sort1 rs1 path) as H1. pose proof (match_longest sort2 rs2 path) as H2.
  destruct (match_route path (addRoutes sort1 rs1)) as [r1|],
    (match_route path (addRoutes sort2 rs2)) as [r2|]; [|..|done].
  - destruct H1 as (I1 & M1 & L1), H2 as (I2 & M2 & L2). rewrite <- Hp in I2. f_equal.
    assert (length (pathPrefix r1) = length (pathPrefix r2)) as Hlen.
    { apply Nat.le_antisymm; [apply L2; [by rewrite <- Hp|done]|by apply L1]. }
    pose proof (matches_same_length path r1 r2 Hpath (Hroot _ I1) (Hroot _ I2) M1 M2 Hlen) as E.
    apply list_elem_of_lookup in I1 as [i1 I1], I2 as [i2 I2].
    assert (i1 = i2) as ->; [|congruence].
    eapply NoDup_lookup; [exact Hnd|rewrite list_lookup_fmap, I1; done|].
    rewrite list_lookup_fmap, I2. simpl. by rewrite E.
  - destruct H1 as (I1 & M1 & _). rewrite H2 in M1; [done|by rewrite <- Hp].
  - destruct H2 as (I2 & M2 & _). rewrite H1 in M2; [done|by rewrite Hp].
Qed.

Lemma router_order_independent_witness :
  match_route (str "/api/users") (addRoutes merge_routes demo_routes) =
  match_route (str "/api/users") (addRoutes merge_routes (rev demo_routes)).
Proof.
  apply (router_order_independent merge_routes merge_routes demo_routes (rev demo_routes)).
  - apply Permutation_rev.
  - by_decide.
  - intros r Hr. repeat (apply elem_of_cons in Hr as [->|Hr]; [done|]). by apply elem_of_nil in Hr.
  - done.
Defined.
