(* ===== verification/Config.v ===== *)
(** * Configuration (include/config/Config.hpp, src/config/Config.cpp)

    The loader of the YAML subset: lines with their indentation, the section
    state machine of [loadFromFile] and the validation at its end.  The
    pointers [curGroup] and [curRoute] into the vectors being built are
    indices.  A file is the bytes it holds, or nothing when it cannot be
    opened. *)
From S2P Require Import Prelude CxxString Rounding CxxDouble.
Local Open Scope nat_scope.

Record BackendConfig := mkBackendConfig { bc_host : bytes; bc_port : Z }.

Record RouteConfig := mkRouteConfig {
  rc_pathPrefix : bytes;
  rc_backendGroup : bytes;
  rc_cacheable : bool
}.

Record BackendGroupConfig := mkBackendGroupConfig {
  bg_name : bytes;
  bg_strategy : bytes;
  bg_backends : list BackendConfig
}.

Record GatewayConfig := mkGatewayConfig {
  listenHost : bytes;
  listenPort : Z;
  workerThreads : Z;
  rateLimitCapacity : Z;
  rateLimitRefillPerSecond : double;
  cacheCapacity : Z;
  cacheTtlMs : Z;
  circuitFailureThreshold : Z;
  circuitResetTimeoutMs : Z;
  retryMax : Z;
  retryBaseDelayMs : Z;
  retryMaxDelayMs : Z;
  connectTimeoutMs : Z;
  backendReadTimeoutMs : Z;
  cfg_maxResponseBodyBytes : Z;
  maxIdleConnsPerBackend : Z;
  healthCheckIntervalMs : Z;
  healthCheckTimeoutMs : Z;
  healthCheckPath : bytes;
  backendGroups : list BackendGroupConfig;
  routes : list RouteConfig;
  metricsPort : Z
}.

(** The default member initialisers. *)
Definition defaultConfig : GatewayConfig :=
  mkGatewayConfig (str "0.0.0.0") 8080 4 100 (Finite 50) 1000 5000 5 10000 2 50 1000 1000 3000
    (10 * 1024 * 1024) 16 5000 1000 (str "/health") [] [] 9090.

Definition set_listenHost (v : bytes) (c : GatewayConfig) : GatewayConfig :=
  mkGatewayConfig v (listenPort c) (workerThreads c) (rateLimitCapacity c)
    (rateLimitRefillPerSecond c) (cacheCapacity c) (cacheTtlMs c) (circuitFailureThreshold c)
    (circuitResetTimeoutMs c) (retryMax c) (retryBaseDelayMs c) (retryMaxDelayMs c)
    (connectTimeoutMs c) (backendReadTimeoutMs c) (cfg_maxResponseBodyBytes c)
    (maxIdleConnsPerBackend c) (healthCheckIntervalMs c) (healthCheckTimeoutMs c)
    (healthCheckPath c) (backendGroups c) (routes c) (metricsPort c).
Definition set_listenPort (v : Z) (c : GatewayConfig) : GatewayConfig :=
  mkGatewayConfig (listenHost c) v (workerThreads c) (rateLimitCapacity c)
    (rateLimitRefillPerSecond c) (cacheCapacity c) (cacheTtlMs c) (circuitFailureThreshold c)
    (circuitResetTimeoutMs c) (retryMax c) (retryBaseDelayMs c) (retryMaxDelayMs c)
    (connectTimeoutMs c) (backendReadTimeoutMs c) (cfg_maxResponseBodyBytes c)
    (maxIdleConnsPerBackend c) (healthCheckIntervalMs c) (healthCheckTimeoutMs c)
    (healthCheckPath c) (backendGroups c) (routes c) (metricsPort c).
Definition set_workerThreads (v : Z) (c : GatewayConfig) : GatewayConfig :=
  mkGatewayConfig (listenHost c) (listenPort c) v (rateLimitCapacity c) (rateLimitRefillPerSecond c)
    (cacheCapacity c) (cacheTtlMs c) (circuitFailureThreshold c) (circuitResetTimeoutMs c)
    (retryMax c) (retryBaseDelayMs c) (retryMaxDelayMs c) (connectTimeoutMs c)
    (backendReadTimeoutMs c) (cfg_maxResponseBodyBytes c) (maxIdleConnsPerBackend c)
    (healthCheckIntervalMs c) (healthCheckTimeoutMs c) (healthCheckPath c) (backendGroups c)
    (routes c) (metricsPort c).
Definition set_metricsPort (v : Z) (c : GatewayConfig) : GatewayConfig :=
  mkGatewayConfig (listenHost c) (listenPort c) (workerThreads c) (rateLimitCapacity c)
    (rateLimitRefillPerSecond c) (cacheCapacity c) (cacheTtlMs c) (circuitFailureThreshold c)
    (circuitResetTimeoutMs c) (retryMax c) (retryBaseDelayMs c) (retryMaxDelayMs c)
    (connectTimeoutMs c) (backendReadTimeoutMs c) (cfg_maxResponseBodyBytes c)
    (maxIdleConnsPerBackend c) (healthCheckIntervalMs c) (healthCheckTimeoutMs c)
    (healthCheckPath c) (backendGroups c) (routes c) v.
Definition set_rate_limit (cap : Z) (refill : double) (c : GatewayConfig) : GatewayConfig :=
  mkGatewayConfig (listenHost c) (listenPort c) (workerThreads c) cap refill (cacheCapacity c)
    (cacheTtlMs c) (circuitFailureThreshold c) (circuitResetTimeoutMs c) (retryMax c)
    (retryBaseDelayMs c) (retryMaxDelayMs c) (connectTimeoutMs c) (backendReadTimeoutMs c)
    (cfg_maxResponseBodyBytes c) (maxIdleConnsPerBackend c) (healthCheckIntervalMs c)
    (healthCheckTimeoutMs c) (healthCheckPath c) (backendGroups c) (routes c) (metricsPort c).
Definition set_cache_config (cap : Z) (ttl : Z) (c : GatewayConfig) : GatewayConfig :=
  mkGatewayConfig (listenHost c) (listenPort c) (workerThreads c) (rateLimitCapacity c)
    (rateLimitRefillPerSecond c) cap ttl (circuitFailureThreshold c) (circuitResetTimeoutMs c)
    (retryMax c) (retryBaseDelayMs c) (retryMaxDelayMs c) (connectTimeoutMs c)
    (backendReadTimeoutMs c) (cfg_maxResponseBodyBytes c) (maxIdleConnsPerBackend c)
    (healthCheckIntervalMs c) (healthCheckTimeoutMs c) (healthCheckPath c) (backendGroups c)
    (routes c) (metricsPort c).
Definition set_circuit (threshold : Z) (timeout : Z) (c : GatewayConfig) : GatewayConfig :=
  mkGatewayConfig (listenHost c) (listenPort c) (workerThreads c) (rateLimitCapacity c)
    (rateLimitRefillPerSecond c) (cacheCapacity c) (cacheTtlMs c) threshold timeout (retryMax c)
    (retryBaseDelayMs c) (retryMaxDelayMs c) (connectTimeoutMs c) (backendReadTimeoutMs c)
    (cfg_maxResponseBodyBytes c) (maxIdleConnsPerBackend c) (healthCheckIntervalMs c)
    (healthCheckTimeoutMs c) (healthCheckPath c) (backendGroups c) (routes c) (metricsPort c).
Definition set_retry (n : Z) (base : Z) (cap : Z) (c : GatewayConfig) : GatewayConfig :=
  mkGatewayConfig (listenHost c) (listenPort c) (workerThreads c) (rateLimitCapacity c)
    (rateLimitRefillPerSecond c) (cacheCapacity c) (cacheTtlMs c) (circuitFailureThreshold c)
    (circuitResetTimeoutMs c) n base cap (connectTimeoutMs c) (backendReadTimeoutMs c)
    (cfg_maxResponseBodyBytes c) (maxIdleConnsPerBackend c) (healthCheckIntervalMs c)
    (healthCheckTimeoutMs c) (healthCheckPath c) (backendGroups c) (routes c) (metricsPort c).
Definition set_timeouts (connect : Z) (read : Z) (c : GatewayConfig) : GatewayConfig :=
  mkGatewayConfig (listenHost c) (listenPort c) (workerThreads c) (rateLimitCapacity c)
    (rateLimitRefillPerSecond c) (cacheCapacity c) (cacheTtlMs c) (circuitFailureThreshold c)
    (circuitResetTimeoutMs c) (retryMax c) (retryBaseDelayMs c) (retryMaxDelayMs c) connect read
    (cfg_maxResponseBodyBytes c) (maxIdleConnsPerBackend c) (healthCheckIntervalMs c)
    (healthCheckTimeoutMs c) (healthCheckPath c) (backendGroups c) (routes c) (metricsPort c).
Definition set_limits (body : Z) (idle : Z) (c : GatewayConfig) : GatewayConfig :=
  mkGatewayConfig (listenHost c) (listenPort c) (workerThreads c) (rateLimitCapacity c)
    (rateLimitRefillPerSecond c) (cacheCapacity c) (cacheTtlMs c) (circuitFailureThreshold c)
    (circuitResetTimeoutMs c) (retryMax c) (retryBaseDelayMs c) (retryMaxDelayMs c)
    (connectTimeoutMs c) (backendReadTimeoutMs c) body idle (healthCheckIntervalMs c)
    (healthCheckTimeoutMs c) (healthCheckPath c) (backendGroups c) (routes c) (metricsPort c).
Definition set_health (interval : Z) (timeout : Z) (path : bytes) (c : GatewayConfig) : GatewayConfig :=
  mkGatewayConfig (listenHost c) (listenPort c) (workerThreads c) (rateLimitCapacity c)
    (rateLimitRefillPerSecond c) (cacheCapacity c) (cacheTtlMs c) (circuitFailureThreshold c)
    (circuitResetTimeoutMs c) (retryMax c) (retryBaseDelayMs c) (retryMaxDelayMs c)
    (connectTimeoutMs c) (backendReadTimeoutMs c) (cfg_maxResponseBodyBytes c)
    (maxIdleConnsPerBackend c) interval timeout path (backendGroups c) (routes c) (metricsPort c).
Definition set_groups (gs : list BackendGroupConfig) (c : GatewayConfig) : GatewayConfig :=
  mkGatewayConfig (listenHost c) (listenPort c) (workerThreads c) (rateLimitCapacity c)
    (rateLimitRefillPerSecond c) (cacheCapacity c) (cacheTtlMs c) (circuitFailureThreshold c)
    (circuitResetTimeoutMs c) (retryMax c) (retryBaseDelayMs c) (retryMaxDelayMs c)
    (connectTimeoutMs c) (backendReadTimeoutMs c) (cfg_maxResponseBodyBytes c)
    (maxIdleConnsPerBackend c) (healthCheckIntervalMs c) (healthCheckTimeoutMs c)
    (healthCheckPath c) gs (routes c) (metricsPort c).
Definition set_routes (rs : list RouteConfig) (c : GatewayConfig) : GatewayConfig :=
  mkGatewayConfig (listenHost c) (listenPort c) (workerThreads c) (rateLimitCapacity c)
    (rateLimitRefillPerSecond c) (cacheCapacity c) (cacheTtlMs c) (circuitFailureThreshold c)
    (circuitResetTimeoutMs c) (retryMax c) (retryBaseDelayMs c) (retryMaxDelayMs c)
    (connectTimeoutMs c) (backendReadTimeoutMs c) (cfg_maxResponseBodyBytes c)
    (maxIdleConnsPerBackend c) (healthCheckIntervalMs c) (healthCheckTimeoutMs c)
    (healthCheckPath c) (backendGroups c) rs (metricsPort c).

(** ** Lines *)

Definition config_blanks : bytes := [SP; HT; CR].

Definition config_trim (s : bytes) : bytes :=
  match find_first_not_of config_blanks s with
  | None => []
  | Some a =>
      let b := npos_of (find_last_not_of config_blanks s) in
      substrZ s a (u64 (b - Z.of_nat a + 1))
  end.

Definition stripComment (s : bytes) : bytes :=
  match find_char "#"%char s with
  | None => s
  | Some h => substr s 0 h
  end.

(** The lines [std::getline] delivers: a last line without line feed counts,
    an empty rest does not. *)
Fixpoint getlines (s : bytes) : list bytes :=
  match s with
  | [] => []
  | c :: s' =>
      if decide (c = LF) then [] :: getlines s'
      else
        match getlines s' with
        | [] => [[c]]
        | l :: ls => (c :: l) :: ls
        end
  end.

Record Line := mkLine { indent : Z; content : bytes }.

(** Lines 41-42: [size] is converted to [int] before the comparison. *)
Definition count_indent (s : bytes) : Z :=
  Z.max 0 (Z.min (size_of (take_while (eqc SP) s)) (wrap32 (size_of s))).

(** Lines 39-45: one line of the file; [None] when nothing is left of it. *)
Definition read_line (raw : bytes) : option Line :=
  let noComment := stripComment raw in
  let text := config_trim noComment in
  if decide (text = []) then None else Some (mkLine (count_indent noComment) text).

Definition tokenize (file : bytes) : list Line := omap read_line (getlines file).

Definition splitKv (s : bytes) : bytes * bytes :=
  match find_char ":"%char s with
  | None => (config_trim s, [])
  | Some colon => (config_trim (substr s 0 colon), config_trim (drop (colon + 1) s))
  end.

Definition toInt (s : bytes) (def : Z) : Z :=
  if decide (s = []) then def else default def (stoi s).

Definition toDouble (rnd : Q → Q) (s : bytes) (def : double) : double :=
  if decide (s = []) then def else default def (stod rnd s).

(** [static_cast<size_t>(toInt(val, static_cast<int>(def)))]. *)
Definition toSize (s : bytes) (def : Z) : Z := u64 (toInt s (wrap32 def)).

(** ** The section state machine *)

(** Local variables of [loadFromFile]. *)
Record Loader := mkLoader {
  cfg : GatewayConfig;
  section : bytes;
  curGroup : option nat;       (* index into backendGroups *)
  curRoute : option nat;       (* index into routes *)
  inBackendsList : bool;
  groupIndent : Z;
  routeListIndent : Z
}.

Definition newLoader : Loader := mkLoader defaultConfig [] None None false (-1) (-1).

Definition set_cfg (c : GatewayConfig) (l : Loader) : Loader :=
  mkLoader c (section l) (curGroup l) (curRoute l) (inBackendsList l) (groupIndent l) (routeListIndent l).

Definition key_is (k : bytes) (s : string) : bool := bool_decide (k = str s).

Section load.
Context (rnd : Q → Q).

(** Lines 90-101: a line without indentation. *)
Definition top_line (ln : Line) (l : Loader) : Loader :=
  let '(k, v) := splitKv (content ln) in
  let c := cfg l in
  if key_is k "workers" then mkLoader (set_workerThreads (toInt v (workerThreads c)) c) [] None None false (-1) (-1)
  else if key_is k "metrics_port" then
    mkLoader (set_metricsPort (toInt v (metricsPort c)) c) [] None None false (-1) (-1)
  else mkLoader c k None None false (-1) (-1).

(** One line of a section of plain settings. *)
Definition listen_line (k v : bytes) (c : GatewayConfig) : GatewayConfig :=
  if key_is k "host" then set_listenHost v c
  else if key_is k "port" then set_listenPort (toInt v (listenPort c)) c
  else c.

Definition rate_limit_line (k v : bytes) (c : GatewayConfig) : GatewayConfig :=
  if key_is k "capacity" then set_rate_limit (toInt v (rateLimitCapacity c)) (rateLimitRefillPerSecond c) c
  else if key_is k "refill_per_second" then
    set_rate_limit (rateLimitCapacity c) (toDouble rnd v (rateLimitRefillPerSecond c)) c
  else c.

Definition cache_line (k v : bytes) (c : GatewayConfig) : GatewayConfig :=
  if key_is k "capacity" then set_cache_config (toSize v (cacheCapacity c)) (cacheTtlMs c) c
  else if key_is k "ttl_ms" then set_cache_config (cacheCapacity c) (toInt v (cacheTtlMs c)) c
  else c.

Definition circuit_line (k v : bytes) (c : GatewayConfig) : GatewayConfig :=
  if key_is k "failure_threshold" then
    set_circuit (toInt v (circuitFailureThreshold c)) (circuitResetTimeoutMs c) c
  else if key_is k "reset_timeout_ms" then
    set_circuit (circuitFailureThreshold c) (toInt v (circuitResetTimeoutMs c)) c
  else c.

Definition retry_line (k v : bytes) (c : GatewayConfig) : GatewayConfig :=
  if key_is k "max_retries" then set_retry (toInt v (retryMax c)) (retryBaseDelayMs c) (retryMaxDelayMs c) c
  else if key_is k "base_delay_ms" then
    set_retry (retryMax c) (toInt v (retryBaseDelayMs c)) (retryMaxDelayMs c) c
  else if key_is k "max_delay_ms" then
    set_retry (retryMax c) (retryBaseDelayMs c) (toInt v (retryMaxDelayMs c)) c
  else c.

Definition connection_line (k v : bytes) (c : GatewayConfig) : GatewayConfig :=
  if key_is k "connect_timeout_ms" then
    set_timeouts (toInt v (connectTimeoutMs c)) (backendReadTimeoutMs c) c
  else if key_is k "backend_read_timeout_ms" then
    set_timeouts (connectTimeoutMs c) (toInt v (backendReadTimeoutMs c)) c
  else if key_is k "max_response_body_bytes" then
    set_limits (toSize v (cfg_maxResponseBodyBytes c)) (maxIdleConnsPerBackend c) c
  else if key_is k "max_idle_per_backend" then
    set_limits (cfg_maxResponseBodyBytes c) (toSize v (maxIdleConnsPerBackend c)) c
  else c.

Definition health_line (k v : bytes) (c : GatewayConfig) : GatewayConfig :=
  if key_is k "interval_ms" then
    set_health (toInt v (healthCheckIntervalMs c)) (healthCheckTimeoutMs c) (healthCheckPath c) c
  else if key_is k "timeout_ms" then
    set_health (healthCheckIntervalMs c) (toInt v (healthCheckTimeoutMs c)) (healthCheckPath c) c
  else if key_is k "path" then set_health (healthCheckIntervalMs c) (healthCheckTimeoutMs c) v c
  else c.

(** [curGroup->...] and [curRoute->...]: an update through the pointer. *)
Definition on_group (i : nat) (f : BackendGroupConfig → BackendGroupConfig) (c : GatewayConfig) : GatewayConfig :=
  set_groups (alter f i (backendGroups c)) c.
Definition on_route (i : nat) (f : RouteConfig → RouteConfig) (c : GatewayConfig) : GatewayConfig :=
  set_routes (alter f i (routes c)) c.

Definition set_name (v : bytes) (g : BackendGroupConfig) : BackendGroupConfig :=
  mkBackendGroupConfig v (bg_strategy g) (bg_backends g).
Definition set_strategy (v : bytes) (g : BackendGroupConfig) : BackendGroupConfig :=
  mkBackendGroupConfig (bg_name g) v (bg_backends g).
Definition set_backend_list (bs : list BackendConfig) (g : BackendGroupConfig) : BackendGroupConfig :=
  mkBackendGroupConfig (bg_name g) (bg_strategy g) bs.

(** [backends.back()], which the code only touches when there is one. *)
Definition on_back (f : BackendConfig → BackendConfig) (g : BackendGroupConfig) : BackendGroupConfig :=
  set_backend_list (alter f (pred (length (bg_backends g))) (bg_backends g)) g.
Definition set_host (v : bytes) (b : BackendConfig) : BackendConfig := mkBackendConfig v (bc_port b).
Definition set_port (v : Z) (b : BackendConfig) : BackendConfig := mkBackendConfig (bc_host b) v.

Definition newGroup : BackendGroupConfig := mkBackendGroupConfig [] (str "round_robin") [].
Definition newBackend : BackendConfig := mkBackendConfig [] 0.
Definition newRoute : RouteConfig := mkRouteConfig [] [] false.

(** [content.rfind("- ", 0) == 0]. *)
Definition is_list_item (s : bytes) : bool := is_prefix (str "- ") s.

(** Lines 139-144: a new group. *)
Definition begin_group (ln : Line) (l : Loader) : Loader :=
  let c := cfg l in
  let i := length (backendGroups c) in
  let c := set_groups (backendGroups c ++ [newGroup]) c in
  let '(k, v) := splitKv (drop 2 (content ln)) in
  mkLoader (if key_is k "name" then on_group i (set_name v) c else c)
    (section l) (Some i) (curRoute l) false (indent ln) (routeListIndent l).

(** Lines 147-149: a new backend of the current group. *)
Definition begin_backend (ln : Line) (i : nat) (l : Loader) : Loader :=
  let c := on_group i (λ g, set_backend_list (bg_backends g ++ [newBackend]) g) (cfg l) in
  let '(k, v) := splitKv (drop 2 (content ln)) in
  set_cfg (if key_is k "host" then on_group i (on_back (set_host v)) c else c) l.

(** [!curGroup->backends.empty()]. *)
Definition has_backends (i : nat) (c : GatewayConfig) : bool :=
  match backendGroups c !! i with
  | Some g => negb (bool_decide (bg_backends g = []))
  | None => false
  end.

(** Lines 151-159: a setting of the current group or of its last backend. *)
Definition group_setting (ln : Line) (i : nat) (l : Loader) : Loader :=
  let c := cfg l in
  let '(k, v) := splitKv (content ln) in
  if key_is k "name" then set_cfg (on_group i (set_name v) c) l
  else if key_is k "strategy" then set_cfg (on_group i (set_strategy v) c) l
  else if key_is k "backends" then
    mkLoader c (section l) (curGroup l) (curRoute l) true (groupIndent l) (routeListIndent l)
  else if inBackendsList l && key_is k "host" && has_backends i c then
    set_cfg (on_group i (on_back (set_host v)) c) l
  else if inBackendsList l && key_is k "port" && has_backends i c then
    set_cfg (on_group i (on_back (set_port (toInt v 0))) c) l
  else l.

Definition group_line (ln : Line) (l : Loader) : Loader :=
  let isListItem := is_list_item (content ln) in
  if isListItem && ((groupIndent l =? -1)%Z || (indent ln =? groupIndent l)%Z) then begin_group ln l
  else
    match curGroup l with
    | None => l
    | Some i =>
        if isListItem && inBackendsList l && (groupIndent l <? indent ln)%Z then begin_backend ln i l
        else group_setting ln i l
    end.

(** Lines 162-174. *)
Definition route_line (ln : Line) (l : Loader) : Loader :=
  let c := cfg l in
  if is_list_item (content ln) && ((routeListIndent l =? -1)%Z || (indent ln <=? routeListIndent l)%Z) then
    let i := length (routes c) in
    let c := set_routes (routes c ++ [newRoute]) c in
    let '(k, v) := splitKv (drop 2 (content ln)) in
    mkLoader
      (if key_is k "path_prefix"
       then on_route i (λ r, mkRouteConfig v (rc_backendGroup r) (rc_cacheable r)) c else c)
      (section l) (curGroup l) (Some i) (inBackendsList l) (groupIndent l) (indent ln)
  else
    match curRoute l with
    | None => l
    | Some i =>
        let '(k, v) := splitKv (content ln) in
        set_cfg
          (if key_is k "path_prefix" then on_route i (λ r, mkRouteConfig v (rc_backendGroup r) (rc_cacheable r)) c
           else if key_is k "backend_group" then
             on_route i (λ r, mkRouteConfig (rc_pathPrefix r) v (rc_cacheable r)) c
           else if key_is k "cacheable" then
             on_route i (λ r, mkRouteConfig (rc_pathPrefix r) (rc_backendGroup r) (key_is v "true")) c
           else c) l
    end.

(** Lines 103-134: the sections of plain settings. *)
Definition plain_section (sec : bytes) : option (bytes → bytes → GatewayConfig → GatewayConfig) :=
  if key_is sec "listen" then Some listen_line
  else if key_is sec "rate_limit" then Some rate_limit_line
  else if key_is sec "cache" then Some cache_line
  else if key_is sec "circuit_breaker" then Some circuit_line
  else if key_is sec "retry" then Some retry_line
  else if key_is sec "connection" then Some connection_line
  else if key_is sec "health_check" then Some health_line
  else None.

(** Lines 88-175: one line. *)
Definition load_line (l : Loader) (ln : Line) : Loader :=
  if (indent ln =? 0)%Z then top_line ln l
  else
    match plain_section (section l) with
    | Some f => let '(k, v) := splitKv (content ln) in set_cfg (f k v (cfg l)) l
    | None =>
        if key_is (section l) "backend_groups" then group_line ln l
        else if key_is (section l) "routes" then route_line ln l
        else l
    end.

Definition load_lines (lines : list Line) (l : Loader) : Loader := foldl load_line l lines.

(** ** Validation (lines 178-200) *)

Inductive config_error :=
  | CannotOpen
  | InvalidValues
  | PortsEqual
  | NothingToServe
  | InvalidGroup
  | InvalidAddress
  | InvalidRoute.

Definition bad_port (p : Z) : bool := (p <=? 0)%Z || (65535 <? p)%Z.

Definition check_values (c : GatewayConfig) : option config_error :=
  if bad_port (listenPort c) || bad_port (metricsPort c) ||
     (workerThreads c <=? 0)%Z || (rateLimitCapacity c <=? 0)%Z ||
     double_le_zero (rateLimitRefillPerSecond c) || (cfg_maxResponseBodyBytes c =? 0)%Z ||
     (backendReadTimeoutMs c <=? 0)%Z || (connectTimeoutMs c <=? 0)%Z
  then Some InvalidValues
  else if (listenPort c =? metricsPort c)%Z then Some PortsEqual
  else if bool_decide (backendGroups c = []) || bool_decide (routes c = []) then Some NothingToServe
  else None.

Fixpoint first_error {A} (check : A → option config_error) (xs : list A) : option config_error :=
  match xs with
  | [] => None
  | x :: xs' => match check x with Some e => Some e | None => first_error check xs' end
  end.

Definition check_backend (b : BackendConfig) : option config_error :=
  if bool_decide (bc_host b = []) || bad_port (bc_port b) then Some InvalidAddress else None.

Definition check_group (g : BackendGroupConfig) : option config_error :=
  if bool_decide (bg_name g = []) || bool_decide (bg_backends g = []) ||
     (negb (key_is (bg_strategy g) "round_robin") && negb (key_is (bg_strategy g) "least_connections"))
  then Some InvalidGroup
  else first_error check_backend (bg_backends g).

Definition check_route (r : RouteConfig) : option config_error :=
  if bool_decide (rc_pathPrefix r = []) || negb (bool_decide (head (rc_pathPrefix r) = Some "/"%char)) ||
     bool_decide (rc_backendGroup r = [])
  then Some InvalidRoute else None.

Definition validate (c : GatewayConfig) : option config_error :=
  match check_values c with
  | Some e => Some e
  | None =>
      match first_error check_group (backendGroups c) with
      | Some e => Some e
      | None => first_error check_route (routes c)
      end
  end.

Definition loadFromFile (file : option bytes) : config_error + GatewayConfig :=
  match file with
  | None => inl CannotOpen
  | Some text =>
      let c := cfg (load_lines (tokenize text) newLoader) in
      match validate c with
      | Some e => inl e
      | None => inr c
      end
  end.
End load.

(** ** What a loaded configuration guarantees *)

(** Fields hold values of their C++ types. *)
Definition int_ok (z : Z) : Prop := (int_min ≤ z ≤ int_max)%Z.
Definition size_ok (z : Z) : Prop := (0 ≤ z < 2 ^ 64)%Z.

Record config_typed (c : GatewayConfig) : Prop := {
  ty_listen : int_ok (listenPort c);
  ty_workers : int_ok (workerThreads c);
  ty_metrics : int_ok (metricsPort c);
  ty_rate : int_ok (rateLimitCapacity c);
  ty_cache : size_ok (cacheCapacity c) ∧ int_ok (cacheTtlMs c);
  ty_circuit : int_ok (circuitFailureThreshold c) ∧ int_ok (circuitResetTimeoutMs c);
  ty_retry : int_ok (retryMax c) ∧ int_ok (retryBaseDelayMs c) ∧ int_ok (retryMaxDelayMs c);
  ty_timeouts : int_ok (connectTimeoutMs c) ∧ int_ok (backendReadTimeoutMs c);
  ty_limits : size_ok (cfg_maxResponseBodyBytes c) ∧ size_ok (maxIdleConnsPerBackend c);
  ty_health : int_ok (healthCheckIntervalMs c) ∧ int_ok (healthCheckTimeoutMs c);
  ty_ports : Forall (λ g, Forall (λ b, int_ok (bc_port b)) (bg_backends g)) (backendGroups c)
}.

(** The pointers of the loader point at the element added last. *)
Record loader_ok (l : Loader) : Prop := {
  ld_typed : config_typed (cfg l);
  ld_group : ∀ i, curGroup l = Some i → S i = length (backendGroups (cfg l));
  ld_route : ∀ i, curRoute l = Some i → S i = length (routes (cfg l))
}.

Definition port_ok (p : Z) : Prop := (1 ≤ p ≤ 65535)%Z.

Definition backend_valid (b : BackendConfig) : Prop := bc_host b ≠ [] ∧ port_ok (bc_port b).

Record group_valid (g : BackendGroupConfig) : Prop := {
  gv_name : bg_name g ≠ [];
  gv_strategy : bg_strategy g = str "round_robin" ∨ bg_strategy g = str "least_connections";
  gv_some : bg_backends g ≠ [];
  gv_backends : Forall backend_valid (bg_backends g)
}.

Definition route_valid (r : RouteConfig) : Prop :=
  head (rc_pathPrefix r) = Some "/"%char ∧ rc_backendGroup r ≠ [].

Record config_valid (c : GatewayConfig) : Prop := {
  cv_listen : port_ok (listenPort c);
  cv_metrics : port_ok (metricsPort c);
  cv_distinct : listenPort c ≠ metricsPort c;
  cv_workers : (0 < workerThreads c)%Z;
  cv_capacity : (0 < rateLimitCapacity c)%Z;
  cv_refill : double_le_zero (rateLimitRefillPerSecond c) = false;
  cv_body : cfg_maxResponseBodyBytes c ≠ 0%Z;
  cv_read : (0 < backendReadTimeoutMs c)%Z;
  cv_connect : (0 < connectTimeoutMs c)%Z;
  cv_groups : backendGroups c ≠ [] ∧ Forall group_valid (backendGroups c);
  cv_routes : routes c ≠ [] ∧ Forall route_valid (routes c)
}.

Lemma toInt_ok s d : int_ok d → int_ok (toInt s d).
Proof.
  intros Hd. unfold toInt. destruct (decide (s = [])); [done|].
  destruct (stoi s) as [v|] eqn:E; [|done]. simpl. revert E. unfold stoi.
  destruct (strtol s) as [w|]; [|done]. destruct (_ && _) eqn:Eb; [|done]. intros [= <-].
  unfold int_ok. lia.
Qed.

Lemma toSize_ok s d : size_ok (toSize s d).
Proof. apply u64_range. Qed.

Lemma int_ok_0 : int_ok 0.
Proof. unfold int_ok, int_min, int_max. lia. Qed.

#[export] Hint Resolve toInt_ok toSize_ok int_ok_0 : gw.

Lemma defaultConfig_typed : config_typed defaultConfig.
Proof. split; unfold int_ok, size_ok, int_min, int_max; simpl; try done; lia. Qed.

Lemma newLoader_ok : loader_ok newLoader.
Proof. split; [apply defaultConfig_typed|done..]. Qed.

Lemma set_cfg_ok c l :
  loader_ok l → config_typed c → backendGroups c = backendGroups (cfg l) → routes c = routes (cfg l) →
  loader_ok (set_cfg c l).
Proof. intros [_ Hg Hr] Hc Eg Er. split; simpl; [done|rewrite Eg; auto|rewrite Er; auto]. Qed.

(** A function on configurations that only changes plain settings, and keeps
    them typed. *)
Definition plain_setting (f : GatewayConfig → GatewayConfig) : Prop :=
  ∀ c, config_typed c → config_typed (f c) ∧ backendGroups (f c) = backendGroups c ∧ routes (f c) = routes c.

Ltac plain_line :=
  intros c Hc; repeat case_if; (split; [|split; reflexivity]); try exact Hc; destruct Hc; destruct_and?;
  split; simpl; auto with gw.

Section lines.
Context (rnd : Q → Q).

Lemma listen_line_plain k v : plain_setting (listen_line k v).
Proof. unfold listen_line. plain_line. Qed.
Lemma rate_limit_line_plain k v : plain_setting (rate_limit_line rnd k v).
Proof. unfold rate_limit_line. plain_line. Qed.
Lemma cache_line_plain k v : plain_setting (cache_line k v).
Proof. unfold cache_line. plain_line. Qed.
Lemma circuit_line_plain k v : plain_setting (circuit_line k v).
Proof. unfold circuit_line. plain_line. Qed.
Lemma retry_line_plain k v : plain_setting (retry_line k v).
Proof. unfold retry_line. plain_line. Qed.
Lemma connection_line_plain k v : plain_setting (connection_line k v).
Proof. unfold connection_line. plain_line. Qed.
Lemma health_line_plain k v : plain_setting (health_line k v).
Proof. unfold health_line. plain_line. Qed.

Lemma plain_section_plain sec f k v : plain_section rnd sec = Some f → plain_setting (f k v).
Proof.
  unfold plain_section.
  repeat case_if; intros [= <-]; first
    [ apply listen_line_plain | apply rate_limit_line_plain | apply cache_line_plain
    | apply circuit_line_plain | apply retry_line_plain | apply connection_line_plain
    | apply health_line_plain ].
Qed.

Lemma plain_ok f l : plain_setting f → loader_ok l → loader_ok (set_cfg (f (cfg l)) l).
Proof. intros Hf Hl. destruct (Hf (cfg l)) as (? & ? & ?); [apply Hl|]. by apply set_cfg_ok. Qed.

Lemma top_line_ok ln l : loader_ok l → loader_ok (top_line ln l).
Proof.
  intros [Hc _ _]. unfold top_line. destruct (splitKv _) as [k v].
  repeat case_if; split; simpl; try done; destruct Hc; destruct_and?; split; simpl; auto with gw.
Qed.
End lines.

Definition ports_typed (g : BackendGroupConfig) : Prop := Forall (λ b, int_ok (bc_port b)) (bg_backends g).

Lemma set_groups_typed gs c : config_typed c → Forall ports_typed gs → config_typed (set_groups gs c).
Proof. intros [] Hg. by split. Qed.

Lemma set_routes_typed rs c : config_typed c → config_typed (set_routes rs c).
Proof. intros []. by split. Qed.

Lemma Forall_alter_keep {A} (P : A → Prop) f i (l : list A) :
  Forall P l → (∀ x, P x → P (f x)) → Forall P (alter f i l).
Proof. intros Hl Hf. apply Forall_alter; auto. Qed.

Lemma on_group_typed i f c :
  config_typed c → (∀ g, ports_typed g → ports_typed (f g)) → config_typed (on_group i f c).
Proof. intros Hc Hf. apply set_groups_typed; [done|]. apply Forall_alter_keep; [apply Hc|done]. Qed.

Lemma on_back_typed f g :
  ports_typed g → (∀ b, int_ok (bc_port b) → int_ok (bc_port (f b))) → ports_typed (on_back f g).
Proof. intros Hg Hf. unfold ports_typed, on_back. simpl. by apply Forall_alter_keep. Qed.

#[local] Hint Resolve on_group_typed on_back_typed set_groups_typed set_routes_typed : gw.

(** Updating through a pointer keeps the loader's invariant. *)
Lemma on_group_ok i f l :
  loader_ok l → (∀ g, ports_typed g → ports_typed (f g)) → loader_ok (set_cfg (on_group i f (cfg l)) l).
Proof.
  intros [Hc Hg Hr] Hf. split; simpl; [by apply on_group_typed| |done].
  intros j Hj. rewrite length_alter. by apply Hg.
Qed.

Lemma begin_group_ok ln l : loader_ok l → loader_ok (begin_group ln l).
Proof.
  intros [Hc Hg Hr]. unfold begin_group. destruct (splitKv _) as [k v].
  assert (config_typed (set_groups (backendGroups (cfg l) ++ [newGroup]) (cfg l))) as H1.
  { apply set_groups_typed; [done|]. apply Forall_app. split; [apply Hc|]. repeat constructor. }
  destruct (key_is k "name"); split; simpl; auto with gw.
  all: intros i [= <-]; rewrite ?length_alter, length_app; simpl; lia.
Qed.

Lemma begin_backend_ok ln i l : loader_ok l → loader_ok (begin_backend ln i l).
Proof.
  intros Hl. unfold begin_backend. destruct (splitKv _) as [k v].
  set (add := λ g, set_backend_list (bg_backends g ++ [newBackend]) g).
  assert (loader_ok (set_cfg (on_group i add (cfg l)) l)) as H1.
  { apply on_group_ok; [done|]. intros g Hg. unfold ports_typed, add. simpl.
    apply Forall_app. split; [done|]. repeat constructor; simpl; unfold int_min, int_max; lia. }
  destruct (key_is k "host"); [|done].
  apply (on_group_ok i (on_back (set_host v)) _ H1). intros g Hg. by apply on_back_typed.
Qed.

Lemma group_setting_ok ln i l : loader_ok l → loader_ok (group_setting ln i l).
Proof.
  intros Hl. unfold group_setting. destruct (splitKv _) as [k v]. repeat case_if; try done.
  - by apply on_group_ok.
  - by apply on_group_ok.
  - destruct Hl. by split.
  - apply on_group_ok; [done|]. intros g Hg. by apply on_back_typed.
  - apply on_group_ok; [done|]. intros g Hg. apply on_back_typed; [done|]. intros; simpl. auto with gw.
Qed.

Lemma group_line_ok ln l : loader_ok l → loader_ok (group_line ln l).
Proof.
  intros Hl. unfold group_line. case_if; [by apply begin_group_ok|].
  destruct (curGroup l) as [i|]; [|done].
  case_if; [by apply begin_backend_ok|by apply group_setting_ok].
Qed.

Lemma on_route_ok i f l : loader_ok l → loader_ok (set_cfg (on_route i f (cfg l)) l).
Proof.
  intros [Hc Hg Hr]. split; simpl; [by apply set_routes_typed|done|].
  intros j Hj. rewrite length_alter. by apply Hr.
Qed.

Lemma set_cfg_id l : set_cfg (cfg l) l = l.
Proof. by destruct l. Qed.

Lemma route_line_ok ln l : loader_ok l → loader_ok (route_line ln l).
Proof.
  intros Hl. unfold route_line. case_if.
  - destruct Hl as [Hc Hg Hr]. destruct (splitKv _) as [k v].
    destruct (key_is k "path_prefix"); split; simpl; auto with gw; try by repeat apply set_routes_typed.
    all: intros i [= <-]; rewrite ?length_alter, length_app; simpl; lia.
  - destruct (curRoute l) as [i|]; [|done]. destruct (splitKv _) as [k v].
    repeat case_if; try by apply on_route_ok. by rewrite set_cfg_id.
Qed.

Lemma load_line_ok rnd ln l : loader_ok l → loader_ok (load_line rnd l ln).
Proof.
  intros Hl. unfold load_line. destruct (splitKv (content ln)) as [k v]. case_if; [by apply top_line_ok|].
  destruct (plain_section rnd (section l)) as [f|] eqn:E.
  - apply plain_ok; [|done]. by eapply plain_section_plain.
  - repeat case_if; [by apply group_line_ok|by apply route_line_ok|done].
Qed.

Lemma load_lines_ok rnd lines l : loader_ok l → loader_ok (load_lines rnd lines l).
Proof. revert l. induction lines as [|ln lines IH]; intros l Hl; [done|]. by apply IH, load_line_ok. Qed.

(** ** Validation *)

Lemma first_error_None {A} (check : A → option config_error) xs :
  first_error check xs = None ↔ Forall (λ x, check x = None) xs.
Proof.
  induction xs as [|x xs IH]; simpl; [by split|]. rewrite Forall_cons.
  destruct (check x); [|rewrite IH]; naive_solver.
Qed.

Lemma key_is_true k s : key_is k s = true ↔ k = str s.
Proof. apply bool_decide_eq_true. Qed.

Lemma bad_port_false p : bad_port p = false ↔ port_ok p.
Proof. unfold bad_port, port_ok. lia. Qed.

Lemma check_backend_None b : check_backend b = None ↔ backend_valid b.
Proof.
  unfold check_backend, backend_valid. rewrite <- bad_port_false.
  destruct (bad_port (bc_port b)), (bool_decide_reflect (bc_host b = [])); simpl; naive_solver.
Qed.

Lemma check_group_None g : check_group g = None ↔ group_valid g.
Proof.
  unfold check_group. split.
  - destruct (_ || _) eqn:E; [done|]. intros H%first_error_None.
    rewrite !orb_false_iff, andb_false_iff, !bool_decide_eq_false, !negb_false_iff, !key_is_true in E.
    destruct E as [[? ?] ?]. split; try done.
    eapply Forall_impl; [exact H|]. intros b. apply check_backend_None.
  - intros [? Hs ? Hb]. destruct (_ || _) eqn:E.
    + rewrite !orb_true_iff, andb_true_iff, !bool_decide_eq_true, !negb_true_iff in E.
      destruct E as [[?|?]|[E1 E2]]; [done..|].
      destruct Hs as [Hs%key_is_true|Hs%key_is_true]; congruence.
    + apply first_error_None. eapply Forall_impl; [exact Hb|]. intros b. apply check_backend_None.
Qed.

Lemma check_route_None r : check_route r = None ↔ route_valid r.
Proof.
  unfold check_route, route_valid.
  destruct (bool_decide_reflect (rc_pathPrefix r = [])) as [E|E],
    (bool_decide_reflect (head (rc_pathPrefix r) = Some "/"%char)), (bool_decide_reflect (rc_backendGroup r = []));
    simpl; try naive_solver. rewrite E in *. naive_solver.
Qed.

Lemma check_values_None c :
  check_values c = None ↔
  (port_ok (listenPort c) ∧ port_ok (metricsPort c) ∧ listenPort c ≠ metricsPort c) ∧
  ((0 < workerThreads c)%Z ∧ (0 < rateLimitCapacity c)%Z ∧
   double_le_zero (rateLimitRefillPerSecond c) = false ∧ cfg_maxResponseBodyBytes c ≠ 0%Z ∧
   (0 < backendReadTimeoutMs c)%Z ∧ (0 < connectTimeoutMs c)%Z) ∧
  backendGroups c ≠ [] ∧ routes c ≠ [].
Proof.
  unfold check_values. rewrite <- !bad_port_false. case_if; [|case_if; [|case_if]].
  - split; [done|]. rewrite !orb_true_iff in *. intuition (lia || congruence).
  - split; [done|]. lia.
  - split; [done|]. rewrite !orb_true_iff, !bool_decide_eq_true in *. tauto.
  - split; [intros _|done]. rewrite !orb_false_iff, ?bool_decide_eq_false in *.
    intuition lia.
Qed.

Lemma validate_None c : validate c = None ↔ config_valid c.
Proof.
  unfold validate. split.
  - destruct (check_values c) eqn:E1; [done|]. destruct (first_error check_group _) eqn:E2; [done|].
    intros E3. apply check_values_None in E1 as ((? & ? & ?) & (? & ? & ? & ? & ? & ?) & ? & ?).
    apply first_error_None in E2, E3. split; try done; split; try done.
    + eapply Forall_impl; [exact E2|]. intros g. apply check_group_None.
    + eapply Forall_impl; [exact E3|]. intros r. apply check_route_None.
  - intros [???????? ? [? Hg] [? Hr]]. rewrite (proj2 (check_values_None c)) by done.
    rewrite (proj2 (first_error_None _ _)).
    2: { eapply Forall_impl; [exact Hg|]. intros g. apply check_group_None. }
    apply first_error_None. eapply Forall_impl; [exact Hr|]. intros r. apply check_route_None.
Qed.

Lemma first_error_not_open {A} (check : A → option config_error) xs :
  (∀ x, check x ≠ Some CannotOpen) → first_error check xs ≠ Some CannotOpen.
Proof. intros H. induction xs as [|x xs IH]; simpl; [done|]. specialize (H x). by destruct (check x). Qed.

Lemma validate_not_open c : validate c ≠ Some CannotOpen.
Proof.
  unfold validate.
  assert (check_values c ≠ Some CannotOpen) by (unfold check_values; by repeat case_if).
  assert (first_error check_group (backendGroups c) ≠ Some CannotOpen).
  { apply first_error_not_open. intros g. unfold check_group. case_if; [done|].
    apply first_error_not_open. intros b. unfold check_backend. by case_if. }
  assert (first_error check_route (routes c) ≠ Some CannotOpen).
  { apply first_error_not_open. intros r. unfold check_route. by case_if. }
  by destruct (check_values c), (first_error check_group _).
Qed.

Lemma load_valid rnd file c : loadFromFile rnd file = inr c → config_typed c ∧ config_valid c.
Proof.
  unfold loadFromFile. destruct file as [text|]; [|done].
  destruct (validate _) eqn:E; [done|]. intros [= <-]. split; [|by apply validate_None].
  apply load_lines_ok, newLoader_ok.
Qed.

(** ** Theorems *)

(** C38: loading accepts exactly the valid configurations.  Whatever bytes the
    file holds, every number that was read fits the type of its field, the
    pointers of the loader stay on the element added last, and the
    configuration is returned when it is valid (ports in range and distinct,
    positive limits, known strategies, at least one addressed backend per
    group, routes that start with a slash) and rejected with an error when it
    is not. *)
Theorem config_load_decides rnd text :
  let l := load_lines rnd (tokenize text) newLoader in
  loader_ok l ∧
  ((loadFromFile rnd (Some text) = inr (cfg l) ∧ config_valid (cfg l)) ∨
   (∃ e, loadFromFile rnd (Some text) = inl e ∧ e ≠ CannotOpen ∧ ¬ config_valid (cfg l))).
Proof.
  intros l. split; [apply load_lines_ok, newLoader_ok|]. unfold loadFromFile. fold l.
  destruct (validate (cfg l)) as [e|] eqn:E.
  - right. exists e. split_and!; [done| |].
    + intros ->. by apply validate_not_open in E.
    + rewrite <- validate_None. congruence.
  - left. split; [done|]. by apply validate_None.
Qed.

Definition yaml (lines : list string) : bytes := concat ((λ s, str s ++ [LF]) <$> lines).

(** Negative numbers slip through validation.  A file with negative
    retries and a negative response limit loads: the limit becomes the
    largest [size_t], the retry count is negative, and the only route names a
    group that does not exist. *)
Theorem config_accepts_negative :
  match
    loadFromFile rnd64 (Some (yaml
      ["connection:"; "  max_response_body_bytes: -1"; "retry:"; "  max_retries: -3";
       "backend_groups:"; "  - name: a"; "    backends:"; "      - host: h"; "        port: 9001";
       "routes:"; "  - path_prefix: /"; "    backend_group: b"]%string))
  with
  | inr c => cfg_maxResponseBodyBytes c = (2 ^ 64 - 1)%Z ∧ retryMax c = (-3)%Z ∧
      (∀ g r, g ∈ backendGroups c → r ∈ routes c → rc_backendGroup r ≠ bg_name g)
  | inl _ => False
  end.
Proof.
  vm_compute. split_and!; [done..|]. intros g r Hg Hr.
  apply list_elem_of_singleton in Hg as ->. apply list_elem_of_singleton in Hr as ->. done.
Qed.
