(* ===== verification/RateLimiterDouble.v ===== *)
(** * The rate limiter on all doubles (include/resilience/RateLimiter.hpp)

    [refill_per_second] is read by [std::stod], which also reads [inf] and
    [nan], and products of finite doubles can overflow.  Here the body of
    [allow] is written on doubles with infinities and NaN, every operation as
    IEEE 754 has it (signed zeros apart, which the code does not tell from
    zero).  On finite rates and readings that do not go back it is the
    limiter of RateLimiter.v; on an infinite or NaN rate, which the loader
    accepts, it lets everything through. *)
From Stdlib Require Import Qabs.
From S2P Require Import Prelude CxxString Rounding CxxDouble RateLimiter Config.
Local Open Scope Q_scope.

(** ** Arithmetic *)

Section arithmetic.
Context (rnd : Q → Q).

(** A result after rounding: too large is infinite. *)
Definition d_round (q : Q) : double :=
  let r := rnd q in
  if Qle_bool (Qpower 2 1024) (Qabs r) then Infinite (negb (Qle_bool 0 r)) else Finite r.

Definition d_neg (a : double) : double :=
  match a with Finite q => Finite (- q) | Infinite s => Infinite (negb s) | NaN => NaN end.

Definition d_add (a b : double) : double :=
  match a, b with
  | NaN, _ | _, NaN => NaN
  | Finite p, Finite q => d_round (p + q)
  | Infinite s, Infinite t => if Bool.eqb s t then Infinite s else NaN
  | Infinite s, _ | _, Infinite s => Infinite s
  end.

Definition d_sub (a b : double) : double := d_add a (d_neg b).

(** The sign of a finite factor decides that of an infinite product. *)
Definition d_scale (q : Q) (s : bool) : double :=
  match Qcompare q 0 with Eq => NaN | Gt => Infinite s | Lt => Infinite (negb s) end.

Definition d_mul (a b : double) : double :=
  match a, b with
  | NaN, _ | _, NaN => NaN
  | Finite p, Finite q => d_round (p * q)
  | Infinite s, Infinite t => Infinite (xorb s t)
  | Infinite s, Finite q | Finite q, Infinite s => d_scale q s
  end.

(** [a <= b] and [a < b]: false when either is NaN. *)
Definition d_le (a b : double) : bool :=
  match a, b with
  | NaN, _ | _, NaN => false
  | Finite p, Finite q => Qle_bool p q
  | Infinite s, Infinite t => s || negb t
  | Infinite s, Finite _ => s
  | Finite _, Infinite t => negb t
  end.

Definition d_lt (a b : double) : bool :=
  match a, b with NaN, _ | _, NaN => false | _, _ => negb (d_le b a) end.

(** [std::min]. *)
Definition d_min (a b : double) : double := if d_lt b a then b else a.

(** ** The limiter *)

Record d_bucket := mkDBucket { d_tokens : double; d_lastRefill : Z }.

Record d_limiter := mkDLimiter {
  d_capacity : double;
  d_refill : double;
  d_buckets : gmap bytes d_bucket
}.

Definition d_newLimiter (capacity refillPerSecond : double) : d_limiter := mkDLimiter capacity refillPerSecond ∅.

(** Lines 22-31. *)
Definition d_refreshed (rl : d_limiter) (now : Z) (b : d_bucket) : d_bucket :=
  if (d_lastRefill b =? 0)%Z then mkDBucket (d_capacity rl) now
  else
    let elapsed := Finite (duration_seconds rnd (now - d_lastRefill b)) in
    mkDBucket (d_min (d_capacity rl) (d_add (d_tokens b) (d_mul elapsed (d_refill rl)))) now.

Definition d_put (rl : d_limiter) (key : bytes) (b : d_bucket) : d_limiter :=
  mkDLimiter (d_capacity rl) (d_refill rl) (<[key := b]> (d_buckets rl)).

Definition d_bucket_of (rl : d_limiter) (key : bytes) : d_bucket := default (mkDBucket (Finite 0) 0) (d_buckets rl !! key).

Definition d_allow (now : Z) (key : bytes) (cost : double) (rl : d_limiter) : bool * d_limiter :=
  let b := d_refreshed rl now (d_bucket_of rl key) in
  if d_le cost (d_tokens b)
  then (true, d_put rl key (mkDBucket (d_sub (d_tokens b) cost) (d_lastRefill b)))
  else (false, d_put rl key b).

Fixpoint d_allow_run (rl : d_limiter) (calls : list (Z * bytes)) : d_limiter * list bool :=
  match calls with
  | [] => (rl, [])
  | (now, key) :: calls' =>
      let '(b, rl1) := d_allow now key (Finite 1) rl in
      let '(rl2, bs) := d_allow_run rl1 calls' in (rl2, b :: bs)
  end.
End arithmetic.

(** ** Finite rates: the limiter of RateLimiter.v *)

Definition embed_bucket (b : Bucket) : d_bucket := mkDBucket (Finite (tokens b)) (lastRefill b).

Definition embed (rl : TokenBucketRateLimiter) : d_limiter :=
  mkDLimiter (Finite (capacity_ rl)) (Finite (refillPerSecond_ rl)) (embed_bucket <$> buckets_ rl).

Section finite.
Context (rnd : Q → Q) `{!Rounding rnd}.

Lemma d_round_small q : Qabs (rnd q) < Qpower 2 1024 → d_round rnd q = Finite (rnd q).
Proof.
  intros H. unfold d_round. destruct (Qle_bool _ _) eqn:E; [|done]. apply Qle_bool_iff in E. lra.
Qed.

(** Above the capacity it does not matter whether a sum overflows. *)
Lemma d_min_round c q : 0 <= c → c < Qpower 2 1024 → 0 <= rnd q → d_min (Finite c) (d_round rnd q) = Finite (double_min c (rnd q)).
Proof.
  intros Hc0 Hc Hq. unfold d_min, d_round, double_min. destruct (Qle_bool (Qpower 2 1024) (Qabs (rnd q))) eqn:E.
  - apply Qle_bool_iff in E. rewrite Qabs_pos in E by done. rewrite (proj2 (Qle_bool_iff 0 (rnd q)) Hq).
    rewrite (proj2 (Qle_bool_iff c (rnd q)) ltac:(lra)). done.
  - unfold d_lt, d_le. by destruct (Qle_bool c (rnd q)).
Qed.

Lemma below_max (c : Z) : (c <= 2 ^ 53)%Z → inject_Z c < Qpower 2 1024.
Proof.
  intros Hc. apply Qle_lt_trans with (inject_Z (2 ^ 53)); [by rewrite <- Zle_Qle|]. by vm_compute.
Qed.

Lemma d_bucket_of_embed rl key : d_bucket_of (embed rl) key = embed_bucket (bucket_of rl key).
Proof. unfold d_bucket_of, bucket_of. cbn [embed d_buckets]. rewrite lookup_fmap. by destruct (buckets_ rl !! key). Qed.

Lemma d_put_embed rl key b : d_put (embed rl) key (embed_bucket b) = embed (put_bucket rl key b).
Proof. unfold d_put, embed, put_bucket. cbn. by rewrite fmap_insert. Qed.

Lemma d_refreshed_embed rl now key :
  rl_ok rl → clock_ok now rl key →
  d_refreshed rnd (embed rl) now (embed_bucket (bucket_of rl key)) = embed_bucket (refreshed rnd rl now (bucket_of rl key)).
Proof.
  intros Hok Hclk. destruct (bucket_of_ok rl key Hok) as [B0 B1]. destruct Hok as [(c & Hc & Hr) Hrf _].
  unfold clock_ok in Hclk. generalize dependent (bucket_of rl key). intros b B0 B1 Hclk.
  unfold d_refreshed, refreshed, embed_bucket. cbn [d_lastRefill d_tokens d_capacity d_refill embed].
  destruct (lastRefill b =? 0)%Z; [done|]. set (e := duration_seconds rnd (now - lastRefill b)). cbn [tokens lastRefill]. f_equal.
  assert (0 <= e) as He by (apply duration_nonneg; [done|lia]).
  assert (0 <= rnd (e * refillPerSecond_ rl)) as Hm by (apply (rnd_nonneg rnd); by apply Qmult_le_0_compat).
  pose proof (below_max c ltac:(lia)) as Hlt. rewrite <- Hc in Hlt.
  assert (0 <= capacity_ rl) as Hc0 by (rewrite Hc; change 0 with (inject_Z 0); rewrite <- Zle_Qle; lia).
  cbn [d_mul]. unfold d_round at 1. destruct (Qle_bool (Qpower 2 1024) _) eqn:Ebig.
  - apply Qle_bool_iff in Ebig. rewrite Qabs_pos in Ebig by done. rewrite (proj2 (Qle_bool_iff 0 _) Hm). cbn [negb d_add d_min d_lt d_le].
    unfold double_min. assert (capacity_ rl <= rnd (tokens b + rnd (e * refillPerSecond_ rl))) as Hge.
    { rewrite Hc in *. apply (rnd_ge_int rnd); [lia|lra]. }
    by rewrite (proj2 (Qle_bool_iff _ _) Hge).
  - cbn [d_add]. apply d_min_round; [done|done|]. apply (rnd_nonneg rnd). lra.
Qed.

Lemma d_allow_embed rl now key :
  rl_ok rl → clock_ok now rl key →
  d_allow rnd now key (Finite 1) (embed rl) = ((allow rnd now key 1 rl).1, embed (allow rnd now key 1 rl).2).
Proof.
  intros Hok Hclk. unfold d_allow, allow. rewrite d_bucket_of_embed, d_refreshed_embed by done.
  pose proof (refreshed_ok rnd rl now key Hok Hclk) as [R0 R1]. destruct Hok as [(c & Hc & Hr) Hrf _].
  generalize dependent (refreshed rnd rl now (bucket_of rl key)). intros b R0 R1. cbn [d_tokens embed_bucket d_le].
  destruct (Qle_bool 1 (tokens b)) eqn:E; cbn [fst snd]; [|by rewrite d_put_embed].
  apply Qle_bool_iff in E. rewrite <- d_put_embed. f_equal. f_equal. unfold embed_bucket, d_sub, Qminus. cbn [d_neg d_add tokens lastRefill].
  f_equal. apply d_round_small. pose proof (below_max c ltac:(lia)) as Hlt. rewrite Hc in R1.
  assert (0 <= rnd (tokens b + - (1))) by (apply (rnd_nonneg rnd); lra). rewrite Qabs_pos by done.
  apply Qle_lt_trans with (inject_Z c); [|done]. apply (rnd_le_int rnd); [lia|lra].
Qed.

Lemma d_allow_run_embed t rl calls :
  rl_ok rl → (∀ k, (lastRefill (bucket_of rl k) <= t)%Z) → times_from t calls →
  d_allow_run rnd (embed rl) calls = (embed (allow_run rnd rl calls).1, (allow_run rnd rl calls).2).
Proof.
  revert t rl. induction calls as [|[now key] calls IH]; intros t rl Hok Ht Hcalls; [done|].
  destruct Hcalls as [Hnow Hcalls]. rewrite allow_run_cons. cbn [d_allow_run fst snd].
  assert (clock_ok now rl key) as Hclk by (unfold clock_ok; specialize (Ht key); lia).
  rewrite d_allow_embed by done. rewrite (IH now); [done| | |done].
  - by apply allow_keeps_ok.
  - intros k. rewrite allow_last_refill. specialize (Ht k). destruct (decide _); lia.
Qed.
End finite.

(** ** Rates that are not finite *)

(** A rate that the loader lets through and that is no number. *)
Definition unlimited (refill : double) : bool :=
  match refill with Finite _ => false | Infinite negative => negb negative | NaN => true end.

Section off.
Context (rnd : Q → Q) `{!Rounding rnd} (c : Z) (refill : double).
Hypothesis burst : (1 <= c <= 2 ^ 53)%Z.
Hypothesis no_rate : unlimited refill = true.

Record d_off (t : Z) (rl : d_limiter) : Prop := {
  do_capacity : d_capacity rl = Finite (inject_Z c);
  do_refill : d_refill rl = refill;
  do_buckets : ∀ k b, d_buckets rl !! k = Some b → (d_lastRefill b <= t)%Z ∧ ∃ q, d_tokens b = Finite q
}.

Lemma d_refreshed_off t rl now key :
  d_off t rl → (t <= now)%Z → d_tokens (d_refreshed rnd rl now (d_bucket_of rl key)) = Finite (inject_Z c).
Proof.
  intros [Hc Hr Hb] Ht. unfold d_refreshed. destruct (Z.eqb_spec (d_lastRefill (d_bucket_of rl key)) 0) as [|Hne]; cbn [d_tokens]; [done|].
  rewrite Hc, Hr. unfold d_bucket_of in *. destruct (d_buckets rl !! key) as [b|] eqn:E; [|done].
  change (default (mkDBucket (Finite 0) 0) (Some b)) with b in *. destruct (Hb _ _ E) as (Hlast & q & ->).
  assert (0 <= duration_seconds rnd (now - d_lastRefill b)) as He by (apply duration_nonneg; [done|lia]).
  destruct refill as [|[]|]; try done. cbn [d_mul]. unfold d_scale.
  destruct (Qcompare_spec (duration_seconds rnd (now - d_lastRefill b)) 0); [done| |done]. lra.
Qed.

Lemma d_allow_off t rl now key :
  d_off t rl → (t <= now)%Z → (d_allow rnd now key (Finite 1) rl).1 = true ∧ d_off now (d_allow rnd now key (Finite 1) rl).2.
Proof.
  intros Ho Ht. pose proof (d_refreshed_off t rl now key Ho Ht) as Htok. unfold d_allow.
  assert (d_lastRefill (d_refreshed rnd rl now (d_bucket_of rl key)) = now) as Hlast by (unfold d_refreshed; by case_match).
  generalize dependent (d_refreshed rnd rl now (d_bucket_of rl key)). intros b Htok Hlast. rewrite Htok. cbn [d_le].
  rewrite (proj2 (Qle_bool_iff 1 (inject_Z c))) by (change 1 with (inject_Z 1); rewrite <- Zle_Qle; lia). cbn [fst snd].
  split; [done|]. destruct Ho as [Hc Hr Hb]. split; [done|done|]. intros k b'. cbn [d_put d_buckets].
  destruct (decide (key = k)) as [->|Hne]; [rewrite lookup_insert_eq|rewrite lookup_insert_ne by done].
  - intros [= <-]. cbn [d_lastRefill d_tokens]. split; [lia|]. unfold d_sub. cbn [d_neg d_add]. eexists. apply d_round_small.
    rewrite Qabs_pos.
    + apply Qle_lt_trans with (inject_Z c); [|by apply below_max; lia]. apply (rnd_le_int rnd); [lia|lra].
    + apply (rnd_nonneg rnd). assert (1 <= inject_Z c) by (change 1 with (inject_Z 1); rewrite <- Zle_Qle; lia). lra.
  - intros Hk. destruct (Hb _ _ Hk) as [? ?]. split; [lia|done].
Qed.

Lemma d_run_off t rl calls :
  d_off t rl → times_from t calls → Forall (λ ok, ok = true) (d_allow_run rnd rl calls).2.
Proof.
  revert t rl. induction calls as [|[now key] calls IH]; intros t rl Ho Hcalls; [constructor|].
  destruct Hcalls as [Hnow Hcalls]. destruct (d_allow_off t rl now key Ho Hnow) as [H1 H2]. cbn [d_allow_run].
  destruct (d_allow _ _ _ _ _) as [b rl1]. cbn in H1, H2. subst b. specialize (IH now rl1 H2 Hcalls).
  destruct (d_allow_run _ rl1 calls). by constructor.
Qed.
End off.

(** ** Theorems *)

(** On doubles the limiter is the one of the rational model.  With a finite
    rate, from a limiter just built and with a clock that does not run
    backwards, infinities (a product that overflows) and NaN never come in
    the way: every answer and every bucket are those of [allow] on
    rationals. *)
Theorem limiter_on_doubles rnd `{!Rounding rnd} (c : Z) (r : Q) calls :
  (0 <= c <= int_max)%Z → 0 <= r → times_from 0 calls →
  d_allow_run rnd (d_newLimiter (Finite (inject_Z c)) (Finite r)) calls =
    (embed (allow_run rnd (newRateLimiter (inject_Z c) r) calls).1, (allow_run rnd (newRateLimiter (inject_Z c) r) calls).2).
Proof.
  intros Hc Hr Hcalls. change (d_newLimiter (Finite (inject_Z c)) (Finite r)) with (embed (newRateLimiter (inject_Z c) r)).
  apply (d_allow_run_embed rnd 0); [|done|done]. split; [exists c|done|by intros ???]. unfold int_max in Hc. split; [done|lia].
Qed.

(** A rate whose products overflow. *)
Lemma limiter_on_doubles_witness :
  let calls := [(1000000000, str "a"); (9000000000, str "a")]%Z in
  d_allow_run rnd64 (d_newLimiter (Finite (inject_Z 1)) (Finite (rnd64 (Qpower 10 308)))) calls =
    (embed (allow_run rnd64 (newRateLimiter (inject_Z 1) (rnd64 (Qpower 10 308))) calls).1,
     (allow_run rnd64 (newRateLimiter (inject_Z 1) (rnd64 (Qpower 10 308))) calls).2).
Proof.
  apply (limiter_on_doubles rnd64 1 (rnd64 (Qpower 10 308)) [(1000000000, str "a"); (9000000000, str "a")]%Z).
  - unfold int_max. lia.
  - apply (rnd_nonneg rnd64). by vm_compute.
  - cbn. lia.
Defined.

(** C35: a rate that is not a number switches the limiter off.  When a file
    loads and its [refill_per_second] is read as an infinity or as NaN, the
    limiter built from it lets every request of every client through, as long
    as the clock readings do not go back. *)
Theorem limiter_off_without_rate rnd `{!Rounding rnd} file cfg calls :
  loadFromFile rnd file = inr cfg → (∀ q, rateLimitRefillPerSecond cfg ≠ Finite q) → times_from 0 calls →
  Forall (λ ok, ok = true)
    (d_allow_run rnd (d_newLimiter (Finite (inject_Z (rateLimitCapacity cfg))) (rateLimitRefillPerSecond cfg)) calls).2.
Proof.
  intros [Ht Hv]%load_valid Hrate Hcalls. pose proof (ty_rate _ Ht) as Hc. pose proof (cv_capacity _ Hv) as Hpos.
  pose proof (cv_refill _ Hv) as Hr.
  apply (d_run_off rnd (rateLimitCapacity cfg) (rateLimitRefillPerSecond cfg)) with 0%Z; [|..|done].
  - unfold int_ok, int_max in Hc. lia.
  - destruct (rateLimitRefillPerSecond cfg) as [q|[]|]; [by destruct (Hrate q)|done..].
  - split; [done|done|]. intros k b. cbn. by rewrite lookup_empty.
Qed.

(** A file whose limit is one request per second but for the rate. *)
Definition rate_file (value : string) : bytes :=
  yaml ["rate_limit:"; "  capacity: 1"; "  refill_per_second: " ++ value; "backend_groups:"; "  - name: a"; "    backends:";
        "      - host: h"; "        port: 9001"; "routes:"; "  - path_prefix: /"; "    backend_group: a"]%string.

Definition rate_config (value : string) : GatewayConfig := cfg (load_lines rnd64 (tokenize (rate_file value)) newLoader).

Definition burst_calls : list (Z * bytes) :=
  [(1000000000, str "a"); (1000000000, str "a"); (1000000001, str "a"); (1000000001, str "a")]%Z.

Lemma limiter_off_without_rate_witness :
  rateLimitCapacity (rate_config "nan") = 1%Z ∧
  Forall (λ ok, ok = true)
    (d_allow_run rnd64 (d_newLimiter (Finite (inject_Z (rateLimitCapacity (rate_config "nan"))))
       (rateLimitRefillPerSecond (rate_config "nan"))) burst_calls).2.
Proof.
  split; [vm_compute; reflexivity|].
  apply (limiter_off_without_rate rnd64 (Some (rate_file "nan")) (rate_config "nan") burst_calls).
  - vm_compute. reflexivity.
  - intros q E. vm_compute in E. discriminate E.
  - cbn. lia.
Defined.

(** With the rate written as a number the same calls are limited; with an
    infinite rate a reading that goes back makes the tokens minus infinity,
    and that one request is refused. *)
Theorem rates_compared :
  (d_allow_run rnd64 (d_newLimiter (Finite 1) (rateLimitRefillPerSecond (rate_config "1"))) burst_calls).2 =
    [true; false; false; false] ∧
  (d_allow_run rnd64 (d_newLimiter (Finite 1) (rateLimitRefillPerSecond (rate_config "inf"))) burst_calls).2 =
    [true; true; true; true] ∧
  (d_allow_run rnd64 (d_newLimiter (Finite 1) (rateLimitRefillPerSecond (rate_config "inf")))
     [(2000000000, str "a"); (1000000000, str "a")]%Z).2 = [true; false].
Proof. split_and!; vm_compute; reflexivity. Qed.
