(* ===== verification/ConfigRoundTrip.v ===== *)
(** * Configuration files read back

    A configuration written in the layout of config/gateway.yaml (every
    section, then the groups with their backends, then the routes) is read
    back by [loadFromFile] as it was. *)
From S2P Require Import Prelude CxxString Rounding CxxDouble Config.
Local Open Scope nat_scope.

(** ** Printing *)

(** ["key:"] or ["key: value"]. *)
Definition entry (key : string) (v : bytes) : bytes :=
  str key ++ str ":" ++ (if decide (v = []) then [] else SP :: v).

Definition spaces (n : nat) : bytes := replicate n SP.

(** A line of the file: an entry, behind a list marker when it is an item. *)
Record pline := mkPline { p_indent : nat; p_item : bool; p_key : string; p_value : bytes }.

Definition setting (n : nat) (key : string) (v : bytes) : pline := mkPline n false key v.
Definition item (n : nat) (key : string) (v : bytes) : pline := mkPline n true key v.

Definition marked (is_item : bool) (s : bytes) : bytes := if is_item then str "- " ++ s else s.

Definition print_pline (p : pline) : bytes :=
  spaces (p_indent p) ++ marked (p_item p) (entry (p_key p) (p_value p)).

Definition print_section (sec : string * list (string * bytes)) : list pline :=
  setting 0 sec.1 [] :: ((λ kv, setting 2 kv.1 kv.2) <$> sec.2).

Definition print_backend (b : BackendConfig) : list pline :=
  [item 6 "host" (bc_host b); setting 8 "port" (to_string (bc_port b))].

Definition print_group (g : BackendGroupConfig) : list pline :=
  [item 2 "name" (bg_name g); setting 4 "strategy" (bg_strategy g); setting 4 "backends" []] ++
  concat (print_backend <$> bg_backends g).

Definition print_bool (b : bool) : bytes := if b then str "true" else str "false".

Definition print_route (r : RouteConfig) : list pline :=
  [item 2 "path_prefix" (rc_pathPrefix r); setting 4 "backend_group" (rc_backendGroup r);
   setting 4 "cacheable" (print_bool (rc_cacheable r))].

(** The sections of plain settings; [refill] is the text of the refill rate. *)
Definition plain_settings (refill : bytes) (c : GatewayConfig) : list (string * list (string * bytes)) :=
  [("listen", [("host", listenHost c); ("port", to_string (listenPort c))]);
   ("rate_limit", [("capacity", to_string (rateLimitCapacity c)); ("refill_per_second", refill)]);
   ("cache", [("capacity", to_string (cacheCapacity c)); ("ttl_ms", to_string (cacheTtlMs c))]);
   ("circuit_breaker", [("failure_threshold", to_string (circuitFailureThreshold c));
      ("reset_timeout_ms", to_string (circuitResetTimeoutMs c))]);
   ("retry", [("max_retries", to_string (retryMax c)); ("base_delay_ms", to_string (retryBaseDelayMs c));
      ("max_delay_ms", to_string (retryMaxDelayMs c))]);
   ("connection", [("connect_timeout_ms", to_string (connectTimeoutMs c));
      ("backend_read_timeout_ms", to_string (backendReadTimeoutMs c));
      ("max_response_body_bytes", to_string (cfg_maxResponseBodyBytes c));
      ("max_idle_per_backend", to_string (maxIdleConnsPerBackend c))]);
   ("health_check", [("interval_ms", to_string (healthCheckIntervalMs c));
      ("timeout_ms", to_string (healthCheckTimeoutMs c)); ("path", healthCheckPath c)])]%string.

Definition print_lines (refill : bytes) (c : GatewayConfig) : list pline :=
  [setting 0 "workers" (to_string (workerThreads c)); setting 0 "metrics_port" (to_string (metricsPort c))] ++
  concat (print_section <$> plain_settings refill c) ++
  setting 0 "backend_groups" [] :: concat (print_group <$> backendGroups c) ++
  setting 0 "routes" [] :: concat (print_route <$> routes c).

Definition print_config (refill : bytes) (c : GatewayConfig) : bytes :=
  concat ((λ l, print_pline l ++ [LF]) <$> print_lines refill c).

(** ** What can be printed *)

Definition config_trimmed (v : bytes) : Prop :=
  (∀ c, head v = Some c → c ∉ config_blanks) ∧ (∀ c, last v = Some c → c ∉ config_blanks).

(** Text that survives as a value: one line, no comment sign, no blanks
    around it. *)
Record plain_text (v : bytes) : Prop := {
  pt_line : LF ∉ v;
  pt_comment : "#"%char ∉ v;
  pt_trimmed : config_trimmed v;
  pt_size : (size_of v < 2 ^ 30)%Z
}.

(** The keys of the file format: letters and underscores. *)
Definition key_char (c : ascii) : bool := in_range 97 122 c || bool_decide (c = "_"%char).
Definition plain_key (key : string) : bool :=
  forallb key_char (str key) && negb (bool_decide (str key = [])) && (size_of (str key) <? 2 ^ 20)%Z.

Record config_printable (rnd : Q → Q) (refill : bytes) (c : GatewayConfig) : Prop := {
  cp_typed : config_typed c;
  cp_sizes : int_ok (cacheCapacity c) ∧ int_ok (cfg_maxResponseBodyBytes c) ∧ int_ok (maxIdleConnsPerBackend c);
  cp_refill : refill ≠ [] ∧ plain_text refill ∧ stod rnd refill = Some (rateLimitRefillPerSecond c);
  cp_texts : plain_text (listenHost c) ∧ plain_text (healthCheckPath c);
  cp_groups : Forall (λ g, plain_text (bg_name g) ∧ plain_text (bg_strategy g) ∧
    Forall (λ b, plain_text (bc_host b)) (bg_backends g)) (backendGroups c);
  cp_routes : Forall (λ r, plain_text (rc_pathPrefix r) ∧ plain_text (rc_backendGroup r)) (routes c)
}.

(** ** Trimming and splitting *)

Lemma config_trim_pad ws v :
  Forall (λ c, c ∈ config_blanks) ws → config_trimmed v → (size_of (ws ++ v) < 2 ^ 64)%Z →
  config_trim (ws ++ v) = v.
Proof. intros Hws [Hh Hl]. by apply trim_with_pad. Qed.

Lemma plain_key_char key c : plain_key key = true → c ∈ str key → key_char c = true.
Proof.
  unfold plain_key. rewrite !andb_true_iff, forallb_forall. intros [[H _] _] Hc%list_elem_of_In. by apply H.
Qed.

Lemma plain_key_size key : plain_key key = true → str key ≠ [] ∧ (size_of (str key) < 2 ^ 20)%Z.
Proof. unfold plain_key. rewrite !andb_true_iff, negb_true_iff, bool_decide_eq_false, Z.ltb_lt. tauto. Qed.

Lemma plain_key_not key c : plain_key key = true → key_char c = false → c ∉ str key.
Proof. intros Hk Hc Hin. pose proof (plain_key_char key c Hk Hin). congruence. Qed.

Lemma config_trimmed_key key : plain_key key = true → config_trimmed (str key).
Proof.
  intros Hk. assert (∀ c, c ∈ str key → c ∉ config_blanks) as H.
  { intros c Hc Hb. pose proof (plain_key_char key c Hk Hc) as E.
    repeat (apply elem_of_cons in Hb as [->|Hb]; [done|]). by apply elem_of_nil in Hb. }
  split; intros c Hc; apply H; [by apply head_Some_elem_of|by apply last_Some_elem_of].
Qed.

Lemma entry_size key v :
  plain_key key = true → plain_text v → (0 < size_of (entry key v) < 2 ^ 31 - 1000)%Z.
Proof.
  intros [Hne Hk]%plain_key_size [_ _ _ Hv]. unfold entry, size_of in *. rewrite !length_app.
  destruct (decide (v = [])); simpl length; destruct (str key); simpl length in *; try done; lia.
Qed.

Lemma splitKv_entry key v : plain_key key = true → plain_text v → splitKv (entry key v) = (str key, v).
Proof.
  intros Hk Hv. pose proof (plain_key_size _ Hk) as [_ Hks]. destruct Hv as [_ _ Ht Hs].
  unfold splitKv, entry. change (str ":" ++ ?x) with (":"%char :: x).
  rewrite find_char_hit by (by apply plain_key_not).
  unfold substr. rewrite drop_0, take_app_length. f_equal.
  - apply (config_trim_pad []); [done|by apply config_trimmed_key|]. simpl. lia.
  - rewrite Nat.add_1_r, (app_assoc (str key) [":"%char] _ : str key ++ ":"%char :: _ = _).
    replace (S (length (str key))) with (length (str key ++ [":"%char])) by (rewrite length_app; simpl; lia).
    rewrite drop_app_length. destruct (decide (v = [])) as [->|]; [done|].
    apply (config_trim_pad [SP]); [by repeat constructor|done|]. unfold size_of in *. simpl length. lia.
Qed.

Lemma stripComment_none s : "#"%char ∉ s → stripComment s = s.
Proof. intros H. unfold stripComment. by rewrite find_char_miss. Qed.

Lemma entry_not key v c : plain_key key = true → key_char c = false → c ≠ ":"%char → c ≠ SP → c ∉ v → c ∉ entry key v.
Proof.
  intros Hk Hc H1 H2 Hv. unfold entry. rewrite !not_elem_of_app. split_and!.
  - by apply plain_key_not.
  - change (str ":") with [":"%char]. by rewrite list_elem_of_singleton.
  - destruct (decide (v = [])); set_solver.
Qed.

Lemma last_app_some {A} (l k : list A) : k ≠ [] → last (l ++ k) = last k.
Proof.
  intros Hk. destruct (exists_last Hk) as (k' & x & ->). by rewrite app_assoc, !last_snoc.
Qed.

Lemma entry_trimmed key v : plain_key key = true → plain_text v → config_trimmed (entry key v).
Proof.
  intros Hk [_ _ [Hh Hl] _]. pose proof (config_trimmed_key _ Hk) as [Hkh _].
  pose proof (plain_key_size _ Hk) as [Hne _]. unfold entry. split.
  - intros c. destruct (str key) as [|d k]; [done|]. intros [= ->]. by apply Hkh.
  - intros c. rewrite app_assoc. destruct (decide (v = [])) as [->|Hv].
    + change (str ":") with [":"%char]. rewrite app_nil_r, last_snoc. intros [= <-]. by_decide.
    + rewrite last_app_some by done. change (SP :: v) with ([SP] ++ v). rewrite last_app_some by done. apply Hl.
Qed.

(** ** Reading a printed line *)

Lemma count_indent_spaces n s :
  head s ≠ Some SP → (0 < size_of s)%Z → (Z.of_nat n + size_of s ≤ int_max)%Z →
  count_indent (spaces n ++ s) = Z.of_nat n.
Proof.
  intros Hh Hs Hsz. unfold count_indent, spaces.
  assert (take_while (eqc SP) (replicate n SP ++ s) = replicate n SP) as ->.
  { destruct s as [|c s]; [done|]. apply take_while_app_stop.
    - apply Forall_replicate. by apply eqc_true.
    - apply eqc_false. naive_solver. }
  unfold size_of in *. rewrite length_app, length_replicate, Nat2Z.inj_add.
  rewrite wrap32_small by (unfold int_min; lia). lia.
Qed.

Record pline_ok (p : pline) : Prop := {
  po_indent : p_indent p < 100;
  po_key : plain_key (p_key p) = true;
  po_value : plain_text (p_value p)
}.

Definition line_of (p : pline) : Line :=
  mkLine (Z.of_nat (p_indent p)) (marked (p_item p) (entry (p_key p) (p_value p))).

Lemma print_pline_not p c : pline_ok p → c = LF ∨ c = "#"%char → c ∉ print_pline p.
Proof.
  intros [_ Hk Hv] Hc. unfold print_pline, marked.
  assert (c ∉ entry (p_key p) (p_value p)) as He.
  { apply entry_not; destruct Hc as [->| ->]; try done; apply Hv. }
  apply not_elem_of_app. split.
  - unfold spaces. intros [-> _]%elem_of_replicate. naive_solver.
  - destruct (p_item p); [|done]. apply not_elem_of_app. split; [|done].
    destruct Hc as [->| ->]; by_decide.
Qed.

Lemma read_pline p : pline_ok p → read_line (print_pline p) = Some (line_of p).
Proof.
  intros Hp. pose proof (print_pline_not p "#"%char Hp (or_intror eq_refl)) as Hc.
  destruct Hp as [Hn Hk Hv]. pose proof (entry_size _ _ Hk Hv) as Hes.
  pose proof (entry_trimmed _ _ Hk Hv) as [Hh Hl].
  assert (entry (p_key p) (p_value p) ≠ []) as Hne
    by (intros E; rewrite E in Hes; unfold size_of in Hes; simpl in Hes; lia).
  unfold print_pline in *. set (m := marked _ _) in *.
  assert (0 < size_of m < 2 ^ 31 - 900)%Z as Hms
    by (unfold m, marked, size_of in *; destruct (p_item p); rewrite ?length_app; simpl length; lia).
  assert (config_trimmed m) as Ht.
  { unfold m, marked. destruct (p_item p); [|done]. split.
    - intros c [= <-]. by_decide.
    - intros c. rewrite last_app_some by done. apply Hl. }
  unfold read_line. rewrite stripComment_none by done.
  rewrite config_trim_pad; [|by apply Forall_replicate; left|done|].
  2: { unfold size_of, spaces in *. rewrite !length_app, length_replicate. lia. }
  rewrite decide_False by (intros E; rewrite E in Hms; by destruct Hms).
  rewrite count_indent_spaces; [done|..].
  - intros E. apply (proj1 Ht) in E. apply E; left.
  - lia.
  - unfold int_max. lia.
Qed.

(** A file of lines without line feeds is those lines. *)
Lemma getlines_line l rest : LF ∉ l → getlines (l ++ LF :: rest) = l :: getlines rest.
Proof.
  induction l as [|c l IH]; intros Hl; [done|]. apply not_elem_of_cons in Hl as [Hc Hl]. simpl.
  rewrite decide_False by done. by rewrite IH.
Qed.

Lemma tokenize_print ps :
  Forall pline_ok ps → tokenize (concat ((λ l, print_pline l ++ [LF]) <$> ps)) = line_of <$> ps.
Proof.
  unfold tokenize. induction 1 as [|p ps Hp _ IH]; [done|]. rewrite !fmap_cons. simpl concat.
  rewrite <- app_assoc. simpl app. rewrite getlines_line by (apply print_pline_not; auto).
  cbn [omap list_omap]. rewrite (read_pline p Hp). cbn match. by rewrite IH.
Qed.

(** ** Loading printed lines *)

(** Evaluates the comparisons of literal keys. *)
Ltac eval_keys :=
  repeat match goal with
  | |- context [key_is (str ?a) ?b] =>
      let r := eval vm_compute in (key_is (str a) b) in change (key_is (str a) b) with r
  end; cbn match.

Section load.
Context (rnd : Q → Q).

Lemma load_lines_app xs ys l : load_lines rnd (xs ++ ys) l = load_lines rnd ys (load_lines rnd xs l).
Proof. apply foldl_app. Qed.

Lemma load_lines_cons x xs l : load_lines rnd (x :: xs) l = load_lines rnd xs (load_line rnd l x).
Proof. done. Qed.

Lemma plain_text_nil : plain_text [].
Proof. split; [set_solver..|by split|done]. Qed.

(** A section header. *)
Lemma load_header key l :
  plain_key key = true → str key ≠ str "workers" → str key ≠ str "metrics_port" →
  load_line rnd l (line_of (setting 0 key [])) = mkLoader (cfg l) (str key) None None false (-1) (-1).
Proof.
  intros Hk H1 H2. unfold load_line, line_of, top_line. simpl.
  rewrite splitKv_entry by (done || apply plain_text_nil). unfold key_is.
  by rewrite !bool_decide_eq_false_2.
Qed.

(** A plain setting. *)
Lemma load_plain f sec key v c g r b gi ri :
  plain_section rnd sec = Some f → plain_key key = true → plain_text v →
  load_line rnd (mkLoader c sec g r b gi ri) (line_of (setting 2 key v)) =
    mkLoader (f (str key) v c) sec g r b gi ri.
Proof.
  intros Hs Hk Hv. unfold load_line, line_of. simpl. rewrite Hs, splitKv_entry by done. done.
Qed.

Definition apply_settings (f : bytes → bytes → GatewayConfig → GatewayConfig) (kvs : list (string * bytes))
    (c : GatewayConfig) : GatewayConfig := foldl (λ c kv, f (str kv.1) kv.2 c) c kvs.

Lemma load_section f sec kvs l :
  plain_section rnd (str sec) = Some f → Forall pline_ok (print_section (sec, kvs)) →
  load_lines rnd (line_of <$> print_section (sec, kvs)) l =
    mkLoader (apply_settings f kvs (cfg l)) (str sec) None None false (-1) (-1).
Proof.
  intros Hf [[_ Hk _] Hkvs]%Forall_cons. unfold print_section. simpl fst. simpl snd.
  rewrite fmap_cons. simpl. rewrite load_header; [|done|intros E; by rewrite E in Hf..].
  clear Hk. generalize (cfg l) as c. induction kvs as [|[k v] kvs IH]; intros c; [done|].
  apply Forall_cons in Hkvs as [[_ Hk Hv] Hkvs]. rewrite !fmap_cons. simpl.
  rewrite (load_plain f) by done. by apply IH.
Qed.

(** *** Groups *)

Lemma is_list_item_entry key v : plain_key key = true → is_list_item (entry key v) = false.
Proof.
  intros Hk. pose proof (plain_key_not key "-"%char Hk eq_refl) as H.
  destruct (plain_key_size _ Hk) as [Hne _]. unfold is_list_item, entry.
  destruct (str key) as [|c k]; [done|]. simpl. rewrite bool_decide_eq_false_2; [done|].
  intros E. apply H. rewrite E || rewrite <- E. left.
Qed.

Lemma toInt_to_string n d : int_ok n → toInt (to_string n) d = n.
Proof.
  intros Hn. unfold toInt. rewrite stoi_to_string by done.
  destruct (decide (to_string n = [])) as [E|]; [|done].
  pose proof (stoi_to_string n Hn) as H. by rewrite E in H.
Qed.

Lemma digit_trimmed c : isdigit c = true ∨ c = "-"%char → c ∉ config_blanks ∧ c ≠ LF ∧ c ≠ "#"%char.
Proof.
  intros H. assert (c ∉ config_blanks ++ [LF; "#"%char]) as Hn.
  { intros Hin. repeat (apply elem_of_cons in Hin as [->|Hin]; [by destruct H|]). by apply elem_of_nil in Hin. }
  set_solver.
Qed.

Lemma to_string_chars n c : c ∈ to_string n → isdigit c = true ∨ c = "-"%char.
Proof.
  destruct (decide (0 ≤ n)%Z); [left; by apply (to_string_digits n)|].
  unfold to_string. destruct (Z.ltb_spec n 0); [|lia]. intros [->|Hc]%elem_of_cons; [by right|left].
  apply (to_string_digits (- n)); [lia|]. unfold to_string. by destruct (Z.ltb_spec (- n) 0); [lia|].
Qed.

Lemma to_string_short n : int_ok n → (size_of (to_string n) < 2 ^ 30)%Z.
Proof.
  intros Hn. assert (∀ m, (0 ≤ m ≤ 2 ^ 31)%Z → (size_of (to_string_nat m) ≤ 32)%Z) as H.
  { intros m Hm. unfold size_of, to_string_nat.
    pose proof (length_dec_digits (S (Z.to_nat (Z.log2 m))) m []) as Hl. change (length []) with 0 in Hl.
    pose proof (Z.log2_le_mono m (2 ^ 31) ltac:(lia)) as H. change (Z.log2 (2 ^ 31)) with 31%Z in H. lia. }
  unfold int_ok, int_min, int_max in Hn. unfold to_string. destruct (Z.ltb_spec n 0).
  - specialize (H (- n)%Z ltac:(lia)). unfold size_of in *. simpl length. lia.
  - specialize (H n ltac:(lia)). lia.
Qed.

Lemma plain_text_to_string n : int_ok n → plain_text (to_string n).
Proof.
  intros Hn. split; [| | |by apply to_string_short].
  - intros Hc%to_string_chars%digit_trimmed. naive_solver.
  - intros Hc%to_string_chars%digit_trimmed. naive_solver.
  - split; intros c Hc; apply (digit_trimmed c), (to_string_chars n);
      [by apply head_Some_elem_of|by apply last_Some_elem_of].
Qed.

Lemma alter_snoc {A} (f : A → A) l x : alter f (length l) (l ++ [x]) = l ++ [f x].
Proof. induction l as [|y l IH]; [done|]. cbn. f_equal. apply IH. Qed.

Lemma on_back_snoc f g bs b :
  bg_backends g = bs ++ [b] → on_back f g = set_backend_list (bs ++ [f b]) g.
Proof.
  intros E. unfold on_back. rewrite E. f_equal. rewrite length_app, Nat.add_1_r. simpl pred.
  apply alter_snoc.
Qed.

(** The loader inside the groups, its pointer on the last one. *)
Definition in_groups (c : GatewayConfig) (gs : list BackendGroupConfig) (g : BackendGroupConfig) (b : bool)
    : Loader :=
  mkLoader (set_groups (gs ++ [g]) c) (str "backend_groups") (Some (length gs)) None b 2 (-1).

Lemma on_group_last f c gs g :
  on_group (length gs) f (set_groups (gs ++ [g]) c) = set_groups (gs ++ [f g]) c.
Proof. unfold on_group. simpl. by rewrite alter_snoc. Qed.

Lemma load_group_item n key v c gs g :
  plain_key key = true → plain_text v → 2 < n →
  load_line rnd (in_groups c gs g true) (line_of (item n key v)) =
    begin_backend (line_of (item n key v)) (length gs) (in_groups c gs g true).
Proof.
  intros Hk Hv Hn. unfold load_line.
  replace (indent (line_of (item n key v)) =? 0)%Z with false by (symmetry; simpl; lia).
  change (plain_section rnd (section (in_groups c gs g true))) with
    (@None (bytes → bytes → GatewayConfig → GatewayConfig)).
  change (key_is (section (in_groups c gs g true)) "backend_groups") with true. cbn match.
  unfold group_line. change (is_list_item (content (line_of (item n key v)))) with true. simpl.
  replace (Z.of_nat n =? 2)%Z with false by lia. by replace (2 <? Z.of_nat n)%Z with true by lia.
Qed.

Lemma load_group_setting n key v c gs g b :
  plain_key key = true → plain_text v → 0 < n →
  load_line rnd (in_groups c gs g b) (line_of (setting n key v)) =
    group_setting (line_of (setting n key v)) (length gs) (in_groups c gs g b).
Proof.
  intros Hk Hv Hn. unfold load_line.
  replace (indent (line_of (setting n key v)) =? 0)%Z with false by (symmetry; simpl; lia).
  change (plain_section rnd (section (in_groups c gs g b))) with
    (@None (bytes → bytes → GatewayConfig → GatewayConfig)).
  change (key_is (section (in_groups c gs g b)) "backend_groups") with true. cbn match.
  unfold group_line. change (content (line_of (setting n key v))) with (entry key v).
  by rewrite is_list_item_entry by done.
Qed.

Definition add_backend (b : BackendConfig) (g : BackendGroupConfig) : BackendGroupConfig :=
  set_backend_list (bg_backends g ++ [b]) g.

Lemma load_backend c gs g b :
  plain_text (bc_host b) → int_ok (bc_port b) →
  load_lines rnd (line_of <$> print_backend b) (in_groups c gs g true) = in_groups c gs (add_backend b g) true.
Proof.
  intros Hh Hp. pose proof (plain_text_to_string _ Hp) as Hpt.
  unfold load_lines, print_backend. rewrite !fmap_cons. cbn [foldl fmap list_fmap].
  rewrite load_group_item by (done || lia). unfold begin_backend.
  change (drop 2 (content (line_of (item 6 "host" (bc_host b))))) with (entry "host" (bc_host b)).
  rewrite splitKv_entry by done. eval_keys. cbn [cfg in_groups].
  rewrite !on_group_last, (on_back_snoc _ _ (bg_backends g) newBackend) by done.
  set (g1 := set_backend_list _ _). change (set_cfg _ _) with (in_groups c gs g1 true).
  rewrite load_group_setting by (done || lia). unfold group_setting.
  change (content (line_of (setting 8 "port" (to_string (bc_port b))))) with (entry "port" (to_string (bc_port b))).
  rewrite splitKv_entry by done. eval_keys. cbn [cfg in_groups inBackendsList andb].
  assert (bg_backends g1 = bg_backends g ++ [set_host (bc_host b) newBackend]) as Eg by done.
  assert (has_backends (length gs) (set_groups (gs ++ [g1]) c) = true) as ->.
  { unfold has_backends. simpl. rewrite list_lookup_middle by done. rewrite Eg.
    by rewrite bool_decide_eq_false_2 by (by destruct (bg_backends g)). }
  rewrite on_group_last, (on_back_snoc _ _ _ _ Eg), toInt_to_string by done.
  unfold in_groups, set_cfg, add_backend, g1. simpl. by destruct b.
Qed.

Lemma load_backends c gs g bs :
  Forall (λ b, plain_text (bc_host b) ∧ int_ok (bc_port b)) bs →
  load_lines rnd (line_of <$> concat (print_backend <$> bs)) (in_groups c gs g true) =
    in_groups c gs (set_backend_list (bg_backends g ++ bs) g) true.
Proof.
  intros H. revert g. induction H as [|b bs [Hh Hp] _ IH]; intros g.
  - simpl. rewrite app_nil_r. by destruct g.
  - rewrite fmap_cons. cbn [concat]. rewrite fmap_app, load_lines_app, load_backend, IH by done.
    unfold in_groups. simpl. by rewrite <- app_assoc.
Qed.

Lemma load_group c gs l g :
  section l = str "backend_groups" → cfg l = set_groups gs c → curRoute l = None → routeListIndent l = (-1)%Z →
  groupIndent l = (-1)%Z ∨ groupIndent l = 2%Z →
  plain_text (bg_name g) → plain_text (bg_strategy g) →
  Forall (λ b, plain_text (bc_host b) ∧ int_ok (bc_port b)) (bg_backends g) →
  load_lines rnd (line_of <$> print_group g) l = in_groups c gs g true.
Proof.
  intros Es Ec Er Ei Hi Hn Hst Hb. destruct l as [c0 sec cg cr ib gi ri].
  cbn [section cfg curRoute routeListIndent groupIndent] in *. subst.
  unfold print_group. rewrite fmap_app, load_lines_app. unfold load_lines at 2.
  rewrite !fmap_cons. cbn [foldl fmap list_fmap].
  set (l1 := load_line rnd _ (line_of (item _ _ _))).
  assert (l1 = in_groups c gs (set_name (bg_name g) newGroup) false) as ->.
  { unfold l1, load_line. cbn [indent line_of section].
    change (plain_section rnd (str "backend_groups")) with (@None (bytes → bytes → GatewayConfig → GatewayConfig)).
    eval_keys. unfold group_line. change (is_list_item (content (line_of (item 2 ?k ?v)))) with true.
    replace (_ || _) with true by (symmetry; simpl; destruct Hi as [->| ->]; done). cbn [andb].
    unfold begin_group. change (drop 2 (content (line_of (item 2 ?k ?v)))) with (entry k v).
    rewrite splitKv_entry by done. eval_keys. cbn [cfg set_groups backendGroups].
    unfold in_groups. simpl. f_equal. apply (on_group_last _ c). }
  rewrite load_group_setting by (done || lia). unfold group_setting.
  change (content (line_of (setting 4 ?k ?v))) with (entry k v).
  rewrite splitKv_entry by done. eval_keys. cbn [cfg in_groups]. rewrite on_group_last.
  set (g1 := set_strategy _ _). change (set_cfg _ _) with (in_groups c gs g1 false).
  rewrite load_group_setting by (done || lia || apply plain_text_nil). unfold group_setting.
  change (content (line_of (setting 4 ?k ?v))) with (entry k v).
  rewrite splitKv_entry by (done || apply plain_text_nil). eval_keys.
  change (mkLoader _ _ _ _ _ _ _) with (in_groups c gs g1 true).
  rewrite load_backends by done. unfold in_groups. by destruct g.
Qed.

Lemma load_groups c gs0 l gs :
  section l = str "backend_groups" → cfg l = set_groups gs0 c → curRoute l = None → routeListIndent l = (-1)%Z →
  groupIndent l = (-1)%Z ∨ groupIndent l = 2%Z →
  Forall (λ g, plain_text (bg_name g) ∧ plain_text (bg_strategy g) ∧
    Forall (λ b, plain_text (bc_host b) ∧ int_ok (bc_port b)) (bg_backends g)) gs →
  cfg (load_lines rnd (line_of <$> concat (print_group <$> gs)) l) = set_groups (gs0 ++ gs) c.
Proof.
  intros Es Ec Er Ei Hi H. revert gs0 l Es Ec Er Ei Hi.
  induction H as [|g gs (Hn & Hst & Hb) _ IH]; intros gs0 l Es Ec Er Ei Hi; [by rewrite app_nil_r|].
  rewrite fmap_cons. cbn [concat]. rewrite fmap_app, load_lines_app, (load_group c gs0) by done.
  rewrite (IH (gs0 ++ [g])) by (done || by right). by rewrite <- app_assoc.
Qed.

(** *** Routes *)

Definition in_routes (c : GatewayConfig) (rs : list RouteConfig) (r : RouteConfig) : Loader :=
  mkLoader (set_routes (rs ++ [r]) c) (str "routes") None (Some (length rs)) false (-1) 2.

Lemma on_route_last f c rs r :
  on_route (length rs) f (set_routes (rs ++ [r]) c) = set_routes (rs ++ [f r]) c.
Proof. unfold on_route. simpl. by rewrite alter_snoc. Qed.

Lemma load_route_line ln l :
  section l = str "routes" → indent ln ≠ 0%Z → load_line rnd l ln = route_line ln l.
Proof.
  intros Es Hi. unfold load_line. destruct (Z.eqb_spec (indent ln) 0); [done|]. rewrite Es.
  change (plain_section rnd (str "routes")) with (@None (bytes → bytes → GatewayConfig → GatewayConfig)).
  by eval_keys.
Qed.

Lemma load_route c rs l r :
  section l = str "routes" → cfg l = set_routes rs c → curGroup l = None →
  inBackendsList l = false → groupIndent l = (-1)%Z →
  routeListIndent l = (-1)%Z ∨ routeListIndent l = 2%Z →
  plain_text (rc_pathPrefix r) → plain_text (rc_backendGroup r) →
  load_lines rnd (line_of <$> print_route r) l = in_routes c rs r.
Proof.
  intros Es Ec Eg Eb Ei Hi Hp Hg. destruct l as [c0 sec cg cr ib gi ri].
  cbn [section cfg curGroup inBackendsList groupIndent routeListIndent] in *. subst.
  assert (plain_text (print_bool (rc_cacheable r))) as Hc.
  { split; destruct (rc_cacheable r); try by_decide; try done; split; intros d [= <-]; by_decide. }
  unfold load_lines, print_route. rewrite !fmap_cons. cbn [foldl fmap list_fmap].
  set (l1 := load_line rnd _ (line_of (item _ _ _))).
  assert (l1 = in_routes c rs (mkRouteConfig (rc_pathPrefix r) [] false)) as ->.
  { unfold l1. rewrite load_route_line by done. unfold route_line.
    change (is_list_item (content (line_of (item 2 ?k ?v)))) with true.
    replace (_ || _) with true by (symmetry; simpl; destruct Hi as [->| ->]; done). cbn [andb].
    change (drop 2 (content (line_of (item 2 ?k ?v)))) with (entry k v).
    rewrite splitKv_entry by done. eval_keys. cbn [cfg].
    change (routes (set_routes rs c)) with rs.
    change (set_routes (rs ++ [newRoute]) _) with (set_routes (rs ++ [newRoute]) c).
    by rewrite on_route_last. }
  rewrite (load_route_line _ (in_routes c rs _)) by done. unfold route_line.
  change (content (line_of (setting 4 ?k ?v))) with (entry k v).
  rewrite is_list_item_entry, splitKv_entry by done. eval_keys. cbn [andb curRoute in_routes cfg].
  rewrite on_route_last. set (r1 := mkRouteConfig _ _ _). change (set_cfg _ _) with (in_routes c rs r1).
  rewrite load_route_line by done. unfold route_line.
  change (content (line_of (setting 4 ?k ?v))) with (entry k v).
  rewrite is_list_item_entry, splitKv_entry by done. eval_keys. cbn [andb curRoute in_routes cfg].
  rewrite on_route_last. unfold in_routes. by destruct r as [? ? []].
Qed.

Lemma load_routes c rs0 l rs :
  section l = str "routes" → cfg l = set_routes rs0 c → curGroup l = None →
  inBackendsList l = false → groupIndent l = (-1)%Z →
  routeListIndent l = (-1)%Z ∨ routeListIndent l = 2%Z →
  Forall (λ r, plain_text (rc_pathPrefix r) ∧ plain_text (rc_backendGroup r)) rs →
  cfg (load_lines rnd (line_of <$> concat (print_route <$> rs)) l) = set_routes (rs0 ++ rs) c.
Proof.
  intros Es Ec Eg Eb Ei Hi H. revert rs0 l Es Ec Eg Eb Ei Hi.
  induction H as [|r rs (Hp & Hg) _ IH]; intros rs0 l Es Ec Eg Eb Ei Hi; [by rewrite app_nil_r|].
  rewrite fmap_cons. cbn [concat]. rewrite fmap_app, load_lines_app, (load_route c rs0) by done.
  rewrite (IH (rs0 ++ [r])) by (done || by right). by rewrite <- app_assoc.
Qed.

(** *** The plain sections *)

Definition after_section (c : GatewayConfig) (sec : string * list (string * bytes)) : GatewayConfig :=
  match plain_section rnd (str sec.1) with
  | Some f => apply_settings f sec.2 c
  | None => c
  end.

Lemma load_sections secs l :
  Forall (λ sec, is_Some (plain_section rnd (str sec.1))) secs →
  Forall pline_ok (concat (print_section <$> secs)) →
  cfg (load_lines rnd (line_of <$> concat (print_section <$> secs)) l) = foldl after_section (cfg l) secs.
Proof.
  intros H. revert l. induction H as [|[sec kvs] secs [f Hf] _ IH]; intros l; [done|].
  rewrite fmap_cons. cbn [concat]. intros [H1 H2]%Forall_app.
  rewrite fmap_app, load_lines_app, IH, (load_section f) by done.
  cbn [cfg foldl]. unfold after_section at 3. simpl in Hf |- *. by rewrite Hf.
Qed.

Lemma toSize_to_string n d : int_ok n → (0 ≤ n)%Z → toSize (to_string n) d = n.
Proof.
  intros Hn H. unfold toSize. rewrite toInt_to_string by done. apply u64_small.
  unfold int_ok, int_max in Hn. lia.
Qed.

Lemma toDouble_text v d x : v ≠ [] → stod rnd v = Some x → toDouble rnd v d = x.
Proof. intros Hv E. unfold toDouble. by rewrite decide_False, E by done. Qed.

(** Evaluates one printed section. *)
Ltac eval_section f :=
  intros; unfold after_section; cbn [fst snd]; unfold plain_section; eval_keys;
  unfold apply_settings; cbn [foldl fst snd]; unfold f; eval_keys;
  rewrite ?toInt_to_string, ?toSize_to_string by done; try reflexivity.

Lemma after_listen h p c : int_ok p →
  after_section c ("listen", [("host", h); ("port", to_string p)])%string = set_listenPort p (set_listenHost h c).
Proof. eval_section listen_line. Qed.

Lemma after_rate_limit n v x c : int_ok n → v ≠ [] → stod rnd v = Some x →
  after_section c ("rate_limit", [("capacity", to_string n); ("refill_per_second", v)])%string =
    set_rate_limit n x c.
Proof. eval_section rate_limit_line. by rewrite (toDouble_text _ _ x). Qed.

Lemma after_cache n t c : int_ok n → (0 ≤ n)%Z → int_ok t →
  after_section c ("cache", [("capacity", to_string n); ("ttl_ms", to_string t)])%string = set_cache_config n t c.
Proof. eval_section cache_line. Qed.

Lemma after_circuit n t c : int_ok n → int_ok t →
  after_section c ("circuit_breaker",
    [("failure_threshold", to_string n); ("reset_timeout_ms", to_string t)])%string = set_circuit n t c.
Proof. eval_section circuit_line. Qed.

Lemma after_retry n b t c : int_ok n → int_ok b → int_ok t →
  after_section c ("retry", [("max_retries", to_string n); ("base_delay_ms", to_string b);
    ("max_delay_ms", to_string t)])%string = set_retry n b t c.
Proof. eval_section retry_line. Qed.

Lemma after_connection a b m n c : int_ok a → int_ok b → int_ok m → (0 ≤ m)%Z → int_ok n → (0 ≤ n)%Z →
  after_section c ("connection", [("connect_timeout_ms", to_string a);
    ("backend_read_timeout_ms", to_string b); ("max_response_body_bytes", to_string m);
    ("max_idle_per_backend", to_string n)])%string = set_limits m n (set_timeouts a b c).
Proof. eval_section connection_line. Qed.

Lemma after_health a b v c : int_ok a → int_ok b →
  after_section c ("health_check", [("interval_ms", to_string a); ("timeout_ms", to_string b);
    ("path", v)])%string = set_health a b v c.
Proof. eval_section health_line. Qed.

Lemma after_plain_settings refill c c0 :
  config_printable rnd refill c →
  foldl after_section c0 (plain_settings refill c) =
    mkGatewayConfig (listenHost c) (listenPort c) (workerThreads c0) (rateLimitCapacity c)
      (rateLimitRefillPerSecond c) (cacheCapacity c) (cacheTtlMs c) (circuitFailureThreshold c)
      (circuitResetTimeoutMs c) (retryMax c) (retryBaseDelayMs c) (retryMaxDelayMs c) (connectTimeoutMs c)
      (backendReadTimeoutMs c) (cfg_maxResponseBodyBytes c) (maxIdleConnsPerBackend c)
      (healthCheckIntervalMs c) (healthCheckTimeoutMs c) (healthCheckPath c) (backendGroups c0) (routes c0)
      (metricsPort c0).
Proof.
  intros [[] (? & ? & ?) (? & ? & Hr) _ _ _]. destruct_and?. unfold plain_settings. cbn [foldl].
  unfold size_ok in *. rewrite after_listen, (after_rate_limit _ _ (rateLimitRefillPerSecond c)), after_cache,
    after_circuit, after_retry, after_connection, after_health by (done || lia). done.
Qed.
End load.

(** ** The whole file *)

Lemma Forall_concat_fmap {A B} (P : B → Prop) (f : A → list B) xs :
  Forall (λ x, Forall P (f x)) xs → Forall P (concat (f <$> xs)).
Proof. induction 1 as [|x xs Hx _ IH]; [constructor|]. rewrite fmap_cons. simpl. by apply Forall_app. Qed.

Lemma pline_intro n b key v : n < 100 → plain_key key = true → plain_text v → pline_ok (mkPline n b key v).
Proof. by split. Qed.

Ltac pline_solve :=
  apply pline_intro; [simpl; lia|vm_compute; reflexivity|
    simpl; first [assumption | apply plain_text_nil | by apply plain_text_to_string]].

Lemma print_group_plines g :
  plain_text (bg_name g) → plain_text (bg_strategy g) →
  Forall (λ b, plain_text (bc_host b) ∧ int_ok (bc_port b)) (bg_backends g) → Forall pline_ok (print_group g).
Proof.
  intros Hn Hs Hb. unfold print_group. apply Forall_app. split.
  - repeat (constructor; [pline_solve|]). constructor.
  - apply Forall_concat_fmap. eapply Forall_impl; [exact Hb|]. intros b [Hh Hp].
    unfold print_backend. repeat (constructor; [pline_solve|]). constructor.
Qed.

Lemma print_route_plines r :
  plain_text (rc_pathPrefix r) → plain_text (rc_backendGroup r) → Forall pline_ok (print_route r).
Proof.
  intros Hp Hg.
  assert (plain_text (print_bool (rc_cacheable r))) as Hc.
  { split; destruct (rc_cacheable r); try by_decide; try done; split; intros d [= <-]; by_decide. }
  unfold print_route. repeat (constructor; [pline_solve|]). constructor.
Qed.

Section round_trip.
Context (rnd : Q → Q) (refill : bytes) (c : GatewayConfig) (Hc : config_printable rnd refill c).

Lemma groups_printable :
  Forall (λ g, plain_text (bg_name g) ∧ plain_text (bg_strategy g) ∧
    Forall (λ b, plain_text (bc_host b) ∧ int_ok (bc_port b)) (bg_backends g)) (backendGroups c).
Proof.
  destruct Hc as [Ht _ _ _ Hg _]. destruct Ht as [_ _ _ _ _ _ _ _ _ _ Hp].
  rewrite Forall_forall in *. intros g Hin. destruct (Hg g Hin) as (? & ? & Hh). split_and!; [done..|].
  apply Forall_and. split; [done|]. by apply Hp.
Qed.

Lemma plain_settings_plines : Forall pline_ok (concat (print_section <$> plain_settings refill c)).
Proof.
  destruct Hc as [[] (? & ? & ?) (? & ? & ?) (? & ?) _ _]. destruct_and?.
  apply Forall_concat_fmap. unfold plain_settings.
  repeat (constructor; [unfold print_section; simpl; repeat (constructor; [pline_solve|]); constructor|]).
  constructor.
Qed.

Lemma print_lines_ok : Forall pline_ok (print_lines refill c).
Proof.
  assert (int_ok (workerThreads c) ∧ int_ok (metricsPort c)) as [Hw Hm] by (destruct Hc as [[]]; done).
  unfold print_lines. apply Forall_app. split; [repeat (constructor; [pline_solve|]); constructor|].
  apply Forall_app. split; [apply plain_settings_plines|]. constructor; [pline_solve|].
  apply Forall_app. split; [|constructor; [pline_solve|]]; apply Forall_concat_fmap.
  - eapply Forall_impl; [exact groups_printable|]. intros g (? & ? & ?). by apply print_group_plines.
  - eapply Forall_impl; [apply (cp_routes _ _ _ Hc)|]. intros r (? & ?). by apply print_route_plines.
Qed.

Lemma load_top_numbers l :
  cfg (load_lines rnd (line_of <$> [setting 0 "workers" (to_string (workerThreads c));
    setting 0 "metrics_port" (to_string (metricsPort c))]) l) =
    set_metricsPort (metricsPort c) (set_workerThreads (workerThreads c) (cfg l)).
Proof.
  assert (int_ok (workerThreads c) ∧ int_ok (metricsPort c)) as [Hw Hm] by (destruct Hc as [[]]; done).
  unfold load_lines. rewrite !fmap_cons. cbn [foldl fmap list_fmap]. unfold load_line.
  cbn [indent line_of setting p_indent]. change (Z.of_nat 0 =? 0)%Z with true. cbn match.
  unfold top_line. change (content (line_of (setting 0 ?k ?v))) with (entry k v).
  rewrite !splitKv_entry by (done || by apply plain_text_to_string). eval_keys.
  cbn [cfg]. by rewrite !toInt_to_string.
Qed.

Lemma load_print : cfg (load_lines rnd (line_of <$> print_lines refill c) newLoader) = c.
Proof.
  unfold print_lines. rewrite !fmap_app, !load_lines_app.
  set (l1 := load_lines rnd _ newLoader). set (l2 := load_lines rnd _ l1).
  assert (cfg l2 = foldl (after_section rnd) (cfg l1) (plain_settings refill c)) as E2.
  { apply load_sections; [|apply plain_settings_plines].
    unfold plain_settings. repeat (constructor; [by eexists|]). constructor. }
  rewrite (after_plain_settings rnd refill) in E2 by done.
  unfold l1 in E2. rewrite load_top_numbers in E2. clearbody l2. clear l1.
  rewrite fmap_cons, load_lines_cons, load_header by done.
  rewrite fmap_app, load_lines_app. set (l3 := load_lines rnd _ (mkLoader _ _ _ _ _ _ _)).
  assert (cfg l3 = set_groups (backendGroups (cfg l2) ++ backendGroups c) (cfg l2)) as E3.
  { apply load_groups; try done; [by destruct (cfg l2)|by left|apply groups_printable]. }
  rewrite E2 in E3. clearbody l3. rewrite fmap_cons, load_lines_cons, load_header by done.
  rewrite (load_routes rnd (cfg l3) (routes (cfg l3))); try done;
    [|by destruct (cfg l3)|by left|apply (cp_routes _ _ _ Hc)].
  rewrite E3. by destruct c.
Qed.
End round_trip.

(** C27: a configuration file reads back.  A valid configuration whose numbers
    fit an [int] and whose texts hold no comment sign or line break, written
    in the layout of the shipped configuration, is loaded as it was: every
    setting, every group with its backends in order, every route. *)
Theorem config_round_trip rnd refill c :
  config_printable rnd refill c → config_valid c →
  loadFromFile rnd (Some (print_config refill c)) = inr c.
Proof.
  intros Hp Hv. unfold loadFromFile, print_config. rewrite tokenize_print by (by apply (print_lines_ok rnd)).
  rewrite load_print by done. by rewrite (proj2 (validate_None c) Hv).
Qed.

Definition demo_config : GatewayConfig :=
  mkGatewayConfig (str "127.0.0.1") 8080 2 200 (Finite (rnd64 100)) 500 0 5 10000 2 50 1000 1000 3000
    65536 16 5000 1000 (str "/health")
    [mkBackendGroupConfig (str "users") (str "round_robin")
       [mkBackendConfig (str "10.0.0.1") 9001; mkBackendConfig (str "10.0.0.2") 9002];
     mkBackendGroupConfig (str "orders") (str "least_connections") [mkBackendConfig (str "h") 9003]]
    [mkRouteConfig (str "/api/users") (str "users") true; mkRouteConfig (str "/") (str "orders") false] 9090.

Lemma plain_text_test v :
  forallb (λ c, negb (one_of [LF; "#"%char; SP; HT; CR] c)) v = true → (size_of v < 2 ^ 30)%Z → plain_text v.
Proof.
  rewrite forallb_forall. intros H Hs.
  assert (∀ c, c ∈ v → c ∉ [LF; "#"%char; SP; HT; CR]) as Hn.
  { intros c Hc%list_elem_of_In. apply one_of_false, negb_true_iff. by apply H. }
  split; [intros Hc; apply (Hn _ Hc); left|intros Hc; apply (Hn _ Hc); right; left| |done].
  assert (∀ c, c ∈ v → c ∉ config_blanks) as Hb by (intros c Hc; specialize (Hn c Hc); set_solver).
  split; intros c Hc; apply Hb; [by apply head_Some_elem_of|by apply last_Some_elem_of].
Qed.

Lemma demo_config_printable : config_printable rnd64 (str "100") demo_config.
Proof.
  assert (∀ z, (-2 ^ 31 ≤ z ≤ 2 ^ 31 - 1)%Z → int_ok z) as Hi by done.
  split; [split; simpl; try (unfold int_ok, size_ok, int_min, int_max; lia)| | | | |].
  - repeat constructor; unfold int_ok, int_min, int_max; simpl; lia.
  - unfold int_ok, int_min, int_max; simpl; lia.
  - split_and!; [done|by apply plain_text_test|done].
  - split; by apply plain_text_test.
  - repeat constructor; by apply plain_text_test.
  - repeat constructor; by apply plain_text_test.
Qed.

Lemma config_round_trip_witness :
  loadFromFile rnd64 (Some (print_config (str "100") demo_config)) = inr demo_config.
Proof.
  apply (config_round_trip rnd64 (str "100") demo_config demo_config_printable).
  apply validate_None. vm_compute. reflexivity.
Defined.
