(* ===== verification/ConnectionPool.v ===== *)
(** * Pool of backend connections
      (include/network/ConnectionPool.hpp, src/network/ConnectionPool.cpp)

    The process's open sockets are part of the state: a map from descriptor
    to the peer it was connected to.  [socket], [connect] and [close] change
    it, so a leaked or doubly used descriptor is visible.  What the operating
    system answers while dialling is an argument ([dial_env]). *)
From S2P Require Import Prelude CxxString.

Abbreviation fd_t := Z.
Abbreviation peer := (bytes * Z)%type.           (* host and port *)
Abbreviation sockets := (gmap fd_t peer).

Record ConnectionPool := mkConnectionPool {
  maxIdlePerBackend_ : Z;                        (* size_t *)
  connectTimeout_ : Z;                           (* milliseconds *)
  idle_ : gmap bytes (list fd_t)                 (* deque, front first *)
}.

Definition newConnectionPool (maxIdle timeout : Z) : ConnectionPool :=
  mkConnectionPool maxIdle timeout ∅.

Definition key (host : bytes) (port : Z) : bytes := host ++ str ":" ++ to_string port.

(** Results of the system calls of one [dialNew]. *)
Inductive connect_result := Connected | InProgress | ConnectError.

Record dial_env := mkDialEnv {
  resolved : bool;                (* getaddrinfo *)
  socket_fd : fd_t;               (* socket *)
  connect_rc : connect_result;    (* connect, with errno EINPROGRESS apart *)
  poll_ready : Z;                 (* poll *)
  so_error : Z                    (* getsockopt SO_ERROR *)
}.

(** [close(fd)]. *)
Definition close_fd (fd : fd_t) (os : sockets) : sockets := delete fd os.

Definition dialNew (env : dial_env) (host : bytes) (port : Z) (os : sockets) : fd_t * sockets :=
  if negb (resolved env) then ((-1)%Z, os)
  else
    let fd := socket_fd env in
    if (fd <? 0)%Z then ((-1)%Z, os)
    else
      let os := <[fd := (host, port)]> os in
      match connect_rc env with
      | ConnectError => ((-1)%Z, close_fd fd os)
      | InProgress =>
          if (poll_ready env <=? 0)%Z then ((-1)%Z, close_fd fd os)
          else if negb (so_error env =? 0)%Z then ((-1)%Z, close_fd fd os)
          else (fd, os)
      | Connected => (fd, os)
      end.

Definition with_idle (pool : ConnectionPool) (m : gmap bytes (list fd_t)) : ConnectionPool :=
  mkConnectionPool (maxIdlePerBackend_ pool) (connectTimeout_ pool) m.

Definition acquire (env : dial_env) (host : bytes) (port : Z) (pool : ConnectionPool) (os : sockets)
    : fd_t * ConnectionPool * sockets :=
  match idle_ pool !! key host port with
  | Some (fd :: rest) => (fd, with_idle pool (<[key host port := rest]> (idle_ pool)), os)
  | _ => let '(fd, os') := dialNew env host port os in (fd, pool, os')
  end.

(** [idle_[k]] creates an empty queue for a new key. *)
Definition release (host : bytes) (port : Z) (fd : fd_t) (pool : ConnectionPool) (os : sockets)
    : ConnectionPool * sockets :=
  let k := key host port in
  let dq := default [] (idle_ pool !! k) in
  if (maxIdlePerBackend_ pool <=? size_of dq)%Z
  then (with_idle pool (<[k := dq]> (idle_ pool)), close_fd fd os)
  else (with_idle pool (<[k := dq ++ [fd]]> (idle_ pool)), os).

Definition discard (fd : fd_t) (os : sockets) : sockets := if (0 <=? fd)%Z then close_fd fd os else os.

Definition idleCount (host : bytes) (port : Z) (pool : ConnectionPool) : Z :=
  from_option size_of 0%Z (idle_ pool !! key host port).

Definition closeAll (pool : ConnectionPool) (os : sockets) : ConnectionPool * sockets :=
  (with_idle pool ((λ _, []) <$> idle_ pool),
   map_fold (λ _ dq os, foldr close_fd os dq) os (idle_ pool)).

(** ** Keys *)

Lemma to_string_no_colon z : ":"%char ∉ to_string z.
Proof.
  unfold to_string. destruct (Z.ltb_spec z 0).
  - intros [E|Hin]%elem_of_cons; [done|].
    destruct (to_string_nat_spec (- z)) as (_ & Hd & _); [lia|].
    rewrite Forall_forall in Hd. by specialize (Hd _ Hin).
  - intros Hin. destruct (to_string_nat_spec z) as (_ & Hd & _); [lia|].
    rewrite Forall_forall in Hd. by specialize (Hd _ Hin).
Qed.

Lemma to_string_inj_Z a b : to_string a = to_string b → a = b.
Proof.
  assert (∀ z, (0 ≤ z)%Z → "-"%char ∉ to_string_nat z) as Hminus.
  { intros z Hz Hin. destruct (to_string_nat_spec z Hz) as (_ & Hd & _).
    rewrite Forall_forall in Hd. by specialize (Hd _ Hin). }
  unfold to_string. destruct (Z.ltb_spec a 0), (Z.ltb_spec b 0); intros E.
  - injection E as E. destruct (to_string_nat_spec (- a)) as (_ & _ & Ha); [lia|].
    destruct (to_string_nat_spec (- b)) as (_ & _ & Hb); [lia|]. rewrite E in Ha. lia.
  - exfalso. apply (Hminus b); [done|]. rewrite <- E. apply list_elem_of_here.
  - exfalso. apply (Hminus a); [done|]. rewrite E. apply list_elem_of_here.
  - destruct (to_string_nat_spec a) as (_ & _ & Ha); [lia|].
    destruct (to_string_nat_spec b) as (_ & _ & Hb); [lia|]. rewrite E in Ha. lia.
Qed.

(** Two strings cut at their last [c]. *)
Lemma cut_last (c : ascii) x y a b :
  c ∉ x → c ∉ y → a ++ c :: x = b ++ c :: y → a = b ∧ x = y.
Proof.
  revert b. induction a as [|d a IH]; intros [|d' b] Hx Hy E; simplify_eq/=; [done|..].
  - exfalso. apply Hx. set_solver.
  - exfalso. apply Hy. set_solver.
  - destruct (IH b Hx Hy) as [-> ->]; done.
Qed.

Lemma key_inj h1 p1 h2 p2 : key h1 p1 = key h2 p2 → h1 = h2 ∧ p1 = p2.
Proof.
  intros E. destruct (cut_last ":"%char (to_string p1) (to_string p2) h1 h2) as [-> Hp];
    [apply to_string_no_colon..|exact E|]. split; [done|by apply to_string_inj_Z].
Qed.

(** ** The pool and its clients

    [owned]: descriptors handed out by [acquire] and not yet given back, with
    the backend they were acquired for.  A client gives back what it owns,
    to the backend it acquired it for. *)

Record pool_state := mkPoolState {
  ps_pool : ConnectionPool;
  ps_os : sockets;
  ps_owned : gmap fd_t peer
}.

(** [socket] returns a descriptor that is not in use. *)
Definition fresh_socket (env : dial_env) (os : sockets) : Prop := os !! socket_fd env = None.

Inductive pool_step : pool_state → pool_state → Prop :=
  | step_acquire env h p pool os owned fd pool' os' :
      fresh_socket env os → acquire env h p pool os = (fd, pool', os') →
      pool_step (mkPoolState pool os owned)
        (mkPoolState pool' os' (if (fd <? 0)%Z then owned else <[fd := (h, p)]> owned))
  | step_release h p fd pool os owned pool' os' :
      owned !! fd = Some (h, p) → release h p fd pool os = (pool', os') →
      pool_step (mkPoolState pool os owned) (mkPoolState pool' os' (delete fd owned))
  | step_discard fd a pool os owned :
      owned !! fd = Some a →
      pool_step (mkPoolState pool os owned) (mkPoolState pool (discard fd os) (delete fd owned))
  | step_closeAll pool os owned pool' os' :
      closeAll pool os = (pool', os') →
      pool_step (mkPoolState pool os owned) (mkPoolState pool' os' owned).

(** Descriptor [fd] waits in the queue of [k]. *)
Definition idle_in (pool : ConnectionPool) (k : bytes) (fd : fd_t) : Prop :=
  ∃ dq, idle_ pool !! k = Some dq ∧ fd ∈ dq.

Record pool_inv (s : pool_state) : Prop := {
  inv_max : (0 ≤ maxIdlePerBackend_ (ps_pool s))%Z;
  inv_bound k dq : idle_ (ps_pool s) !! k = Some dq →
    NoDup dq ∧ (size_of dq ≤ maxIdlePerBackend_ (ps_pool s))%Z;
  inv_idle k fd : idle_in (ps_pool s) k fd →
    ps_owned s !! fd = None ∧ ∃ h p, ps_os s !! fd = Some (h, p) ∧ k = key h p;
  inv_owned fd a : ps_owned s !! fd = Some a → ps_os s !! fd = Some a;
  inv_os fd h p : ps_os s !! fd = Some (h, p) →
    (0 ≤ fd)%Z ∧ (ps_owned s !! fd = Some (h, p) ∨ idle_in (ps_pool s) (key h p) fd)
}.

Lemma idle_in_insert pool k dq k' fd :
  idle_in (with_idle pool (<[k := dq]> (idle_ pool))) k' fd ↔
  (k' = k ∧ fd ∈ dq) ∨ (k' ≠ k ∧ idle_in pool k' fd).
Proof.
  unfold idle_in. simpl. destruct (decide (k' = k)) as [->|Hne].
  - rewrite lookup_insert_eq. split.
    + intros (dq' & [= <-] & ?). by left.
    + intros [[_ ?]|[? _]]; [|done]. by exists dq.
  - rewrite lookup_insert_ne by done. split; [by right|]. intros [[? _]|[_ ?]]; done.
Qed.

(** *** Dialling *)

Lemma dialNew_spec env h p os fd os' :
  fresh_socket env os → dialNew env h p os = (fd, os') →
  ((fd < 0)%Z ∧ os' = os) ∨ ((0 ≤ fd)%Z ∧ os !! fd = None ∧ os' = <[fd := (h, p)]> os).
Proof.
  intros Hfresh. unfold dialNew, close_fd. destruct (resolved env); simpl; [|intros [= <- <-]; left; done].
  destruct (Z.ltb_spec (socket_fd env) 0); [intros [= <- <-]; left; done|].
  assert (delete (socket_fd env) (<[socket_fd env := (h, p)]> os) = os) as Hd
    by (by rewrite delete_insert_id).
  destruct (connect_rc env).
  - intros [= <- <-]. by right.
  - destruct (_ <=? _)%Z; [intros [= <- <-]; left; by rewrite Hd|].
    destruct (negb _); [intros [= <- <-]; left; by rewrite Hd|]. intros [= <- <-]. by right.
  - intros [= <- <-]. left. by rewrite Hd.
Qed.

(** *** Every step keeps the invariant *)

Lemma acquire_dial_inv env h p pool os owned fd os' :
  pool_inv (mkPoolState pool os owned) → fresh_socket env os → dialNew env h p os = (fd, os') →
  pool_inv (mkPoolState pool os' (if (fd <? 0)%Z then owned else <[fd := (h, p)]> owned)).
Proof.
  intros [Im Ib Ii Io Is] Hf Hd. simpl in *.
  destruct (dialNew_spec _ _ _ _ _ _ Hf Hd) as [[H ->]|(H & Hn & ->)];
    (destruct (Z.ltb_spec fd 0); [|try lia]); [done|lia|].
  assert (owned !! fd = None) as Ho.
  { destruct (owned !! fd) eqn:E; [|done]. apply Io in E. congruence. }
  split; simpl; [done|done|..].
  - intros k fd' Hin. destruct (Ii _ _ Hin) as (H1 & h' & p' & H2 & H3).
    assert (fd' ≠ fd) by congruence. rewrite !lookup_insert_ne by done. eauto.
  - intros fd' a. destruct (decide (fd' = fd)) as [->|]; [by rewrite !lookup_insert_eq|].
    rewrite !lookup_insert_ne by done. apply Io.
  - intros fd' h' p'. destruct (decide (fd' = fd)) as [->|].
    + rewrite !lookup_insert_eq. intros [= <- <-]. auto.
    + rewrite !lookup_insert_ne by done. apply Is.
Qed.

Lemma acquire_idle_inv h p fd rest pool os owned :
  pool_inv (mkPoolState pool os owned) → idle_ pool !! key h p = Some (fd :: rest) →
  (0 ≤ fd)%Z ∧
  pool_inv (mkPoolState (with_idle pool (<[key h p := rest]> (idle_ pool))) os (<[fd := (h, p)]> owned)).
Proof.
  intros [Im Ib Ii Io Is] Hk. simpl in *. destruct (Ib _ _ Hk) as [Hnd Hsz].
  apply NoDup_cons in Hnd as [Hnot Hnd].
  destruct (Ii (key h p) fd) as (Ho & h' & p' & Hos & Hkey).
  { exists (fd :: rest). split; [done|apply list_elem_of_here]. }
  apply key_inj in Hkey as [<- <-]. destruct (Is _ _ _ Hos) as [Hpos _]. split; [done|].
  split; simpl; [done|..].
  - intros k dq. destruct (decide (k = key h p)) as [->|].
    + rewrite lookup_insert_eq. intros [= <-]. split; [done|]. unfold size_of in *. simpl in Hsz. lia.
    + rewrite lookup_insert_ne by done. apply Ib.
  - intros k fd' Hin. apply idle_in_insert in Hin.
    assert (idle_in pool k fd') as Hin'.
    { destruct Hin as [[-> Hin]|[_ Hin]]; [|done]. exists (fd :: rest).
      split; [done|by apply list_elem_of_further]. }
    destruct (Ii _ _ Hin') as (H1 & h' & p' & H2 & H3).
    rewrite lookup_insert_ne; [eauto|]. intros ->.
    destruct Hin as [[_ Hin]|[Hne _]]; [done|]. congruence.
  - intros fd' a. destruct (decide (fd' = fd)) as [->|].
    + rewrite lookup_insert_eq. by intros [= <-].
    + rewrite lookup_insert_ne by done. apply Io.
  - intros fd' h' p' H'. destruct (Is _ _ _ H') as [H0 Hor]. split; [done|].
    destruct (decide (fd' = fd)) as [->|Hne].
    + rewrite lookup_insert_eq. left. congruence.
    + rewrite lookup_insert_ne by done. destruct Hor as [|(dq & Hdq & Hin)]; [by left|right].
      apply idle_in_insert. destruct (decide (key h' p' = key h p)) as [E|E].
      * left. split; [done|]. rewrite E, Hk in Hdq. injection Hdq as <-.
        by apply elem_of_cons in Hin as [->|].
      * right. split; [done|]. by exists dq.
Qed.

(** Giving up an owned descriptor by closing it. *)
Lemma drop_owned_inv fd a pool os owned :
  pool_inv (mkPoolState pool os owned) → owned !! fd = Some a →
  pool_inv (mkPoolState pool (close_fd fd os) (delete fd owned)).
Proof.
  intros [Im Ib Ii Io Is] Ha. unfold close_fd. simpl in *. split; simpl; [done|done|..].
  - intros k fd' Hin. destruct (Ii _ _ Hin) as (H1 & h' & p' & H2 & H3).
    assert (fd' ≠ fd) by congruence. rewrite !lookup_delete_ne by done. eauto.
  - intros fd' b. rewrite !lookup_delete_Some. intros [? ?]. auto.
  - intros fd' h p. rewrite !lookup_delete_Some. intros [Hne H'].
    destruct (Is _ _ _ H') as [? [?|?]]; split; auto.
Qed.

(** A new empty queue changes nothing. *)
Lemma touch_inv h p pool os owned :
  pool_inv (mkPoolState pool os owned) →
  pool_inv (mkPoolState
    (with_idle pool (<[key h p := default [] (idle_ pool !! key h p)]> (idle_ pool))) os owned).
Proof.
  intros [Im Ib Ii Io Is]. simpl in *.
  assert (∀ k fd, idle_in (with_idle pool (<[key h p := default [] (idle_ pool !! key h p)]> (idle_ pool))) k fd
            ↔ idle_in pool k fd) as Hsame.
  { intros k fd. rewrite idle_in_insert. unfold idle_in. split.
    - intros [[-> Hin]|[_ ?]]; [|done]. destruct (idle_ pool !! key h p) as [dq|] eqn:E; simpl in Hin.
      + by exists dq.
      + by apply elem_of_nil in Hin.
    - intros (dq & Hdq & Hin). destruct (decide (k = key h p)) as [->|]; [left|right]; [|by eauto].
      by rewrite Hdq. }
  split; simpl; [done| |intros k fd Hin; apply Hsame in Hin; auto|done|].
  - intros k dq. destruct (decide (k = key h p)) as [->|].
    + rewrite lookup_insert_eq. intros [= <-]. destruct (idle_ pool !! key h p) as [dq|] eqn:E; simpl.
      * by apply (Ib (key h p)).
      * split; [constructor|done].
    + rewrite lookup_insert_ne by done. apply Ib.
  - intros fd h' p' H'. rewrite Hsame. by apply Is.
Qed.

Lemma release_idle_inv h p fd pool os owned :
  pool_inv (mkPoolState pool os owned) → owned !! fd = Some (h, p) →
  (size_of (default [] (idle_ pool !! key h p)) < maxIdlePerBackend_ pool)%Z →
  pool_inv (mkPoolState
    (with_idle pool (<[key h p := default [] (idle_ pool !! key h p) ++ [fd]]> (idle_ pool)))
    os (delete fd owned)).
Proof.
  intros [Im Ib Ii Io Is] Ha Hsz. simpl in *. set (dq := default [] _) in *.
  assert (∀ x, x ∈ dq → idle_in pool (key h p) x) as Hdq.
  { intros x Hx. unfold dq in Hx. destruct (idle_ pool !! key h p) as [l|] eqn:E; simpl in Hx.
    - by exists l.
    - by apply elem_of_nil in Hx. }
  assert (fd ∉ dq) as Hnot. { intros Hx%Hdq. apply Ii in Hx as [? _]. congruence. }
  assert (NoDup dq) as Hnd.
  { unfold dq. destruct (idle_ pool !! key h p) as [l|] eqn:E; simpl; [|constructor]. by apply (Ib _ _ E). }
  split; simpl; [done|..].
  - intros k l. destruct (decide (k = key h p)) as [->|].
    + rewrite lookup_insert_eq. intros [= <-]. split.
      * apply NoDup_app. split_and!; [done| |apply NoDup_singleton].
        intros x Hx ->%list_elem_of_singleton. done.
      * unfold size_of in *. rewrite length_app. simpl. lia.
    + rewrite lookup_insert_ne by done. apply Ib.
  - intros k fd' Hin. apply idle_in_insert in Hin.
    destruct Hin as [[-> [Hin|Hin%list_elem_of_singleton]%elem_of_app]|[Hne Hin]]; [|subst fd'|].
    + destruct (Ii _ _ (Hdq _ Hin)) as (H1 & H2).
      rewrite lookup_delete_ne by (intros ->; done). done.
    + rewrite lookup_delete_eq. split; [done|]. exists h, p. auto.
    + destruct (Ii _ _ Hin) as (H1 & H2). rewrite lookup_delete_ne by (intros ->; congruence). done.
  - intros fd' b. rewrite lookup_delete_Some. intros [? ?]. auto.
  - intros fd' h' p' H'. destruct (Is _ _ _ H') as [H0 Hor]. split; [done|].
    rewrite lookup_delete_Some, idle_in_insert. destruct (decide (fd' = fd)) as [->|Hne].
    + right. left. rewrite (Io _ _ Ha) in H'. injection H' as <- <-. split; [done|set_solver].
    + destruct Hor as [Ho|Hin]; [by left|right].
      destruct (decide (key h' p' = key h p)) as [E|E]; [left|by right]. split; [done|].
      destruct Hin as (l & Hl & Hin). unfold dq. rewrite <- E, Hl. set_solver.
Qed.

Lemma close_fds_lookup l os fd :
  foldr close_fd os l !! fd = if decide (fd ∈ l) then None else os !! fd.
Proof.
  induction l as [|x l IH]; simpl; [done|]. unfold close_fd at 1.
  destruct (decide (fd = x)) as [->|Hne].
  - rewrite lookup_delete_eq, decide_True; [done|apply list_elem_of_here].
  - rewrite lookup_delete_ne by done. rewrite IH.
    destruct (decide (fd ∈ l)), (decide (fd ∈ x :: l)); set_solver.
Qed.

Lemma close_all_lookup (m : gmap bytes (list fd_t)) os fd :
  (∃ k dq, m !! k = Some dq ∧ fd ∈ dq) ∧
    map_fold (λ _ dq os, foldr close_fd os dq) os m !! fd = None ∨
  (∀ k dq, m !! k = Some dq → fd ∉ dq) ∧
    map_fold (λ _ dq os, foldr close_fd os dq) os m !! fd = os !! fd.
Proof.
  revert m. apply (map_fold_weak_ind (λ os' m, (∃ k dq, m !! k = Some dq ∧ fd ∈ dq) ∧ os' !! fd = None ∨
    (∀ k dq, m !! k = Some dq → fd ∉ dq) ∧ os' !! fd = os !! fd)).
  - right. split; [|done]. intros k dq. by rewrite lookup_empty.
  - intros k dq m os' Hk IH. rewrite close_fds_lookup. destruct (decide (fd ∈ dq)).
    + left. split; [|done]. exists k, dq. by rewrite lookup_insert_eq.
    + destruct IH as [[(k' & dq' & H1 & H2) ->]|[H1 ->]]; [left|right]; (split; [|done]).
      * exists k', dq'. rewrite lookup_insert_ne by congruence. done.
      * intros k' dq'. destruct (decide (k' = k)) as [->|].
        -- rewrite lookup_insert_eq. by intros [= <-].
        -- rewrite lookup_insert_ne by done. apply H1.
Qed.

Lemma closeAll_inv pool os owned pool' os' :
  pool_inv (mkPoolState pool os owned) → closeAll pool os = (pool', os') →
  pool_inv (mkPoolState pool' os' owned) ∧ ∀ k fd, ¬ idle_in pool' k fd.
Proof.
  intros [Im Ib Ii Io Is] [= <- <-]. simpl in *.
  assert (∀ k fd, ¬ idle_in (with_idle pool ((λ _, []) <$> idle_ pool)) k fd) as Hno.
  { intros k fd (dq & Hdq & Hin). simpl in Hdq. rewrite lookup_fmap in Hdq.
    destruct (idle_ pool !! k); simplify_eq/=. by apply elem_of_nil in Hin. }
  split; [|done]. split; simpl; [done|..].
  - intros k dq. rewrite lookup_fmap. destruct (idle_ pool !! k); intros [= <-].
    split; [constructor|done].
  - intros k fd Hin. by apply Hno in Hin.
  - intros fd a Ha. destruct (close_all_lookup (idle_ pool) os fd) as [[(k & dq & H1 & H2) _]|[_ ->]].
    + destruct (Ii k fd) as [? _]; [by exists dq|congruence].
    + by apply Io.
  - intros fd h p H'.
    destruct (close_all_lookup (idle_ pool) os fd) as [[_ Hn]|[H1 Hs]]; [congruence|].
    rewrite Hs in H'. destruct (Is _ _ _ H') as [? [?|(dq & H2 & H3)]]; [auto|].
    by apply H1 in H2.
Qed.

Lemma pool_step_inv s s' : pool_step s s' → pool_inv s → pool_inv s'.
Proof.
  destruct 1 as [env h p pool os owned fd pool' os' Hf Ha|h p fd pool os owned pool' os' Ho Hr
                |fd a pool os owned Ho|pool os owned pool' os' Hc]; intros Hi.
  - unfold acquire in Ha. destruct (idle_ pool !! key h p) as [[|fd0 rest]|] eqn:Hk.
    1, 3: destruct (dialNew env h p os) as [fd1 os1] eqn:Hd; simplify_eq;
      by eapply acquire_dial_inv.
    simplify_eq. destruct (acquire_idle_inv h p fd rest pool os' owned Hi Hk) as [H0 ?].
    by destruct (Z.ltb_spec fd 0); [lia|].
  - unfold release in Hr. destruct (Z.leb_spec (maxIdlePerBackend_ pool)
      (size_of (default [] (idle_ pool !! key h p)))); simplify_eq.
    + eapply drop_owned_inv; [|done]. by apply touch_inv.
    + by apply release_idle_inv.
  - assert ((0 <=? fd)%Z = true) as Hpos.
    { destruct a as [h p]. apply Z.leb_le. by apply (inv_os _ Hi fd h p), (inv_owned _ Hi). }
    unfold discard. rewrite Hpos. by eapply drop_owned_inv.
  - by eapply closeAll_inv.
Qed.

Definition initial_pool (maxIdle timeout : Z) : pool_state :=
  mkPoolState (newConnectionPool maxIdle timeout) ∅ ∅.

Lemma initial_pool_inv maxIdle timeout : (0 ≤ maxIdle)%Z → pool_inv (initial_pool maxIdle timeout).
Proof.
  intros. split; simpl; [done|..].
  - intros k dq. by rewrite lookup_empty.
  - intros k fd (dq & Hdq & _). simpl in Hdq. by rewrite lookup_empty in Hdq.
  - done.
  - intros fd h p. by rewrite lookup_empty.
Qed.

Lemma pool_steps_inv s s' : rtc pool_step s s' → pool_inv s → pool_inv s'.
Proof. induction 1; eauto using pool_step_inv. Qed.

(** ** Theorems *)

(** C21: descriptors are neither leaked nor shared.  However clients acquire,
    release and discard connections (with [closeAll] at any time), every open
    socket is either owned by exactly one client or waits in exactly one
    queue, the one of the backend it is connected to; no queue exceeds
    [maxIdlePerBackend_] or holds a descriptor twice; and nothing closed is
    owned or queued. *)
Theorem pool_no_leak maxIdle timeout s :
  (0 ≤ maxIdle)%Z → rtc pool_step (initial_pool maxIdle timeout) s →
  (∀ fd h p, ps_os s !! fd = Some (h, p) →
     (ps_owned s !! fd = Some (h, p) ∧ ∀ k, ¬ idle_in (ps_pool s) k fd) ∨
     (ps_owned s !! fd = None ∧ ∀ k, idle_in (ps_pool s) k fd ↔ k = key h p)) ∧
  (∀ fd a, ps_owned s !! fd = Some a → ps_os s !! fd = Some a) ∧
  (∀ k fd, idle_in (ps_pool s) k fd → is_Some (ps_os s !! fd)) ∧
  (∀ h p, (idleCount h p (ps_pool s) ≤ maxIdlePerBackend_ (ps_pool s))%Z) ∧
  (∀ k dq, idle_ (ps_pool s) !! k = Some dq → NoDup dq).
Proof.
  intros Hmax Hr. pose proof (pool_steps_inv _ _ Hr (initial_pool_inv _ timeout Hmax)) as Hi.
  split_and!.
  - intros fd h p Hos. destruct (inv_os s Hi _ _ _ Hos) as [_ [Ho|Hin]]; [left|right].
    + split; [done|]. intros k Hin. apply (inv_idle s Hi) in Hin as [? _]. congruence.
    + split; [by apply (inv_idle s Hi) in Hin as [? _]|]. intros k. split; [|by intros ->].
      intros (_ & h' & p' & Hos' & ->)%(inv_idle s Hi). rewrite Hos in Hos'. by simplify_eq.
  - apply (inv_owned s Hi).
  - intros k fd (_ & h & p & Hos & _)%(inv_idle s Hi). by exists (h, p).
  - intros h p. unfold idleCount. destruct (idle_ (ps_pool s) !! key h p) as [dq|] eqn:E; simpl.
    + by apply (inv_bound s Hi) in E as [_ ?].
    + apply (inv_max s Hi).
  - intros k dq E. by apply (inv_bound s Hi) in E as [? _].
Qed.

Definition dial_ok (fd : fd_t) : dial_env := mkDialEnv true fd InProgress 1 0.

Lemma pool_no_leak_witness :
  let pool1 := with_idle (newConnectionPool 1 500) {[key (str "b") 9001 := [7%Z]]} in
  let s := mkPoolState pool1 {[7%Z := (str "b", 9001%Z)]} ∅ in
  rtc pool_step (initial_pool 1 500) s ∧ is_Some (ps_os s !! 7%Z).
Proof.
  intros pool1 s.
  assert (rtc pool_step (initial_pool 1 500) s) as Hr.
  { eapply rtc_l.
    - apply (step_acquire (dial_ok 7) (str "b") 9001 (newConnectionPool 1 500) ∅ ∅ 7
               (newConnectionPool 1 500) {[7%Z := (str "b", 9001%Z)]}); [done|].
      vm_compute. reflexivity.
    - eapply rtc_once. simpl.
      replace ∅ with (delete 7%Z (<[7%Z := (str "b", 9001%Z)]> (∅ : gmap fd_t peer)))
        by (vm_compute; reflexivity).
      eapply (step_release (str "b") 9001 7); vm_compute; reflexivity. }
  split; [done|].
  refine (proj1 (proj2 (proj2 (pool_no_leak 1 500 s _ Hr))) (key (str "b") 9001) 7%Z _); [done|].
  exists [7%Z]. split; [vm_compute; reflexivity|apply list_elem_of_here].
Defined.

(** [acquire] hands out a connection to the backend it was asked for.  In
    every reachable state it either fails with a negative descriptor and
    changes nothing (a failed dial leaves no socket open), or returns a
    socket connected to that host and port which no other client owns and
    which left the queues; a waiting connection is reused, oldest first,
    before a new one is dialled. *)
Theorem pool_acquire_spec maxIdle timeout s env h p fd pool' os' :
  (0 ≤ maxIdle)%Z → rtc pool_step (initial_pool maxIdle timeout) s →
  fresh_socket env (ps_os s) → acquire env h p (ps_pool s) (ps_os s) = (fd, pool', os') →
  ((fd < 0)%Z ∧ pool' = ps_pool s ∧ os' = ps_os s ∧ idleCount h p (ps_pool s) = 0%Z) ∨
  ((0 ≤ fd)%Z ∧ os' !! fd = Some (h, p) ∧ ps_owned s !! fd = None ∧
   (∀ k, ¬ idle_in pool' k fd) ∧
   ((0 < idleCount h p (ps_pool s))%Z →
      os' = ps_os s ∧ idle_ (ps_pool s) !! key h p = (λ dq, fd :: dq) <$> idle_ pool' !! key h p)).
Proof.
  intros Hmax Hr Hf Ha. pose proof (pool_steps_inv _ _ Hr (initial_pool_inv _ timeout Hmax)) as Hi.
  destruct s as [pool os owned]. simpl in *.
  pose proof (pool_step_inv _ _ (step_acquire env h p pool os owned fd pool' os' Hf Ha) Hi) as Hi'.
  unfold acquire, idleCount in *. destruct (idle_ pool !! key h p) as [[|fd0 rest]|] eqn:Hk.
  1, 3: destruct (dialNew env h p os) as [fd1 os1] eqn:Hd; injection Ha as <- <- <-;
    destruct (dialNew_spec _ _ _ _ _ _ Hf Hd) as [[H0 ->]|(H0 & Hn & ->)]; [by left|];
    right; split_and!; [done|by rewrite lookup_insert_eq| | |unfold size_of; simpl; lia];
    [destruct (owned !! fd1) eqn:E; [apply (inv_owned _ Hi) in E; simpl in E; congruence|done]
    |intros k (_ & h' & p' & E & _)%(inv_idle _ Hi); simpl in E; congruence].
  injection Ha as <- <- <-. destruct (acquire_idle_inv h p fd0 rest pool os owned Hi Hk) as [H0 _].
  destruct (inv_idle _ Hi (key h p) fd0) as (Ho & h' & p' & Hos & E%key_inj).
  { exists (fd0 :: rest). split; [done|apply list_elem_of_here]. }
  destruct E as [<- <-]. right. split_and!; [done|done|done| |].
  - destruct (Z.ltb_spec fd0 0); [lia|]. intros k Hin. apply (inv_idle _ Hi') in Hin as [Hn _].
    simpl in Hn. by rewrite lookup_insert_eq in Hn.
  - intros _. split; [done|]. simpl. by rewrite lookup_insert_eq.
Qed.

Lemma pool_acquire_spec_witness :
  let r := acquire (dial_ok 4) (str "b") 9001 (newConnectionPool 1 500) ∅ in
  r.1.1 = 4%Z ∧
  ((4 < 0)%Z ∧ r.1.2 = newConnectionPool 1 500 ∧ r.2 = ∅ ∧ 
     idleCount (str "b") 9001 (newConnectionPool 1 500) = 0%Z ∨
   (0 ≤ 4)%Z ∧ r.2 !! 4%Z = Some (str "b", 9001%Z) ∧ (∅ : gmap fd_t peer) !! 4%Z = None ∧
     (∀ k, ¬ idle_in r.1.2 k 4%Z) ∧
     ((0 < idleCount (str "b") 9001 (newConnectionPool 1 500))%Z →
      r.2 = ∅ ∧ (∅ : gmap bytes (list fd_t)) !! key (str "b") 9001 =
        (λ dq, 4%Z :: dq) <$> idle_ r.1.2 !! key (str "b") 9001)).
Proof.
  intros r. split; [reflexivity|].
  refine (pool_acquire_spec 1 500 (initial_pool 1 500) (dial_ok 4) (str "b") 9001 4 r.1.2 r.2 _ _ _ _).
  - done.
  - apply rtc_refl.
  - reflexivity.
  - vm_compute. reflexivity.
Defined.
