(* ===== verification/HealthChecker.v ===== *)
(** * Health checker (include/network/HealthChecker.hpp, src/network/HealthChecker.cpp)

    One check of one backend, over the table of open sockets, driven by what
    the system calls answer; one round over all backends, which sets the
    [healthy] flags the load balancers read; and the rounds until [stop].
    Waiting between rounds changes no state. *)
From S2P Require Import Prelude CxxString CircuitBreaker LoadBalancer ConnectionPool.
Local Open Scope nat_scope.

Record HealthChecker := mkHealthChecker {
  hc_backends : list bptr;
  hc_interval : Z;         (* milliseconds *)
  hc_timeout : Z;          (* milliseconds *)
  hc_path : bytes
}.

(** Answers of the system calls of one check; [ck_recv] is what the peer has
    sent, [None] when [recv] fails or the peer has closed. *)
Record check_env := mkCheckEnv {
  ck_dial : dial_env;
  ck_sent : Z;                 (* send *)
  ck_ready : Z;                (* poll for input *)
  ck_recv : option bytes       (* recv *)
}.

(** Lines 48-50. *)
Definition check_request (path : bytes) (b : Backend) : bytes :=
  str "GET " ++ path ++ str " HTTP/1.1" ++ crlf ++ str "Host: " ++ host b ++ crlf ++
  str "Connection: close" ++ crlf ++ crlf.

(** The [std::string] built from a character array: up to the first NUL. *)
Definition c_string (s : bytes) : bytes := take_while (λ c, negb (bool_decide (c = "000"%char))) s.

(** Lines 59-63. *)
Definition healthy_reply (received : option bytes) : bool :=
  match received with
  | None | Some [] => false
  | Some data =>
      let resp := c_string (take 63 data) in
      contains (str "HTTP/1.1 2") resp || contains (str "HTTP/1.0 2") resp
  end.

(** [checkOne]: the verdict and the sockets left open. *)
Definition checkOne (env : check_env) (b : Backend) (os : sockets) : bool * sockets :=
  let d := ck_dial env in
  if negb (resolved d) then (false, os)
  else
    let fd := socket_fd d in
    if (fd <? 0)%Z then (false, os)
    else
      let os := <[fd := (host b, port b)]> os in
      let exchange :=
        if (ck_sent env <? 0)%Z then (false, close_fd fd os)
        else if (ck_ready env <=? 0)%Z then (false, close_fd fd os)
        else (healthy_reply (ck_recv env), close_fd fd os) in
      match connect_rc d with
      | ConnectError => (false, close_fd fd os)
      | InProgress =>
          if (poll_ready d <=? 0)%Z then (false, close_fd fd os)
          else if negb (so_error d =? 0)%Z then (false, close_fd fd os)
          else exchange
      | Connected => exchange
      end.

(** [healthy.exchange(ok)]. *)
Definition set_healthy (ok : bool) (b : Backend) : Backend :=
  mkBackend (host b) (port b) ok (activeConnections b) (circuitBreaker b).

(** Backends, sockets and the changes logged so far. *)
Record check_state := mkCheckState {
  cs_backends : bstore;
  cs_sockets : sockets;
  cs_log : list (bytes * bool)
}.

(** Lines 69-76: one backend of a round. *)
Definition check_step (s : check_state) (work : bptr * check_env) : check_state :=
  let '(i, env) := work in
  match cs_backends s !! i with
  | None => s
  | Some b =>
      let '(ok, os) := checkOne env b (cs_sockets s) in
      mkCheckState (<[i := set_healthy ok b]> (cs_backends s)) os
        (if bool_decide (healthy b = ok) then cs_log s else cs_log s ++ [(address b, ok)])
  end.

Definition check_round (hc : HealthChecker) (envs : list check_env) (s : check_state) : check_state :=
  foldl check_step s (zip (hc_backends hc) envs).

(** [run] until it is stopped: one list of answers per round. *)
Definition health_run (hc : HealthChecker) (rounds : list (list check_env)) (s : check_state) : check_state :=
  foldl (λ s envs, check_round hc envs s) s rounds.

(** ** One check *)

Definition check_fresh (env : check_env) (os : sockets) : Prop := fresh_socket (ck_dial env) os.

(** The verdict does not depend on the sockets. *)
Definition verdict (env : check_env) (b : Backend) : bool := (checkOne env b ∅).1.

Lemma checkOne_spec env b os : check_fresh env os → checkOne env b os = (verdict env b, os).
Proof.
  intros Hf. unfold verdict, checkOne, check_fresh, fresh_socket, close_fd in *.
  destruct (resolved (ck_dial env)); [|done]. simpl.
  destruct (socket_fd (ck_dial env) <? 0)%Z; [done|].
  rewrite !delete_insert_id by (done || apply lookup_empty).
  destruct (connect_rc _); repeat case_if; done.
Qed.

(** ** A round *)

(** Every field but the health flag. *)
Definition unchecked (b : Backend) : bytes * Z * Z * CircuitBreaker :=
  (host b, port b, activeConnections b, circuitBreaker b).

Lemma verdict_unchecked env b b' : unchecked b = unchecked b' → verdict env b = verdict env b'.
Proof. intros [= E1 E2 _ _]. unfold verdict, checkOne. by rewrite E1, E2. Qed.

(** The store after a round: [results] holds the verdicts of the backends
    checked so far. *)
Lemma check_steps work s :
  NoDup work.*1 → Forall (λ w, check_fresh w.2 (cs_sockets s)) work →
  let s' := foldl check_step s work in
  cs_sockets s' = cs_sockets s ∧ unchecked <$> cs_backends s' = unchecked <$> cs_backends s ∧
  (∀ i b, cs_backends s !! i = Some b → ∃ b', cs_backends s' !! i = Some b' ∧
     ((i ∉ work.*1 ∧ b' = b) ∨ (∃ env, (i, env) ∈ work ∧ healthy b' = verdict env b))).
Proof.
  revert s. induction work as [|[i env] work IH]; intros s Hnd Hf; simpl.
  - split_and!; [done..|]. intros j b Hb. exists b. split; [done|]. left. set_solver.
  - apply NoDup_cons in Hnd as [Hi Hnd]. apply Forall_cons in Hf as [Hf1 Hf].
    destruct (cs_backends s !! i) as [b|] eqn:Eb.
    2: { destruct (IH s Hnd Hf) as (H1 & H2 & H3). split_and!; [done..|].
         intros j b' Hb. destruct (H3 j b' Hb) as (b2 & Hb2 & [[Hn ->]|(e & He & Ev)]).
         - exists b'. split; [done|]. left. split; [|done]. apply not_elem_of_cons. split; [congruence|done].
         - exists b2. split; [done|]. right. exists e. split; [by right|done]. }
    rewrite checkOne_spec by exact Hf1.
    set (s1 := mkCheckState _ _ _). destruct (IH s1 Hnd Hf) as (H1 & H2 & H3). simpl in H1, H2.
    split_and!; [done| |].
    + rewrite H2, list_fmap_insert. apply list_insert_id. by rewrite list_lookup_fmap, Eb.
    + intros j b0 Hb0. destruct (decide (j = i)) as [->|Hne].
      * rewrite Eb in Hb0. injection Hb0 as <-.
        destruct (H3 i (set_healthy (verdict env b) b)) as (b2 & Hb2 & Hc).
        { simpl. rewrite list_lookup_insert_eq; [done|]. by eapply lookup_lt_Some. }
        exists b2. split; [done|]. destruct Hc as [[_ ->]|(e & He & Ev)].
        -- right. exists env. split; [left|done].
        -- destruct Hi. apply list_elem_of_fmap. by exists (i, e).
      * destruct (H3 j b0) as (b2 & Hb2 & Hc); [simpl; by rewrite list_lookup_insert_ne|].
        exists b2. split; [done|]. destruct Hc as [[Hn ->]|(e & He & Ev)].
        -- left. split; [|done]. apply not_elem_of_cons. done.
        -- right. exists e. split; [by right|done].
Qed.

(** ** Replies *)

(** The start of a status line. *)
Definition status_start (minor : ascii) (d : ascii) (rest : bytes) : bytes :=
  str "HTTP/1." ++ minor :: SP :: d :: rest.

(** A slash occurs in the pattern and, in such a reply, only in its place at
    the beginning. *)
Lemma status_contains m minor d rest :
  "/"%char ∉ rest → minor ≠ "/"%char → d ≠ "/"%char →
  contains (str "HTTP/1." ++ [m; SP; "2"%char]) (status_start minor d rest) =
    bool_decide (minor = m) && bool_decide (d = "2"%char).
Proof.
  intros Hr Hm Hd.
  destruct (contains _ _) eqn:E; symmetry.
  - apply contains_true in E as (a & b & E). unfold status_start in E.
    assert (a = []) as ->.
    { destruct a as [|c a]; [done|]. exfalso.
      assert ("/"%char ∈ drop 5 (str "HTTP/1." ++ minor :: SP :: d :: rest)) as Hin.
      { rewrite E. change (str "HTTP/1." ++ [m; SP; "2"%char]) with (str "HTTP" ++ "/"%char :: str "1." ++ [m; SP; "2"%char]).
        simpl. destruct a as [|? [|? [|? [|? a]]]]; simpl; set_solver. }
      simpl in Hin. set_solver. }
    simpl in E. injection E as -> -> _. by rewrite !bool_decide_eq_true_2.
  - apply andb_false_iff. destruct (decide (minor = m)) as [->|]; [|left; by apply bool_decide_eq_false_2].
    right. apply bool_decide_eq_false_2. intros ->. apply not_true_iff_false in E. apply E.
    apply contains_true. by exists [], rest.
Qed.

(** ** Theorems *)

(** A check judges by the status and leaks nothing.  Whatever the network
    does, the sockets open after a check are those open before it; and a
    backend that was reached and whose first segment starts with a status
    line (HTTP/1.0 or 1.1, any status, a reason without a slash) is healthy
    exactly when the status starts with 2. *)
Theorem health_check_spec env b os minor d rest :
  check_fresh env os →
  (checkOne env b os).2 = os ∧
  (resolved (ck_dial env) = true → (0 ≤ socket_fd (ck_dial env))%Z → connect_rc (ck_dial env) = Connected →
   (0 ≤ ck_sent env)%Z → (0 < ck_ready env)%Z →
   minor = "0"%char ∨ minor = "1"%char → d ≠ "/"%char → "/"%char ∉ rest → "000"%char ∉ d :: rest →
   length rest ≤ 50 → ck_recv env = Some (status_start minor d rest) →
   (checkOne env b os).1 = bool_decide (d = "2"%char)).
Proof.
  intros Hf. rewrite checkOne_spec by done. split; [done|].
  intros Hres Hfd Hcon Hsent Hready Hminor Hd Hrest Hnul Hlen Hrecv. unfold verdict, checkOne.
  rewrite Hres, Hcon, Hrecv. cbn [negb fst].
  destruct (Z.ltb_spec (socket_fd (ck_dial env)) 0); [lia|]. destruct (Z.ltb_spec (ck_sent env) 0); [lia|].
  destruct (Z.leb_spec (ck_ready env) 0); [lia|]. cbn [fst].
  assert (c_string (take 63 (status_start minor d rest)) = status_start minor d rest) as E.
  { rewrite take_ge by (unfold status_start; rewrite length_app; simpl; lia).
    apply take_while_all, Forall_forall. intros c Hc. apply negb_true_iff, bool_decide_eq_false. intros ->.
    unfold status_start in Hc. apply elem_of_app in Hc as [Hc|Hc]; [revert Hc; by_decide|].
    apply elem_of_cons in Hc as [Hc|Hc]; [destruct Hminor; congruence|].
    apply elem_of_cons in Hc as [Hc|Hc]; [done|done]. }
  unfold healthy_reply. change (status_start minor d rest) with ("H"%char :: drop 1 (status_start minor d rest)) at 1.
  cbv iota. rewrite E.
  change (str "HTTP/1.1 2") with (str "HTTP/1." ++ ["1"%char; SP; "2"%char]).
  change (str "HTTP/1.0 2") with (str "HTTP/1." ++ ["0"%char; SP; "2"%char]).
  rewrite !status_contains by (destruct Hminor; congruence).
  destruct Hminor as [->| ->]; simpl; [done|]. by rewrite orb_false_r.
Qed.

Definition check_ok (reply : bytes) : check_env :=
  mkCheckEnv (mkDialEnv true 5 Connected 0 0) 60 1 (Some reply).

Lemma health_check_spec_witness :
  (checkOne (check_ok (str "HTTP/1.1 204 No Content")) (demo_backend false 0) ∅).1 = true ∧
  (checkOne (check_ok (str "HTTP/1.0 503 Down")) (demo_backend true 0) ∅).1 = false.
Proof.
  split.
  - refine (proj2 (health_check_spec (check_ok (str "HTTP/1.1 204 No Content")) (demo_backend false 0) ∅
      "1"%char "2"%char (str "04 No Content") _) _ _ _ _ _ _ _ _ _ _ _);
      first [done | by right | by_decide | simpl; lia | by vm_compute].
  - refine (proj2 (health_check_spec (check_ok (str "HTTP/1.0 503 Down")) (demo_backend true 0) ∅
      "0"%char "5"%char (str "03 Down") _) _ _ _ _ _ _ _ _ _ _ _);
      first [done | by left | by_decide | simpl; lia | by vm_compute].
Defined.

(** The pattern is searched in the whole segment: a backend that answers 503
    with a reason that quotes a success is taken for healthy. *)
Example health_check_false_positive :
  (checkOne (check_ok (str "HTTP/1.1 503 expected HTTP/1.1 200")) (demo_backend true 0) ∅).1 = true.
Proof. vm_compute. reflexivity. Qed.

(** C39: a round of checks steers the load balancer.  After a round over all
    backends no socket is left open, nothing of a backend but its health flag
    has changed, and until the next round either strategy picks only backends
    that passed their check, and finds one whenever one of the group
    passed. *)
Theorem health_round_steers hc envs s lb r lb' :
  hc_backends hc = seq 0 (length (cs_backends s)) → length envs = length (cs_backends s) →
  Forall (λ env, check_fresh env (cs_sockets s)) envs →
  rr_room lb → Forall (λ i, i < length (cs_backends s)) (backends_ lb) →
  pick (cs_backends (check_round hc envs s)) lb = (r, lb') →
  cs_sockets (check_round hc envs s) = cs_sockets s ∧
  unchecked <$> cs_backends (check_round hc envs s) = unchecked <$> cs_backends s ∧
  match r with
  | Some i => i ∈ backends_ lb ∧
      ∃ env b, envs !! i = Some env ∧ cs_backends s !! i = Some b ∧ verdict env b = true
  | None => ∀ i env b, i ∈ backends_ lb → envs !! i = Some env → cs_backends s !! i = Some b →
      verdict env b = false
  end.
Proof.
  intros Hhc Hlen Hf Hroom Hptr Hp. unfold check_round in *. rewrite Hhc in *.
  set (work := zip (seq 0 (length (cs_backends s))) envs) in *.
  assert (work.*1 = seq 0 (length (cs_backends s))) as Hfst
    by (apply fst_zip; rewrite length_seq; lia).
  assert (∀ i env, (i, env) ∈ work ↔ envs !! i = Some env) as Hwork.
  { intros i env. rewrite list_elem_of_lookup. split.
    - intros (k & (? & ? & [= -> ->] & [-> _]%lookup_seq & He)%lookup_zip_with_Some). done.
    - intros He. exists i. apply lookup_zip_with_Some. exists i, env. split_and!; [done| |done].
      apply lookup_seq. apply lookup_lt_Some in He. lia. }
  destruct (check_steps work s) as (H1 & H2 & H3).
  { rewrite Hfst. apply NoDup_seq. }
  { apply Forall_forall. intros [i env] Hin%Hwork. simpl. rewrite Forall_forall in Hf.
    by eapply Hf, list_elem_of_lookup_2. }
  split_and!; [done..|].
  assert (∀ i, i ∈ backends_ lb → ∃ env b, envs !! i = Some env ∧ cs_backends s !! i = Some b ∧
            is_healthy (cs_backends (foldl check_step s work)) i = verdict env b) as Hh.
  { intros i Hi. rewrite Forall_forall in Hptr. specialize (Hptr i Hi).
    destruct (lookup_lt_is_Some_2 _ _ Hptr) as [b Hb].
    destruct (H3 i b Hb) as (b' & Hb' & [[Hn _]|(env & He & Ev)]).
    - destruct Hn. rewrite Hfst. apply elem_of_seq. lia.
    - exists env, b. split_and!; [by apply Hwork|done|]. unfold is_healthy. by rewrite Hb'. }
  destruct (pick_sound _ _ _ _ Hroom Hp) as (_ & _ & Hr). destruct r as [i|].
  - destruct Hr as [Hi E]. split; [done|]. destruct (Hh i Hi) as (env & b & ? & ? & E'). exists env, b.
    split_and!; [done..|]. congruence.
  - intros i env b Hi He Hb. destruct (Hh i Hi) as (env' & b' & ? & ? & E').
    specialize (Hr i Hi). simplify_eq. congruence.
Qed.

Definition demo_checks : check_state := mkCheckState [demo_backend true 0; demo_backend false 0] ∅ [].

Lemma health_round_steers_witness :
  let hc := mkHealthChecker [0; 1] 5000 1000 (str "/health") in
  let envs := [check_ok (str "HTTP/1.1 500 Oops"); check_ok (str "HTTP/1.1 200 OK")] in
  let lb := newLoadBalancer [0; 1] RoundRobin in
  (pick (cs_backends (check_round hc envs demo_checks)) lb).1 = Some 1 ∧
  cs_sockets (check_round hc envs demo_checks) = ∅.
Proof.
  intros hc envs lb. split; [vm_compute; reflexivity|].
  refine (proj1 (health_round_steers hc envs demo_checks lb (Some 1)
    (pick (cs_backends (check_round hc envs demo_checks)) lb).2 _ _ _ _ _ _)).
  - reflexivity.
  - reflexivity.
  - repeat constructor.
  - split; vm_compute; congruence.
  - repeat constructor.
  - vm_compute. reflexivity.
Defined.
