(* ===== verification/Metrics.v ===== *)
(** * Metrics (include/observability/Metrics.hpp)

    Counters are atomics; every [fetch_add] is one step on the registry.  The
    latency histogram has fixed bucket bounds; percentiles are read from the
    cumulated bucket counts.  How an [ostream] prints a double is an argument
    of the text exposition. *)
From Stdlib Require Import QArith.
From S2P Require Import Prelude CxxString Rounding.
Local Open Scope nat_scope.

Definition uint64_max : Z := 2 ^ 64 - 1.

Record LatencyHistogram := mkLatencyHistogram {
  bounds_ : list Z;
  counts_ : list Z;
  total_ : Z
}.

Definition bucket_bounds : list Z :=
  [100; 250; 500; 1000; 2500; 5000; 10000; 25000; 50000; 100000; 250000; 500000; 1000000;
   uint64_max]%Z.

Definition newLatencyHistogram : LatencyHistogram :=
  mkLatencyHistogram bucket_bounds (replicate (length bucket_bounds) 0%Z) 0.

(** [std::lower_bound]: position of the first bound that is not less. *)
Fixpoint lower_bound (l : list Z) (x : Z) : nat :=
  match l with
  | [] => 0
  | b :: l' => if (b <? x)%Z then S (lower_bound l' x) else 0
  end.

Definition record (micros : Z) (h : LatencyHistogram) : LatencyHistogram :=
  let idx := lower_bound (bounds_ h) micros in
  let idx := if decide (length (counts_ h) ≤ idx) then length (counts_ h) - 1 else idx in
  mkLatencyHistogram (bounds_ h) (alter (λ c, c +u 1)%Z idx (counts_ h)) (total_ h +u 1).

(** The loop of [percentile]: bounds and counts from bucket [i] on, the bound
    before them, and the count so far. *)
Fixpoint scan (bs cs : list Z) (prev cumulative target last : Z) : Z :=
  match bs, cs with
  | b :: bs', c :: cs' =>
      let cumulative := (cumulative +u c)%Z in
      if (target <=? cumulative)%Z then if (b =? uint64_max)%Z then prev else b
      else scan bs' cs' b cumulative target last
  | _, _ => last
  end.

Section percentile.
Context (rnd : Q → Q).

Definition percentile (p : Q) (h : LatencyHistogram) : Z :=
  if (total_ h =? 0)%Z then 0
  else
    let target := trunc (rnd (p * rnd (inject_Z (total_ h)))) in
    scan (bounds_ h) (counts_ h) 0 0 target (List.last (bounds_ h) 0%Z).

Definition p50 (h : LatencyHistogram) : Z := percentile (rnd (50 # 100)) h.
Definition p95 (h : LatencyHistogram) : Z := percentile (rnd (95 # 100)) h.
Definition p99 (h : LatencyHistogram) : Z := percentile (rnd (99 # 100)) h.
End percentile.

Record Metrics := mkMetrics {
  requests_ : Z;
  errors_ : Z;
  cacheHits_ : Z;
  cacheMisses_ : Z;
  rateLimited_ : Z;
  retries_ : Z;
  circuitOpenRejections_ : Z;
  activeConnections_ : Z;            (* int64_t *)
  responsesByClass_ : list Z;        (* array of six *)
  latency_ : LatencyHistogram
}.

Definition newMetrics : Metrics :=
  mkMetrics 0 0 0 0 0 0 0 0 (replicate 6 0%Z) newLatencyHistogram.

Definition incRequests (m : Metrics) : Metrics :=
  mkMetrics (requests_ m +u 1) (errors_ m) (cacheHits_ m) (cacheMisses_ m) (rateLimited_ m)
    (retries_ m) (circuitOpenRejections_ m) (activeConnections_ m) (responsesByClass_ m) (latency_ m).
Definition incErrors (m : Metrics) : Metrics :=
  mkMetrics (requests_ m) (errors_ m +u 1) (cacheHits_ m) (cacheMisses_ m) (rateLimited_ m)
    (retries_ m) (circuitOpenRejections_ m) (activeConnections_ m) (responsesByClass_ m) (latency_ m).
Definition incCacheHit (m : Metrics) : Metrics :=
  mkMetrics (requests_ m) (errors_ m) (cacheHits_ m +u 1) (cacheMisses_ m) (rateLimited_ m)
    (retries_ m) (circuitOpenRejections_ m) (activeConnections_ m) (responsesByClass_ m) (latency_ m).
Definition incCacheMiss (m : Metrics) : Metrics :=
  mkMetrics (requests_ m) (errors_ m) (cacheHits_ m) (cacheMisses_ m +u 1) (rateLimited_ m)
    (retries_ m) (circuitOpenRejections_ m) (activeConnections_ m) (responsesByClass_ m) (latency_ m).
Definition incRateLimited (m : Metrics) : Metrics :=
  mkMetrics (requests_ m) (errors_ m) (cacheHits_ m) (cacheMisses_ m) (rateLimited_ m +u 1)
    (retries_ m) (circuitOpenRejections_ m) (activeConnections_ m) (responsesByClass_ m) (latency_ m).
Definition incRetries (m : Metrics) : Metrics :=
  mkMetrics (requests_ m) (errors_ m) (cacheHits_ m) (cacheMisses_ m) (rateLimited_ m)
    (retries_ m +u 1) (circuitOpenRejections_ m) (activeConnections_ m) (responsesByClass_ m) (latency_ m).
Definition incCircuitOpen (m : Metrics) : Metrics :=
  mkMetrics (requests_ m) (errors_ m) (cacheHits_ m) (cacheMisses_ m) (rateLimited_ m)
    (retries_ m) (circuitOpenRejections_ m +u 1) (activeConnections_ m) (responsesByClass_ m) (latency_ m).
Definition recordResponse (statusCode : Z) (m : Metrics) : Metrics :=
  if (100 <=? statusCode)%Z && (statusCode <? 600)%Z then
    mkMetrics (requests_ m) (errors_ m) (cacheHits_ m) (cacheMisses_ m) (rateLimited_ m)
      (retries_ m) (circuitOpenRejections_ m) (activeConnections_ m)
      (alter (λ c, c +u 1)%Z (Z.to_nat (statusCode `quot` 100)) (responsesByClass_ m)) (latency_ m)
  else m.
Definition connectionOpened (m : Metrics) : Metrics :=
  mkMetrics (requests_ m) (errors_ m) (cacheHits_ m) (cacheMisses_ m) (rateLimited_ m)
    (retries_ m) (circuitOpenRejections_ m) (wrap64 (activeConnections_ m + 1))
    (responsesByClass_ m) (latency_ m).
Definition connectionClosed (m : Metrics) : Metrics :=
  mkMetrics (requests_ m) (errors_ m) (cacheHits_ m) (cacheMisses_ m) (rateLimited_ m)
    (retries_ m) (circuitOpenRejections_ m) (wrap64 (activeConnections_ m - 1))
    (responsesByClass_ m) (latency_ m).
Definition recordLatencyMicros (micros : Z) (m : Metrics) : Metrics :=
  mkMetrics (requests_ m) (errors_ m) (cacheHits_ m) (cacheMisses_ m) (rateLimited_ m)
    (retries_ m) (circuitOpenRejections_ m) (activeConnections_ m) (responsesByClass_ m)
    (record micros (latency_ m)).

Section exposition.
Context (rnd : Q → Q) (print_double : Q → bytes).

Definition requestsPerSecond (elapsedSeconds : Q) (m : Metrics) : Q :=
  if Qle_bool elapsedSeconds 0 then 0%Q else rnd (rnd (inject_Z (requests_ m)) / elapsedSeconds)%Q.

Definition LFs : bytes := [LF].

Definition text_line (name value : bytes) : bytes := name ++ str " " ++ value ++ LFs.

Definition class_line (m : Metrics) (klass : nat) : bytes :=
  str "gateway_responses_total{status_class=" ++ [DQ] ++ to_string (Z.of_nat klass) ++ str "xx" ++
  [DQ] ++ str "} " ++ to_string (nth klass (responsesByClass_ m) 0%Z) ++ LFs.

Definition toPrometheusText (uptimeSeconds : Q) (m : Metrics) : bytes :=
  str "# HELP gateway_requests_total Total requests handled" ++ LFs ++
  str "# TYPE gateway_requests_total counter" ++ LFs ++
  text_line (str "gateway_requests_total") (to_string (requests_ m)) ++
  str "# TYPE gateway_errors_total counter" ++ LFs ++
  text_line (str "gateway_errors_total") (to_string (errors_ m)) ++
  str "# TYPE gateway_responses_total counter" ++ LFs ++
  concat (class_line m <$> seq 1 5) ++
  text_line (str "gateway_cache_hits_total") (to_string (cacheHits_ m)) ++
  text_line (str "gateway_cache_misses_total") (to_string (cacheMisses_ m)) ++
  text_line (str "gateway_rate_limited_total") (to_string (rateLimited_ m)) ++
  text_line (str "gateway_retries_total") (to_string (retries_ m)) ++
  text_line (str "gateway_circuit_open_rejections_total") (to_string (circuitOpenRejections_ m)) ++
  text_line (str "gateway_active_connections") (to_string (activeConnections_ m)) ++
  text_line (str "gateway_requests_per_second") (print_double (requestsPerSecond uptimeSeconds m)) ++
  text_line (str "gateway_latency_p50_micros") (to_string (p50 rnd (latency_ m))) ++
  text_line (str "gateway_latency_p95_micros") (to_string (p95 rnd (latency_ m))) ++
  text_line (str "gateway_latency_p99_micros") (to_string (p99 rnd (latency_ m))).
End exposition.

(** ** What the histogram counts *)

(** Samples that fall in bucket [i]: above the previous bound, up to its own. *)
Definition in_bucket (i : nat) (x : Z) : bool :=
  (match i with O => (-1)%Z | S j => nth j bucket_bounds 0%Z end <? x)%Z &&
  (x <=? nth i bucket_bounds 0%Z)%Z.

Definition count_if {A} (f : A → bool) (l : list A) : Z := size_of (List.filter f l).

Definition recorded (samples : list Z) : LatencyHistogram :=
  foldl (flip record) newLatencyHistogram samples.

Lemma count_if_snoc {A} (f : A → bool) l x :
  count_if f (l ++ [x]) = (count_if f l + if f x then 1 else 0)%Z.
Proof.
  unfold count_if, size_of. rewrite List.filter_app, length_app. simpl.
  destruct (f x); simpl; lia.
Qed.

Lemma count_if_le {A} (f : A → bool) l : (0 ≤ count_if f l ≤ size_of l)%Z.
Proof.
  unfold count_if, size_of. pose proof (List.filter_length_le f l). lia.
Qed.

Definition sample_ok (x : Z) : Prop := (0 ≤ x ≤ uint64_max)%Z.

(** [lower_bound] on sorted bounds: the first bound that is large enough. *)
Lemma lower_bound_sorted l x i :
  StronglySorted Z.le l → i < length l → (x ≤ nth i l 0)%Z ↔ lower_bound l x ≤ i.
Proof.
  intros Hs. revert i. induction Hs as [|b l Hs IH Hb]; intros i Hi; [simpl in Hi; lia|].
  simpl. simpl in Hi. destruct (Z.ltb_spec b x), i as [|i].
  - lia.
  - rewrite IH by lia. lia.
  - lia.
  - rewrite Forall_forall in Hb. specialize (Hb (nth i l 0%Z)).
    assert (nth i l 0%Z ∈ l) by (apply list_elem_of_In, nth_In; lia). specialize (Hb H0). lia.
Qed.

Lemma bucket_bounds_sorted : StronglySorted Z.le bucket_bounds.
Proof. unfold bucket_bounds, uint64_max. repeat constructor; lia. Qed.

Definition at_most (b : Z) (x : Z) : bool := (x <=? b)%Z.

Lemma lower_bound_le x i :
  i < 14 → at_most (nth i bucket_bounds 0%Z) x = bool_decide (lower_bound bucket_bounds x ≤ i).
Proof.
  intros Hi. pose proof (lower_bound_sorted _ x i bucket_bounds_sorted Hi) as H. unfold at_most.
  apply eq_bool_prop_intro. by rewrite !Is_true_true, Z.leb_le, bool_decide_eq_true.
Qed.

(** [record] finds the bucket of a sample. *)
Lemma lower_bound_bucket x i :
  sample_ok x → i < length bucket_bounds →
  lower_bound bucket_bounds x < length bucket_bounds ∧
  (in_bucket i x = true ↔ lower_bound bucket_bounds x = i).
Proof.
  intros [H0 Hm] Hi. pose proof bucket_bounds_sorted as Hs.
  pose proof (lower_bound_sorted _ x 13 Hs ltac:(simpl; lia)) as H13.
  pose proof (lower_bound_sorted _ x i Hs Hi) as Hbi.
  split; [change (length bucket_bounds) with 14; change (nth 13 bucket_bounds 0%Z) with uint64_max in H13; lia|].
  unfold in_bucket. rewrite andb_true_iff, Z.ltb_lt, Z.leb_le, Hbi. destruct i as [|i]; [lia|].
  pose proof (lower_bound_sorted _ x i Hs ltac:(lia)). lia.
Qed.

Lemma recorded_snoc samples x : recorded (samples ++ [x]) = record x (recorded samples).
Proof. unfold recorded. by rewrite foldl_snoc. Qed.

Lemma recorded_spec samples :
  Forall sample_ok samples → (size_of samples < 2 ^ 64)%Z →
  bounds_ (recorded samples) = bucket_bounds ∧
  total_ (recorded samples) = size_of samples ∧
  counts_ (recorded samples) = (λ i, count_if (in_bucket i) samples) <$> seq 0 14.
Proof.
  induction samples as [|x samples IH] using rev_ind; intros Hs Hsz; [done|].
  apply Forall_app in Hs as [Hs [Hx _]%Forall_cons].
  unfold size_of in Hsz. rewrite length_app in Hsz. simpl in Hsz.
  destruct IH as (Hb & Ht & Hc); [done|unfold size_of; lia|].
  rewrite recorded_snoc. unfold record. rewrite Hb. cbv zeta.
  assert (length (counts_ (recorded samples)) = 14) as Hlen by (by rewrite Hc).
  destruct (lower_bound_bucket x 0 Hx) as [Hlt _]; [simpl; lia|]. change (length bucket_bounds) with 14 in Hlt.
  rewrite decide_False by lia. cbn [bounds_ total_ counts_]. split_and!; [done| |].
  - rewrite Ht. unfold size_of. rewrite length_app. simpl. rewrite u64_small by lia. lia.
  - apply list_eq. intros i. destruct (decide (i < 14)) as [Hi|Hi].
    2: { rewrite lookup_ge_None_2 by (rewrite length_alter; lia).
         symmetry. apply lookup_ge_None_2. rewrite length_fmap, length_seq. lia. }
    rewrite list_lookup_fmap, lookup_seq_lt by lia. cbn [fmap option_fmap option_map].
    destruct (lower_bound_bucket x i Hx) as [_ Hi2]; [done|].
    pose proof (count_if_le (in_bucket i) samples) as Hle. unfold size_of in Hle.
    rewrite count_if_snoc. destruct (decide (lower_bound bucket_bounds x = i)) as [E|E].
    + rewrite E, list_lookup_alter_eq, Hc, list_lookup_fmap, lookup_seq_lt by lia. simpl.
      rewrite (proj2 Hi2 E). rewrite u64_small by lia. done.
    + rewrite list_lookup_alter_ne by done. rewrite Hc, list_lookup_fmap, lookup_seq_lt by lia. simpl.
      destruct (in_bucket i x); [by destruct E; apply Hi2|]. by rewrite Z.add_0_r.
Qed.

(** ** Percentiles *)

(** Samples in the first [i] buckets. *)
Fixpoint sum_upto (i : nat) (cs : list Z) : Z :=
  match i, cs with
  | S i', c :: cs' => (c + sum_upto i' cs')%Z
  | _, _ => 0%Z
  end.

Definition reported_bound (bs : list Z) (i : nat) : Z :=
  let b := nth i bs 0%Z in
  if (b =? uint64_max)%Z then match i with O => 0%Z | S j => nth j bs 0%Z end else b.

(** The scan stops at the first bucket where the cumulated count reaches the
    target. *)
Lemma scan_spec bs cs prev cum target last :
  length bs = length cs → Forall (λ c, (0 ≤ c)%Z) cs → (0 ≤ cum)%Z →
  (cum + sum_upto (length cs) cs < 2 ^ 64)%Z → (target ≤ cum + sum_upto (length cs) cs)%Z →
  cs ≠ [] →
  ∃ i, i < length cs ∧
    (target ≤ cum + sum_upto (S i) cs)%Z ∧ (i = 0 ∨ (cum + sum_upto i cs < target)%Z) ∧
    scan bs cs prev cum target last =
      (if (nth i bs 0%Z =? uint64_max)%Z
       then match i with O => prev | S j => nth j bs 0%Z end else nth i bs 0%Z).
Proof.
  revert cs prev cum. induction bs as [|b bs IH]; intros [|c cs] prev cum Hlen Hpos H0 Hmax Hreach Hcs;
    try done.
  apply Forall_cons in Hpos as [Hc Hpos]. simpl in Hmax, Hreach.
  assert (∀ n l, Forall (λ c, (0 ≤ c)%Z) l → (0 ≤ sum_upto n l)%Z) as Hsum.
  { clear. induction n as [|n IH]; intros [|c l] Hl; simpl; try done.
    apply Forall_cons in Hl as [? ?]. specialize (IH l ltac:(done)). lia. }
  pose proof (Hsum (length cs) cs Hpos). cbn [scan]. rewrite u64_small by lia.
  destruct (Z.leb_spec target (cum + c)) as [Hle|Hlt].
  - exists 0. simpl. split_and!; [lia|destruct cs; lia|by left|done].
  - destruct cs as [|c' cs].
    { simpl in Hreach. lia. }
    destruct (IH (c' :: cs) b (cum + c)%Z) as (i & Hi & H1 & H2 & H3).
    + simpl in *. lia.
    + done.
    + lia.
    + lia.
    + lia.
    + done.
    + exists (S i). cbn [sum_upto length] in *. split_and!; [lia|lia| |].
      * right. destruct H2 as [->|H2]; [simpl; lia|]. destruct i; simpl in *; lia.
      * rewrite H3. cbn [nth]. destruct i; done.
Qed.

Lemma sum_indicator lb i :
  lb < 14 → i < 14 →
  sum_upto (S i) ((λ j, if bool_decide (lb = j) then 1%Z else 0%Z) <$> seq 0 14) =
  if bool_decide (lb ≤ i) then 1%Z else 0%Z.
Proof.
  intros Hl Hi.
  do 14 (destruct lb as [|lb]; [do 14 (destruct i as [|i]; [reflexivity|]); lia|]); lia.
Qed.

Lemma sum_upto_add n (f g : nat → Z) l :
  sum_upto n ((λ j, f j + g j)%Z <$> l) = (sum_upto n (f <$> l) + sum_upto n (g <$> l))%Z.
Proof.
  revert n. induction l as [|x l IH]; intros [|n]; rewrite ?fmap_cons; cbn [sum_upto]; try done.
  rewrite IH. lia.
Qed.

Lemma sum_buckets samples i :
  Forall sample_ok samples → i < 14 →
  sum_upto (S i) ((λ j, count_if (in_bucket j) samples) <$> seq 0 14) =
  count_if (at_most (nth i bucket_bounds 0%Z)) samples.
Proof.
  intros Hs Hi. induction samples as [|x samples IH] using rev_ind.
  - do 14 (destruct i as [|i]; [reflexivity|]). lia.
  - apply Forall_app in Hs as [Hs [Hx _]%Forall_cons]. rewrite count_if_snoc, <- IH by done.
    rewrite lower_bound_le, <- sum_indicator by
      (done || apply (lower_bound_bucket x 0 Hx); simpl; lia).
    rewrite <- sum_upto_add. f_equal. apply list_fmap_ext. intros k j Hj.
    apply lookup_seq in Hj as [-> Hj]. rewrite count_if_snoc. f_equal.
    destruct (lower_bound_bucket x (0 + k) Hx) as [_ Hb]; [simpl in *; lia|].
    destruct (bool_decide_reflect (lower_bound bucket_bounds x = 0 + k)) as [E|E].
    + by rewrite (proj2 Hb E).
    + destruct (in_bucket (0 + k) x); [by destruct E; apply Hb|done].
Qed.

Lemma sum_upto_13 samples :
  Forall sample_ok samples →
  sum_upto 14 ((λ j, count_if (in_bucket j) samples) <$> seq 0 14) = size_of samples.
Proof.
  intros Hs. rewrite (sum_buckets samples 13) by (done || lia). unfold count_if. f_equal.
  rewrite Forall_forall in Hs. clear -Hs. induction samples as [|x l IH]; simpl; [done|].
  assert (at_most uint64_max x = true) as ->.
  { apply Z.leb_le. by destruct (Hs x (list_elem_of_here _ _)). }
  f_equal. apply IH. intros y Hy. by apply Hs, list_elem_of_further.
Qed.

(** ** Theorems *)

(** The histogram counts every sample in its own bucket.  After any
    sequence of fewer than 2^64 recorded latencies, each bucket's counter is
    the number of latencies above the previous bound and up to its own, and
    the total is the number of latencies. *)
Theorem histogram_counts samples i :
  Forall sample_ok samples → (size_of samples < 2 ^ 64)%Z → i < 14 →
  counts_ (recorded samples) !! i = Some (count_if (in_bucket i) samples) ∧
  total_ (recorded samples) = size_of samples.
Proof.
  intros Hs Hsz Hi. destruct (recorded_spec samples Hs Hsz) as (_ & Ht & Hc). split; [|done].
  by rewrite Hc, list_lookup_fmap, lookup_seq_lt.
Qed.

Lemma histogram_counts_witness :
  counts_ (recorded [100; 101; 250; 999999999]%Z) !! 1 = Some 2%Z ∧
  total_ (recorded [100; 101; 250; 999999999]%Z) = 4%Z.
Proof.
  apply (histogram_counts [100; 101; 250; 999999999]%Z 1).
  - repeat constructor; unfold uint64_max; lia.
  - unfold size_of. simpl. lia.
  - lia.
Defined.

(** What a reported percentile means.  For [0 <= p <= 1] and up to 2^53
    samples, the answer is the bound of some bucket [i] such that at least
    [target] samples are no larger than that bucket's bound and, unless it is
    the first bucket, fewer than [target] samples are within the previous
    bound, where [target] is [p] times the number of samples, truncated (the
    unbounded last bucket reports the last finite bound).  It holds for every
    rounding of the product. *)
Theorem percentile_spec rnd `{!Rounding rnd} p samples :
  (0 <= p)%Q → (p <= 1)%Q → samples ≠ [] → Forall sample_ok samples → (size_of samples ≤ 2 ^ 53)%Z →
  let target := trunc (rnd (p * rnd (inject_Z (size_of samples)))%Q) in
  (0 ≤ target ≤ size_of samples)%Z ∧
  ∃ i, i < 14 ∧ percentile rnd p (recorded samples) = reported_bound bucket_bounds i ∧
    (target ≤ count_if (at_most (nth i bucket_bounds 0)) samples)%Z ∧
    (i = 0 ∨ (count_if (at_most (nth (i - 1) bucket_bounds 0)) samples < target)%Z).
Proof.
  intros Hp0 Hp1 Hne Hs Hsz target.
  destruct (recorded_spec samples Hs ltac:(lia)) as (Hb & Ht & Hc).
  assert (0 < size_of samples)%Z as Hpos by (unfold size_of; destruct samples; [done|simpl; lia]).
  assert (0 ≤ target ≤ size_of samples)%Z as Htgt.
  { assert (rnd (inject_Z (size_of samples)) == inject_Z (size_of samples))%Q as E
      by (apply rnd_int; lia).
    assert (0 <= inject_Z (size_of samples))%Q as Hn.
    { change 0%Q with (inject_Z 0). rewrite <- Zle_Qle. lia. }
    unfold target. apply trunc_nonneg_le.
    - apply rnd_nonneg; [done|]. rewrite E. by apply Qmult_le_0_compat.
    - apply rnd_le_int; [done|lia|]. rewrite E.
      rewrite <- (Qmult_1_l (inject_Z (size_of samples))) at 2.
      by apply Qmult_le_compat_r. }
  split; [done|]. unfold percentile. rewrite Ht, Hb, Hc.
  destruct (Z.eqb_spec (size_of samples) 0); [lia|]. fold target.
  destruct (scan_spec bucket_bounds ((λ j, count_if (in_bucket j) samples) <$> seq 0 14) 0 0 target
              (List.last bucket_bounds 0%Z)) as (i & Hi & H1 & H2 & H3).
  - done.
  - apply Forall_fmap, Forall_true. intros j. apply count_if_le.
  - lia.
  - change (length _) with 14. rewrite sum_upto_13 by done. lia.
  - change (length _) with 14. rewrite sum_upto_13 by done. lia.
  - done.
  - change (length _) with 14 in Hi. exists i. rewrite H3. split_and!; [done| | |].
    + unfold reported_bound. by destruct i.
    + rewrite sum_buckets in H1 by done. lia.
    + destruct i as [|i]; [by left|right]. destruct H2 as [?|H2]; [done|].
      rewrite sum_buckets in H2 by (done || lia). simpl Nat.sub. rewrite Nat.sub_0_r. lia.
Qed.

Lemma percentile_spec_witness :
  let samples := [80; 120; 240; 90000]%Z in
  let target := trunc (rnd64 ((1 # 2) * rnd64 (inject_Z (size_of samples)))%Q) in
  (0 ≤ target ≤ size_of samples)%Z ∧
  ∃ i, i < 14 ∧ percentile rnd64 (1 # 2) (recorded samples) = reported_bound bucket_bounds i ∧
    (target ≤ count_if (at_most (nth i bucket_bounds 0)) samples)%Z ∧
    (i = 0 ∨ (count_if (at_most (nth (i - 1) bucket_bounds 0)) samples < target)%Z).
Proof.
  intros samples. apply (percentile_spec rnd64 (1 # 2) samples).
  - done.
  - done.
  - done.
  - repeat constructor; unfold uint64_max; lia.
  - unfold size_of. simpl. lia.
Defined.

(** A percentile of few samples is that of no sample.  The target is
    truncated to an integer, so after one request of two seconds the reported
    p50, p95 and p99 are the first bucket's bound, 100 microseconds. *)
Theorem percentile_truncates :
  let h := recorded [2000000]%Z in
  p50 rnd64 h = 100%Z ∧ p95 rnd64 h = 100%Z ∧ p99 rnd64 h = 100%Z.
Proof. vm_compute. done. Qed.
