(* ===== verification/Observability.v ===== *)
(** * Logging and request identifiers
      (include/observability/Logger.hpp, include/observability/RequestId.hpp)

    A log call yields the line it writes, or nothing below the minimum level;
    the broken-down time is an argument.  The identifier generator is a
    counter shared by all threads; the random suffix is an argument. *)
From S2P Require Import Prelude CxxString HttpMessage.

(** ** Logger *)

Inductive Level := DEBUG | INFO | WARN | ERROR.

Definition level_num (l : Level) : nat :=
  match l with DEBUG => 0 | INFO => 1 | WARN => 2 | ERROR => 3 end.

Definition levelName (l : Level) : bytes :=
  match l with
  | DEBUG => str "DEBUG" | INFO => str "INFO" | WARN => str "WARN" | ERROR => str "ERROR"
  end.

(** [std::tm], the members that are printed. *)
Record tm := mkTm {
  tm_year : Z; tm_mon : Z; tm_mday : Z; tm_hour : Z; tm_min : Z; tm_sec : Z
}.

(** [%0wd]. *)
Definition zero_pad (w : nat) (n : Z) : bytes :=
  let digits := to_string (Z.abs n) in
  let sign := if (n <? 0)%Z then str "-" else [] in
  sign ++ replicate (w - length sign - length digits) "0"%char ++ digits.

(** [snprintf] into 64 bytes keeps 63 characters. *)
Definition isoTime (t : tm) (ms : Z) : bytes :=
  take 63 (zero_pad 4 (tm_year t + 1900) ++ str "-" ++ zero_pad 2 (tm_mon t + 1) ++ str "-" ++
           zero_pad 2 (tm_mday t) ++ str "T" ++ zero_pad 2 (tm_hour t) ++ str ":" ++
           zero_pad 2 (tm_min t) ++ str ":" ++ zero_pad 2 (tm_sec t) ++ str "." ++
           zero_pad 3 ms ++ str "Z").

Fixpoint escape (s : bytes) : bytes :=
  match s with
  | [] => []
  | c :: s' => (if bool_decide (c = DQ) || bool_decide (c = BSL) then [BSL; c] else [c]) ++ escape s'
  end.

(** A quoted string. *)
Definition quoted (s : bytes) : bytes := DQ :: s ++ [DQ].

Definition log (minLevel : Level) (t : tm) (ms : Z) (lvl : Level) (msg fields : bytes) : option bytes :=
  if decide (level_num lvl < level_num minLevel) then None
  else Some (
    str "{" ++ quoted (str "ts") ++ str ":" ++ quoted (isoTime t ms) ++ str "," ++
    quoted (str "level") ++ str ":" ++ quoted (levelName lvl) ++ str "," ++
    quoted (str "msg") ++ str ":" ++ quoted (escape msg) ++
    (if decide (fields = []) then [] else str "," ++ fields) ++ str "}").

(** The logger: the threshold and what it has written. *)
Record Logger := mkLogger { minLevel_ : Level; written : bytes }.

Definition newLogger : Logger := mkLogger INFO [].

Definition setLevel (lvl : Level) (l : Logger) : Logger := mkLogger lvl (written l).

(** One line under the mutex, ended by [std::endl]. *)
Definition logger_log (t : tm) (ms : Z) (lvl : Level) (msg fields : bytes) (l : Logger) : Logger :=
  match log (minLevel_ l) t ms lvl msg fields with
  | None => l
  | Some line => mkLogger (minLevel_ l) (written l ++ line ++ [LF])
  end.

Definition log_debug (t : tm) (ms : Z) := logger_log t ms DEBUG.
Definition log_info (t : tm) (ms : Z) := logger_log t ms INFO.
Definition log_warn (t : tm) (ms : Z) := logger_log t ms WARN.
Definition log_error (t : tm) (ms : Z) := logger_log t ms ERROR.

(** The fields of the "request received" line (src/core/Gateway.cpp). *)
Definition request_fields (req : HttpRequest) (clientIp : bytes) : bytes :=
  quoted (str "request_id") ++ str ":" ++ quoted (rq_requestId req) ++ str "," ++
  quoted (str "method") ++ str ":" ++ quoted (rq_method req) ++ str "," ++
  quoted (str "path") ++ str ":" ++ quoted (rq_path req) ++ str "," ++
  quoted (str "client_ip") ++ str ":" ++ quoted clientIp.

(** ** Request identifiers *)

Definition hex_char (d : Z) : ascii := if (d <? 10)%Z then digit_char d else ascii_of_N (Z.to_N (d + 87)).

Fixpoint hex_digits (fuel : nat) (n : Z) (acc : bytes) : bytes :=
  match fuel with
  | O => acc
  | S f =>
      if (n <? 16)%Z then hex_char n :: acc
      else hex_digits f (n / 16) (hex_char (n mod 16) :: acc)
  end.

(** [oss << std::hex << n]. *)
Definition to_hex (n : Z) : bytes := hex_digits (S (Z.to_nat (Z.log2 n))) n [].

(** [RequestIdGenerator::next]: the identifier and the counter after. *)
Definition next_id (suffix : Z) (counter : Z) : bytes * Z :=
  (str "req-" ++ to_hex counter ++ str "-" ++ to_hex suffix, (counter +u 1)%Z).

(** Identifiers of a run of calls, by any threads: the calls in the order of
    their [fetch_add]. *)
Fixpoint ids (suffixes : list Z) (counter : Z) : list bytes :=
  match suffixes with
  | [] => []
  | s :: ss => let '(id, c) := next_id s counter in id :: ids ss c
  end.

(** ** Reading a log line back *)

(** The contents of a JSON string up to its closing quote, and the rest. *)
Fixpoint read_string (s : bytes) : option (bytes * bytes) :=
  match s with
  | [] => None
  | c :: s' =>
      if bool_decide (c = DQ) then Some ([], s')
      else if bool_decide (c = BSL) then
        match s' with
        | [] => None
        | d :: s'' => prod_map (cons d) id <$> read_string s''
        end
      else prod_map (cons c) id <$> read_string s'
  end.

Lemma read_escape s rest : read_string (escape s ++ DQ :: rest) = Some (s, rest).
Proof.
  induction s as [|c s IH]; simpl; [done|].
  destruct (bool_decide_reflect (c = DQ)) as [->|H1]; simpl; [by rewrite IH|].
  destruct (bool_decide_reflect (c = BSL)) as [->|H2]; simpl; [by rewrite IH|].
  rewrite bool_decide_false, bool_decide_false by done. by rewrite IH.
Qed.

(** A logged message reads back.  Whatever the message holds, the quoted
    value the logger writes for it is closed exactly where the message ends
    and reads back as the message, so a message cannot close its field or
    forge another. *)
Theorem log_message_reads_back msg rest : read_string (escape msg ++ DQ :: rest) = Some (msg, rest).
Proof. apply read_escape. Qed.

(** Characters of a line. *)
Lemma no_LF_escape s : LF ∉ s → LF ∉ escape s.
Proof.
  induction s as [|c s IH]; cbn [escape]; [done|]. rewrite not_elem_of_cons. intros [Hc Hs].
  apply not_elem_of_app. split; [|by apply IH].
  destruct (_ || _); rewrite ?not_elem_of_cons; by repeat split; [..|apply not_elem_of_nil].
Qed.

Lemma no_LF_zero_pad w n : LF ∉ zero_pad w n.
Proof.
  unfold zero_pad. rewrite !not_elem_of_app. split_and!.
  - destruct (n <? 0)%Z; by_decide.
  - intros [H _]%elem_of_replicate. done.
  - intros H. apply to_string_digits in H; [|lia]. done.
Qed.

Lemma no_LF_time t ms : LF ∉ isoTime t ms.
Proof.
  unfold isoTime. intros H. apply subseteq_take in H. contradict H.
  rewrite !not_elem_of_app. split_and!; try apply no_LF_zero_pad; by_decide.
Qed.

(** One event, one line.  An event below the threshold writes nothing; any
    other whose message and fields hold no line break writes exactly one
    line, after what was written before, so the lines of many threads never
    mix. *)
Theorem log_writes_one_line t ms lvl msg fields l :
  LF ∉ msg → LF ∉ fields →
  (level_num lvl < level_num (minLevel_ l) → logger_log t ms lvl msg fields l = l) ∧
  (level_num (minLevel_ l) ≤ level_num lvl →
     ∃ line, written (logger_log t ms lvl msg fields l) = written l ++ line ++ [LF] ∧ LF ∉ line).
Proof.
  intros Hm Hf. unfold logger_log, log. split; intros Hl; [by rewrite decide_True|]. rewrite decide_False by lia. eexists. split; [reflexivity|].
  unfold quoted. rewrite !not_elem_of_app, !not_elem_of_cons, !not_elem_of_app.
  split_and!; try apply no_LF_time; try (by apply no_LF_escape); try by_decide.
  - by destruct lvl; by_decide.
  - case_decide; [by_decide|]. rewrite not_elem_of_app. by split; [by_decide|].
Qed.

Lemma log_writes_one_line_witness :
  ∃ line, written (log_warn (mkTm 126 0 2 3 4 5) 7 (str "retrying") (str "x") newLogger) = [] ++ line ++ [LF] ∧ LF ∉ line.
Proof.
  refine (proj2 (log_writes_one_line (mkTm 126 0 2 3 4 5) 7 WARN (str "retrying") (str "x") newLogger _ _) _); [by_decide|by_decide|cbn; lia].
Defined.

(** The path field does not.  The fields of the "request received" line
    are not escaped: a request for a path with a quote (which the parser
    accepts) logs a path field that reads back as a shorter path, followed by
    text of the client's choice. *)
Theorem log_path_not_escaped :
  let path := str "/a" ++ [DQ] ++ str ",x" in
  let req := mkHttpRequest (str "GET") path [] (str "HTTP/1.1") ∅ [] true (str "req-0-1") in
  let before := quoted (str "request_id") ++ str ":" ++ quoted (str "req-0-1") ++ str "," ++
    quoted (str "method") ++ str ":" ++ quoted (str "GET") ++ str "," ++
    quoted (str "path") ++ str ":" ++ [DQ] in
  is_prefix before (request_fields req (str "10.0.0.9")) = true ∧
  fst <$> read_string (drop (length before) (request_fields req (str "10.0.0.9"))) = Some (str "/a") ∧
  rq_path req ≠ str "/a".
Proof. vm_compute. split_and!; [done|done|congruence]. Qed.

(** ** Uniqueness of identifiers *)

Definition hex_value (c : ascii) : Z :=
  let n := Z.of_N (N_of_ascii c) in if (n <? 58)%Z then (n - 48)%Z else (n - 87)%Z.

Definition hex_fold (ds : bytes) : Z := fold_left (λ acc c, acc * 16 + hex_value c)%Z ds 0%Z.

Lemma hex_char_ok d : (0 ≤ d < 16)%Z → hex_value (hex_char d) = d ∧ hex_char d ≠ "-"%char.
Proof.
  intros H.
  assert (d = 0 ∨ d = 1 ∨ d = 2 ∨ d = 3 ∨ d = 4 ∨ d = 5 ∨ d = 6 ∨ d = 7 ∨ d = 8 ∨ d = 9 ∨
          d = 10 ∨ d = 11 ∨ d = 12 ∨ d = 13 ∨ d = 14 ∨ d = 15)%Z as Hd by lia.
  by repeat destruct Hd as [->|Hd]; [..|subst d].
Qed.

Lemma hex_digits_spec fuel n acc :
  (0 ≤ n < 2 ^ Z.of_nat fuel)%Z → (0 < fuel) →
  ∃ ds, hex_digits fuel n acc = ds ++ acc ∧ Forall (λ c, c ≠ "-"%char) ds ∧ hex_fold ds = n.
Proof.
  revert n acc. induction fuel as [|f IH]; intros n acc Hn Hf; [lia|]. cbn [hex_digits].
  destruct (Z.ltb_spec n 16).
  - destruct (hex_char_ok n) as [Hv Hd]; [lia|]. exists [hex_char n].
    split_and!; [done|by constructor|]. unfold hex_fold. simpl. lia.
  - rewrite Nat2Z.inj_succ, Z.pow_succ_r in Hn by lia.
    assert (0 < f)%nat by (destruct f; [simpl in Hn|]; lia).
    destruct (IH (n / 16)%Z (hex_char (n mod 16) :: acc)) as (ds & -> & Hd & Hv); [|done|].
    { split; [apply Z.div_pos; lia|]. apply Z.div_lt_upper_bound; lia. }
    pose proof (Z.mod_pos_bound n 16 ltac:(lia)).
    destruct (hex_char_ok (n mod 16)) as [Hv' Hd']; [done|].
    exists (ds ++ [hex_char (n mod 16)]). split_and!.
    + by rewrite <- app_assoc.
    + apply Forall_app. split; [done|by constructor].
    + unfold hex_fold in *. rewrite fold_left_app, Hv. cbn [fold_left].
      rewrite Hv'. pose proof (Z.div_mod n 16 ltac:(lia)). lia.
Qed.

Lemma to_hex_spec n : (0 ≤ n)%Z → Forall (λ c, c ≠ "-"%char) (to_hex n) ∧ hex_fold (to_hex n) = n.
Proof.
  intros Hn. unfold to_hex.
  destruct (hex_digits_spec (S (Z.to_nat (Z.log2 n))) n []) as (ds & -> & Hd & Hv).
  - rewrite Nat2Z.inj_succ, Z2Nat.id by apply Z.log2_nonneg.
    destruct (decide (n = 0)%Z) as [->|]; [done|]. split; [lia|]. apply Z.log2_spec. lia.
  - lia.
  - by rewrite app_nil_r.
Qed.

Lemma next_id_inj s1 c1 s2 c2 :
  (0 ≤ c1)%Z → (0 ≤ c2)%Z → (next_id s1 c1).1 = (next_id s2 c2).1 → c1 = c2.
Proof.
  intros H1 H2 E. simpl in E.
  destruct (to_hex_spec c1 H1) as [D1 V1], (to_hex_spec c2 H2) as [D2 V2].
  assert (find_char "-"%char (to_hex c1 ++ "-"%char :: to_hex s1) = Some (length (to_hex c1))) as F1.
  { apply find_if_hit; [|done]. eapply Forall_impl; [exact D1|]. intros c Hc. by apply eqc_false. }
  assert (find_char "-"%char (to_hex c2 ++ "-"%char :: to_hex s2) = Some (length (to_hex c2))) as F2.
  { apply find_if_hit; [|done]. eapply Forall_impl; [exact D2|]. intros c Hc. by apply eqc_false. }
  injection E as E. rewrite E, F2 in F1. injection F1 as F1.
  apply (f_equal (take (length (to_hex c1)))) in E. rewrite take_app_length in E.
  rewrite <- F1, take_app_length in E. congruence.
Qed.

Lemma ids_lookup suffixes counter i id :
  (0 ≤ counter)%Z → (counter + size_of suffixes ≤ 2 ^ 64)%Z →
  ids suffixes counter !! i = Some id → ∃ s, id = (next_id s (counter + Z.of_nat i)).1.
Proof.
  revert counter i. induction suffixes as [|s ss IH]; intros c [|i] H0 Hmax; simpl; try done.
  - intros [= <-]. exists s. by rewrite Z.add_0_r.
  - unfold size_of in Hmax. rewrite length_cons in Hmax. intros H.
    destruct ss as [|s' ss]; [done|]. rewrite length_cons in Hmax.
    rewrite u64_small in H by lia. apply IH in H as [s0 ->].
    + exists s0. simpl. by replace (c + 1 + Z.of_nat i)%Z with (c + Z.of_nat (S i))%Z by lia.
    + lia.
    + unfold size_of. rewrite length_cons. lia.
Qed.

(** Request identifiers are unique.  Among up to 2^64 calls from a fresh
    process, by any threads in any order and whatever the random suffixes, no
    identifier repeats. *)
Theorem request_ids_unique suffixes :
  (size_of suffixes ≤ 2 ^ 64)%Z → NoDup (ids suffixes 0).
Proof.
  intros Hsz. apply NoDup_alt. intros i j id Hi Hj.
  apply ids_lookup in Hi as [s1 H1]; [|lia..]. apply ids_lookup in Hj as [s2 H2]; [|lia..].
  rewrite H1 in H2. apply next_id_inj in H2; lia.
Qed.

Lemma request_ids_unique_witness :
  ids [255; 0; 255]%Z 0 = [str "req-0-ff"; str "req-1-0"; str "req-2-ff"] ∧ NoDup (ids [255; 0; 255]%Z 0).
Proof.
  split; [vm_compute; reflexivity|]. apply (request_ids_unique [255; 0; 255]%Z).
  unfold size_of. simpl. lia.
Defined.
