(* ===== verification/BackendIO.v ===== *)
(** * Talking to a backend (src/core/Gateway.cpp, lines 342-458)

    [buildBackendRequest] iterates over an [unordered_map], whose order is
    unspecified: the iteration is an argument with the one guarantee that it
    visits each entry once.  [sendAndReceive] is driven by what [poll],
    [send], [recv] and the clock answer: lists of events, one per loop
    iteration.  Running out of events before the function returns is
    [Blocked]; every event list in which the deadline passes makes it
    return. *)
From S2P Require Import Prelude CxxString HttpMessage HttpParser HttpParserResume HttpParserSafety HttpParserRoundTrip.

(** ** The request sent upstream *)

Class MapIteration (iterate : gmap bytes bytes → header_list) : Prop :=
  iterate_visits m : iterate m ≡ₚ map_to_list m.

#[export] Instance map_to_list_iteration : MapIteration map_to_list.
Proof. intros m. done. Qed.

Definition hop_by_hop (k : bytes) : bool :=
  bool_decide (k = str "connection") || bool_decide (k = str "host") ||
  bool_decide (k = str "keep-alive") || bool_decide (k = str "proxy-connection") ||
  bool_decide (k = str "te") || bool_decide (k = str "trailer") ||
  bool_decide (k = str "transfer-encoding") || bool_decide (k = str "upgrade") ||
  bool_decide (k = str "content-length").

Section build.
Context (iterate : gmap bytes bytes → header_list).

Definition buildBackendRequest (req : HttpRequest) (host : bytes) : bytes :=
  rq_method req ++ str " " ++ rq_path req ++
    (if decide (rq_query req = []) then [] else str "?" ++ rq_query req) ++ str " HTTP/1.1" ++ crlf ++
  str "Host: " ++ host ++ crlf ++
  concat (header_line <$> filter (λ h, hop_by_hop h.1 = false) (iterate (rq_headers req))) ++
  str "X-Request-Id: " ++ rq_requestId req ++ crlf ++
  str "X-Forwarded-For: " ++ str "gateway" ++ crlf ++
  str "Connection: keep-alive" ++ crlf ++
  (if decide (rq_body req = []) then []
   else str "Content-Length: " ++ to_string (size_of (rq_body req)) ++ crlf) ++
  crlf ++ rq_body req.
End build.

(** ** The response read back *)

Definition isConnectionClose (value : bytes) : bool := contains (str "close") (to_lower value).

(** What the header lines have told so far. *)
Record reply_head := mkReplyHead {
  contentLength : Z;
  gotContentLength : bool;
  reusable : bool;
  reply_headers : header_list
}.

Definition dropped_reply_header (k : bytes) : bool :=
  bool_decide (k = str "keep-alive") || bool_decide (k = str "proxy-connection") ||
  bool_decide (k = str "upgrade").

(** Lines 417-436: one header line; [None] is [return false]. *)
Definition read_reply_line (maxBodyBytes : Z) (line : bytes) (hd : reply_head) : option reply_head :=
  match find_char ":"%char line with
  | None => None
  | Some colon =>
      let k := to_lower (substr line 0 colon) in
      let value := drop_while isspace (drop (colon + 1) line) in
      if decide (k = str "content-length") then
        if gotContentLength hd then None
        else
          match parse_size value with
          | None => None
          | Some n =>
              if (maxBodyBytes <? n)%Z then None
              else Some (mkReplyHead n true (reusable hd) (reply_headers hd))
          end
      else if decide (k = str "transfer-encoding") then None
      else if decide (k = str "connection") then
        Some (mkReplyHead (contentLength hd) (gotContentLength hd) (negb (isConnectionClose value))
                (reply_headers hd))
      else if dropped_reply_header k then Some hd
      else Some (mkReplyHead (contentLength hd) (gotContentLength hd) (reusable hd)
                   (reply_headers hd ++ [(k, value)]))
  end.

(** Lines 413-438: the lines up to [headerEnd]; the fuel bounds the number of
    lines. *)
Fixpoint read_reply_lines (maxBodyBytes : Z) (fuel : nat) (raw : bytes) (headerEnd lineStart : nat)
    (hd : reply_head) : option reply_head :=
  match fuel with
  | O => None
  | S fuel' =>
      if decide (lineStart < headerEnd) then
        match find_from crlf raw lineStart with
        | None => None
        | Some lineEnd =>
            if decide (headerEnd < lineEnd) then None
            else
              hd' ← read_reply_line maxBodyBytes (substr raw lineStart (lineEnd - lineStart)) hd;
              read_reply_lines maxBodyBytes fuel' raw headerEnd (lineEnd + 2) hd'
        end
      else Some hd
  end.

Definition noReplyHead : reply_head := mkReplyHead 0 false false [].

(** Lines 412-439: the whole header block, once its end has been received. *)
Definition read_reply_head (maxBodyBytes : Z) (raw : bytes) (headerEnd : nat) : option reply_head :=
  match find crlf raw with
  | None => None
  | Some eol =>
      hd ← read_reply_lines maxBodyBytes (S (length raw)) raw headerEnd (eol + 2) noReplyHead;
      if gotContentLength hd then Some hd else None
  end.

(** Local variables of the receive loop. *)
Record rx_state := mkRx { raw : bytes; headerEnd : option (nat * reply_head) }.

Inductive rx_outcome := RxFail | RxMore (s : rx_state) | RxDone (s : rx_state).

(** Lines 442-445: enough of the body? *)
Definition rx_body (r : bytes) (end_ : nat) (hd : reply_head) : rx_outcome :=
  let bodyBytes := (size_of r -u Z.of_nat (end_ + 4))%Z in
  if (contentLength hd <=? bodyBytes)%Z then RxDone (mkRx r (Some (end_, hd)))
  else RxMore (mkRx r (Some (end_, hd))).

(** Lines 406-445: what one [recv] of [data] does. *)
Definition rx_data (maxBodyBytes : Z) (data : bytes) (s : rx_state) : rx_outcome :=
  let r := raw s ++ data in
  match headerEnd s with
  | Some (end_, hd) => rx_body r end_ hd
  | None =>
      if (32768 <? size_of r)%Z then RxFail
      else
        match find (crlf ++ crlf) r with
        | None => RxMore (mkRx r None)
        | Some end_ =>
            match read_reply_head maxBodyBytes r end_ with
            | None => RxFail
            | Some hd => rx_body r end_ hd
            end
        end
  end.

(** One iteration of the receive loop: milliseconds left, what [poll]
    answers, and what [recv] answers ([None]: end of stream or error). *)
Record recv_event := mkRecv { remainingMs : Z; recv_ready : Z; received : option bytes }.

Inductive io_result (A : Type) := Blocked | Returned (r : option A).
Arguments Blocked {A}.
Arguments Returned {A} r.

Fixpoint rx_loop (maxBodyBytes : Z) (evs : list recv_event) (s : rx_state) : io_result rx_state :=
  match evs with
  | [] => Blocked
  | ev :: evs' =>
      if (remainingMs ev <=? 0)%Z then Returned None
      else if (recv_ready ev <=? 0)%Z then Returned None
      else
        match received ev with
        | None | Some [] => Returned None
        | Some data =>
            match rx_data maxBodyBytes data s with
            | RxFail => Returned None
            | RxDone s' => Returned (Some s')
            | RxMore s' => rx_loop maxBodyBytes evs' s'
            end
        end
  end.

(** Lines 448-457: the response read off the received bytes. *)
Definition read_reply (s : rx_state) : option (HttpResponse * bool) :=
  match headerEnd s with
  | None => None
  | Some (end_, hd) =>
      match find_char SP (raw s) with
      | None => None
      | Some firstSpace =>
          match find_char SP (drop (firstSpace + 1) (raw s)) with
          | None => None
          | Some i =>
              let secondSpace := firstSpace + 1 + i in
              let lineEnd := npos_of (find crlf (raw s)) in
              Some
                (mkHttpResponse
                   (atoi (substr (raw s) (firstSpace + 1) (secondSpace - firstSpace - 1)))
                   (substrZ (raw s) (secondSpace + 1) (u64 (lineEnd - Z.of_nat secondSpace - 1)))
                   (reply_headers hd)
                   (substrZ (raw s) (end_ + 4) (contentLength hd)),
                 reusable hd)
          end
      end
  end.

(** One iteration of the send loop. *)
Inductive send_answer := Sent (n : Z) | SendAgain | SendError.
Record send_event := mkSend { send_ready : Z; sent_n : send_answer }.

(** Lines 377-388: [sent] bytes of [len] are out; [Returned None] is
    [return false]. *)
Fixpoint tx_loop (len : Z) (evs : list send_event) (sent : Z) : io_result unit :=
  if (len <=? sent)%Z then Returned (Some tt)
  else
    match evs with
    | [] => Blocked
    | ev :: evs' =>
        if (send_ready ev <=? 0)%Z then Returned None
        else
          match sent_n ev with
          | Sent n => if (n <=? 0)%Z then Returned None else tx_loop len evs' (sent +u n)%Z
          | SendAgain => tx_loop len evs' sent
          | SendError => Returned None
          end
    end.

Definition sendAndReceive (request : bytes) (maxBodyBytes : Z)
    (sends : list send_event) (recvs : list recv_event) : io_result (HttpResponse * bool) :=
  match tx_loop (size_of request) sends 0 with
  | Blocked => Blocked
  | Returned None => Returned None
  | Returned (Some _) =>
      match rx_loop maxBodyBytes recvs (mkRx [] None) with
      | Blocked => Blocked
      | Returned None => Returned None
      | Returned (Some s) => Returned (read_reply s)
      end
  end.
