(* ===== verification/BackendRequest.v ===== *)
(** * What the gateway sends upstream

    The bytes [buildBackendRequest] writes for a parsed request are one
    well-formed request: a strict reader (the gateway's own parser) gets the
    client's method, target and body back, the client's end-to-end headers,
    and the gateway's own; nothing of the client's input is left over to be
    read as another request. *)
From S2P Require Import Prelude CxxString HttpMessage HttpParser HttpParserResume HttpParserSafety HttpParserRoundTrip BackendIO.

Section build.
Context (iterate : gmap bytes bytes → header_list) `{!MapIteration iterate}.

(** The client's headers that are passed on. *)
Definition end_to_end (req : HttpRequest) : header_fields :=
  filter (λ h, hop_by_hop h.1 = false) (iterate (rq_headers req)).

Definition length_field (body : bytes) : header_fields :=
  if decide (body = []) then [] else [(str "Content-Length", to_string (size_of body))].

Definition gateway_fields (req : HttpRequest) : header_fields :=
  [(str "X-Request-Id", rq_requestId req); (str "X-Forwarded-For", str "gateway");
   (str "Connection", str "keep-alive")] ++ length_field (rq_body req).

Definition upstream_fields (req : HttpRequest) (host : bytes) : header_fields :=
  [(str "Host", host)] ++ end_to_end req ++ gateway_fields req.

Lemma header_line_print hs : concat (header_line <$> hs) = print_headers hs.
Proof.
  unfold print_headers. f_equal. apply list_fmap_ext. intros _ [k v] _.
  unfold header_line, print_header. simpl. by rewrite <- app_assoc.
Qed.

Lemma print_headers_app a b : print_headers (a ++ b) = print_headers a ++ print_headers b.
Proof. unfold print_headers. by rewrite fmap_app, concat_app. Qed.

Lemma print_headers_cons k v hs :
  print_headers ((k, v) :: hs) = (k ++ str ": ") ++ v ++ crlf ++ print_headers hs.
Proof.
  change (print_headers ((k, v) :: hs)) with ((print_header (k, v) ++ crlf) ++ print_headers hs).
  unfold print_header. cbn [fst snd]. by rewrite <- !app_assoc.
Qed.

(** The wire format is that of the reference printer. *)
Lemma buildBackendRequest_print req host :
  buildBackendRequest iterate req host =
  print_request (rq_method req) (rq_path req) (rq_query req) (str "HTTP/1.1")
    (upstream_fields req host) (rq_body req).
Proof.
  unfold buildBackendRequest, print_request, upstream_fields, gateway_fields.
  rewrite !print_headers_app, header_line_print. fold (end_to_end req).
  rewrite !print_headers_cons. unfold print_line, print_target, length_field.
  change (print_headers []) with (@nil ascii).
  destruct (decide (rq_query req = [])), (decide (rq_body req = []));
    rewrite ?print_headers_cons; change (print_headers []) with (@nil ascii);
    rewrite ?app_nil_r; do 3 (rewrite <- ?app_assoc; simpl); reflexivity.
Qed.

(** ** Header maps *)

Lemma fold_headers_app a b : fold_headers (a ++ b) =
  foldl (λ m h, <[to_lower h.1 := h.2]> m) (fold_headers a) b.
Proof. apply foldl_app. Qed.

Lemma foldl_headers_lookup (m : gmap bytes bytes) (hs : header_fields) k :
  k ∉ field_names hs → foldl (λ m h, <[to_lower h.1 := h.2]> m) m hs !! k = m !! k.
Proof.
  revert m. induction hs as [|h hs IH]; intros m Hk; [done|].
  apply not_elem_of_cons in Hk as [Hne Hk]. simpl. rewrite IH by done. by apply lookup_insert_ne.
Qed.

Lemma fold_headers_not_in hs k : k ∉ field_names hs → fold_headers hs !! k = None.
Proof. intros H. unfold fold_headers. by rewrite foldl_headers_lookup. Qed.

Lemma end_to_end_elem req k v :
  (k, v) ∈ end_to_end req ↔ rq_headers req !! k = Some v ∧ hop_by_hop k = false.
Proof.
  unfold end_to_end. rewrite list_elem_of_filter, iterate_visits, elem_of_map_to_list. simpl. tauto.
Qed.

Lemma end_to_end_nodup req : NoDup (end_to_end req).*1.
Proof.
  unfold end_to_end. apply (sublist_NoDup _ (iterate (rq_headers req)).*1).
  - rewrite iterate_visits. apply NoDup_fst_map_to_list.
  - apply fmap_sublist, sublist_filter.
Qed.

Lemma end_to_end_lower req :
  request_wf req → Forall (λ h, to_lower h.1 = h.1) (end_to_end req).
Proof.
  intros Hwf. apply Forall_forall. intros [k v] [Hk _]%end_to_end_elem.
  by destruct (wf_headers req Hwf k v Hk) as (_ & ? & _).
Qed.

Lemma field_names_end_to_end req k :
  request_wf req → k ∈ field_names (end_to_end req) ↔ is_Some (rq_headers req !! k) ∧ hop_by_hop k = false.
Proof.
  intros Hwf. unfold field_names. rewrite list_elem_of_fmap. split.
  - intros ([k' v] & -> & Hin). pose proof (end_to_end_lower req Hwf) as Hl.
    rewrite Forall_forall in Hl. rewrite (Hl _ Hin). simpl.
    apply end_to_end_elem in Hin as [? ?]. eauto.
  - intros [[v Hv] Hh]. exists (k, v). assert ((k, v) ∈ end_to_end req) as Hin by (by apply end_to_end_elem).
    pose proof (end_to_end_lower req Hwf) as Hl. rewrite Forall_forall in Hl. by rewrite (Hl _ Hin).
Qed.

Lemma fold_end_to_end req k :
  request_wf req →
  fold_headers (end_to_end req) !! k = if hop_by_hop k then None else rq_headers req !! k.
Proof.
  intros Hwf. rewrite fold_headers_distinct; [|apply end_to_end_nodup|by apply end_to_end_lower].
  destruct (list_to_map (end_to_end req) !! k) as [v|] eqn:E.
  - apply elem_of_list_to_map in E; [|apply end_to_end_nodup].
    apply end_to_end_elem in E as [-> ->]. done.
  - apply not_elem_of_list_to_map_2 in E. destruct (hop_by_hop k) eqn:Hh; [done|].
    destruct (rq_headers req !! k) as [v|] eqn:Hv; [|done]. destruct E.
    apply list_elem_of_fmap. exists (k, v). split; [done|by apply end_to_end_elem].
Qed.

Lemma foldl_headers_lookup_in (m : gmap bytes bytes) (hs : header_fields) k :
  k ∈ field_names hs → foldl (λ m h, <[to_lower h.1 := h.2]> m) m hs !! k = fold_headers hs !! k.
Proof.
  unfold fold_headers. induction hs as [|h hs IH] using rev_ind; intros Hk; [by apply elem_of_nil in Hk|].
  unfold field_names in Hk. rewrite fmap_app in Hk. rewrite !foldl_snoc.
  destruct (decide (k = to_lower h.1)) as [->|Hne]; [by rewrite !lookup_insert_eq|].
  rewrite !lookup_insert_ne by done. apply IH. apply elem_of_app in Hk as [Hk|Hk]; [done|].
  by apply list_elem_of_singleton in Hk.
Qed.

Lemma length_field_lookup (m : gmap bytes bytes) body k :
  foldl (λ m h, <[to_lower h.1 := h.2]> m) m (length_field body) !! k =
  if decide (body = []) then m !! k
  else if decide (k = str "content-length") then Some (to_string (size_of body)) else m !! k.
Proof.
  unfold length_field. destruct (decide (body = [])); [done|]. cbn [foldl fst snd].
  change (to_lower (str "Content-Length")) with (str "content-length").
  destruct (decide (k = str "content-length")) as [->|]; [by rewrite lookup_insert_eq|].
  by rewrite lookup_insert_ne.
Qed.

(** The fields that are about one connection (RFC 9110, section 7.6.1, and
    Trailer), and those the gateway sets itself: none of the client's is
    passed on. *)
Definition not_passed_on : list bytes :=
  [str "connection"; str "keep-alive"; str "proxy-connection"; str "te"; str "trailer"; str "transfer-encoding";
   str "upgrade"; str "host"; str "content-length"].

Lemma hop_by_hop_spec k : hop_by_hop k = bool_decide (k ∈ not_passed_on).
Proof.
  apply eq_bool_prop_intro. unfold hop_by_hop, not_passed_on. rewrite !orb_True, !bool_decide_spec, !elem_of_cons, elem_of_nil. naive_solver.
Qed.

(** Every header of the request a backend receives. *)
Definition upstream_header (req : HttpRequest) (host k : bytes) : option bytes :=
  if decide (k = str "content-length") then
    if decide (rq_body req = []) then None else Some (to_string (size_of (rq_body req)))
  else if decide (k = str "connection") then Some (str "keep-alive")
  else if decide (k = str "x-forwarded-for") then Some (str "gateway")
  else if decide (k = str "x-request-id") then Some (rq_requestId req)
  else if decide (k = str "host") then Some host
  else if decide (k ∈ not_passed_on) then None else rq_headers req !! k.

Lemma upstream_lookup req host k :
  request_wf req → fold_headers (upstream_fields req host) !! k = upstream_header req host k.
Proof.
  intros Hwf. unfold upstream_fields, gateway_fields, upstream_header.
  rewrite fold_headers_app, !foldl_app, length_field_lookup. cbn [foldl fst snd].
  change (to_lower (str "Connection")) with (str "connection").
  change (to_lower (str "X-Forwarded-For")) with (str "x-forwarded-for").
  change (to_lower (str "X-Request-Id")) with (str "x-request-id").
  set (m := foldl _ (fold_headers [(str "Host", host)]) (end_to_end req)).
  assert (∀ k, m !! k = if decide (k = str "host") then Some host
                        else if hop_by_hop k then None else rq_headers req !! k) as Hm.
  { intros k'. unfold m. destruct (decide (k' ∈ field_names (end_to_end req))) as [Hin|Hnin].
    - rewrite foldl_headers_lookup_in, fold_end_to_end by done.
      apply field_names_end_to_end in Hin as [_ Hh]; [|done]. rewrite Hh.
      rewrite decide_False; [done|]. by intros ->.
    - rewrite foldl_headers_lookup by done. unfold fold_headers. cbn [foldl fst snd].
      change (to_lower (str "Host")) with (str "host").
      destruct (decide (k' = str "host")) as [->|]; [by rewrite lookup_insert_eq|].
      rewrite lookup_insert_ne, lookup_empty by done.
      destruct (hop_by_hop k') eqn:Hh; [done|]. destruct (rq_headers req !! k') eqn:E; [|done].
      destruct Hnin. apply field_names_end_to_end; [done|]. eauto. }
  assert (∀ (a : bytes) (v : bytes) (n : gmap bytes bytes) k,
            <[a := v]> n !! k = if decide (k = a) then Some v else n !! k) as Hins.
  { intros a v n k'. destruct (decide (k' = a)) as [->|]; [by rewrite lookup_insert_eq|].
    by rewrite lookup_insert_ne. }
  rewrite !Hins, Hm, hop_by_hop_spec.
  assert (∀ v : option bytes, (if bool_decide (k ∈ not_passed_on) then None else v) = if decide (k ∈ not_passed_on) then None else v) as ->
    by (intros v; by case_bool_decide; case_decide).
  destruct (decide (k = str "content-length")) as [->|]; [|by case_decide].
  by case_decide.
Qed.

(** ** The fields are printable *)

Definition safe_value (v : bytes) : Prop := (∀ c, c ∈ [CR; LF] → c ∉ v) ∧ trimmed v.

Lemma digits_safe n : (0 ≤ n)%Z → safe_value (to_string n).
Proof.
  intros Hn. assert (∀ c, c ∈ [SP; HT; CR; LF] → c ∉ to_string n) as Hd.
  { intros c Hc Hin. apply to_string_digits in Hin; [|done].
    repeat (apply elem_of_cons in Hc as [->|Hc]; [done|]). by apply elem_of_nil in Hc. }
  split; [|split].
  - intros c Hc. apply Hd. by apply (elem_of_app [SP; HT] [CR; LF]); right.
  - intros c Hc Hin. apply (Hd c); [by apply (elem_of_app [SP; HT] [CR; LF]); left|].
    destruct (to_string n); simplify_eq/=. apply list_elem_of_here.
  - intros c Hc Hin. apply (Hd c); [by apply (elem_of_app [SP; HT; CR] [LF]); left|].
    apply last_Some in Hc as [? ->]. apply elem_of_app. right. apply list_elem_of_here.
Qed.

Lemma literal_name_ok (k : bytes) :
  bool_decide (k ≠ [] ∧ Forall (λ c, c ∉ k) [SP; HT; CR; LF; ":"%char]) = true →
  k ≠ [] ∧ ∀ c, c ∈ [SP; HT; CR; LF; ":"%char] → c ∉ k.
Proof. intros [H1 H2]%bool_decide_eq_true. split; [done|]. by rewrite Forall_forall in H2. Qed.

Lemma literal_printable k v :
  bool_decide (k ≠ [] ∧ Forall (λ c, c ∉ k) [SP; HT; CR; LF; ":"%char]) = true →
  safe_value v → printable_header (k, v).
Proof. intros [H1 H2]%literal_name_ok [H3 H4]. by split_and!. Qed.

Lemma literal_safe v :
  bool_decide (CR ∉ v ∧ LF ∉ v ∧ head v ≠ Some SP ∧ head v ≠ Some HT ∧
               last v ≠ Some SP ∧ last v ≠ Some HT) = true → safe_value v.
Proof.
  intros (H1 & H2 & H3 & H4 & H5 & H6)%bool_decide_eq_true. split; [|split].
  - intros c Hc. repeat (apply elem_of_cons in Hc as [->|Hc]; [done|]). by apply elem_of_nil in Hc.
  - intros c Hv Hc. repeat (apply elem_of_cons in Hc as [->|Hc]; [congruence|]). by apply elem_of_nil in Hc.
  - intros c Hv Hc. repeat (apply elem_of_cons in Hc as [->|Hc]; [try congruence|]).
    + apply H1. apply last_Some in Hv as [? ->]. apply elem_of_app. right. apply list_elem_of_here.
    + by apply elem_of_nil in Hc.
Qed.

Lemma literal_header_wf k v :
  bool_decide (to_lower k = k) && bool_decide (k ≠ [] ∧ Forall (λ c, c ∉ k) [SP; HT; CR; LF; ":"%char]) &&
  bool_decide (CR ∉ v ∧ LF ∉ v ∧ head v ≠ Some SP ∧ head v ≠ Some HT ∧
               last v ≠ Some SP ∧ last v ≠ Some HT) = true → header_wf k v.
Proof.
  intros [[H1%bool_decide_eq_true H2]%andb_true_iff H3]%andb_true_iff.
  apply literal_name_ok in H2 as [? ?]. apply literal_safe in H3 as [? ?]. by split_and!.
Qed.

Lemma upstream_printable_headers req host :
  request_wf req → safe_value host → safe_value (rq_requestId req) →
  Forall printable_header (upstream_fields req host).
Proof.
  intros Hwf Hh Hid. unfold upstream_fields, gateway_fields.
  apply Forall_app. split; [repeat constructor; by apply literal_printable|].
  apply Forall_app. split.
  - apply Forall_forall. intros [k v] [Hk _]%end_to_end_elem.
    destruct (wf_headers req Hwf k v Hk) as (H1 & _ & H3 & H4 & H5). by split_and!.
  - apply Forall_app. split.
    + repeat apply Forall_cons_2; [..|apply Forall_nil_2]; apply literal_printable; try done;
        by apply literal_safe.
    + unfold length_field. destruct (decide _); [constructor|].
      repeat constructor; try (by apply literal_name_ok). all: apply digits_safe; unfold size_of; lia.
Qed.

Lemma end_to_end_not_framing req :
  request_wf req → filter (λ k, framing_header k = true) (field_names (end_to_end req)) = [].
Proof.
  intros Hwf. destruct (filter _ _) as [|k l] eqn:E; [done|exfalso].
  assert (k ∈ k :: l) as Hk by apply list_elem_of_here. rewrite <- E in Hk.
  apply list_elem_of_filter in Hk as [Hf Hk].
  apply field_names_end_to_end in Hk as [_ Hh]; [|done].
  unfold framing_header in Hf. unfold hop_by_hop in Hh.
  repeat (apply orb_false_iff in Hh as [Hh ?]).
  repeat (apply orb_true_iff in Hf as [Hf|Hf]); congruence.
Qed.

Lemma upstream_printable req host :
  request_wf req → safe_value host → safe_value (rq_requestId req) →
  (Z.of_nat (size (rq_headers req)) + 5 ≤ kMaxHeaderCount)%Z →
  printable (rq_method req) (rq_path req) (rq_query req) (str "HTTP/1.1")
    (upstream_fields req host) (rq_body req).
Proof.
  intros Hwf Hh Hid Hcnt. split.
  - destruct (wf_line req Hwf) as (? & ? & ? & ? & ? & _). split_and!; auto.
  - by apply upstream_printable_headers.
  - unfold upstream_fields, gateway_fields, field_names. rewrite !fmap_app, !filter_app.
    change ((λ h, to_lower h.1) <$> end_to_end req) with (field_names (end_to_end req)).
    rewrite end_to_end_not_framing by done. unfold length_field.
    destruct (decide _); vm_compute; repeat constructor; rewrite ?elem_of_cons, ?elem_of_nil; naive_solver.
  - assert (length (end_to_end req) ≤ size (rq_headers req)) as Hle.
    { unfold end_to_end. rewrite <- length_map_to_list, <- iterate_visits. apply length_filter. }
    unfold upstream_fields, gateway_fields, length_field. rewrite !length_app.
    destruct (decide _); simpl length; lia.
  - pose proof (wf_framing req Hwf) as [Hf _]. split.
    + rewrite upstream_lookup by done. unfold upstream_header.
      rewrite decide_True by done. destruct (decide (rq_body req = [])) as [->|Hne]; [done|].
      assert (0 ≤ size_of (rq_body req) ≤ kMaxBodyBytes)%Z as Hsz.
      { split; [unfold size_of; lia|].
        destruct (rq_headers req !! str "content-length"); [by destruct Hf as (_ & ? & _)|].
        by rewrite Hf. }
      split_and!; [|lia|by rewrite upstream_lookup].
      apply parse_size_to_string. unfold kMaxBodyBytes in Hsz. lia.
    + intros v. by rewrite upstream_lookup.
Qed.
End build.

(** ** Theorem *)

(** C26: the request sent upstream is the client's request.  For every parsed
    request, whatever order its headers are iterated in, the bytes written to
    the backend read back as exactly one request with the client's method,
    path, query and body; its headers are the gateway's Host, X-Request-Id,
    X-Forwarded-For and Connection, a Content-Length that is the length of
    the body (absent for an empty one), none of Keep-Alive,
    Proxy-Connection, TE, Trailer, Transfer-Encoding and Upgrade, and
    otherwise exactly the client's; and bytes written after it stay separate
    (no smuggled request). *)
Theorem backend_request_faithful iterate `{!MapIteration iterate} req host rest :
  request_wf req → safe_value host → safe_value (rq_requestId req) →
  (Z.of_nat (size (rq_headers req)) + 5 ≤ kMaxHeaderCount)%Z →
  (size_of (buildBackendRequest iterate req host ++ rest) < 2 ^ 64)%Z →
  ∃ r, parse emptyRequest (append (buildBackendRequest iterate req host ++ rest) newHttpParser) =
         (Complete, r, append rest newHttpParser) ∧
    rq_method r = rq_method req ∧ rq_path r = rq_path req ∧ rq_query r = rq_query req ∧
    rq_body r = rq_body req ∧ rq_version r = str "HTTP/1.1" ∧ rq_keepAlive r = true ∧
    ∀ k, rq_headers r !! k = upstream_header req host k.
Proof.
  intros Hwf Hh Hid Hcnt Hsz. rewrite buildBackendRequest_print in *.
  eexists. split; [apply print_parses; [by apply upstream_printable|done]|]. simpl.
  split_and!; [done..| |].
  - unfold wants_keep_alive. by rewrite upstream_lookup.
  - intros k. by apply upstream_lookup.
Qed.

Definition demo_request : HttpRequest :=
  mkHttpRequest (str "POST") (str "/items") (str "q=1") (str "HTTP/1.0")
    (list_to_map [(str "content-length", str "2"); (str "te", str "trailers"); (str "accept", str "*")])
    (str "hi") false (str "req-0-1").

Lemma demo_request_wf : request_wf demo_request.
Proof.
  split.
  - split_and!; try by_decide. intros c Hc. repeat (apply elem_of_cons in Hc as [->|Hc]; [by_decide|]).
    by apply elem_of_nil in Hc.
  - intros k v Hk. assert ((k, v) ∈ map_to_list (rq_headers demo_request)) as Hin
      by (by apply elem_of_map_to_list).
    assert (map_to_list (rq_headers demo_request) =
      [(str "accept", str "*"); (str "content-length", str "2"); (str "te", str "trailers")]) as E
      by (vm_compute; reflexivity).
    rewrite E in Hin. clear E Hk.
    repeat (apply elem_of_cons in Hin as [[= -> ->]|Hin];
      [apply literal_header_wf; vm_compute; reflexivity|]).
    by apply elem_of_nil in Hin.
  - by_decide.
  - split; [vm_compute; split_and!; congruence|]. intros v. by vm_compute.
  - reflexivity.
Qed.

Lemma backend_request_faithful_witness :
  ∃ r, parse emptyRequest (append (buildBackendRequest map_to_list demo_request (str "10.0.0.1")
         ++ str "GET") newHttpParser) = (Complete, r, append (str "GET") newHttpParser) ∧
    rq_method r = rq_method demo_request ∧ rq_path r = rq_path demo_request ∧
    rq_query r = rq_query demo_request ∧
    rq_body r = rq_body demo_request ∧ rq_version r = str "HTTP/1.1" ∧ rq_keepAlive r = true ∧
    ∀ k, rq_headers r !! k = upstream_header demo_request (str "10.0.0.1") k.
Proof.
  apply (backend_request_faithful map_to_list demo_request (str "10.0.0.1") (str "GET")).
  - apply demo_request_wf.
  - by apply literal_safe.
  - by apply literal_safe.
  - by_decide.
  - vm_compute. reflexivity.
Defined.

(** The list of hop-by-hop fields is fixed: a field that the client's
    Connection header nominates (RFC 9110, section 7.6.1) is passed on, while
    the Connection header that nominated it is not. *)
Theorem nominated_field_forwarded :
  let req := mkHttpRequest (str "GET") (str "/") [] (str "HTTP/1.1")
    (list_to_map [(str "connection", str "x-hop"); (str "x-hop", str "1")]) [] true (str "req-0-1") in
  let r := (parse emptyRequest (append (buildBackendRequest map_to_list req (str "10.0.0.1")) newHttpParser)).1 in
  r.1 = Complete ∧ rq_headers r.2 !! str "x-hop" = Some (str "1") ∧
  rq_headers r.2 !! str "connection" = Some (str "keep-alive").
Proof. split_and!; vm_compute; reflexivity. Qed.
