(* ===== verification/BackendReply.v ===== *)
(** * What the gateway reads back from a backend

    Safety of every accepted reply, and the round trip: a reply printed the
    way a server does is read back whole, however the network cuts it.  What a
    connection still holds when an exchange ends is [rx_rest]. *)
From S2P Require Import Prelude CxxString HttpMessage HttpParser HttpParserSafety HttpParserRoundTrip BackendIO BackendRequest.

(** ** Safety of an accepted reply *)

(** Header names that never reach the client from a reply. *)
Definition reply_reserved (k : bytes) : bool :=
  bool_decide (k = str "content-length") || bool_decide (k = str "transfer-encoding") ||
  bool_decide (k = str "connection") || dropped_reply_header k.

Record head_ok (maxBody : Z) (hd : reply_head) : Prop := {
  head_length : (0 ≤ contentLength hd)%Z;
  head_max : gotContentLength hd = true → (contentLength hd ≤ maxBody)%Z;
  head_names : Forall (λ h, reply_reserved h.1 = false ∧ to_lower h.1 = h.1) (reply_headers hd)
}.

Lemma read_reply_line_ok maxBody line hd hd' :
  head_ok maxBody hd → read_reply_line maxBody line hd = Some hd' → head_ok maxBody hd'.
Proof.
  intros [H1 H2 H3]. unfold read_reply_line. destruct (find_char _ line) as [colon|]; [|done]. cbv zeta.
  set (k := to_lower _). set (value := drop_while _ _).
  destruct (decide (k = str "content-length")).
  { destruct (gotContentLength hd); [done|]. destruct (parse_size value) as [n|] eqn:Hn; [|done].
    destruct (Z.ltb_spec maxBody n); [done|]. intros [= <-]. apply parse_size_range in Hn.
    split; simpl; [lia|lia|done]. }
  destruct (decide (k = str "transfer-encoding")); [done|].
  destruct (decide (k = str "connection")); [by intros [= <-]|].
  destruct (dropped_reply_header k) eqn:Hd; [by intros [= <-]|]. intros [= <-].
  split; simpl; [done|done|]. apply Forall_app. split; [done|]. repeat constructor; simpl.
  - unfold reply_reserved. by rewrite !bool_decide_false, Hd.
  - apply to_lower_idemp.
Qed.

Lemma read_reply_lines_ok maxBody fuel raw headerEnd lineStart hd hd' :
  head_ok maxBody hd → read_reply_lines maxBody fuel raw headerEnd lineStart hd = Some hd' →
  head_ok maxBody hd'.
Proof.
  revert lineStart hd. induction fuel as [|f IH]; intros ls hd Hok; simpl; [done|].
  destruct (decide _); [|by intros [= <-]]. destruct (find_from _ _ _) as [le|]; [|done].
  destruct (decide _); [done|]. intros (hd1 & H1 & H2)%bind_Some.
  eapply IH; [|exact H2]. by eapply read_reply_line_ok.
Qed.

Lemma read_reply_head_ok maxBody raw headerEnd hd :
  read_reply_head maxBody raw headerEnd = Some hd → head_ok maxBody hd ∧ gotContentLength hd = true.
Proof.
  unfold read_reply_head. destruct (find crlf raw) as [eol|]; [|done].
  intros (hd1 & H1 & H2)%bind_Some. destruct (gotContentLength hd1) eqn:Hg; [|done].
  injection H2 as <-. split; [|done]. eapply read_reply_lines_ok; [|exact H1].
  split; simpl; [lia|done|constructor].
Qed.

(** Before the end of the header block there is always a next line. *)
Lemma find_line_before r end_ ls :
  find (crlf ++ crlf) r = Some end_ → ls ≤ end_ → is_Some (find_from crlf r ls).
Proof.
  intros (E & Hlen)%find_Some Hls. change (length (crlf ++ crlf)) with 4 in Hlen.
  unfold find_from. destruct (Nat.ltb_spec (length r) ls); [lia|].
  assert (drop ls r = drop ls (take end_ r) ++ crlf ++ crlf ++ drop (end_ + 4) r) as ->.
  { rewrite E at 1. rewrite drop_app_le; [|rewrite length_take; lia]. by rewrite <- !app_assoc. }
  destruct (find_complete crlf (drop ls (take end_ r)) (crlf ++ drop (end_ + 4) r)) as (i & -> & _).
  simpl. eauto.
Qed.

Lemma read_reply_lines_stable maxBody f1 f2 r d end_ ls hd :
  find (crlf ++ crlf) r = Some end_ → 0 < f1 → end_ < f1 + ls → 0 < f2 → end_ < f2 + ls →
  read_reply_lines maxBody f1 (r ++ d) end_ ls hd = read_reply_lines maxBody f2 r end_ ls hd.
Proof.
  intros Hend. revert f2 ls hd.
  induction f1 as [|f1 IH]; intros [|f2] ls hd Hf1 H1 Hf2 H2; [lia..|]. simpl.
  destruct (decide (ls < end_)) as [Hls|]; [|done].
  destruct (find_line_before r end_ ls Hend) as [le Hle]; [lia|].
  rewrite Hle, (find_from_stable _ _ d _ _ Hle). destruct (find_from_Some _ _ _ _ Hle) as (H3 & H4 & _).
  change (length crlf) with 2 in H4. destruct (decide _); [done|].
  assert (substr (r ++ d) ls (le - ls) = substr r ls (le - ls)) as ->.
  { unfold substr. rewrite drop_app_le by lia. apply take_app_le. rewrite length_drop. lia. }
  destruct (read_reply_line _ _ hd); simpl; [|done]. apply IH; lia.
Qed.

Lemma read_reply_head_stable maxBody r d end_ :
  find (crlf ++ crlf) r = Some end_ →
  read_reply_head maxBody (r ++ d) end_ = read_reply_head maxBody r end_.
Proof.
  intros Hend. unfold read_reply_head.
  destruct (find_line_before r end_ 0 Hend) as [eol He]; [lia|]. rewrite find_from_0 in He.
  rewrite He, (find_app_stable _ _ d _ He). pose proof (find_Some _ _ _ Hend) as [_ Hl].
  change (length (crlf ++ crlf)) with 4 in Hl.
  rewrite (read_reply_lines_stable maxBody _ (S (length r)) r d end_) by (rewrite ?length_app; lia || done).
  done.
Qed.

(** ** The layout of an accepted reply *)

(** All that the events deliver. *)
Definition delivered (evs : list recv_event) : bytes := concat (omap received evs).

(** [line] is a header field of this (lower-case) name with this value,
    leading blanks apart. *)
Definition field_line (name value line : bytes) : Prop :=
  ∃ k blanks, line = k ++ ":"%char :: blanks ++ value ∧ ":"%char ∉ k ∧ to_lower k = name ∧
    Forall (λ c, isspace c = true) blanks.

(** These lines hold one Content-Length, which says [n], and no
    Transfer-Encoding. *)
Definition declares (lines : list bytes) (n : Z) : Prop :=
  ∃ l1 l l2 value, lines = l1 ++ l :: l2 ∧
    field_line (str "content-length") value l ∧ parse_size value = Some n ∧
    (∀ l' v, l' ∈ l1 ++ l2 → ¬ field_line (str "content-length") v l') ∧
    (∀ l' v, l' ∈ lines → ¬ field_line (str "transfer-encoding") v l').

(** [received] starts with a status line, header lines that declare the
    length of a body, an empty line and that body. *)
Definition delimited (received body : bytes) : Prop :=
  ∃ status lines rest,
    received = status ++ crlf ++ concat ((λ l, l ++ crlf) <$> lines) ++ crlf ++ body ++ rest ∧
    find crlf status = None ∧ Forall (λ l, find crlf l = None) lines ∧
    declares lines (size_of body).

Lemma find_take_None n s i : n ≠ [] → find n s = Some i → find n (take i s) = None.
Proof.
  intros Hn Hi. destruct (find n (take i s)) as [j|] eqn:Hj; [exfalso|done].
  pose proof (find_Some _ _ _ Hj) as [_ Hl]. apply (find_app_stable _ _ (drop i s)) in Hj.
  rewrite take_drop, Hi in Hj. injection Hj as <-. rewrite length_take in Hl.
  destruct n; [done|]. simpl in Hl. lia.
Qed.

(** A line of the header block ends where the block ends, or well before. *)
Lemma line_end_in_block r end_ ls le :
  find (crlf ++ crlf) r = Some end_ → find_from crlf r ls = Some le → le ≤ end_ →
  le = end_ ∨ le + 2 < end_.
Proof.
  intros Hend (H1 & H2 & Hf)%find_from_Some Hle. change (length crlf) with 2 in H2.
  apply find_Some in Hf as [E _]. rewrite drop_drop in E. change (length crlf) with 2 in E.
  pose proof (find_Some _ _ _ Hend) as [Ee Hl]. change (length (crlf ++ crlf)) with 4 in *.
  destruct (decide (le = end_)) as [|Hne]; [by left|]. right.
  assert (drop le r = crlf ++ drop (le + 2) r) as Ele.
  { replace le with (ls + (le - ls)) at 1 by lia. rewrite <- drop_drop, E.
    rewrite drop_app_ge, length_take_le by (rewrite ?length_take, ?length_drop; lia).
    rewrite Nat.sub_diag, drop_0. do 2 f_equal. lia. }
  assert (drop end_ r = crlf ++ crlf ++ drop (end_ + 4) r) as Eend.
  { rewrite Ee at 1. rewrite drop_app_ge, length_take_le by (rewrite ?length_take; lia).
    by rewrite Nat.sub_diag, drop_0, <- app_assoc. }
  destruct (decide (end_ = le + 1)) as [->|].
  { rewrite <- drop_drop, Ele in Eend. done. }
  destruct (decide (end_ = le + 2)) as [->|]; [exfalso|lia].
  destruct (find_complete (crlf ++ crlf) (take le r) (crlf ++ drop (le + 6) r)) as (i & Hi & Hil).
  rewrite length_take in Hil.
  assert (take le r ++ (crlf ++ crlf) ++ crlf ++ drop (le + 6) r = r) as Er.
  { rewrite <- (take_drop le r) at 3. f_equal. rewrite Ele, Eend, <- app_assoc.
    do 3 f_equal. f_equal. lia. }
  rewrite Er, Hend in Hi. injection Hi as <-. lia.
Qed.

(** The header lines as a list, and the fold over it. *)
Definition read_lines (maxBody : Z) (lines : list bytes) (hd : reply_head) : option reply_head :=
  foldl (λ o l, hd ← o; read_reply_line maxBody l hd) (Some hd) lines.

Lemma read_lines_cons maxBody l lines hd :
  read_lines maxBody (l :: lines) hd =
  hd' ← read_reply_line maxBody l hd; read_lines maxBody lines hd'.
Proof.
  unfold read_lines. simpl. destruct (read_reply_line maxBody l hd) as [hd'|]; [done|].
  simpl. induction lines as [|l' lines IH]; [done|]. apply IH.
Qed.

Lemma drop_line r ls le :
  find_from crlf r ls = Some le →
  drop ls r = substr r ls (le - ls) ++ crlf ++ drop (le + 2) r ∧
  find crlf (substr r ls (le - ls)) = None.
Proof.
  intros (H1 & H2 & Hf)%find_from_Some. unfold substr. split; [|by apply find_take_None].
  apply find_Some in Hf as [E _]. change (length crlf) with 2 in *.
  rewrite E at 1. rewrite drop_drop. do 3 f_equal. lia.
Qed.

Lemma read_reply_lines_layout maxBody f r end_ ls hd hd' :
  find (crlf ++ crlf) r = Some end_ → ls < end_ ∨ ls = end_ + 2 →
  read_reply_lines maxBody f r end_ ls hd = Some hd' →
  ∃ lines, drop ls r = concat ((λ l, l ++ crlf) <$> lines) ++ drop (end_ + 2) r ∧
    Forall (λ l, find crlf l = None) lines ∧ read_lines maxBody lines hd = Some hd'.
Proof.
  intros Hend. revert ls hd. induction f as [|f IH]; intros ls hd Hls; [done|]. simpl.
  destruct (decide (ls < end_)) as [Hlt|].
  - destruct (find_from crlf r ls) as [le|] eqn:Hf; [|done]. destruct (decide _) as [|Hle]; [done|].
    intros (hd1 & H1 & H2)%bind_Some. destruct (drop_line r ls le Hf) as [E Hnone].
    destruct (IH (le + 2) hd1) as (lines & E2 & Hl & Hr); [|done|].
    + destruct (line_end_in_block r end_ ls le Hend Hf) as [->|]; [lia|by right|by left].
    + exists (substr r ls (le - ls) :: lines). split_and!; [|by constructor|by rewrite read_lines_cons, H1].
      cbn [fmap list_fmap concat]. by rewrite E, E2, <- !app_assoc.
  - intros [= <-]. destruct Hls as [| ->]; [done|]. by exists [].
Qed.

Lemma find_char_split c s i : find_char c s = Some i → s = take i s ++ c :: drop (i + 1) s ∧ c ∉ take i s.
Proof.
  intros (a & d & b & -> & <- & Ha & Hd)%find_if_Some. apply eqc_true in Hd as ->.
  rewrite take_app_length. split.
  2: { intros Hin. rewrite Forall_forall in Ha. by apply Ha, eqc_false in Hin. }
  rewrite drop_app_ge by lia. by replace (length a + 1 - length a) with 1 by lia.
Qed.

Lemma drop_while_split p s :
  ∃ blanks, s = blanks ++ drop_while p s ∧ Forall (λ c, p c = true) blanks.
Proof.
  induction s as [|c s (blanks & E & Hb)]; [by exists []|]. simpl. destruct (p c) eqn:Hc.
  - exists (c :: blanks). split; [simpl; by rewrite <- E|by constructor].
  - by exists [].
Qed.

Lemma read_reply_line_field maxBody line hd hd' :
  read_reply_line maxBody line hd = Some hd' →
  ∃ name value, field_line name value line ∧ name ≠ str "transfer-encoding" ∧
    ((name = str "content-length" ∧ gotContentLength hd = false ∧ gotContentLength hd' = true ∧
      parse_size value = Some (contentLength hd')) ∨
     (name ≠ str "content-length" ∧ gotContentLength hd' = gotContentLength hd ∧
      contentLength hd' = contentLength hd)).
Proof.
  unfold read_reply_line. destruct (find_char _ line) as [colon|] eqn:Hc; [|done]. cbv zeta.
  set (k := to_lower _). set (value := drop_while _ _). intros Hr. exists k, value. split.
  { destruct (find_char_split _ _ _ Hc) as [E Hk].
    destruct (drop_while_split isspace (drop (colon + 1) line)) as (blanks & Eb & Hb).
    exists (take colon line), blanks. split_and!; [|done|done|done]. unfold value. by rewrite <- Eb. }
  destruct (decide (k = str "content-length")) as [E1|N1].
  { split; [by rewrite E1|]. left. destruct (gotContentLength hd); [done|].
    destruct (parse_size value) as [n|] eqn:Hn; [|done]. destruct (maxBody <? n)%Z; [done|].
    by injection Hr as <-. }
  destruct (decide (k = str "transfer-encoding")) as [|N2]; [done|]. split; [done|]. right.
  split; [done|]. destruct (decide (k = str "connection")); [by injection Hr as <-|].
  destruct (dropped_reply_header k); by injection Hr as <-.
Qed.

Lemma field_line_inj n1 v1 n2 v2 line :
  field_line n1 v1 line → field_line n2 v2 line → n1 = n2.
Proof.
  intros (k1 & b1 & -> & H1 & <- & _) (k2 & b2 & E & H2 & <- & _). f_equal.
  apply (f_equal (find_char ":"%char)) in E as El. rewrite !find_char_hit in El by done.
  injection El as El. by apply app_inj_1 in E as [].
Qed.

Lemma read_lines_after maxBody lines hd hd' :
  read_lines maxBody lines hd = Some hd' → gotContentLength hd = true →
  contentLength hd' = contentLength hd ∧ gotContentLength hd' = true ∧
  ∀ l v, l ∈ lines → ¬ field_line (str "content-length") v l ∧ ¬ field_line (str "transfer-encoding") v l.
Proof.
  revert hd. induction lines as [|l lines IH]; intros hd.
  - intros [= <-] Hg. split_and!; [done|done|]. by intros ? ? ?%elem_of_nil.
  - rewrite read_lines_cons. intros (hd1 & H1 & H2)%bind_Some Hg.
    destruct (read_reply_line_field _ _ _ _ H1) as (name & value & Hf & Hte & [(_ & ? & _)|(Hn & Hg1 & Hl1)]);
      [congruence|].
    destruct (IH hd1 H2 ltac:(congruence)) as (I1 & I2 & I3). split_and!; [congruence|done|].
    intros l' v [->|Hin]%elem_of_cons; [|by apply I3].
    split; intros Hv; by pose proof (field_line_inj _ _ _ _ _ Hf Hv).
Qed.

Lemma read_lines_declares maxBody lines hd hd' :
  read_lines maxBody lines hd = Some hd' → gotContentLength hd = false → gotContentLength hd' = true →
  declares lines (contentLength hd').
Proof.
  revert hd. induction lines as [|l lines IH]; intros hd.
  - intros [= <-]. congruence.
  - rewrite read_lines_cons. intros (hd1 & H1 & H2)%bind_Some Hg Hg'.
    destruct (read_reply_line_field _ _ _ _ H1)
      as (name & value & Hf & Hte & [(-> & _ & Hg1 & Hp)|(Hn & Hg1 & Hl1)]).
    + destruct (read_lines_after _ _ _ _ H2 Hg1) as (El & _ & Hno). rewrite El.
      exists [], l, lines, value. split_and!; [done|done|done|by intros l' v ?; apply Hno|].
      intros l' v [->|Hin]%elem_of_cons; [|by apply Hno]. intros Hv.
      by pose proof (field_line_inj _ _ _ _ _ Hf Hv).
    + destruct (IH hd1 H2) as (l1 & l0 & l2 & v0 & -> & D1 & D2 & D3 & D4); [congruence|done|].
      exists (l :: l1), l0, l2, v0. split_and!; [done|done|done| |].
      * intros l' v [->|Hin]%elem_of_cons; [|by apply D3]. intros Hv.
        by pose proof (field_line_inj _ _ _ _ _ Hf Hv).
      * intros l' v [->|Hin]%elem_of_cons; [|by apply D4]. intros Hv.
        by pose proof (field_line_inj _ _ _ _ _ Hf Hv).
Qed.

Lemma first_line_in_block r end_ eol :
  find (crlf ++ crlf) r = Some end_ → find_from crlf r 0 = Some eol → eol ≤ end_.
Proof.
  intros Hf (_ & _ & Hc)%find_from_Some. rewrite drop_0, Nat.sub_0_r in Hc.
  pose proof (find_Some _ _ _ Hf) as [E _].
  destruct (find_complete crlf (take end_ r) (crlf ++ drop (end_ + length (crlf ++ crlf)) r))
    as (i & Hi & Hle).
  rewrite !app_assoc, <- (app_assoc (take end_ r)), <- app_assoc, <- E, Hc in Hi.
  injection Hi as <-. rewrite length_take in Hle. lia.
Qed.

Lemma block_end r end_ :
  find (crlf ++ crlf) r = Some end_ → drop (end_ + 2) r = crlf ++ drop (end_ + 4) r.
Proof.
  intros [E Hl]%find_Some. change (length (crlf ++ crlf)) with 4 in *.
  rewrite E at 1. rewrite drop_app_ge; rewrite length_take_le by lia; [|lia].
  replace (end_ + 2 - end_) with 2 by lia. by rewrite <- app_assoc.
Qed.

(** What the receive loop knows once the header block is in. *)
Definition rx_ok (maxBody : Z) (s : rx_state) : Prop :=
  match headerEnd s with
  | None => True
  | Some (end_, hd) =>
      find (crlf ++ crlf) (raw s) = Some end_ ∧ read_reply_head maxBody (raw s) end_ = Some hd
  end.

Lemma u64_le z : (0 ≤ z)%Z → (u64 z ≤ z)%Z.
Proof. intros. unfold u64, u64_modulus. apply Z.mod_le; lia. Qed.

(** A finished reply has its whole body. *)
Definition rx_complete (s : rx_state) : Prop :=
  ∃ end_ hd, headerEnd s = Some (end_, hd) ∧
    (contentLength hd ≤ size_of (raw s) - Z.of_nat (end_ + 4))%Z.

Lemma rx_body_ok maxBody r end_ hd :
  find (crlf ++ crlf) r = Some end_ → read_reply_head maxBody r end_ = Some hd →
  match rx_body r end_ hd with
  | RxFail => True
  | RxMore s => rx_ok maxBody s ∧ raw s = r
  | RxDone s => rx_ok maxBody s ∧ raw s = r ∧ rx_complete s
  end.
Proof.
  intros Hf Hr. unfold rx_body. cbv zeta.
  destruct (Z.leb_spec (contentLength hd) (size_of r -u Z.of_nat (end_ + 4))); [|done].
  split_and!; [done|done|]. exists end_, hd. split; [done|]. simpl.
  apply find_Some in Hf as [_ Hf]. change (length (crlf ++ crlf)) with 4 in Hf.
  pose proof (u64_le (size_of r - Z.of_nat (end_ + 4))). unfold size_of in *. lia.
Qed.

Lemma rx_data_ok maxBody data s :
  rx_ok maxBody s →
  match rx_data maxBody data s with
  | RxFail => True
  | RxMore s' => rx_ok maxBody s' ∧ raw s' = raw s ++ data
  | RxDone s' => rx_ok maxBody s' ∧ raw s' = raw s ++ data ∧ rx_complete s'
  end.
Proof.
  intros Hok. unfold rx_data, rx_ok in Hok |- *. destruct (headerEnd s) as [[end_ hd]|].
  - destruct Hok as [H1 H2]. apply rx_body_ok; [by apply find_app_stable|].
    by rewrite read_reply_head_stable.
  - destruct (_ <? _)%Z; [done|]. destruct (find _ _) as [end_|] eqn:Hf; [|done].
    destruct (read_reply_head _ _ _) as [hd|] eqn:Hr; [|done]. by apply rx_body_ok.
Qed.

Lemma rx_loop_ok maxBody evs s s' :
  rx_ok maxBody s → rx_loop maxBody evs s = Returned (Some s') →
  rx_ok maxBody s' ∧ rx_complete s' ∧
  ∃ front, front `prefix_of` evs ∧ raw s' = raw s ++ delivered front.
Proof.
  revert s. induction evs as [|ev evs IH]; intros s Hok; simpl; [done|].
  destruct (_ <=? _)%Z; [done|]. destruct (_ <=? _)%Z; [done|].
  destruct (received ev) as [[|c d]|] eqn:Hev; [done| |done].
  assert (∀ front, delivered (ev :: front) = (c :: d) ++ delivered front) as Hd.
  { intros front. unfold delivered. cbn [omap list_omap]. by rewrite Hev. }
  pose proof (rx_data_ok maxBody (c :: d) s Hok) as Hdata.
  destruct (rx_data maxBody (c :: d) s) as [|s1|s1]; [done| |].
  - destruct Hdata as [Hok1 Hraw]. intros Hr.
    destruct (IH s1 Hok1 Hr) as (I1 & I2 & front & Hfr & Hraw').
    split_and!; [done|done|]. exists (ev :: front). split; [by apply prefix_cons|].
    by rewrite Hd, Hraw', Hraw, <- app_assoc.
  - destruct Hdata as (Hok1 & Hraw & Hc). intros [= <-]. split_and!; [done|done|].
    exists [ev]. split; [by apply prefix_cons, prefix_nil|]. rewrite Hd, Hraw. by rewrite app_nil_r.
Qed.

(** A finished reply is the delimited body it is read as. *)
Lemma rx_delimited maxBody s :
  rx_ok maxBody s → rx_complete s →
  ∃ end_ hd, headerEnd s = Some (end_, hd) ∧ head_ok maxBody hd ∧
    delimited (raw s) (substrZ (raw s) (end_ + 4) (contentLength hd)) ∧
    size_of (substrZ (raw s) (end_ + 4) (contentLength hd)) = contentLength hd ∧
    (contentLength hd ≤ maxBody)%Z.
Proof.
  intros Hok (end_ & hd & Hend & Hlen). unfold rx_ok in Hok. rewrite Hend in Hok.
  destruct Hok as [Hf Hr]. exists end_, hd. destruct (read_reply_head_ok _ _ _ _ Hr) as [Hhd Hgot].
  pose proof (find_Some _ _ _ Hf) as [Hraw Hl]. change (length (crlf ++ crlf)) with 4 in *.
  pose proof Hhd as [L1 L2 L3]. set (body := substrZ _ _ _).
  assert (body = take (Z.to_nat (contentLength hd)) (drop (end_ + 4) (raw s))) as Eb.
  { unfold body, substrZ, size_of in *. rewrite length_drop, Z.min_l by lia. done. }
  assert (size_of body = contentLength hd) as Hsz.
  { rewrite Eb. unfold size_of in *. rewrite length_take, length_drop. lia. }
  split_and!; [done|done| |done|by apply L2].
  unfold read_reply_head in Hr. destruct (find crlf (raw s)) as [eol|] eqn:He; [|done].
  apply bind_Some in Hr as (hd1 & Hr & Hg). destruct (gotContentLength hd1) eqn:Hg1; [|done].
  injection Hg as ->. rewrite <- find_from_0 in He.
  destruct (drop_line (raw s) 0 eol He) as [E0 Hn0]. rewrite drop_0 in E0.
  destruct (read_reply_lines_layout maxBody (S (length (raw s))) (raw s) end_ (eol + 2) noReplyHead hd Hf)
    as (lines & El & Hnl & Hrl); [|done|].
  { destruct (line_end_in_block (raw s) end_ 0 eol Hf He) as [->|]; [|by right|by left].
    by apply (first_line_in_block (raw s)). }
  exists (substr (raw s) 0 (eol - 0)), lines, (drop (Z.to_nat (contentLength hd)) (drop (end_ + 4) (raw s))).
  split_and!; [|done|done|].
  - rewrite E0 at 1. rewrite El, Eb, take_drop. do 3 f_equal.
    by apply block_end.
  - rewrite Hsz. by apply (read_lines_declares maxBody lines noReplyHead).
Qed.

(** ** Cutting the reply into chunks *)

(** Events of a network that delivers these chunks in time. *)
Definition timely (ms : Z) (chunks : list bytes) : list recv_event :=
  (λ d, mkRecv ms 1 (Some d)) <$> chunks.

(** A complete reply: header block ending at [end_], then exactly the body it
    declares. *)
Record whole_reply (maxBody : Z) (wire : bytes) (end_ : nat) (hd : reply_head) : Prop := {
  whole_end : find (crlf ++ crlf) wire = Some end_;
  whole_head : read_reply_head maxBody wire end_ = Some hd;
  whole_length : (size_of wire = Z.of_nat (end_ + 4) + contentLength hd)%Z;
  whole_small : (Z.of_nat (end_ + 4) + 8192 ≤ 32768 + 1)%Z;
  whole_u64 : (size_of wire < 2 ^ 64)%Z
}.

(** The state after a prefix of the reply. *)
Definition rx_at (wire : bytes) (end_ : nat) (hd : reply_head) (pre : bytes) : rx_state :=
  mkRx pre (if find (crlf ++ crlf) pre then Some (end_, hd) else None).

Lemma prefix_find wire end_ pre d e :
  find (crlf ++ crlf) wire = Some end_ → wire = pre ++ d → find (crlf ++ crlf) pre = Some e → e = end_.
Proof. intros H -> Hp. apply (find_app_stable _ _ d) in Hp. congruence. Qed.

Lemma rx_body_prefix maxBody wire end_ hd pre d :
  whole_reply maxBody wire end_ hd → wire = pre ++ d → end_ + 4 ≤ length pre →
  rx_body pre end_ hd =
    if decide (d = []) then RxDone (mkRx pre (Some (end_, hd))) else RxMore (mkRx pre (Some (end_, hd))).
Proof.
  intros [W1 W2 W3 W4 W5] E Hl. unfold rx_body. cbv zeta. rewrite E in W3, W5.
  unfold size_of in *. rewrite length_app in W3, W5. rewrite u64_small by lia.
  destruct (Z.leb_spec (contentLength hd) (Z.of_nat (length pre) - Z.of_nat (end_ + 4))).
  - rewrite decide_True; [done|]. destruct d; [done|]. simpl in W3. lia.
  - rewrite decide_False; [done|]. intros ->. simpl in W3. lia.
Qed.

Lemma rx_data_prefix maxBody wire end_ hd pre c rest :
  whole_reply maxBody wire end_ hd → wire = pre ++ c ++ rest → (size_of c ≤ 8192)%Z →
  rx_data maxBody c (rx_at wire end_ hd pre) =
    if decide (rest = []) then RxDone (rx_at wire end_ hd (pre ++ c))
    else RxMore (rx_at wire end_ hd (pre ++ c)).
Proof.
  intros W E Hc. pose proof W as [W1 W2 W3 W4 W5]. rewrite app_assoc in E.
  unfold rx_data, rx_at. cbn [raw headerEnd].
  destruct (find (crlf ++ crlf) pre) as [e|] eqn:Hp.
  - pose proof (find_Some _ _ _ Hp) as [_ Hl]. change (length (crlf ++ crlf)) with 4 in Hl.
    assert (e = end_) as -> by (eapply (prefix_find wire _ pre (c ++ rest)); [done|by rewrite app_assoc|done]).
    rewrite (rx_body_prefix _ wire end_ hd (pre ++ c) rest W E) by (rewrite length_app; lia).
    by rewrite (find_app_stable _ _ c _ Hp).
  - assert (length pre < end_ + 4) as Hpre.
    { destruct (decide (end_ + 4 ≤ length pre)) as [Hge|]; [exfalso|lia].
      pose proof (find_Some _ _ _ W1) as [Ew _]. change (length (crlf ++ crlf)) with 4 in Ew.
      assert (take (end_ + 4) pre = take end_ wire ++ crlf ++ crlf) as Et.
      { rewrite <- (take_app_le pre (c ++ rest)) by done. rewrite app_assoc, <- E, Ew at 1.
        rewrite app_assoc. rewrite take_app_le by (rewrite !length_app, length_take; pose proof (find_Some _ _ _ W1); change (length (crlf ++ crlf)) with 4 in *; simpl; lia).
        apply take_ge. rewrite !length_app, length_take. simpl. lia. }
      destruct (find_complete (crlf ++ crlf) (take end_ wire) (drop (end_ + 4) pre)) as (i & Hi & _).
      rewrite app_assoc, <- Et, take_drop in Hi. congruence. }
    destruct (Z.ltb_spec 32768 (size_of (pre ++ c))) as [Hbig|_].
    { unfold size_of in Hbig. rewrite length_app in Hbig. unfold size_of in Hc. lia. }
    destruct (find (crlf ++ crlf) (pre ++ c)) as [e|] eqn:Hf.
    + assert (e = end_) as -> by (by eapply (prefix_find wire _ (pre ++ c) rest)).
      pose proof (find_Some _ _ _ Hf) as [_ Hl]. change (length (crlf ++ crlf)) with 4 in Hl.
      rewrite <- (read_reply_head_stable maxBody (pre ++ c) rest) by done. rewrite <- E, W2.
      by rewrite (rx_body_prefix _ wire end_ hd (pre ++ c) rest W E).
    + rewrite decide_False; [done|]. intros ->. rewrite app_nil_r in E. congruence.
Qed.

Lemma rx_loop_chunks maxBody wire end_ hd ms chunks pre :
  whole_reply maxBody wire end_ hd → (0 < ms)%Z → chunks ≠ [] →
  Forall (λ c, c ≠ [] ∧ (size_of c ≤ 8192)%Z) chunks → wire = pre ++ concat chunks →
  rx_loop maxBody (timely ms chunks) (rx_at wire end_ hd pre) =
    Returned (Some (mkRx wire (Some (end_, hd)))).
Proof.
  intros W Hms. revert pre. induction chunks as [|c chunks IH]; intros pre Hne Hch E; [done|].
  apply Forall_cons in Hch as [[Hc Hl] Hch]. simpl in E.
  cbn [timely fmap list_fmap rx_loop remainingMs recv_ready received].
  destruct (Z.leb_spec ms 0); [lia|]. simpl (1 <=? 0)%Z. cbv iota.
  destruct c as [|x c]; [done|].
  rewrite (rx_data_prefix maxBody wire end_ hd pre (x :: c) (concat chunks) W E Hl).
  destruct (decide (concat chunks = [])) as [En|Hn].
  - f_equal. f_equal. unfold rx_at. rewrite En, app_nil_r in E. rewrite <- E.
    by rewrite (whole_end _ _ _ _ W).
  - apply IH; [by intros ->|done|]. by rewrite E, app_assoc.
Qed.

(** ** A reply that is cut short *)

(** A prefix of a reply that lacks part of the body is not taken for a whole
    one, whatever the events. *)
Lemma rx_loop_short maxBody wire end_ hd evs pre rest s :
  whole_reply maxBody wire end_ hd → wire = pre ++ delivered evs ++ rest → rest ≠ [] →
  Forall (λ ev, ∀ d, received ev = Some d → size_of d ≤ 8192)%Z evs →
  rx_loop maxBody evs (rx_at wire end_ hd pre) ≠ Returned (Some s).
Proof.
  intros W E Hrest. revert pre E. induction evs as [|ev evs IH]; intros pre E Hf; [done|].
  apply Forall_cons in Hf as [Hev Hf]. cbn [rx_loop]. destruct (_ <=? _)%Z; [done|]. destruct (_ <=? _)%Z; [done|].
  destruct (received ev) as [[|c d]|] eqn:Hr; [done| |done].
  assert (delivered (ev :: evs) = (c :: d) ++ delivered evs) as Ed by (unfold delivered; cbn [omap list_omap]; by rewrite Hr).
  rewrite Ed, <- !app_assoc in E.
  rewrite (rx_data_prefix maxBody wire end_ hd pre (c :: d) (delivered evs ++ rest) W E (Hev _ eq_refl)).
  rewrite decide_False by (intros [_ ?]%app_nil; done). apply IH; [|done]. by rewrite E, <- app_assoc.
Qed.

(** ** Printing a reply *)

Definition print_status (code : Z) (text : bytes) : bytes :=
  str "HTTP/1.1" ++ SP :: to_string code ++ SP :: text.

Definition print_reply (code : Z) (text : bytes) (hs : header_fields) (body : bytes) : bytes :=
  print_status code text ++ crlf ++ print_headers hs ++ crlf ++ body.

Definition reply_field_ok (h : bytes * bytes) : Prop :=
  (∀ c, c ∈ [CR; LF; ":"%char] → c ∉ h.1) ∧ (∀ c, c ∈ [CR; LF] → c ∉ h.2) ∧
  (∀ c, head h.2 = Some c → isspace c = false).

Definition is_field (k : bytes) (h : bytes * bytes) : bool := bool_decide (to_lower h.1 = k).

(** The headers of a reply that are passed on to the client. *)
Definition passed_on (hs : header_fields) : header_list :=
  prod_map to_lower id <$> filter (λ h, reply_reserved (to_lower h.1) = false) hs.

(** What the last Connection header says; [dflt] when there is none. *)
Definition keeps_open (dflt : bool) (hs : header_fields) : bool :=
  foldl (λ b h, if is_field (str "connection") h then negb (isConnectionClose h.2) else b) dflt hs.

Lemma drop_while_no p s : (∀ c, head s = Some c → p c = false) → drop_while p s = s.
Proof. destruct s as [|c s]; [done|]. simpl. intros H. by rewrite (H c). Qed.

Lemma read_reply_line_print maxBody h hd :
  reply_field_ok h →
  read_reply_line maxBody (print_header h) hd =
    if is_field (str "content-length") h then
      if gotContentLength hd then None
      else
        match parse_size h.2 with
        | None => None
        | Some n => if (maxBody <? n)%Z then None
                    else Some (mkReplyHead n true (reusable hd) (reply_headers hd))
        end
    else if is_field (str "transfer-encoding") h then None
    else Some (mkReplyHead (contentLength hd) (gotContentLength hd) (keeps_open (reusable hd) [h])
                 (reply_headers hd ++ passed_on [h])).
Proof.
  destruct h as [k v]. intros (Hk & Hv & Hsp). unfold read_reply_line, print_header, is_field, keeps_open.
  cbn [fst snd foldl] in *. rewrite find_char_hit by (apply Hk; by_decide). cbv zeta.
  unfold substr. rewrite drop_0, take_app_length.
  rewrite drop_app_ge by lia. replace (length k + 1 - length k) with 1 by lia.
  change (drop 1 (":"%char :: SP :: v)) with (SP :: v).
  change (drop_while isspace (SP :: v)) with (drop_while isspace v). rewrite drop_while_no by done.
  unfold passed_on, reply_reserved. rewrite filter_cons. cbn [fst snd].
  set (key := to_lower k).
  destruct (decide (key = str "content-length")) as [E|N1]; [by rewrite bool_decide_true|].
  rewrite (bool_decide_false (key = str "content-length")) by done.
  destruct (decide (key = str "transfer-encoding")) as [E|N2]; [by rewrite bool_decide_true|].
  rewrite (bool_decide_false (key = str "transfer-encoding")) by done.
  unfold is_field. cbn [fst snd]. fold key.
  destruct (decide (key = str "connection")) as [E|N3].
  - rewrite (bool_decide_true (key = _)) by done. simpl. by rewrite app_nil_r.
  - rewrite (bool_decide_false (key = str "connection")) by done. simpl.
    destruct (dropped_reply_header key); simpl; [|done].
    rewrite app_nil_r. by destruct hd.
Qed.

(** Exactly one Content-Length, and no Transfer-Encoding. *)
Definition framed (hs : header_fields) (len : Z) : Prop :=
  (∃ k, filter (λ h, is_field (str "content-length") h = true) hs = [(k, to_string len)]) ∧
  Forall (λ h, is_field (str "transfer-encoding") h = false) hs.

Definition fold_fields (maxBody : Z) (hs : header_fields) (hd : reply_head) : option reply_head :=
  read_lines maxBody (print_header <$> hs) hd.

Lemma fold_fields_cons maxBody h hs hd :
  fold_fields maxBody (h :: hs) hd =
  hd' ← read_reply_line maxBody (print_header h) hd; fold_fields maxBody hs hd'.
Proof. apply read_lines_cons. Qed.

Lemma passed_on_cons h hs : passed_on (h :: hs) = passed_on [h] ++ passed_on hs.
Proof. unfold passed_on. rewrite !filter_cons. by case_decide. Qed.

Lemma fold_fields_after maxBody hs hd :
  Forall reply_field_ok hs → gotContentLength hd = true →
  Forall (λ h, is_field (str "content-length") h = false) hs →
  Forall (λ h, is_field (str "transfer-encoding") h = false) hs →
  fold_fields maxBody hs hd =
    Some (mkReplyHead (contentLength hd) true (keeps_open (reusable hd) hs)
            (reply_headers hd ++ passed_on hs)).
Proof.
  revert hd. induction hs as [|h hs IH]; intros hd Hok Hg Hc Ht.
  - unfold fold_fields, passed_on, keeps_open. simpl. rewrite app_nil_r, <- Hg. by destruct hd.
  - apply Forall_cons in Hok as [Ho Hok], Hc as [Hc1 Hc], Ht as [Ht1 Ht].
    rewrite fold_fields_cons, read_reply_line_print, Hc1, Ht1 by done. simpl.
    rewrite IH by done. simpl. by rewrite (passed_on_cons h hs), app_assoc.
Qed.

Lemma fold_fields_spec maxBody len hs hd :
  Forall reply_field_ok hs → gotContentLength hd = false → framed hs len →
  (0 ≤ len < 2 ^ 64)%Z → (len ≤ maxBody)%Z →
  fold_fields maxBody hs hd =
    Some (mkReplyHead len true (keeps_open (reusable hd) hs) (reply_headers hd ++ passed_on hs)).
Proof.
  intros Hok Hg [[k Hf] Hte] Hlen Hmax. revert hd Hg. induction hs as [|h hs IH]; intros hd Hg; [done|].
  apply Forall_cons in Hok as [Ho Hok], Hte as [Ht1 Hte].
  rewrite fold_fields_cons, read_reply_line_print by done. rewrite filter_cons in Hf.
  destruct (is_field (str "content-length") h) eqn:Hc.
  - rewrite decide_True in Hf by done. injection Hf as -> Hnil.
    rewrite Hg. cbn [snd]. rewrite parse_size_to_string by done.
    destruct (Z.ltb_spec maxBody len); [lia|]. simpl.
    rewrite fold_fields_after; [|done|done| |done].
    + apply bool_decide_eq_true in Hc. simpl in Hc. unfold passed_on. rewrite filter_cons. simpl.
      unfold is_field. simpl. by rewrite Hc.
    + apply Forall_forall. intros h' Hh'. destruct (is_field (str "content-length") h') eqn:E; [|done].
      exfalso. eapply elem_of_nil. rewrite <- Hnil. by apply list_elem_of_filter.
  - rewrite decide_False in Hf by done. rewrite Ht1. simpl. rewrite IH by done. simpl.
    by rewrite (passed_on_cons h hs), app_assoc.
Qed.

(** ** Where the header block ends *)

Lemma find_skip c d n s : c ≠ d → find (c :: n) (d :: s) = S <$> find (c :: n) s.
Proof. intros H. cbn [find is_prefix]. by rewrite bool_decide_false. Qed.

Lemma find_step n c s : is_prefix n (c :: s) = false → find n (c :: s) = S <$> find n s.
Proof. intros H. cbn [find]. by rewrite H. Qed.

Definition crlf2 : bytes := CR :: LF :: crlf.

Lemma find_crlf2_hit l r : CR ∉ l → find crlf2 (l ++ crlf ++ crlf ++ r) = Some (length l).
Proof.
  intros Hl. induction l as [|c l IH]; [done|]. apply not_elem_of_cons in Hl as [Hc Hl].
  rewrite <- app_comm_cons. unfold crlf2 in *. rewrite find_skip by done. by rewrite (IH Hl).
Qed.

Lemma find_crlf2_skip l r :
  CR ∉ l → is_prefix crlf r = false →
  find crlf2 (l ++ crlf ++ r) = (λ i, length l + 2 + i) <$> find crlf2 r.
Proof.
  intros Hl Hr. induction l as [|c l IH].
  - change ([] ++ crlf ++ r) with (CR :: LF :: r). unfold crlf2 in *.
    rewrite find_step by exact Hr. rewrite find_skip by done.
    by destruct (find _ r).
  - apply not_elem_of_cons in Hl as [Hc Hl]. rewrite <- app_comm_cons. unfold crlf2 in *.
    rewrite find_skip by done. rewrite (IH Hl). by destruct (find _ r).
Qed.

Lemma reply_line_no_CR h : reply_field_ok h → CR ∉ print_header h.
Proof.
  intros (Hk & Hv & _). unfold print_header.
  assert (CR ∉ h.1) by (apply Hk; by_decide). assert (CR ∉ h.2) by (apply Hv; by_decide).
  rewrite elem_of_app, !elem_of_cons. intros [?|[?|[?|?]]]; done.
Qed.

Lemma reply_line_no_LF h : reply_field_ok h → LF ∉ print_header h.
Proof.
  intros (Hk & Hv & _). unfold print_header.
  assert (LF ∉ h.1) by (apply Hk; by_decide). assert (LF ∉ h.2) by (apply Hv; by_decide).
  rewrite elem_of_app, !elem_of_cons. intros [?|[?|[?|?]]]; done.
Qed.

Lemma print_headers_no_crlf h hs r :
  reply_field_ok h → is_prefix crlf (print_headers (h :: hs) ++ r) = false.
Proof.
  intros Hh. pose proof (reply_line_no_CR h Hh) as Hcr.
  change (print_headers (h :: hs)) with ((print_header h ++ crlf) ++ print_headers hs).
  rewrite <- !app_assoc. destruct (print_header h) as [|c l] eqn:E.
  - by apply (f_equal length) in E; apply print_header_nonempty in E.
  - apply not_elem_of_cons in Hcr as [Hc _]. simpl. by rewrite bool_decide_false.
Qed.

Lemma find_header_block l hs body :
  CR ∉ l → Forall reply_field_ok hs →
  find crlf2 (l ++ crlf ++ print_headers hs ++ crlf ++ body) =
  Some (length (l ++ print_headers hs)).
Proof.
  intros Hl Hhs. revert l Hl. induction hs as [|h hs IH]; intros l Hl.
  - rewrite app_nil_r. by apply find_crlf2_hit.
  - apply Forall_cons in Hhs as [Hh Hhs].
    rewrite find_crlf2_skip by (done || by apply print_headers_no_crlf).
    change (print_headers (h :: hs)) with ((print_header h ++ crlf) ++ print_headers hs).
    rewrite <- !app_assoc, IH by (done || by apply reply_line_no_CR). simpl. f_equal.
    rewrite !length_app. simpl. lia.
Qed.

Lemma read_reply_lines_print maxBody hs pre body f hd :
  Forall reply_field_ok hs → 0 < f → length hs < f →
  read_reply_lines maxBody f (pre ++ print_headers hs ++ crlf ++ body)
    (length (pre ++ print_headers hs) - 2) (length pre) hd = fold_fields maxBody hs hd.
Proof.
  revert pre f hd. induction hs as [|h hs IH]; intros pre f hd Hhs Hf0 Hf;
    (destruct f as [|f]; [lia|]); cbn [read_reply_lines].
  - rewrite app_nil_r. rewrite decide_False by lia. done.
  - apply Forall_cons in Hhs as [Hh Hhs]. pose proof (print_header_nonempty h) as Hne.
    change (print_headers (h :: hs)) with ((print_header h ++ crlf) ++ print_headers hs).
    assert (length (pre ++ (print_header h ++ crlf) ++ print_headers hs) - 2 =
            length pre + length (print_header h) + length (print_headers hs)) as El
      by (rewrite !length_app; simpl; lia).
    rewrite decide_True by lia. rewrite <- !app_assoc, find_from_here, find_crlf_line by (by apply reply_line_no_LF).
    cbn [fmap option_fmap option_map]. rewrite decide_False by (rewrite !length_app in *; simpl in *; lia).
    rewrite Nat.add_sub', substr_mid, fold_fields_cons.
    destruct (read_reply_line maxBody (print_header h) hd) as [hd'|]; [|done]. cbn [mbind option_bind].
    rewrite <- (IH (pre ++ print_header h ++ crlf) f hd' Hhs) by (simpl in Hf; lia).
    rewrite <- !app_assoc. do 2 f_equal. rewrite !length_app. simpl. lia.
Qed.

Lemma length_print_headers hs : length hs ≤ length (print_headers hs).
Proof.
  induction hs as [|h hs IH]; [simpl; lia|].
  change (print_headers (h :: hs)) with ((print_header h ++ crlf) ++ print_headers hs).
  rewrite !length_app. simpl. lia.
Qed.

(** ** Reading the status line *)

Record good_reply (maxBody code : Z) (text : bytes) (hs : header_fields) (body : bytes) : Prop := {
  good_code : (0 ≤ code ≤ int_max)%Z;
  good_text : ∀ c, c ∈ [CR; LF] → c ∉ text;
  good_fields : Forall reply_field_ok hs;
  good_framed : framed hs (size_of body);
  good_max : (size_of body ≤ maxBody)%Z;
  good_head : (size_of (print_status code text ++ crlf ++ print_headers hs ++ crlf) + 8192 ≤ 32769)%Z;
  good_u64 : (size_of (print_reply code text hs body) < 2 ^ 64)%Z
}.

Lemma print_status_clean code text c :
  (0 ≤ code)%Z → c ∈ [CR; LF] → c ∉ text → c ∉ print_status code text.
Proof.
  intros Hcode Hc Ht.
  assert (c ∉ str "HTTP/1.1" ∧ c ≠ SP ∧ isdigit c = false) as (H1 & H2 & H3).
  { repeat (apply elem_of_cons in Hc as [->|Hc]; [split_and!; by_decide|]). by apply elem_of_nil in Hc. }
  unfold print_status. rewrite elem_of_app, elem_of_cons, elem_of_app, elem_of_cons.
  intros [?|[?|[H|[?|?]]]]; [done|done| |done|done].
  apply to_string_digits in H; [congruence|done].
Qed.

Lemma good_whole maxBody code text hs body :
  good_reply maxBody code text hs body →
  whole_reply maxBody (print_reply code text hs body)
    (length (print_status code text ++ print_headers hs))
    (mkReplyHead (size_of body) true (keeps_open false hs) (passed_on hs)).
Proof.
  intros [Hc Ht Hf Hfr Hmax Hhead Hu]. unfold print_reply in *. set (st := print_status code text) in *.
  assert (∀ c, c ∈ [CR; LF] → c ∉ st) as Hst.
  { intros c Hin. apply print_status_clean; [lia|done|by apply Ht]. }
  split.
  - change (crlf ++ crlf) with crlf2. apply find_header_block; [apply Hst; by_decide|done].
  - unfold read_reply_head. rewrite find_crlf_line by (apply Hst; by_decide).
    replace (length st + 2) with (length (st ++ crlf)) by (rewrite length_app; done).
    replace (length (st ++ print_headers hs)) with (length ((st ++ crlf) ++ print_headers hs) - 2)
      by (rewrite !length_app; simpl; lia).
    rewrite (app_assoc st crlf), read_reply_lines_print; [|done|lia|].
    2: { pose proof (length_print_headers hs). rewrite !length_app. lia. }
    rewrite (fold_fields_spec maxBody (size_of body)); [done|done|done|done| |done].
    unfold size_of in *. rewrite !length_app in Hu. lia.
  - unfold size_of. simpl contentLength. unfold size_of. rewrite !length_app. simpl length. lia.
  - unfold size_of in Hhead. rewrite !length_app in *. simpl length in *. lia.
  - done.
Qed.

Lemma read_reply_print maxBody code text hs body :
  good_reply maxBody code text hs body →
  read_reply (mkRx (print_reply code text hs body)
    (Some (length (print_status code text ++ print_headers hs),
           mkReplyHead (size_of body) true (keeps_open false hs) (passed_on hs)))) =
  Some (mkHttpResponse code text (passed_on hs) body, keeps_open false hs).
Proof.
  intros [Hc Ht Hf Hfr Hmax Hhead Hu]. unfold read_reply. cbn [headerEnd raw contentLength reply_headers reusable].
  assert (print_reply code text hs body = str "HTTP/1.1" ++ SP :: to_string code ++ SP :: text ++ crlf ++
            print_headers hs ++ crlf ++ body) as Ew.
  { unfold print_reply, print_status. rewrite <- !app_assoc. simpl. by rewrite <- !app_assoc. }
  assert (SP ∉ to_string code) as Hsp by (intros ?%to_string_digits; [done|lia]).
  rewrite Ew at 1. rewrite find_char_hit by by_decide. change (length (str "HTTP/1.1")) with 8.
  assert (drop (8 + 1) (print_reply code text hs body) =
          to_string code ++ SP :: text ++ crlf ++ print_headers hs ++ crlf ++ body) as Ed by (by rewrite Ew).
  rewrite Ed, find_char_hit by done. cbv zeta.
  assert (find crlf (print_reply code text hs body) = Some (length (print_status code text))) as ->.
  { apply find_crlf_line, print_status_clean; [lia|by_decide|apply Ht; by_decide]. }
  f_equal. f_equal. f_equal.
  - unfold substr. rewrite Ed.
    replace (8 + 1 + length (to_string code) - 8 - 1) with (length (to_string code)) by lia.
    rewrite take_app_length. apply atoi_to_string. unfold int_min in *. lia.
  - unfold substrZ. replace (8 + 1 + length (to_string code) + 1)
      with ((8 + 1) + S (length (to_string code))) by lia.
    rewrite <- drop_drop, Ed, (drop_app_ge _ (SP :: _)) by lia.
    replace (S (length (to_string code)) - length (to_string code)) with 1 by lia. cbn [drop].
    assert (length (print_status code text) = 8 + 1 + length (to_string code) + 1 + length text) as El.
    { unfold print_status. rewrite length_app. simpl. rewrite length_app. simpl. lia. }
    assert (Z.of_nat (length text) < 2 ^ 64)%Z.
    { unfold size_of in Hu. rewrite Ew in Hu. rewrite length_app in Hu. simpl in Hu.
      rewrite !length_app in Hu. simpl in Hu. rewrite !length_app in Hu. lia. }
    cbn [npos_of]. rewrite El, u64_small by lia.
    unfold size_of. rewrite drop_0, length_app.
    rewrite take_app_le, take_ge by lia. done.
  - unfold substrZ. replace (length (print_status code text ++ print_headers hs) + 4)
      with (length (print_status code text ++ crlf ++ print_headers hs ++ crlf))
      by (rewrite !length_app; simpl; lia).
    unfold print_reply. rewrite !app_assoc, drop_app_length. unfold size_of.
    apply take_ge. lia.
Qed.

(** ** Theorems *)

(** C24: an accepted reply is length-delimited.  Whatever a backend sends, and
    however it is cut up, when [sendAndReceive] accepts a reply the bytes
    received are a status line, header lines, an empty line and a body of
    exactly the length that the one Content-Length among the header lines
    declares (there is no Transfer-Encoding): that body is the response's, and
    it is at most [maxBodyBytes] long.  None of the response's headers is a
    Content-Length, Transfer-Encoding, Connection, Keep-Alive,
    Proxy-Connection or Upgrade (names are in lower case), so the gateway
    alone decides how the response to the client is framed. *)
Theorem reply_well_framed request maxBody sends recvs resp keep :
  sendAndReceive request maxBody sends recvs = Returned (Some (resp, keep)) →
  (∃ front, front `prefix_of` recvs ∧ delimited (delivered front) (rs_body resp)) ∧
  (size_of (rs_body resp) ≤ maxBody)%Z ∧
  Forall (λ h, reply_reserved h.1 = false ∧ to_lower h.1 = h.1) (rs_headers resp).
Proof.
  unfold sendAndReceive. destruct (tx_loop _ _ _) as [|[u|]]; [done| |done].
  destruct (rx_loop _ _ _) as [|[s|]] eqn:Hrx; [done| |done]. intros [= Hr].
  destruct (rx_loop_ok maxBody recvs (mkRx [] None) s I Hrx) as (Hok & Hc & front & Hfr & Hraw).
  destruct (rx_delimited maxBody s Hok Hc) as (end_ & hd & Hend & [_ _ L3] & Hdel & Hsz & Hmax).
  unfold read_reply in Hr. rewrite Hend in Hr. destruct (find_char SP (raw s)) as [f|]; [|done].
  destruct (find_char SP _) as [i|]; [|done]. injection Hr as <- _. simpl.
  split_and!; [|by rewrite Hsz|done]. exists front. simpl in Hraw. by rewrite <- Hraw.
Qed.

Definition reply_wire : bytes :=
  print_reply 200 (str "OK") [(str "Content-Length", str "2"); (str "ETag", str "x")] (str "hi").

(** A peer that takes [n] bytes at once. *)
Definition send_all (n : Z) : list send_event := [mkSend 1 (Sent n)].

Lemma reply_well_framed_witness :
  let recvs := timely 50 [reply_wire] in
  sendAndReceive (str "GET") 100 (send_all 3) recvs =
    Returned (Some (mkHttpResponse 200 (str "OK") [(str "etag", str "x")] (str "hi"), false)) ∧
  (∃ front, front `prefix_of` recvs ∧ delimited (delivered front) (str "hi")) ∧
  (size_of (str "hi") ≤ 100)%Z.
Proof.
  intros recvs.
  assert (sendAndReceive (str "GET") 100 (send_all 3) recvs =
    Returned (Some (mkHttpResponse 200 (str "OK") [(str "etag", str "x")] (str "hi"), false))) as E
    by (vm_compute; reflexivity).
  split; [exact E|].
  destruct (reply_well_framed (str "GET") 100 (send_all 3) recvs _ _ E) as (H1 & H2 & _).
  exact (conj H1 H2).
Defined.

(** The send loop is over when every byte has been taken. *)
Lemma tx_loop_all (len : Z) : (0 < len < 2 ^ 64)%Z → tx_loop len (send_all len) 0 = Returned (Some tt).
Proof.
  intros Hl. simpl. destruct (Z.leb_spec len 0); [lia|]. rewrite u64_small by lia.
  by destruct (Z.leb_spec len (0 + len)); [|lia].
Qed.

(** C22: replies are read back whole.  A reply with any status code, reason
    phrase and header fields, one Content-Length that is its body's length
    and no Transfer-Encoding, within the size limits, delivered in time in
    any non-empty chunks of up to 8192 bytes, is accepted: the status, the
    reason, the passed-on headers in order (names in lower case) and the body
    are those sent, and the connection is reusable exactly when its last
    Connection header does not say close. *)
Theorem reply_round_trip request maxBody ms chunks code text hs body :
  good_reply maxBody code text hs body → (0 < size_of request < 2 ^ 64)%Z → (0 < ms)%Z →
  Forall (λ c, c ≠ [] ∧ (size_of c ≤ 8192)%Z) chunks → concat chunks = print_reply code text hs body →
  sendAndReceive request maxBody (send_all (size_of request)) (timely ms chunks) =
  Returned (Some (mkHttpResponse code text (passed_on hs) body, keeps_open false hs)).
Proof.
  intros Hg Hreq Hms Hch Hcat. unfold sendAndReceive. rewrite tx_loop_all by done.
  pose proof (good_whole _ _ _ _ _ Hg) as Hw.
  pose proof (rx_loop_chunks maxBody _ _ _ ms chunks [] Hw Hms) as Hrx.
  unfold rx_at in Hrx. simpl find in Hrx. cbv iota in Hrx. rewrite Hrx; [|by intros ->|done|by rewrite Hcat].
  by rewrite (read_reply_print maxBody).
Qed.

Definition reply_fields : header_fields :=
  [(str "Content-Length", str "2"); (str "Connection", str "keep-alive"); (str "ETag", str "x")].

Lemma reply_fields_good : good_reply 100 200 (str "OK") reply_fields (str "hi").
Proof.
  split; try (vm_compute; split; congruence); try (vm_compute; congruence).
  - intros c Hc. repeat (apply elem_of_cons in Hc as [->|Hc]; [by_decide|]). by apply elem_of_nil in Hc.
  - repeat constructor; cbn; intros c Hc;
      repeat (apply elem_of_cons in Hc as [->|Hc]; [by_decide|]); try (by apply elem_of_nil in Hc);
      simplify_eq; reflexivity.
  - split; [by exists (str "Content-Length")|repeat constructor].
Qed.

Definition one_byte_chunks (s : bytes) : list bytes := (λ c, [c]) <$> s.

Lemma concat_one_byte_chunks s : concat (one_byte_chunks s) = s.
Proof.
  induction s as [|c s IH]; [done|].
  change (concat (one_byte_chunks (c :: s))) with (c :: concat (one_byte_chunks s)). by rewrite IH.
Qed.

Lemma reply_round_trip_witness :
  sendAndReceive (str "GET") 100 (send_all 3)
    (timely 50 (one_byte_chunks (print_reply 200 (str "OK") reply_fields (str "hi")))) =
  Returned (Some (mkHttpResponse 200 (str "OK") [(str "etag", str "x")] (str "hi"), true)).
Proof.
  refine (reply_round_trip (str "GET") 100 50 _ 200 (str "OK") reply_fields (str "hi") _ _ _ _ _).
  - exact reply_fields_good.
  - by vm_compute.
  - done.
  - apply Forall_fmap, Forall_true. intros c. split; [done|]. by vm_compute.
  - apply concat_one_byte_chunks.
Defined.

(** C25: a reply that is cut short is never accepted.  If all that a backend
    sends, however it is cut up and whatever the timing, is a proper prefix of
    a reply, then no response comes of it.  (Nor if the prefix is all there
    is to send, as in the answer to HEAD: [sendAndReceive] is not told the
    method.) *)
Theorem short_reply_refused request maxBody sends recvs code text hs body rest r :
  good_reply maxBody code text hs body → print_reply code text hs body = delivered recvs ++ rest → rest ≠ [] →
  Forall (λ ev, ∀ d, received ev = Some d → size_of d ≤ 8192)%Z recvs →
  sendAndReceive request maxBody sends recvs ≠ Returned (Some r).
Proof.
  intros Hg E Hne Hf. unfold sendAndReceive. destruct (tx_loop _ _ _) as [|[u|]]; [done| |done].
  pose proof (good_whole _ _ _ _ _ Hg) as Hw.
  pose proof (λ s, rx_loop_short maxBody _ _ _ recvs [] rest s Hw E Hne Hf) as Hs.
  unfold rx_at in Hs. simpl find in Hs. cbv iota in Hs.
  destruct (rx_loop _ _ _) as [|[s|]]; [done| |done]. by destruct (Hs s).
Qed.

Lemma short_reply_refused_witness :
  let recvs := timely 50 [print_reply 200 (str "OK") reply_fields []] ++ [mkRecv 0 0 None] in
  sendAndReceive (str "HEAD") 100 (send_all 4) recvs = Returned None ∧
  sendAndReceive (str "HEAD") 100 (send_all 4) recvs ≠ Returned (Some (mkHttpResponse 200 (str "OK") [(str "etag", str "x")] [], true)).
Proof.
  intros recvs. split; [vm_compute; reflexivity|].
  apply (short_reply_refused (str "HEAD") 100 (send_all 4) recvs 200 (str "OK") reply_fields (str "hi") (str "hi")
    (mkHttpResponse 200 (str "OK") [(str "etag", str "x")] [], true)).
  - exact reply_fields_good.
  - reflexivity.
  - done.
  - repeat constructor; intros d [= <-]. by vm_compute.
Defined.

(** A status line without a reason phrase corrupts the response.  The
    reply [HTTP/1.1 200] (no trailing blank), which carries an empty body, is
    accepted; its reason phrase becomes the bytes after the next blank of the
    header block, line ends included, so the status line the client gets ends
    early and the client reads an end of headers where there is none. *)
Theorem reply_without_reason_splits :
  let wire := str "HTTP/1.1 200" ++ crlf ++ str "Content-Length: 0" ++ crlf ++ crlf in
  match sendAndReceive (str "GET") 100 (send_all 3) (timely 50 [wire]) with
  | Returned (Some (resp, _)) =>
      rs_statusCode resp = 200%Z ∧ rs_statusText resp = str "0" ++ crlf ++ crlf ∧
      is_prefix (str "HTTP/1.1 200 0" ++ crlf ++ crlf) (serialize true resp) = true
  | _ => False
  end.
Proof. vm_compute. done. Qed.

(** The receive loop ends by its deadline.  Once an event reports no time
    left, [sendAndReceive]'s receive loop has returned, whatever came
    before. *)
Theorem reply_deadline maxBody evs1 ev evs2 s :
  (remainingMs ev ≤ 0)%Z →
  ∃ r, rx_loop maxBody (evs1 ++ ev :: evs2) s = Returned r ∧
       rx_loop maxBody (evs1 ++ [ev]) s = Returned r.
Proof.
  intros Hev. revert s. induction evs1 as [|e evs1 IH]; intros s; simpl.
  - destruct (Z.leb_spec (remainingMs ev) 0); [eauto|lia].
  - destruct (_ <=? _)%Z; [eauto|]. destruct (_ <=? _)%Z; [eauto|].
    destruct (received e) as [[|c d]|]; [eauto| |eauto]. destruct (rx_data _ _ _); eauto.
Qed.

Lemma reply_deadline_witness :
  ∃ r, rx_loop 100 ([mkRecv 50 1 (Some (str "HTTP"))] ++ mkRecv 0 0 None :: []) (mkRx [] None) = Returned r ∧
       rx_loop 100 ([mkRecv 50 1 (Some (str "HTTP"))] ++ [mkRecv 0 0 None]) (mkRx [] None) = Returned r.
Proof. by apply (reply_deadline 100 [mkRecv 50 1 (Some (str "HTTP"))] (mkRecv 0 0 None) [] (mkRx [] None)). Defined.

(** ** The bytes a reply leaves on its connection *)

(** What the receive loop has not read when it returns: the next exchange on
    the same connection starts with it. *)
Fixpoint rx_rest (maxBody : Z) (evs : list recv_event) (s : rx_state) : list recv_event :=
  match evs with
  | [] => []
  | ev :: evs' =>
      match received ev with
      | None | Some [] => evs'
      | Some data =>
          match rx_data maxBody data s with RxMore s' => rx_rest maxBody evs' s' | _ => evs' end
      end
  end.

Lemma rx_rest_chunks maxBody wire end_ hd ms chunks pre later :
  whole_reply maxBody wire end_ hd → chunks ≠ [] →
  Forall (λ c, c ≠ [] ∧ (size_of c ≤ 8192)%Z) chunks → wire = pre ++ concat chunks →
  rx_rest maxBody (timely ms chunks ++ later) (rx_at wire end_ hd pre) = later.
Proof.
  intros W. revert pre. induction chunks as [|c chunks IH]; intros pre Hne Hch E; [done|].
  apply Forall_cons in Hch as [[Hc Hl] Hch]. simpl in E.
  cbn [timely fmap list_fmap app rx_rest received]. destruct c as [|x c]; [done|].
  rewrite (rx_data_prefix maxBody wire end_ hd pre (x :: c) (concat chunks) W E Hl).
  destruct (decide (concat chunks = [])) as [En|Hn].
  - destruct chunks as [|c' chunks]; [done|]. apply Forall_cons in Hch as [[Hc' _] _].
    by apply app_nil in En as [? _].
  - apply IH; [by intros ->|done|]. by rewrite E, app_assoc.
Qed.

(** Exchanges on one connection are told apart by their order alone.  When a
    backend sends a second reply after the one that was asked for, the
    exchange accepts the first and leaves the second on the connection, and
    the next request sent on it, whatever it asks for, gets that reply. *)
Theorem leftover_answers_next request maxBody ms chunks1 chunks2 code1 text1 hs1 body1 code2 text2 hs2 body2 :
  good_reply maxBody code1 text1 hs1 body1 → good_reply maxBody code2 text2 hs2 body2 →
  (0 < size_of request < 2 ^ 64)%Z → (0 < ms)%Z →
  Forall (λ c, c ≠ [] ∧ (size_of c ≤ 8192)%Z) (chunks1 ++ chunks2) →
  concat chunks1 = print_reply code1 text1 hs1 body1 → concat chunks2 = print_reply code2 text2 hs2 body2 →
  sendAndReceive request maxBody (send_all (size_of request))
    (rx_rest maxBody (timely ms (chunks1 ++ chunks2)) (mkRx [] None)) =
  Returned (Some (mkHttpResponse code2 text2 (passed_on hs2) body2, keeps_open false hs2)).
Proof.
  intros Hg1 Hg2 Hreq Hms [Hch1 Hch2]%Forall_app Hcat1 Hcat2.
  unfold timely. rewrite fmap_app. fold (timely ms chunks1) (timely ms chunks2).
  pose proof (good_whole _ _ _ _ _ Hg1) as Hw1. pose proof (good_whole _ _ _ _ _ Hg2) as Hw2.
  pose proof (rx_rest_chunks maxBody _ _ _ ms chunks1 [] (timely ms chunks2) Hw1) as Hrest.
  unfold rx_at in Hrest. simpl find in Hrest. cbv iota in Hrest.
  rewrite Hrest; [|by intros ->|done|by rewrite Hcat1].
  unfold sendAndReceive. rewrite tx_loop_all by done.
  pose proof (rx_loop_chunks maxBody _ _ _ ms chunks2 [] Hw2 Hms) as Hrx.
  unfold rx_at in Hrx. simpl find in Hrx. cbv iota in Hrx. rewrite Hrx; [|by intros ->|done|by rewrite Hcat2].
  by rewrite (read_reply_print maxBody).
Qed.

Lemma leftover_answers_next_witness :
  let reply := print_reply 200 (str "OK") reply_fields (str "hi") in
  sendAndReceive (str "GET /other") 100 (send_all 10) (rx_rest 100 (timely 50 ([reply] ++ [reply])) (mkRx [] None)) =
  Returned (Some (mkHttpResponse 200 (str "OK") [(str "etag", str "x")] (str "hi"), true)).
Proof.
  refine (leftover_answers_next (str "GET /other") 100 50 [print_reply 200 (str "OK") reply_fields (str "hi")]
    [print_reply 200 (str "OK") reply_fields (str "hi")] 200 (str "OK") reply_fields (str "hi")
    200 (str "OK") reply_fields (str "hi") reply_fields_good reply_fields_good _ _ _ _ _); try done.
  repeat constructor; vm_compute; congruence.
Defined.
