(* ===== verification/Forward.v ===== *)
(** * Forwarding with resilience (src/core/Gateway.cpp, forwardWithResilience)

    The gateway's shared subsystems as one state, and the retry loop that
    picks a backend, asks its circuit breaker, borrows a connection, talks to
    the backend and settles the outcome.  What the clock, the network and the
    operating system answer during one attempt is an [attempt_env]; the loop
    takes one per attempt and has no result ([None]) when it is given fewer
    events than it needs.  The sequence modelled is one worker's; the calls
    it makes into the subsystems are their atomic operations. *)
From S2P Require Import Prelude CxxString CircuitBreaker RateLimiter RetryPolicy LRUCache HttpMessage HttpParser LoadBalancer Router ConnectionPool Metrics BackendIO.

Record CachedResponse := mkCachedResponse {
  cr_statusCode : Z; cr_statusText : bytes; cr_headers : header_list; cr_body : bytes
}.

Record Gateway := mkGateway {
  maxResponseBodyBytes : Z;                  (* cfg_ *)
  gw_backends : bstore;                      (* allBackends_ *)
  gw_lbs : list LoadBalancer;                (* loadBalancers_ *)
  router_ : list Route;
  rateLimiter_ : TokenBucketRateLimiter;
  retryPolicy_ : RetryPolicy;
  cache_ : LRUCache CachedResponse;
  pool_ : ConnectionPool;
  os_sockets : sockets;                      (* open backend sockets *)
  metrics : Metrics;                         (* Metrics::instance() *)
  id_counter : Z                             (* RequestIdGenerator's counter *)
}.

Definition set_backends (bs : bstore) (gw : Gateway) : Gateway :=
  mkGateway (maxResponseBodyBytes gw) bs (gw_lbs gw) (router_ gw) (rateLimiter_ gw) (retryPolicy_ gw)
    (cache_ gw) (pool_ gw) (os_sockets gw) (metrics gw) (id_counter gw).
Definition set_lbs (lbs : list LoadBalancer) (gw : Gateway) : Gateway :=
  mkGateway (maxResponseBodyBytes gw) (gw_backends gw) lbs (router_ gw) (rateLimiter_ gw)
    (retryPolicy_ gw) (cache_ gw) (pool_ gw) (os_sockets gw) (metrics gw) (id_counter gw).
Definition set_limiter (rl : TokenBucketRateLimiter) (gw : Gateway) : Gateway :=
  mkGateway (maxResponseBodyBytes gw) (gw_backends gw) (gw_lbs gw) (router_ gw) rl
    (retryPolicy_ gw) (cache_ gw) (pool_ gw) (os_sockets gw) (metrics gw) (id_counter gw).
Definition set_cache (c : LRUCache CachedResponse) (gw : Gateway) : Gateway :=
  mkGateway (maxResponseBodyBytes gw) (gw_backends gw) (gw_lbs gw) (router_ gw) (rateLimiter_ gw)
    (retryPolicy_ gw) c (pool_ gw) (os_sockets gw) (metrics gw) (id_counter gw).
Definition set_pool (pool : ConnectionPool) (os : sockets) (gw : Gateway) : Gateway :=
  mkGateway (maxResponseBodyBytes gw) (gw_backends gw) (gw_lbs gw) (router_ gw) (rateLimiter_ gw)
    (retryPolicy_ gw) (cache_ gw) pool os (metrics gw) (id_counter gw).
Definition on_metrics (f : Metrics → Metrics) (gw : Gateway) : Gateway :=
  mkGateway (maxResponseBodyBytes gw) (gw_backends gw) (gw_lbs gw) (router_ gw) (rateLimiter_ gw)
    (retryPolicy_ gw) (cache_ gw) (pool_ gw) (os_sockets gw) (f (metrics gw)) (id_counter gw).
Definition set_ids (n : Z) (gw : Gateway) : Gateway :=
  mkGateway (maxResponseBodyBytes gw) (gw_backends gw) (gw_lbs gw) (router_ gw) (rateLimiter_ gw)
    (retryPolicy_ gw) (cache_ gw) (pool_ gw) (os_sockets gw) (metrics gw) n.

(** ** Operations on one shared backend *)

Definition with_breaker (cb : CircuitBreaker) (b : Backend) : Backend :=
  mkBackend (host b) (port b) (healthy b) (activeConnections b) cb.

(** [activeConnections.fetch_add(n)] on an [int]. *)
Definition add_active (n : Z) (b : Backend) : Backend :=
  mkBackend (host b) (port b) (healthy b) (wrap32 (activeConnections b + n)) (circuitBreaker b).

Definition on_backend (i : bptr) (f : Backend → Backend) (gw : Gateway) : Gateway :=
  set_backends (alter f i (gw_backends gw)) gw.

(** [backend->circuitBreaker->allowRequest()]. *)
Definition ask_breaker (now : Z) (i : bptr) (gw : Gateway) : bool * Gateway :=
  match gw_backends gw !! i with
  | None => (false, gw)
  | Some b =>
      let '(ok, cb) := allowRequest now (circuitBreaker b) in
      (ok, on_backend i (with_breaker cb) gw)
  end.

(** [route.lb->pick()]. *)
Definition pick_backend (route : Route) (gw : Gateway) : option bptr * Gateway :=
  match gw_lbs gw !! lb route with
  | None => (None, gw)
  | Some l =>
      let '(r, l') := pick (gw_backends gw) l in (r, set_lbs (<[lb route := l']> (gw_lbs gw)) gw)
  end.

Section forward.
Context (iterate : gmap bytes bytes → header_list).

(** Answers of the environment during one attempt. *)
Record attempt_env := mkAttemptEnv {
  at_allow : Z;                    (* clock in allowRequest *)
  at_dial : sockets → dial_env;    (* dialNew's system calls, given the sockets in use *)
  at_sends : list send_event;      (* sendAndReceive's *)
  at_recvs : list recv_event;
  at_failure : Z                   (* clock in onFailure *)
}.

(** Lines 474-483: borrow a connection and talk to the backend; the
    descriptor, the reply ([None]: not [ok]) and the state, or nothing when
    the exchange does not end within the events. *)
Definition contact (env : attempt_env) (req : HttpRequest) (i : bptr) (b : Backend) (gw : Gateway)
    : option (fd_t * option (HttpResponse * bool) * Gateway) :=
  let gw := on_backend i (add_active 1) gw in
  let '(fd, pool, os) :=
    acquire (at_dial env (os_sockets gw)) (host b) (port b) (pool_ gw) (os_sockets gw) in
  let gw := set_pool pool os gw in
  let outcome :=
    if (0 <=? fd)%Z
    then sendAndReceive (buildBackendRequest iterate req (host b)) (maxResponseBodyBytes gw)
           (at_sends env) (at_recvs env)
    else Returned None in
  match outcome with
  | Blocked => None
  | Returned r => Some (fd, r, on_backend i (add_active (-1)) gw)
  end.

Inductive attempt_result :=
  | Answer (resp : HttpResponse) (gw : Gateway)      (* return resp *)
  | Retry (gw : Gateway)                             (* falls through to the delay *)
  | Skip (gw : Gateway).                             (* continue *)

(** Lines 485-500: give the connection back, tell the breaker, and decide. *)
Definition settle (env : attempt_env) (i : bptr) (b : Backend) (fd : fd_t)
    (r : option (HttpResponse * bool)) (is_last : bool) (gw : Gateway) : attempt_result :=
  match r with
  | Some (resp, reusable) =>
      let gw := on_backend i (λ b, with_breaker (onSuccess (circuitBreaker b)) b) gw in
      let gw :=
        if reusable : bool then
          let '(pool, os) := release (host b) (port b) fd (pool_ gw) (os_sockets gw) in
          set_pool pool os gw
        else set_pool (pool_ gw) (discard fd (os_sockets gw)) gw in
      if (rs_statusCode resp <? 500)%Z then Answer resp gw
      else if is_last then Answer resp gw
      else if negb (isRetryable (rs_statusCode resp)) then Answer resp gw
      else Retry gw
  | None =>
      let gw := if (0 <=? fd)%Z then set_pool (pool_ gw) (discard fd (os_sockets gw)) gw else gw in
      let gw := on_backend i (λ b, with_breaker (onFailure (at_failure env) (circuitBreaker b)) b) gw in
      if is_last then Answer (make 502 (str "Bad Gateway") (str "backend request failed")) gw
      else Retry gw
  end.

(** Lines 465-500: one iteration up to the delay. *)
Definition attempt (env : attempt_env) (route : Route) (req : HttpRequest) (is_last : bool)
    (gw : Gateway) : option attempt_result :=
  let '(picked, gw) := pick_backend route gw in
  match picked with
  | None => Some (Answer (make 503 (str "Service Unavailable") (str "no healthy backends")) gw)
  | Some i =>
      match gw_backends gw !! i with
      | None => None
      | Some b =>
          let '(ok, gw) := ask_breaker (at_allow env) i gw in
          if ok then
            match contact env req i b gw with
            | None => None
            | Some (fd, r, gw) => Some (settle env i b fd r is_last gw)
            end
          else Some (Skip (on_metrics incCircuitOpen gw))
      end
  end.

(** The loop, [n] iterations left.  The delay between two attempts and the
    log line change no state. *)
Fixpoint forward_loop (n : nat) (envs : list attempt_env) (route : Route) (req : HttpRequest)
    (gw : Gateway) : option (HttpResponse * Gateway) :=
  match n with
  | O => Some (make 503 (str "Service Unavailable") (str "all retries exhausted"), gw)
  | S n' =>
      match envs with
      | [] => None
      | env :: envs' =>
          match attempt env route req (bool_decide (n' = 0)) gw with
          | None => None
          | Some (Answer resp gw) => Some (resp, gw)
          | Some (Retry gw) => forward_loop n' envs' route req (on_metrics incRetries gw)
          | Some (Skip gw) => forward_loop n' envs' route req gw
          end
      end
  end.

(** [maxRetries() + 1] on [int]s: at the largest [int] it overflows, which the
    machine does by going around to the smallest. *)
Definition int_incr (n : Z) : Z := if (n =? int_max)%Z then int_min else (n + 1)%Z.
Definition attempts (gw : Gateway) : Z := int_incr (maxRetries (retryPolicy_ gw)).

Definition forwardWithResilience (envs : list attempt_env) (route : Route) (req : HttpRequest)
    (gw : Gateway) : option (HttpResponse * Gateway) :=
  forward_loop (Z.to_nat (attempts gw)) envs route req gw.
End forward.

Lemma attempts_le gw : Z.to_nat (attempts gw) ≤ Z.to_nat (maxRetries (retryPolicy_ gw) + 1).
Proof. unfold attempts, int_incr, int_min. destruct (_ =? _)%Z; lia. Qed.

(** ** What an attempt leaves unchanged *)

(** Everything but the breaker of a backend. *)
Definition backend_face (b : Backend) : bytes * Z * bool * Z :=
  (host b, port b, healthy b, activeConnections b).

Definition lb_face (l : LoadBalancer) : list bptr * LbStrategy := (backends_ l, strategy_ l).

(** Nothing but breakers, tickets, the pool, the sockets and the metrics
    differs. *)
Record same_gateway (gw gw' : Gateway) : Prop := {
  same_max : maxResponseBodyBytes gw' = maxResponseBodyBytes gw;
  same_backends : backend_face <$> gw_backends gw' = backend_face <$> gw_backends gw;
  same_lbs : lb_face <$> gw_lbs gw' = lb_face <$> gw_lbs gw;
  same_router : router_ gw' = router_ gw;
  same_limiter : rateLimiter_ gw' = rateLimiter_ gw;
  same_retry : retryPolicy_ gw' = retryPolicy_ gw;
  same_cache : cache_ gw' = cache_ gw;
  same_ids : id_counter gw' = id_counter gw
}.

#[global] Instance same_gateway_preorder : PreOrder same_gateway.
Proof.
  split; [intros gw; by split|].
  intros g1 g2 g3 [] []. split; congruence.
Qed.

(** In-flight counters are [int]s. *)
Definition counters_ok (gw : Gateway) : Prop :=
  Forall (λ b, (int_min ≤ activeConnections b ≤ int_max)%Z) (gw_backends gw).

Lemma same_gateway_counters gw gw' : same_gateway gw gw' → counters_ok gw → counters_ok gw'.
Proof.
  intros [_ Hb _ _ _ _ _ _] H. unfold counters_ok in *. rewrite Forall_forall in *.
  intros b [i Hi]%list_elem_of_lookup.
  assert (backend_face <$> gw_backends gw !! i = Some (backend_face b)) as E.
  { rewrite <- !list_lookup_fmap. rewrite <- Hb, list_lookup_fmap, Hi. done. }
  destruct (gw_backends gw !! i) as [b0|] eqn:E0; [|done]. injection E as _ _ _ E.
  rewrite <- E. apply H. by eapply list_elem_of_lookup_2.
Qed.

Lemma alter_face (f : Backend → Backend) i (bs : bstore) :
  (∀ b, bs !! i = Some b → backend_face (f b) = backend_face b) →
  backend_face <$> alter f i bs = backend_face <$> bs.
Proof.
  intros H. apply list_eq. intros j. rewrite !list_lookup_fmap.
  destruct (decide (i = j)) as [<-|Hne]; [|by rewrite list_lookup_alter_ne].
  rewrite list_lookup_alter_eq. destruct (bs !! i) as [b|] eqn:E; [|done]. simpl. by rewrite H.
Qed.

Lemma on_breaker_same i (g : Backend → CircuitBreaker) gw :
  same_gateway gw (on_backend i (λ b, with_breaker (g b) b) gw).
Proof. split; try done. by apply alter_face. Qed.

Lemma on_metrics_same f gw : same_gateway gw (on_metrics f gw).
Proof. by split. Qed.

Lemma set_pool_same pool os gw : same_gateway gw (set_pool pool os gw).
Proof. by split. Qed.

Lemma ask_breaker_same now i gw ok gw' : ask_breaker now i gw = (ok, gw') → same_gateway gw gw'.
Proof.
  unfold ask_breaker. destruct (gw_backends gw !! i) as [b|]; [|by intros [= <- <-]].
  destruct (allowRequest now (circuitBreaker b)) as [a cb]. intros [= <- <-].
  apply (on_breaker_same i (λ _, cb)).
Qed.

Lemma pick_same st l r l' : pick st l = (r, l') → lb_face l' = lb_face l.
Proof.
  assert (∀ n l, lb_face (rr_loop n st l).2 = lb_face l) as Hrr.
  { intros n. induction n as [|n IH]; intros l0; [done|]. simpl.
    destruct (at_ticket l0 (rrCounter_ l0)) as [b|]; [destruct (is_healthy st b)|]; by rewrite ?IH. }
  unfold pick. destruct (decide _); [by intros [= <- <-]|].
  destruct (strategy_ l); [|by intros [= <- <-]]. unfold pickRoundRobin.
  specialize (Hrr (length (backends_ l)) l). destruct (rr_loop _ _ _) as [r0 l0].
  by intros [= <- <-].
Qed.

Lemma pick_backend_same route gw r gw' : pick_backend route gw = (r, gw') → same_gateway gw gw'.
Proof.
  unfold pick_backend. destruct (gw_lbs gw !! lb route) as [l|] eqn:E; [|by intros [= <- <-]].
  destruct (pick (gw_backends gw) l) as [r0 l0] eqn:Hp. intros [= <- <-]. split; try done. simpl.
  rewrite list_fmap_insert, (pick_same _ _ _ _ Hp).
  apply list_insert_id. by rewrite list_lookup_fmap, E.
Qed.

Lemma wrap32_add a b : wrap32 (wrap32 a + b) = wrap32 (a + b).
Proof.
  unfold wrap32. f_equal.
  replace ((a + 2 ^ 31) mod 2 ^ 32 - 2 ^ 31 + b + 2 ^ 31)%Z with ((a + 2 ^ 31) mod 2 ^ 32 + b)%Z by lia.
  rewrite Z.add_mod_idemp_l by lia. f_equal. lia.
Qed.

(** [fetch_add(1)] and [fetch_sub(1)] around the exchange cancel. *)
Lemma active_round_trip i gw gw' :
  counters_ok gw → gw_backends gw' = alter (add_active 1) i (gw_backends gw) →
  backend_face <$> alter (add_active (-1)) i (gw_backends gw') = backend_face <$> gw_backends gw.
Proof.
  intros Hc ->. apply list_eq. intros j. rewrite !list_lookup_fmap.
  destruct (decide (i = j)) as [<-|Hne]; [|by rewrite !list_lookup_alter_ne].
  rewrite !list_lookup_alter_eq. destruct (gw_backends gw !! i) as [b|] eqn:E; [|done]. simpl.
  unfold backend_face, add_active. simpl. rewrite wrap32_add, wrap32_small; [by do 3 f_equal; lia|].
  unfold counters_ok in Hc. rewrite Forall_forall in Hc.
  pose proof (Hc b (list_elem_of_lookup_2 _ _ _ E)). lia.
Qed.

Section facts.
Context (iterate : gmap bytes bytes → header_list).

Lemma contact_same env req i b gw fd r gw' :
  counters_ok gw → contact iterate env req i b gw = Some (fd, r, gw') → same_gateway gw gw'.
Proof.
  intros Hc. unfold contact. cbv zeta.
  destruct (acquire _ _ _ _ _) as [[fd0 pool] os]. 
  destruct (if (0 <=? fd0)%Z then _ else _) as [|r0]; [done|]. intros [= <- <- <-].
  split; try done. by apply active_round_trip.
Qed.

Definition result_gateway (a : attempt_result) : Gateway :=
  match a with Answer _ gw | Retry gw | Skip gw => gw end.

Lemma settle_same env i b fd r is_last gw : same_gateway gw (result_gateway (settle env i b fd r is_last gw)).
Proof.
  unfold settle. destruct r as [[resp reus]|].
  - set (gw1 := on_backend i _ gw). assert (same_gateway gw gw1) by apply on_breaker_same.
    set (gw2 := if reus then _ else _).
    assert (same_gateway gw1 gw2) by (unfold gw2; destruct reus; [destruct (release _ _ _ _ _)|]; by split).
    assert (same_gateway gw gw2) by (by transitivity gw1).
    destruct (_ <? _)%Z; [done|]. destruct is_last; [done|]. by destruct (negb _).
  - set (gw1 := if (0 <=? fd)%Z then _ else _).
    assert (same_gateway gw gw1) by (unfold gw1; destruct (0 <=? fd)%Z; by split).
    assert (same_gateway gw (on_backend i (λ b, with_breaker (onFailure (at_failure env) (circuitBreaker b)) b) gw1)).
    { transitivity gw1; [done|]. apply (on_breaker_same i (λ b, onFailure (at_failure env) (circuitBreaker b))). }
    by destruct is_last.
Qed.

Lemma attempt_same env route req is_last gw a :
  counters_ok gw → attempt iterate env route req is_last gw = Some a → same_gateway gw (result_gateway a).
Proof.
  intros Hc. unfold attempt. destruct (pick_backend route gw) as [[i|] gw1] eqn:Hp.
  2: { intros [= <-]. by eapply pick_backend_same. }
  pose proof (pick_backend_same _ _ _ _ Hp) as S1.
  destruct (gw_backends gw1 !! i) as [b|]; [|done].
  destruct (ask_breaker (at_allow env) i gw1) as [ok gw2] eqn:Ha.
  assert (same_gateway gw gw2) as S2 by (transitivity gw1; [done|by eapply ask_breaker_same]).
  destruct ok; [|intros [= <-]; simpl; transitivity gw2; [done|apply on_metrics_same]].
  destruct (contact iterate env req i b gw2) as [[[fd r] gw3]|] eqn:Hct; [|done]. intros [= <-].
  transitivity gw3; [|apply settle_same]. transitivity gw2; [done|].
  eapply contact_same; [|exact Hct]. by eapply same_gateway_counters.
Qed.

Lemma forward_loop_same n envs route req gw resp gw' :
  counters_ok gw → forward_loop iterate n envs route req gw = Some (resp, gw') → same_gateway gw gw'.
Proof.
  revert envs gw. induction n as [|n IH]; intros envs gw Hc; simpl; [by intros [= <- <-]|].
  destruct envs as [|env envs]; [done|].
  destruct (attempt iterate env route req _ gw) as [a|] eqn:Ha; [|done].
  pose proof (attempt_same _ _ _ _ _ _ Hc Ha) as Hs.
  destruct a as [resp0 gw1|gw1|gw1]; simpl in Hs.
  - by intros [= <- <-].
  - intros H. assert (same_gateway gw (on_metrics incRetries gw1)) as S1
      by (transitivity gw1; [done|apply on_metrics_same]).
    transitivity (on_metrics incRetries gw1); [done|].
    eapply IH; [|exact H]. by eapply same_gateway_counters.
  - intros H. transitivity gw1; [done|]. eapply IH; [|exact H]. by eapply same_gateway_counters.
Qed.
End facts.

(** ** Connections *)

(** The pool between two requests of this worker: nothing is borrowed. *)
Definition pool_at_rest (gw : Gateway) : pool_state := mkPoolState (pool_ gw) (os_sockets gw) ∅.

(** The operating system hands out unused descriptors. *)
Definition os_fresh (env : attempt_env) : Prop := ∀ os, fresh_socket (at_dial env os) os.

Section connections.
Context (iterate : gmap bytes bytes → header_list).

Definition borrowed (fd : fd_t) (b : Backend) : gmap fd_t peer :=
  if (fd <? 0)%Z then ∅ else {[fd := (host b, port b)]}.

Lemma contact_pool env req i b gw fd r gw' :
  pool_inv (pool_at_rest gw) → os_fresh env → contact iterate env req i b gw = Some (fd, r, gw') →
  pool_inv (mkPoolState (pool_ gw') (os_sockets gw') (borrowed fd b)) ∧ ((fd < 0)%Z → r = None).
Proof.
  intros Hi Hf. unfold contact. cbv zeta.
  change (os_sockets (on_backend i (add_active 1) gw)) with (os_sockets gw).
  change (pool_ (on_backend i (add_active 1) gw)) with (pool_ gw).
  destruct (acquire _ _ _ _ _) as [[fd0 pool] os] eqn:Ha.
  pose proof (pool_step_inv _ _ (step_acquire _ _ _ _ _ ∅ _ _ _ (Hf _) Ha) Hi) as Hi'.
  destruct (Z.leb_spec 0 fd0).
  - destruct (sendAndReceive _ _ _ _) as [|r0]; [done|]. intros [= <- <- <-]. split; [|lia].
    unfold borrowed. destruct (Z.ltb_spec fd0 0); [lia|]. done.
  - intros [= <- <- <-]. split; [|done]. unfold borrowed. by destruct (Z.ltb_spec fd0 0); [|lia].
Qed.

Lemma settle_pool env i b fd r is_last gw :
  pool_inv (mkPoolState (pool_ gw) (os_sockets gw) (borrowed fd b)) → ((fd < 0)%Z → r = None) →
  pool_inv (pool_at_rest (result_gateway (settle env i b fd r is_last gw))).
Proof.
  intros Hi Hr. unfold borrowed in Hi.
  assert (delete fd ({[fd := (host b, port b)]} : gmap fd_t peer) = ∅) as Hd
    by apply delete_singleton_eq.
  assert (∀ pool os, pool_inv (mkPoolState pool os {[fd := (host b, port b)]}) →
            pool_inv (mkPoolState pool (discard fd os) ∅)) as Hdis.
  { intros pool os H. rewrite <- Hd. eapply pool_step_inv; [|exact H].
    eapply step_discard. apply lookup_singleton_eq. }
  unfold settle. destruct r as [[resp reus]|].
  - destruct (Z.ltb_spec fd 0); [by specialize (Hr ltac:(done))|]. clear Hr.
    set (gw2 := if reus then _ else _).
    assert (pool_inv (pool_at_rest gw2)) as Hi2.
    { unfold gw2. destruct reus; [|by apply Hdis].
      destruct (release _ _ _ _ _) as [pool os] eqn:Hrel. unfold pool_at_rest. simpl. rewrite <- Hd.
      eapply pool_step_inv; [|exact Hi]. eapply step_release; [apply lookup_singleton_eq|exact Hrel]. }
    destruct (_ <? _)%Z; [done|]. destruct is_last; [done|]. by destruct (negb _).
  - set (gw1 := if (0 <=? fd)%Z then _ else _).
    assert (pool_inv (pool_at_rest gw1)) as Hi1.
    { unfold gw1. destruct (Z.ltb_spec fd 0), (Z.leb_spec 0 fd); try lia; [done|by apply Hdis]. }
    by destruct is_last.
Qed.

Lemma attempt_pool env route req is_last gw a :
  pool_inv (pool_at_rest gw) → os_fresh env → attempt iterate env route req is_last gw = Some a →
  pool_inv (pool_at_rest (result_gateway a)).
Proof.
  intros Hi Hf. unfold attempt. destruct (pick_backend route gw) as [[i|] gw1] eqn:Hp.
  2: { intros [= <-]. unfold pick_backend in Hp.
       destruct (gw_lbs gw !! lb route); [destruct (pick _ _)|]; by simplify_eq. }
  assert (pool_at_rest gw1 = pool_at_rest gw) as E1.
  { unfold pick_backend in Hp. destruct (gw_lbs gw !! lb route); [destruct (pick _ _)|]; by simplify_eq. }
  destruct (gw_backends gw1 !! i) as [b|]; [|done].
  destruct (ask_breaker (at_allow env) i gw1) as [ok gw2] eqn:Ha.
  assert (pool_at_rest gw2 = pool_at_rest gw1) as E2.
  { unfold ask_breaker in Ha. destruct (gw_backends gw1 !! i); [destruct (allowRequest _ _)|]; by simplify_eq. }
  assert (pool_inv (pool_at_rest gw2)) as Hi2 by (by rewrite E2, E1).
  destruct ok; [|by intros [= <-]].
  destruct (contact iterate env req i b gw2) as [[[fd r] gw3]|] eqn:Hct; [|done]. intros [= <-].
  destruct (contact_pool _ _ _ _ _ _ _ _ Hi2 Hf Hct) as [Hi3 Hr]. by apply settle_pool.
Qed.

Lemma forward_loop_pool n envs route req gw resp gw' :
  pool_inv (pool_at_rest gw) → Forall os_fresh envs →
  forward_loop iterate n envs route req gw = Some (resp, gw') → pool_inv (pool_at_rest gw').
Proof.
  revert envs gw. induction n as [|n IH]; intros envs gw Hi Hf; simpl; [by intros [= <- <-]|].
  destruct envs as [|env envs]; [done|]. apply Forall_cons in Hf as [Hf1 Hf].
  destruct (attempt iterate env route req _ gw) as [a|] eqn:Ha; [|done].
  pose proof (attempt_pool _ _ _ _ _ _ Hi Hf1 Ha) as Hi1.
  destruct a as [resp0 gw1|gw1|gw1]; simpl in Hi1; [by intros [= <- <-]|by apply IH..].
Qed.

(** ** Termination *)

(** The exchange ends within the events of the attempt. *)
Definition answers (env : attempt_env) : Prop :=
  ∀ request maxBody, sendAndReceive request maxBody (at_sends env) (at_recvs env) ≠ Blocked.

(** Load balancers point at existing backends. *)
Definition pointers_ok (gw : Gateway) : Prop :=
  Forall (λ l, Forall (λ i, i < length (gw_backends gw)) (backends_ l)) (gw_lbs gw).

Lemma same_gateway_pointers gw gw' : same_gateway gw gw' → pointers_ok gw → pointers_ok gw'.
Proof.
  intros [_ Hb Hl _ _ _ _ _] H. unfold pointers_ok in *.
  apply (f_equal length) in Hb. rewrite !length_fmap in Hb. rewrite Hb.
  rewrite Forall_forall in *. intros l [i Hi]%list_elem_of_lookup.
  assert (lb_face <$> gw_lbs gw !! i = Some (lb_face l)) as E.
  { rewrite <- !list_lookup_fmap. rewrite <- Hl, list_lookup_fmap, Hi. done. }
  destruct (gw_lbs gw !! i) as [l0|] eqn:E0; [|done]. injection E as E _.
  rewrite <- E. apply H. by eapply list_elem_of_lookup_2.
Qed.

Lemma pick_member st l i l' : pick st l = (Some i, l') → i ∈ backends_ l.
Proof.
  assert (∀ n l, match (rr_loop n st l).1 with Some b => b ∈ backends_ l | None => True end) as Hrr.
  { intros n. induction n as [|n IH]; intros l0; [done|]. simpl.
    destruct (at_ticket l0 (rrCounter_ l0)) as [b|] eqn:Hb.
    - destruct (is_healthy st b); [|apply (IH (mkLoadBalancer _ _ _))]. by eapply list_elem_of_lookup_2.
    - apply (IH (mkLoadBalancer _ _ _)). }
  unfold pick. destruct (decide _); [done|]. destruct (strategy_ l).
  - unfold pickRoundRobin. specialize (Hrr (length (backends_ l)) l).
    destruct (rr_loop _ _ _) as [r l0]. by intros [= -> <-].
  - intros [= H _]. unfold pickLeastConnections in H. pose proof (pickLeastConnections_spec st l) as Hl.
    unfold least_ok in Hl. rewrite H in Hl. destruct Hl as (_ & _ & l1 & l2 & -> & _). set_solver.
Qed.

Lemma attempt_returns env route req is_last gw :
  pointers_ok gw → answers env → is_Some (attempt iterate env route req is_last gw).
Proof.
  intros Hp Ha. unfold attempt. destruct (pick_backend route gw) as [[i|] gw1] eqn:Hpick; [|by eexists].
  assert (is_Some (gw_backends gw1 !! i)) as [b Hb].
  { apply lookup_lt_is_Some. pose proof (pick_backend_same _ _ _ _ Hpick) as [_ Hb _ _ _ _ _ _].
    apply (f_equal length) in Hb. rewrite !length_fmap in Hb. rewrite Hb.
    unfold pick_backend in Hpick. destruct (gw_lbs gw !! lb route) as [l|] eqn:Hl; [|done].
    destruct (pick (gw_backends gw) l) as [r l'] eqn:Hpk. injection Hpick as -> _.
    apply pick_member in Hpk. unfold pointers_ok in Hp. rewrite Forall_forall in Hp.
    specialize (Hp l (list_elem_of_lookup_2 _ _ _ Hl)). rewrite Forall_forall in Hp. auto. }
  rewrite Hb. destruct (ask_breaker _ _ _) as [ok gw2]. destruct ok; [|by eexists].
  assert (is_Some (contact iterate env req i b gw2)) as [[[fd r] gw3] ->]; [|by eexists].
  unfold contact. cbv zeta. destruct (acquire _ _ _ _ _) as [[fd pool] os].
  destruct (0 <=? fd)%Z; [|by eexists].
  pose proof (Ha (buildBackendRequest iterate req (host b))
                (maxResponseBodyBytes (set_pool pool os (on_backend i (add_active 1) gw2)))) as Hs.
  destruct (sendAndReceive _ _ _ _); [done|by eexists].
Qed.

Lemma forward_loop_returns n envs route req gw :
  counters_ok gw → pointers_ok gw → Forall answers envs → n ≤ length envs →
  is_Some (forward_loop iterate n envs route req gw).
Proof.
  revert envs gw. induction n as [|n IH]; intros envs gw Hc Hp Ha Hn; simpl; [by eexists|].
  destruct envs as [|env envs]; [simpl in Hn; lia|]. apply Forall_cons in Ha as [Ha1 Ha].
  destruct (attempt_returns env route req (bool_decide (n = 0)) gw Hp Ha1) as [a Hatt]. rewrite Hatt.
  pose proof (attempt_same _ _ _ _ _ _ _ Hc Hatt) as Hs. simpl in Hn.
  destruct a as [resp gw1|gw1|gw1]; simpl in Hs; [by eexists|..].
  - assert (same_gateway gw (on_metrics incRetries gw1)) by (transitivity gw1; [done|apply on_metrics_same]).
    apply IH; [by eapply same_gateway_counters|by eapply same_gateway_pointers|done|lia].
  - apply IH; [by eapply same_gateway_counters|by eapply same_gateway_pointers|done|lia].
Qed.
End connections.

(** ** Open circuits *)

(** Every backend behind the route has an open breaker that will not reset
    at any of these times. *)
Definition circuits_open (route : Route) (times : list Z) (gw : Gateway) : Prop :=
  ∀ l i b t, gw_lbs gw !! lb route = Some l → i ∈ backends_ l → gw_backends gw !! i = Some b →
    t ∈ times → cb_state (circuitBreaker b) = Open ∧
    (t - openedAt_ (circuitBreaker b) < ns_of_ms (resetTimeout_ (circuitBreaker b)))%Z.

(** Same backends (breakers included), pool and sockets. *)
Definition untouched (gw gw' : Gateway) : Prop :=
  gw_backends gw' = gw_backends gw ∧ pool_ gw' = pool_ gw ∧ os_sockets gw' = os_sockets gw ∧
  lb_face <$> gw_lbs gw' = lb_face <$> gw_lbs gw.

Lemma circuits_open_untouched route times gw gw' :
  untouched gw gw' → circuits_open route times gw → circuits_open route times gw'.
Proof.
  intros (Hb & _ & _ & Hl) H l i b t Hlb Hi Hbk Ht.
  assert (lb_face <$> gw_lbs gw !! lb route = Some (lb_face l)) as E.
  { rewrite <- !list_lookup_fmap. rewrite <- Hl, list_lookup_fmap, Hlb. done. }
  destruct (gw_lbs gw !! lb route) as [l0|] eqn:E0; [|done]. injection E as E _.
  apply (H l0 i b t); [done|by rewrite E|by rewrite <- Hb|done].
Qed.

Definition is_503 (resp : HttpResponse) : Prop :=
  rs_statusCode resp = 503%Z ∧ rs_statusText resp = str "Service Unavailable".

Lemma attempt_open iterate env route req is_last gw times :
  circuits_open route times gw → at_allow env ∈ times → pointers_ok gw →
  match attempt iterate env route req is_last gw with
  | Some (Answer resp gw') => is_503 resp ∧ untouched gw gw'
  | Some (Skip gw') => untouched gw gw'
  | _ => False
  end.
Proof.
  intros Ho Ht Hp. unfold attempt.
  destruct (pick_backend route gw) as [[i|] gw1] eqn:Hpick.
  2: { split; [done|]. pose proof (pick_backend_same _ _ _ _ Hpick) as S1.
       split_and!; [..|apply (same_lbs _ _ S1)];
       unfold pick_backend in Hpick; destruct (gw_lbs gw !! lb route); [destruct (pick _ _)| |destruct (pick _ _)| |destruct (pick _ _)|]; by simplify_eq. }
  unfold pick_backend in Hpick. destruct (gw_lbs gw !! lb route) as [l|] eqn:Hl; [|done].
  destruct (pick (gw_backends gw) l) as [r l'] eqn:Hpk. injection Hpick as -> <-.
  pose proof (pick_member _ _ _ _ Hpk) as Hin.
  assert (is_Some (gw_backends gw !! i)) as [b Hb].
  { apply lookup_lt_is_Some. unfold pointers_ok in Hp. rewrite Forall_forall in Hp.
    specialize (Hp l (list_elem_of_lookup_2 _ _ _ Hl)). rewrite Forall_forall in Hp. auto. }
  cbn [gw_backends set_lbs]. rewrite Hb. unfold ask_breaker. cbn [gw_backends set_lbs]. rewrite Hb.
  destruct (Ho l i b (at_allow env) Hl Hin Hb Ht) as [Hopen Hearly].
  unfold allowRequest. rewrite decide_True by done.
  destruct (Z.leb_spec (ns_of_ms (resetTimeout_ (circuitBreaker b))) (at_allow env - openedAt_ (circuitBreaker b))); [lia|].
  split_and!; [|done|done|].
  - simpl. apply list_eq. intros j. destruct (decide (i = j)) as [<-|Hne].
    + rewrite list_lookup_alter_eq, Hb. simpl. by destruct b.
    + by rewrite list_lookup_alter_ne.
  - simpl. rewrite list_fmap_insert, (pick_same _ _ _ _ Hpk). apply list_insert_id.
    by rewrite list_lookup_fmap, Hl.
Qed.

Lemma forward_loop_open iterate n envs route req gw resp gw' times :
  circuits_open route times gw → Forall (λ env, at_allow env ∈ times) envs → pointers_ok gw →
  forward_loop iterate n envs route req gw = Some (resp, gw') → is_503 resp ∧ untouched gw gw'.
Proof.
  revert envs gw. induction n as [|n IH]; intros envs gw Ho He Hp; simpl; [by intros [= <- <-]|].
  destruct envs as [|env envs]; [done|]. apply Forall_cons in He as [He1 He].
  pose proof (attempt_open iterate env route req (bool_decide (n = 0)) gw times Ho He1 Hp) as Hatt.
  destruct (attempt _ _ _ _ _ _) as [[resp0 gw1|gw1|gw1]|]; [|done| |done].
  - by intros [= <- <-].
  - intros H. destruct (IH envs gw1) as [H1 H2]; [|done| |done|].
    + by eapply circuits_open_untouched.
    + unfold pointers_ok in *. destruct Hatt as (Hb & _ & _ & Hl). rewrite Hb.
      rewrite Forall_forall in *. intros l [i Hi]%list_elem_of_lookup.
      assert (lb_face <$> gw_lbs gw !! i = Some (lb_face l)) as E.
      { rewrite <- !list_lookup_fmap. rewrite <- Hl, list_lookup_fmap, Hi. done. }
      destruct (gw_lbs gw !! i) as [l0|] eqn:E0; [|done]. injection E as E _.
      rewrite <- E. apply Hp. by eapply list_elem_of_lookup_2.
    + split; [done|]. destruct Hatt as (A1 & A2 & A3 & A4), H2 as (B1 & B2 & B3 & B4).
      split_and!; congruence.
Qed.

(** ** Theorems *)

Definition demo_gateway (up : bool) (cb : CircuitBreaker) : Gateway :=
  mkGateway 1000 [mkBackend (str "10.0.0.1") 9001 up 0 cb] [newLoadBalancer [0] RoundRobin]
    [mkRoute (str "/") 0 true] (newRateLimiter (QArith_base.inject_Z 10) (QArith_base.inject_Z 5)) (mkRetryPolicy 1 50 1000)
    (newLRUCache 16 60000) (newConnectionPool 2 500) ∅ newMetrics 0.

Definition demo_route : Route := mkRoute (str "/") 0 true.
Definition demo_get : HttpRequest :=
  mkHttpRequest (str "GET") (str "/a") [] (str "HTTP/1.1") ∅ [] true (str "req-0-0").

(** The smallest descriptor above all those in use. *)
Definition next_fd (os : sockets) : fd_t := map_fold (λ fd _ m, Z.max (fd + 1) m) 3%Z os.

Definition demo_reply : bytes :=
  str "HTTP/1.1 200 OK" ++ crlf ++ str "Content-Length: 2" ++ crlf ++ str "Connection: keep-alive" ++ crlf ++
  crlf ++ str "hi".

Definition demo_env (reply : bytes) : attempt_env :=
  mkAttemptEnv 5 (λ os, dial_ok (next_fd os)) [mkSend 1 (Sent 10000); mkSend 0 SendError]
    [mkRecv 100 1 (Some reply); mkRecv 0 0 None] 6.

Lemma next_fd_fresh os fd : is_Some (os !! fd) → (fd < next_fd os)%Z.
Proof.
  unfold next_fd. revert os.
  apply (map_fold_weak_ind (λ m os, is_Some (os !! fd) → (fd < m)%Z)).
  - rewrite lookup_empty. by intros [? ?].
  - intros i x os m _ IH. destruct (decide (fd = i)) as [->|Hne]; [lia|].
    rewrite lookup_insert_ne by done. intros H%IH. lia.
Qed.

Lemma demo_env_fresh reply : os_fresh (demo_env reply).
Proof.
  intros os. unfold fresh_socket. simpl. destruct (os !! next_fd os) eqn:E; [|done].
  pose proof (next_fd_fresh os (next_fd os)). rewrite E in H. specialize (H ltac:(by eexists)). lia.
Qed.

(** C20: forwarding returns, and only touches what it should.  Given events
    for [max_retries + 1] attempts, each of whose exchanges ends, forwarding
    gives a response; and whatever the events, the response leaves the
    backends' addresses, health and in-flight counters (every increment is
    undone on every path), the balancers' pools and strategies, the router,
    the rate limiter, the cache and the identifiers as they were. *)
Theorem forward_returns iterate envs route req gw :
  counters_ok gw → pointers_ok gw → Forall answers envs →
  (maxRetries (retryPolicy_ gw) + 1 ≤ Z.of_nat (length envs))%Z →
  ∃ resp gw', forwardWithResilience iterate envs route req gw = Some (resp, gw') ∧ same_gateway gw gw'.
Proof.
  intros Hc Hp Ha Hn. unfold forwardWithResilience.
  pose proof (attempts_le gw) as Hle.
  destruct (forward_loop_returns iterate (Z.to_nat (attempts gw)) envs route req gw)
    as [[resp gw'] H]; [done|done|done|lia|].
  exists resp, gw'. split; [done|]. by eapply forward_loop_same.
Qed.

Lemma demo_env_answers reply : answers (demo_env reply).
Proof.
  intros request maxBody. unfold sendAndReceive, demo_env. cbn [at_sends at_recvs tx_loop send_ready sent_n].
  destruct (size_of request <=? 0)%Z; [|destruct (size_of request <=? _)%Z; [|done]]; simpl;
    (destruct reply; [done|]); by destruct (rx_data _ _ _).
Qed.

Definition demo_closed : Gateway := demo_gateway true (newCircuitBreaker 5 30000 3).

Lemma demo_counters up cb : counters_ok (demo_gateway up cb).
Proof. repeat constructor; simpl; unfold int_min, int_max; lia. Qed.

Lemma demo_pointers up cb : pointers_ok (demo_gateway up cb).
Proof. repeat constructor. Qed.

Lemma forward_returns_witness :
  ∃ resp gw', forwardWithResilience map_to_list [demo_env demo_reply; demo_env demo_reply]
    demo_route demo_get demo_closed = Some (resp, gw') ∧ same_gateway demo_closed gw'.
Proof.
  apply (forward_returns map_to_list [demo_env demo_reply; demo_env demo_reply] demo_route demo_get demo_closed).
  - apply demo_counters.
  - apply demo_pointers.
  - repeat constructor; apply demo_env_answers.
  - simpl. lia.
Defined.

(** Forwarding leaks no connection.  When the pool is at rest before and
    the operating system hands out unused descriptors, then after forwarding,
    on every path (failed dial, failed exchange, reusable or closed
    connection, any number of retries), every open backend socket waits in
    the queue of the backend it is connected to, nothing is borrowed, and the
    queues respect their bound. *)
Theorem forward_no_leak iterate envs route req gw resp gw' :
  pool_inv (pool_at_rest gw) → Forall os_fresh envs →
  forwardWithResilience iterate envs route req gw = Some (resp, gw') →
  pool_inv (pool_at_rest gw') ∧
  ∀ fd h p, os_sockets gw' !! fd = Some (h, p) → idle_in (pool_ gw') (key h p) fd.
Proof.
  intros Hi Hf H. pose proof (forward_loop_pool _ _ _ _ _ _ _ _ Hi Hf H) as Hi'. split; [done|].
  intros fd h p Hos. destruct (inv_os _ Hi' fd h p Hos) as [_ [Ho|?]]; [|done].
  simpl in Ho. by rewrite lookup_empty in Ho.
Qed.

Definition demo_result : HttpResponse * Gateway :=
  default (emptyResponse, demo_closed)
    (forwardWithResilience map_to_list [demo_env demo_reply] demo_route demo_get demo_closed).

Lemma forward_no_leak_witness :
  rs_body demo_result.1 = str "hi" ∧ idle_in (pool_ demo_result.2) (key (str "10.0.0.1") 9001) 3%Z.
Proof.
  split; [vm_compute; reflexivity|].
  refine (proj2 (forward_no_leak map_to_list [demo_env demo_reply] demo_route demo_get demo_closed
    demo_result.1 demo_result.2 _ _ _) 3%Z (str "10.0.0.1") 9001%Z _).
  - apply (initial_pool_inv 2 500). lia.
  - repeat constructor. apply demo_env_fresh.
  - vm_compute. reflexivity.
  - vm_compute. reflexivity.
Defined.

(** Open circuits fail fast.  When every backend behind the route has an
    open breaker whose reset time has not come at any of the attempts, the
    answer is 503, and no connection is dialled or taken, no breaker and no
    in-flight counter changes. *)
Theorem forward_open_circuits iterate envs route req gw resp gw' times :
  circuits_open route times gw → Forall (λ env, at_allow env ∈ times) envs → pointers_ok gw →
  forwardWithResilience iterate envs route req gw = Some (resp, gw') →
  is_503 resp ∧ gw_backends gw' = gw_backends gw ∧ pool_ gw' = pool_ gw ∧
  os_sockets gw' = os_sockets gw.
Proof.
  intros Ho He Hp H. destruct (forward_loop_open _ _ _ _ _ _ _ _ _ Ho He Hp H) as [? (? & ? & ? & _)].
  done.
Qed.

Definition demo_open : Gateway := demo_gateway true (trip 0 (newCircuitBreaker 5 30000 3)).

Lemma forward_open_circuits_witness :
  let r := forwardWithResilience map_to_list [demo_env demo_reply; demo_env demo_reply]
             demo_route demo_get demo_open in
  r ≠ None ∧ is_503 (default (emptyResponse, demo_open) r).1.
Proof.
  intros r. split; [vm_compute; congruence|].
  refine (proj1 (forward_open_circuits map_to_list [demo_env demo_reply; demo_env demo_reply]
    demo_route demo_get demo_open _ (default (emptyResponse, demo_open) r).2 [5%Z] _ _ _ _)).
  - intros l i b t Hl Hi Hb Ht. simpl in Hl. injection Hl as <-.
    apply list_elem_of_singleton in Hi, Ht. subst. simpl in Hb. injection Hb as <-. split; [done|].
    unfold ns_of_ms. simpl. lia.
  - repeat constructor.
  - apply demo_pointers.
  - vm_compute. reflexivity.
Defined.
