(* ===== verification/ForwardConcurrent.v ===== *)
(** * Many threads forwarding at once (src/core/Gateway.cpp, forwardWithResilience)

    The workers share the gateway, so several threads are inside
    [forwardWithResilience] at a time.  A thread is a position in that
    function ([phase]) and one [fwd_tick] is one operation on shared state: a
    [fetch_add], a load, a call into a breaker or the pool (each under its
    mutex), or the exchange on a socket the thread owns.  A schedule is a list
    of such ticks mixed with new requests, verdicts of the health checker and
    the workers' other updates of the gateway. *)
From S2P Require Import Prelude CxxString CircuitBreaker RateLimiter RetryPolicy LRUCache HttpMessage HttpParser LoadBalancer Router ConnectionPool HealthChecker Metrics BackendIO Forward.
Local Open Scope nat_scope.

(** ** A thread *)

Inductive phase :=
  | Head                                                   (* the loop's condition *)
  | Ticket (k : nat)                                       (* pickRoundRobin, [k] iterations left *)
  | Probe (i : option bptr) (k : nat)                      (* its load of [healthy] *)
  | Scan (best : option bptr * Z) (rest : list bptr)       (* pickLeastConnections *)
  | Weigh (best : option bptr * Z) (i : bptr) (rest : list bptr)
  | Chosen (r : option bptr)                               (* pick has returned *)
  | Refused                                                (* by the breaker *)
  | Allowed (i : bptr)
  | Counted (i : bptr)                                     (* fetch_add(1) done *)
  | Dialling (i : bptr)                                    (* no idle connection *)
  | Borrowed (i : bptr) (fd : fd_t)
  | Exchanged (i : bptr) (fd : fd_t) (r : option (HttpResponse * bool))
  | Succeeded (i : bptr) (fd : fd_t) (resp : HttpResponse) (reusable : bool)
  | Returning (i : bptr) (fd : fd_t) (resp : HttpResponse) (reusable : bool)
  | Failed (i : bptr) (fd : fd_t)
  | Failing (i : bptr)
  | Waiting                                                (* before the retry *)
  | Done (resp : HttpResponse).

Record fwd_thread := mkFwd {
  ft_route : Route;
  ft_req : HttpRequest;
  ft_left : nat;                   (* iterations left after this one *)
  ft_envs : list attempt_env;      (* what the environment answers, this iteration first *)
  ft_phase : phase
}.

(** Entering [forwardWithResilience]. *)
Definition start_forward (gw : Gateway) (route : Route) (req : HttpRequest) (envs : list attempt_env)
    : fwd_thread :=
  mkFwd route req (Z.to_nat (attempts gw)) envs Head.

Definition goto (t : fwd_thread) (p : phase) : fwd_thread :=
  mkFwd (ft_route t) (ft_req t) (ft_left t) (ft_envs t) p.

(** The next iteration. *)
Definition continue (t : fwd_thread) : fwd_thread :=
  mkFwd (ft_route t) (ft_req t) (ft_left t) (tail (ft_envs t)) Head.

(** [pick]: which loop runs. *)
Definition enter_pick (route : Route) (gw : Gateway) : phase :=
  match gw_lbs gw !! lb route with
  | None => Chosen None
  | Some l =>
      if decide (backends_ l = []) then Chosen None
      else match strategy_ l with
           | RoundRobin => Ticket (length (backends_ l))
           | LeastConnections => Scan (None, (-1)%Z) (backends_ l)
           end
  end.

(** [rrCounter_.fetch_add(1)] of the route's balancer. *)
Definition take_ticket (route : Route) (gw : Gateway) : option bptr * Gateway :=
  match gw_lbs gw !! lb route with
  | None => (None, gw)
  | Some l =>
      let '(c, l') := fetch_add l in (at_ticket l c, set_lbs (<[lb route := l']> (gw_lbs gw)) gw)
  end.

(** The locked part of [acquire]. *)
Definition take_idle (b : Backend) (pool : ConnectionPool) : option (fd_t * ConnectionPool) :=
  match idle_ pool !! key (host b) (port b) with
  | Some (fd :: rest) => Some (fd, with_idle pool (<[key (host b) (port b) := rest]> (idle_ pool)))
  | _ => None
  end.

(** Lines 489-493: what follows a reply. *)
Definition after_reply (is_last : bool) (resp : HttpResponse) : phase :=
  if (rs_statusCode resp <? 500)%Z then Done resp
  else if is_last then Done resp
  else if negb (isRetryable (rs_statusCode resp)) then Done resp
  else Waiting.

Section tick.
Context (iterate : gmap bytes bytes → header_list).

(** One operation of a thread inside an iteration with environment [env]. *)
Definition phase_tick (env : attempt_env) (route : Route) (req : HttpRequest) (is_last : bool) (p : phase)
    (gw : Gateway) : option (phase * Gateway) :=
  match p with
  | Ticket O => Some (Chosen None, gw)
  | Ticket (S k) => let '(i, gw) := take_ticket route gw in Some (Probe i k, gw)
  | Probe None k => Some (Ticket k, gw)
  | Probe (Some i) k => Some (if is_healthy (gw_backends gw) i then Chosen (Some i) else Ticket k, gw)
  | Scan best [] => Some (Chosen best.1, gw)
  | Scan best (i :: rest) =>
      Some (if is_healthy (gw_backends gw) i then Weigh best i rest else Scan best rest, gw)
  | Weigh best i rest =>
      let c := conns (gw_backends gw) i in
      Some (Scan (if bool_decide (best.1 = None) || (c <? best.2)%Z then (Some i, c) else best) rest, gw)
  | Chosen None => Some (Done (make 503 (str "Service Unavailable") (str "no healthy backends")), gw)
  | Chosen (Some i) =>
      _ ← gw_backends gw !! i;
      let '(ok, gw) := ask_breaker (at_allow env) i gw in Some (if ok : bool then Allowed i else Refused, gw)
  | Allowed i => Some (Counted i, on_backend i (add_active 1) gw)
  | Counted i =>
      b ← gw_backends gw !! i;
      match take_idle b (pool_ gw) with
      | Some (fd, pool) => Some (Borrowed i fd, set_pool pool (os_sockets gw) gw)
      | None => Some (Dialling i, gw)
      end
  | Dialling i =>
      b ← gw_backends gw !! i;
      let '(fd, os) := dialNew (at_dial env (os_sockets gw)) (host b) (port b) (os_sockets gw) in
      Some (Borrowed i fd, set_pool (pool_ gw) os gw)
  | Borrowed i fd =>
      b ← gw_backends gw !! i;
      match (if (0 <=? fd)%Z
             then sendAndReceive (buildBackendRequest iterate req (host b)) (maxResponseBodyBytes gw)
                    (at_sends env) (at_recvs env)
             else Returned None) with
      | Blocked => None
      | Returned r => Some (Exchanged i fd r, gw)
      end
  | Exchanged i fd r =>
      Some (match r with Some (resp, reusable) => Succeeded i fd resp reusable | None => Failed i fd end,
            on_backend i (add_active (-1)) gw)
  | Succeeded i fd resp reusable =>
      Some (Returning i fd resp reusable, on_backend i (λ b, with_breaker (onSuccess (circuitBreaker b)) b) gw)
  | Returning i fd resp reusable =>
      b ← gw_backends gw !! i;
      let gw :=
        if reusable : bool then
          let '(pool, os) := release (host b) (port b) fd (pool_ gw) (os_sockets gw) in set_pool pool os gw
        else set_pool (pool_ gw) (discard fd (os_sockets gw)) gw in
      Some (after_reply is_last resp, gw)
  | Failed i fd =>
      Some (Failing i, if (0 <=? fd)%Z then set_pool (pool_ gw) (discard fd (os_sockets gw)) gw else gw)
  | Failing i =>
      Some (if is_last then Done (make 502 (str "Bad Gateway") (str "backend request failed")) else Waiting,
            on_backend i (λ b, with_breaker (onFailure (at_failure env) (circuitBreaker b)) b) gw)
  | Head | Refused | Waiting | Done _ => None
  end.

(** One operation of a thread; [None]: it has returned, or its environment
    has not answered. *)
Definition fwd_tick (t : fwd_thread) (gw : Gateway) : option (fwd_thread * Gateway) :=
  match ft_phase t with
  | Head =>
      match ft_left t, ft_envs t with
      | O, _ => Some (goto t (Done (make 503 (str "Service Unavailable") (str "all retries exhausted"))), gw)
      | S n, [] => None
      | S n, _ => Some (mkFwd (ft_route t) (ft_req t) n (ft_envs t) (enter_pick (ft_route t) gw), gw)
      end
  | Refused => Some (continue t, on_metrics incCircuitOpen gw)
  | Waiting => Some (continue t, on_metrics incRetries gw)
  | p =>
      match ft_envs t with
      | [] => None
      | env :: _ =>
          '(p', gw') ← phase_tick env (ft_route t) (ft_req t) (bool_decide (ft_left t = 0)) p gw;
          Some (goto t p', gw')
      end
  end.
End tick.

(** ** The gateway and its threads *)

Record conc := mkConc { c_gw : Gateway; c_threads : list fwd_thread }.

(** One event: a tick of a thread (nothing when it cannot move), a new
    request, a verdict of the health checker, or what the workers do to the
    rest of the gateway. *)
Inductive action :=
  | Tick (k : nat)
  | Request (route : Route) (req : HttpRequest) (envs : list attempt_env)
  | Verdict (i : bptr) (ok : bool)
  | Limit (rl : TokenBucketRateLimiter)
  | Cache (c : LRUCache CachedResponse)
  | Measure (f : Metrics → Metrics)
  | Identify (n : Z).

Section act.
Context (iterate : gmap bytes bytes → header_list).

Definition act (c : conc) (a : action) : conc :=
  let gw := c_gw c in
  match a with
  | Tick k =>
      match c_threads c !! k with
      | None => c
      | Some t =>
          match fwd_tick iterate t gw with
          | None => c
          | Some (t', gw') => mkConc gw' (<[k := t']> (c_threads c))
          end
      end
  | Request route req envs => mkConc gw (c_threads c ++ [start_forward gw route req envs])
  | Verdict i ok => mkConc (on_backend i (set_healthy ok) gw) (c_threads c)
  | Limit rl => mkConc (set_limiter rl gw) (c_threads c)
  | Cache cache => mkConc (set_cache cache gw) (c_threads c)
  | Measure f => mkConc (on_metrics f gw) (c_threads c)
  | Identify n => mkConc (set_ids n gw) (c_threads c)
  end.

Definition run_schedule (schedule : list action) (c : conc) : conc := foldl act c schedule.
End act.

(** ** A thread that is alone computes [forwardWithResilience] *)

Section alone.
Context (iterate : gmap bytes bytes → header_list).

Definition tick_rel (s s' : fwd_thread * Gateway) : Prop := fwd_tick iterate s.1 s.2 = Some s'.

Section iteration.
Context (env : attempt_env) (route : Route) (req : HttpRequest) (is_last : bool).

Definition phase_rel (s s' : phase * Gateway) : Prop :=
  phase_tick iterate env route req is_last s.1 s.2 = Some s'.

Lemma phase_step p gw p' gw' s :
  phase_tick iterate env route req is_last p gw = Some (p', gw') → rtc phase_rel (p', gw') s →
  rtc phase_rel (p, gw) s.
Proof. intros H. by apply rtc_l. Qed.

Lemma set_lbs_twice l1 l2 gw : set_lbs l2 (set_lbs l1 gw) = set_lbs l2 gw.
Proof. done. Qed.

Lemma set_lbs_same gw l : gw_lbs gw !! lb route = Some l → set_lbs (<[lb route := l]> (gw_lbs gw)) gw = gw.
Proof. intros H. rewrite list_insert_id by done. by destruct gw. Qed.

Lemma tickets_alone k gw l r l' :
  gw_lbs gw !! lb route = Some l → rr_loop k (gw_backends gw) l = (r, l') →
  rtc phase_rel (Ticket k, gw) (Chosen r, set_lbs (<[lb route := l']> (gw_lbs gw)) gw).
Proof.
  revert gw l. induction k as [|k IH]; intros gw l Hl.
  { intros [= <- <-]. rewrite (set_lbs_same _ _ Hl). eapply phase_step; [done|]. apply rtc_refl. }
  cbn [rr_loop fetch_add]. set (l1 := mkLoadBalancer _ _ _). set (gw1 := set_lbs (<[lb route := l1]> (gw_lbs gw)) gw).
  assert (gw_lbs gw1 !! lb route = Some l1) as Hl1.
  { cbn. rewrite list_lookup_insert_eq; [done|]. by eapply lookup_lt_Some. }
  intros Hloop. eapply (phase_step _ _ (Probe (at_ticket l (rrCounter_ l)) k) gw1).
  { cbn. unfold take_ticket. by rewrite Hl. }
  assert (rr_loop k (gw_backends gw) l1 = (r, l') →
    rtc phase_rel (Ticket k, gw1) (Chosen r, set_lbs (<[lb route := l']> (gw_lbs gw)) gw)) as Hrest.
  { intros H0. pose proof (IH gw1 l1 Hl1 H0) as H1. unfold gw1 in H1 at 2 3. cbn [gw_lbs set_lbs] in H1.
    rewrite set_lbs_twice, list_insert_insert_eq in H1. exact H1. }
  destruct (at_ticket l _) as [i|].
  - destruct (is_healthy (gw_backends gw) i) eqn:Hh.
    + injection Hloop as <- <-. eapply phase_step; [cbn; by rewrite Hh|]. apply rtc_refl.
    + eapply phase_step; [cbn; by rewrite Hh|]. by apply Hrest.
  - eapply phase_step; [done|]. by apply Hrest.
Qed.

Lemma scan_alone best rest gw :
  rtc phase_rel (Scan best rest, gw) (Chosen (foldl (least_step (gw_backends gw)) best rest).1, gw).
Proof.
  revert best. induction rest as [|i rest IH]; intros best.
  { eapply phase_step; [done|]. apply rtc_refl. }
  cbn [foldl]. unfold least_step at 2. destruct (is_healthy (gw_backends gw) i) eqn:Hh.
  - eapply phase_step; [cbn; by rewrite Hh|]. eapply phase_step; [done|]. apply IH.
  - eapply phase_step; [cbn; by rewrite Hh|]. apply IH.
Qed.

Lemma pick_alone gw r gw' :
  pick_backend route gw = (r, gw') → rtc phase_rel (enter_pick route gw, gw) (Chosen r, gw').
Proof.
  unfold pick_backend, enter_pick. destruct (gw_lbs gw !! lb route) as [l|] eqn:Hl; [|intros [= <- <-]; apply rtc_refl].
  unfold pick. destruct (decide (backends_ l = [])); [intros [= <- <-]; rewrite (set_lbs_same _ _ Hl); apply rtc_refl|].
  destruct (strategy_ l).
  - destruct (pickRoundRobin _ _) as [r0 l'] eqn:Hp. intros [= <- <-]. by eapply tickets_alone.
  - intros [= <- <-]. rewrite (set_lbs_same _ _ Hl). apply scan_alone.
Qed.

Lemma contact_alone i b gw fd r gw' :
  gw_backends gw !! i = Some b → contact iterate env req i b gw = Some (fd, r, gw') →
  rtc phase_rel (Allowed i, gw)
    (match r with Some (resp, reusable) => Succeeded i fd resp reusable | None => Failed i fd end, gw').
Proof.
  intros Hb. unfold contact. cbv zeta. set (gw1 := on_backend i (add_active 1) gw).
  assert (gw_backends gw1 !! i = Some (add_active 1 b)) as Hb1
    by (cbn; by rewrite list_lookup_alter_eq, Hb).
  destruct (acquire _ _ _ _ _) as [[fd0 pool] os] eqn:Ha.
  set (gw2 := set_pool pool os gw1).
  intros Hout. eapply phase_step; [done|]. fold gw1.
  assert (rtc phase_rel (Counted i, gw1) (Borrowed i fd0, gw2)) as Hacq.
  { assert (take_idle (add_active 1 b) (pool_ gw1) = None →
            dialNew (at_dial env (os_sockets gw1)) (host b) (port b) (os_sockets gw1) = (fd0, os) →
            pool = pool_ gw1 → rtc phase_rel (Counted i, gw1) (Borrowed i fd0, gw2)) as Hdial.
    { intros Ht Hd ->. eapply (phase_step _ _ (Dialling i) gw1); [cbn -[gw1]; rewrite Hb1; cbn -[gw1]; by rewrite Ht|].
      eapply phase_step; [cbn -[gw1 dialNew]; rewrite Hb1; cbn -[gw1 dialNew]; by rewrite Hd|]. apply rtc_refl. }
    unfold acquire in Ha. unfold take_idle in Hdial. cbn [host port add_active] in Hdial.
    destruct (idle_ (pool_ gw1) !! key (host b) (port b)) as [[|fd1 rest]|] eqn:Hidle.
    1, 3: destruct (dialNew _ _ _ _) as [fd1 os1] eqn:Hd; injection Ha as -> <- ->; by apply Hdial.
    injection Ha as -> <- <-. eapply phase_step; [|apply rtc_refl].
    cbn -[gw1]. rewrite Hb1. cbn -[gw1]. unfold take_idle. cbn [host port add_active]. by rewrite Hidle. }
  etransitivity; [exact Hacq|].
  assert (gw_backends gw2 !! i = Some (add_active 1 b)) as Hb2 by exact Hb1.
  destruct (if (0 <=? fd0)%Z then _ else _) as [|r0] eqn:Hx; [done|]. injection Hout as <- <- <-.
  eapply (phase_step _ _ (Exchanged i fd0 r0) gw2).
  { cbn -[gw2 sendAndReceive]. rewrite Hb2. cbn -[gw2 sendAndReceive]. by rewrite Hx. }
  eapply phase_step; [done|]. apply rtc_refl.
Qed.

(** Host and port of a backend do not change. *)
Lemma ask_breaker_lookup now i gw ok gw' b :
  ask_breaker now i gw = (ok, gw') → gw_backends gw !! i = Some b →
  ∃ cb, gw_backends gw' !! i = Some (with_breaker cb b).
Proof.
  unfold ask_breaker. intros H Hb. rewrite Hb in H. destruct (allowRequest now _) as [a cb].
  injection H as <- <-. exists cb. cbn. by rewrite list_lookup_alter_eq, Hb.
Qed.

Lemma settle_alone i b b' fd r gw :
  gw_backends gw !! i = Some b' → host b' = host b → port b' = port b →
  match settle env i b fd r is_last gw with
  | Answer resp gw' => rtc phase_rel
      (match r with Some (resp, reusable) => Succeeded i fd resp reusable | None => Failed i fd end, gw) (Done resp, gw')
  | Retry gw' => rtc phase_rel
      (match r with Some (resp, reusable) => Succeeded i fd resp reusable | None => Failed i fd end, gw) (Waiting, gw')
  | Skip _ => False
  end.
Proof.
  intros Hb Hh Hp. unfold settle. destruct r as [[resp reusable]|].
  - set (gw1 := on_backend i _ gw).
    assert (gw_backends gw1 !! i = Some (with_breaker (onSuccess (circuitBreaker b')) b')) as Hb1
      by (cbn; by rewrite list_lookup_alter_eq, Hb).
    set (gw2 := if reusable then _ else _).
    assert (rtc phase_rel (Succeeded i fd resp reusable, gw) (after_reply is_last resp, gw2)) as Hrun.
    { eapply phase_step; [done|]. fold gw1. eapply phase_step; [|apply rtc_refl].
      cbn -[gw1 release]. rewrite Hb1. cbn -[gw1 release]. by rewrite Hh, Hp. }
    unfold after_reply in Hrun. by repeat case_if.
  - set (gw1 := if (0 <=? fd)%Z then _ else _).
    assert (∀ p g, (if is_last then Done (make 502 (str "Bad Gateway") (str "backend request failed")) else Waiting) = p →
      on_backend i (λ b, with_breaker (onFailure (at_failure env) (circuitBreaker b)) b) gw1 = g →
      rtc phase_rel (Failed i fd, gw) (p, g)) as Hrun.
    { intros p g <- <-. eapply phase_step; [done|]. eapply phase_step; [done|]. apply rtc_refl. }
    by case_if; apply Hrun.
Qed.

Lemma attempt_alone gw a :
  attempt iterate env route req is_last gw = Some a →
  match a with
  | Answer resp gw' => rtc phase_rel (enter_pick route gw, gw) (Done resp, gw')
  | Retry gw' => rtc phase_rel (enter_pick route gw, gw) (Waiting, gw')
  | Skip gw' => ∃ gw0, gw' = on_metrics incCircuitOpen gw0 ∧ rtc phase_rel (enter_pick route gw, gw) (Refused, gw0)
  end.
Proof.
  unfold attempt. destruct (pick_backend route gw) as [picked gw1] eqn:Hp. apply pick_alone in Hp.
  destruct picked as [i|]; [|intros [= <-]; etransitivity; [done|]; eapply phase_step; [done|]; apply rtc_refl].
  destruct (gw_backends gw1 !! i) as [b|] eqn:Hb; [|done].
  destruct (ask_breaker _ _ _) as [ok gw2] eqn:Ha.
  assert (rtc phase_rel (Chosen (Some i), gw1) (if ok then Allowed i else Refused, gw2)) as Hask.
  { eapply phase_step; [|apply rtc_refl]. cbn -[ask_breaker]. rewrite Hb. cbn -[ask_breaker]. by rewrite Ha. }
  destruct ok; [|intros [= <-]; exists gw2; split; [done|]; by etransitivity].
  destruct (contact _ _ _ _ _ _) as [[[fd r] gw3]|] eqn:Hc; [|done]. intros [= <-].
  destruct (ask_breaker_lookup _ _ _ _ _ _ Ha Hb) as [cb Hb2].
  assert (contact iterate env req i (with_breaker cb b) gw2 = Some (fd, r, gw3)) as Hc' by exact Hc.
  apply contact_alone in Hc'; [|done].
  assert (∃ b', gw_backends gw3 !! i = Some b' ∧ host b' = host b ∧ port b' = port b) as (b' & Hb' & Hh & Hpt).
  { unfold contact in Hc. cbv zeta in Hc. destruct (acquire _ _ _ _ _) as [[fd0 pool] os].
    destruct (if (0 <=? fd0)%Z then _ else _); [done|]. injection Hc as _ _ <-. cbn.
    rewrite !list_lookup_alter_eq, Hb2. by eexists. }
  pose proof (settle_alone i b b' fd r gw3 Hb' Hh Hpt) as Hs.
  destruct (settle env i b fd r is_last gw3); [| |done];
    (etransitivity; [exact Hp|]); (etransitivity; [exact Hask|]); by etransitivity.
Qed.
End iteration.

Lemma phase_thread env route req n envs p gw p' gw' :
  rtc (phase_rel env route req (bool_decide (n = 0))) (p, gw) (p', gw') →
  rtc tick_rel (mkFwd route req n (env :: envs) p, gw) (mkFwd route req n (env :: envs) p', gw').
Proof.
  remember (p, gw) as s eqn:Es. remember (p', gw') as s' eqn:Es'. intros H. revert p gw Es.
  induction H as [s|s s1 s2 H1 _ IH]; intros p gw ->; [injection Es' as -> ->; apply rtc_refl|].
  destruct s1 as [p1 gw1]. eapply rtc_l; [|by apply IH].
  unfold phase_rel, tick_rel, fwd_tick in *. cbn [fst snd ft_phase ft_envs ft_route ft_req ft_left goto] in *.
  destruct p; try discriminate H1; rewrite H1; reflexivity.
Qed.

Lemma forward_alone n envs route req gw resp gw' :
  forward_loop iterate n envs route req gw = Some (resp, gw') →
  ∃ t, rtc tick_rel (mkFwd route req n envs Head, gw) (t, gw') ∧ ft_phase t = Done resp.
Proof.
  revert envs gw. induction n as [|n IH]; intros envs gw; cbn [forward_loop].
  { intros [= <- <-]. eexists. split; [|shelve]. by apply rtc_once. Unshelve. done. }
  destruct envs as [|env envs]; [done|].
  assert (∀ s, rtc tick_rel (mkFwd route req n (env :: envs) (enter_pick route gw), gw) s →
               rtc tick_rel (mkFwd route req (S n) (env :: envs) Head, gw) s) as Hin.
  { intros s. by apply rtc_l. }
  destruct (attempt _ _ _ _ _ _) as [[r0 gw1|gw1|gw1]|] eqn:Ha; [..|done]; apply attempt_alone in Ha.
  - intros [= <- <-]. eexists. split; [by apply Hin, phase_thread|done].
  - intros (t & Ht & Hd)%IH. exists t. split; [|done]. apply Hin. etransitivity; [by apply phase_thread|].
    by eapply rtc_l.
  - intros (t & Ht & Hd)%IH. exists t. split; [|done]. destruct Ha as (gw0 & -> & Ha). apply Hin.
    etransitivity; [by apply phase_thread|]. by eapply rtc_l.
Qed.
End alone.

(** ** What the threads hold *)

(** The backend whose in-flight counter includes this thread. *)
Definition counted (p : phase) : option bptr :=
  match p with
  | Counted i | Dialling i | Borrowed i _ | Exchanged i _ _ => Some i
  | _ => None
  end.

(** The backend whose breaker admitted this thread and waits for its report. *)
Definition unreported (p : phase) : option bptr :=
  match p with
  | Allowed i | Counted i | Dialling i | Borrowed i _ | Exchanged i _ _ | Succeeded i _ _ _ | Failed i _
  | Failing i => Some i
  | _ => None
  end.

(** The connection this thread has borrowed, and from where. *)
Definition held (p : phase) : option (bptr * fd_t) :=
  match p with
  | Borrowed i fd | Exchanged i fd _ | Succeeded i fd _ _ | Returning i fd _ _ | Failed i fd =>
      if (0 <=? fd)%Z then Some (i, fd) else None
  | _ => None
  end.

Definition tally (f : phase → option bptr) (i : bptr) (ts : list fwd_thread) : nat :=
  length (filter (λ t, f (ft_phase t) = Some i) ts).

Definition one_if (P : Prop) `{!Decision P} : nat := if decide P then 1 else 0.

Lemma tally_insert f i ts k t t' :
  ts !! k = Some t →
  tally f i (<[k := t']> ts) + one_if (f (ft_phase t) = Some i) = tally f i ts + one_if (f (ft_phase t') = Some i).
Proof.
  unfold tally, one_if. revert k. induction ts as [|t0 ts IH]; intros [|k]; simpl; [done..| |].
  - intros [= ->]. rewrite !filter_cons. repeat destruct (decide _); simpl; lia.
  - intros H%IH. rewrite !filter_cons. destruct (decide (f (ft_phase t0) = Some i)); simpl; lia.
Qed.

Lemma tally_insert_same f i ts k t t' :
  ts !! k = Some t → f (ft_phase t') = f (ft_phase t) → tally f i (<[k := t']> ts) = tally f i ts.
Proof. intros H E. pose proof (tally_insert f i ts k t t' H) as Ht. rewrite E in Ht. lia. Qed.

Lemma tally_pos f i ts : 0 < tally f i ts → ∃ k t, ts !! k = Some t ∧ f (ft_phase t) = Some i.
Proof.
  unfold tally. intros H. destruct (filter _ ts) as [|t l] eqn:E; [simpl in H; lia|].
  assert (t ∈ filter (λ t, f (ft_phase t) = Some i) ts) as [Hf [k Hk]%list_elem_of_lookup]%list_elem_of_filter
    by (rewrite E; left). eauto.
Qed.

(** *** Borrowed connections *)

Definition addrs (bs : bstore) : list peer := (λ b, (host b, port b)) <$> bs.

(** [owned] holds exactly the connections of the threads, none of them
    twice. *)
Record holders (ads : list peer) (ts : list fwd_thread) (owned : gmap fd_t peer) : Prop := {
  hold_of fd a : owned !! fd = Some a →
    ∃ k t i, ts !! k = Some t ∧ held (ft_phase t) = Some (i, fd) ∧ ads !! i = Some a;
  hold_in k t i fd : ts !! k = Some t → held (ft_phase t) = Some (i, fd) →
    ∃ a, ads !! i = Some a ∧ owned !! fd = Some a;
  hold_one k1 k2 t1 t2 i1 i2 fd :
    ts !! k1 = Some t1 → ts !! k2 = Some t2 → held (ft_phase t1) = Some (i1, fd) →
    held (ft_phase t2) = Some (i2, fd) → k1 = k2
}.

Lemma insert_cases {A} (l : list A) k x j y : <[k := x]> l !! j = Some y → (j = k ∧ y = x) ∨ (j ≠ k ∧ l !! j = Some y).
Proof.
  intros H. destruct (decide (j = k)) as [->|Hne]; [|by rewrite list_lookup_insert_ne in H; auto].
  left. split; [done|]. rewrite list_lookup_insert_eq in H; [congruence|].
  apply lookup_lt_Some in H. by rewrite length_insert in H.
Qed.

Lemma insert_hit {A} (l : list A) k x y : l !! k = Some x → <[k := y]> l !! k = Some y.
Proof. intros H. apply list_lookup_insert_eq. by eapply lookup_lt_Some. Qed.

Lemma holders_same ads ts owned k t t' :
  holders ads ts owned → ts !! k = Some t → held (ft_phase t') = held (ft_phase t) →
  holders ads (<[k := t']> ts) owned.
Proof.
  intros [H1 H2 H3] Hk E.
  assert (∀ j t0, <[k := t']> ts !! j = Some t0 → ∃ t1, ts !! j = Some t1 ∧ held (ft_phase t0) = held (ft_phase t1)) as Hback.
  { intros j t0 [[-> ->]|[_ ?]]%insert_cases; eauto. }
  split.
  - intros fd a (j & t0 & i & Hj & Hh & Ha)%H1. destruct (decide (j = k)) as [->|Hne].
    + exists k, t', i. rewrite Hk in Hj. injection Hj as <-. rewrite (insert_hit _ _ _ _ Hk), E. done.
    + exists j, t0, i. by rewrite list_lookup_insert_ne.
  - intros j t0 i fd (t1 & Hj & ->)%Hback Hh. by eapply H2.
  - intros k1 k2 t1 t2 i1 i2 fd (u1 & Hk1 & ->)%Hback (u2 & Hk2 & ->)%Hback. by eapply H3.
Qed.

Lemma holders_gain ads ts owned k t t' i fd a :
  holders ads ts owned → ts !! k = Some t → held (ft_phase t) = None → held (ft_phase t') = Some (i, fd) →
  ads !! i = Some a → owned !! fd = None → holders ads (<[k := t']> ts) (<[fd := a]> owned).
Proof.
  intros [H1 H2 H3] Hk E E' Ha Ho.
  assert (∀ j t0 i0, j ≠ k → ts !! j = Some t0 → held (ft_phase t0) = Some (i0, fd) → False) as Hno.
  { intros j t0 i0 _ Hj Hh. destruct (H2 _ _ _ _ Hj Hh) as (? & _ & ?). congruence. }
  split.
  - intros fd0 a0. destruct (decide (fd0 = fd)) as [->|Hne].
    + rewrite lookup_insert_eq. intros [= <-]. exists k, t', i. by rewrite (insert_hit _ _ _ _ Hk).
    + rewrite lookup_insert_ne by done. intros (j & t0 & i0 & Hj & Hh & Ha0)%H1.
      assert (j ≠ k) by congruence. exists j, t0, i0. by rewrite list_lookup_insert_ne.
  - intros j t0 i0 fd0 [[-> ->]|[Hne Hj]]%insert_cases Hh.
    + rewrite E' in Hh. injection Hh as <- <-. exists a. by rewrite lookup_insert_eq.
    + destruct (H2 _ _ _ _ Hj Hh) as (a0 & Ha0 & Ho0). exists a0. split; [done|].
      rewrite lookup_insert_ne; [done|]. congruence.
  - intros k1 k2 t1 t2 i1 i2 fd0 [[-> ->]|[N1 L1]]%insert_cases [[-> ->]|[N2 L2]]%insert_cases Hh1 Hh2;
      [done|..|by eapply H3]; exfalso.
    + rewrite E' in Hh1. injection Hh1 as <- <-. by eapply (Hno k2).
    + rewrite E' in Hh2. injection Hh2 as <- <-. by eapply (Hno k1).
Qed.

Lemma holders_lose ads ts owned k t t' i fd :
  holders ads ts owned → ts !! k = Some t → held (ft_phase t) = Some (i, fd) → held (ft_phase t') = None →
  holders ads (<[k := t']> ts) (delete fd owned).
Proof.
  intros [H1 H2 H3] Hk E E'. split.
  - intros fd0 a0 [Hne Ho]%lookup_delete_Some. destruct (H1 _ _ Ho) as (j & t0 & i0 & Hj & Hh & Ha0).
    assert (j ≠ k) by congruence. exists j, t0, i0. by rewrite list_lookup_insert_ne.
  - intros j t0 i0 fd0 [[-> ->]|[Hne Hj]]%insert_cases Hh; [congruence|].
    destruct (H2 _ _ _ _ Hj Hh) as (a0 & Ha0 & Ho0). exists a0. split; [done|].
    rewrite lookup_delete_ne; [done|]. intros ->. by apply Hne, (H3 j k t0 t i0 i fd0).
  - intros k1 k2 t1 t2 i1 i2 fd0 [[-> ->]|[N1 L1]]%insert_cases [[-> ->]|[N2 L2]]%insert_cases Hh1 Hh2;
      [done|congruence..|by eapply H3].
Qed.

(** ** The invariant *)

(** A thread points at existing backends, and a reply came over a
    connection. *)
Definition phase_ok (nb : nat) (p : phase) : Prop :=
  match p with
  | Head | Ticket _ | Refused | Waiting | Done _ => True
  | Probe i _ | Chosen i => from_option (λ i, i < nb) True i
  | Scan best rest => from_option (λ i, i < nb) True best.1 ∧ Forall (λ i, i < nb) rest
  | Weigh best i rest => from_option (λ i, i < nb) True best.1 ∧ i < nb ∧ Forall (λ i, i < nb) rest
  | Allowed i | Counted i | Dialling i | Borrowed i _ | Failed i _ | Failing i => i < nb
  | Exchanged i fd r => i < nb ∧ (is_Some r → (0 ≤ fd)%Z)
  | Succeeded i fd _ _ | Returning i fd _ _ => i < nb ∧ (0 ≤ fd)%Z
  end.

Record conc_inv (c : conc) : Prop := {
  ci_pointers : pointers_ok (c_gw c);
  ci_phases k t : c_threads c !! k = Some t → phase_ok (length (gw_backends (c_gw c))) (ft_phase t);
  ci_active i b : gw_backends (c_gw c) !! i = Some b →
    activeConnections b = wrap32 (Z.of_nat (tally counted i (c_threads c)));
  ci_trials i b : gw_backends (c_gw c) !! i = Some b → cb_state (circuitBreaker b) = HalfOpen →
    (halfOpenInFlight_ (circuitBreaker b) ≤ Z.of_nat (tally unreported i (c_threads c)))%Z;
  ci_fresh k t : c_threads c !! k = Some t → Forall os_fresh (ft_envs t);
  ci_pool : ∃ owned, pool_inv (mkPoolState (pool_ (c_gw c)) (os_sockets (c_gw c)) owned) ∧
    holders (addrs (gw_backends (c_gw c))) (c_threads c) owned
}.

Lemma alter_cases {A} (f : A → A) i (l : list A) j y :
  alter f i l !! j = Some y → ∃ x, l !! j = Some x ∧ ((j = i ∧ y = f x) ∨ (j ≠ i ∧ y = x)).
Proof.
  destruct (decide (j = i)) as [->|Hne].
  - rewrite list_lookup_alter_eq. destruct (l !! i) as [x|]; [|done]. intros [= <-]. eauto.
  - rewrite list_lookup_alter_ne by done. eauto.
Qed.

Lemma addrs_alter f i bs :
  (∀ b, host (f b) = host b ∧ port (f b) = port b) → addrs (alter f i bs) = addrs bs.
Proof.
  intros H. apply list_eq. intros j. unfold addrs. rewrite !list_lookup_fmap.
  destruct (decide (j = i)) as [->|Hne]; [|by rewrite list_lookup_alter_ne].
  rewrite list_lookup_alter_eq. destruct (bs !! i) as [b|]; [|done]. cbn. by destruct (H b) as [-> ->].
Qed.

(** The breaker counts at most one more trial when it admits, and is not half
    open after a report. *)
Lemma allow_trials now cb ok cb' :
  allowRequest now cb = (ok, cb') → cb_state cb' = HalfOpen →
  (halfOpenInFlight_ cb' ≤ (if decide (cb_state cb = HalfOpen) then halfOpenInFlight_ cb else 0) + (if ok then 1 else 0))%Z.
Proof.
  unfold allowRequest, admit_trial. intros H Hh.
  destruct (decide (cb_state cb = Open)) as [E|]; [rewrite E|]; simpl in *.
  - destruct (_ <=? _)%Z; simpl in H; [|simplify_eq; congruence].
    destruct (_ <=? _)%Z; simplify_eq/=; lia.
  - destruct (decide (cb_state cb = HalfOpen)); [|simplify_eq; congruence].
    destruct (_ <=? _)%Z; simplify_eq/=; lia.
Qed.

Lemma success_not_half_open cb : cb_state (onSuccess cb) ≠ HalfOpen.
Proof. unfold onSuccess. by destruct (decide (cb_state cb = HalfOpen)). Qed.

Lemma failure_not_half_open now cb : cb_state (onFailure now cb) ≠ HalfOpen.
Proof.
  unfold onFailure. destruct (decide (cb_state cb = HalfOpen)); [done|]. unfold count_failure. simpl.
  by repeat case_if.
Qed.

Section invariant.
Context (iterate : gmap bytes bytes → header_list).

(** What a step owes to the invariant. *)
Lemma step_inv gw ts k t t' gw' :
  conc_inv (mkConc gw ts) → ts !! k = Some t → Forall os_fresh (ft_envs t') →
  addrs (gw_backends gw') = addrs (gw_backends gw) → lb_face <$> gw_lbs gw' = lb_face <$> gw_lbs gw →
  phase_ok (length (gw_backends gw)) (ft_phase t') →
  (∀ j b', gw_backends gw' !! j = Some b' →
     activeConnections b' = wrap32 (Z.of_nat (tally counted j (<[k := t']> ts)))) →
  (∀ j b', gw_backends gw' !! j = Some b' → cb_state (circuitBreaker b') = HalfOpen →
     (halfOpenInFlight_ (circuitBreaker b') ≤ Z.of_nat (tally unreported j (<[k := t']> ts)))%Z) →
  (∃ owned, pool_inv (mkPoolState (pool_ gw') (os_sockets gw') owned) ∧
     holders (addrs (gw_backends gw)) (<[k := t']> ts) owned) →
  conc_inv (mkConc gw' (<[k := t']> ts)).
Proof.
  intros [Ip Iph _ _ If _] Hk Hf Ha Hl Hph Hact Htr Hpool. cbn [c_gw c_threads] in *.
  assert (length (gw_backends gw') = length (gw_backends gw)) as Hlen.
  { apply (f_equal length) in Ha. unfold addrs in Ha. by rewrite !length_fmap in Ha. }
  split; cbn [c_gw c_threads]; [|..|by rewrite Ha]; [|..|done|done|].
  - unfold pointers_ok in *. rewrite Hlen. rewrite Forall_forall in *. intros l [n Hn]%list_elem_of_lookup.
    assert (lb_face <$> gw_lbs gw !! n = Some (lb_face l)) as E.
    { rewrite <- !list_lookup_fmap. rewrite <- Hl, list_lookup_fmap, Hn. done. }
    destruct (gw_lbs gw !! n) as [l0|] eqn:E0; [|done]. injection E as E _.
    rewrite <- E. apply Ip. by eapply list_elem_of_lookup_2.
  - rewrite Hlen. intros j t0 [[-> ->]|[_ Hj]]%insert_cases; eauto.
  - intros j t0 [[-> ->]|[_ Hj]]%insert_cases; eauto.
Qed.

(** A step on what the invariant does not speak of. *)
Lemma quiet_inv gw ts k t t' gw' :
  conc_inv (mkConc gw ts) → ts !! k = Some t → Forall os_fresh (ft_envs t') →
  gw_backends gw' = gw_backends gw → pool_ gw' = pool_ gw → os_sockets gw' = os_sockets gw →
  lb_face <$> gw_lbs gw' = lb_face <$> gw_lbs gw → phase_ok (length (gw_backends gw)) (ft_phase t') →
  counted (ft_phase t') = counted (ft_phase t) → unreported (ft_phase t') = unreported (ft_phase t) →
  held (ft_phase t') = held (ft_phase t) → conc_inv (mkConc gw' (<[k := t']> ts)).
Proof.
  intros Hi Hk Hf Eb Ep Eo El Hph Ec Eu Eh. pose proof Hi as [_ _ Ia It _ [owned [Hp Hh]]]. cbn [c_gw c_threads] in *.
  eapply step_inv; try done; rewrite ?Eb, ?Ep, ?Eo; [done|..].
  - intros j b' Hb. rewrite (tally_insert_same _ _ _ _ _ _ Hk Ec). by apply Ia.
  - intros j b' Hb. rewrite (tally_insert_same _ _ _ _ _ _ Hk Eu). by apply It.
  - exists owned. split; [done|]. by eapply holders_same.
Qed.

(** The verdict of a breaker on thread [k]. *)
Lemma ask_inv gw ts k t i now ok gw' :
  conc_inv (mkConc gw ts) → ts !! k = Some t → ft_phase t = Chosen (Some i) →
  ask_breaker now i gw = (ok, gw') → i < length (gw_backends gw) →
  conc_inv (mkConc gw' (<[k := goto t (if ok then Allowed i else Refused)]> ts)).
Proof.
  intros Hi Hk Ht Ha Hlt. pose proof Hi as [_ _ Ia It If [owned [Hp Hh]]]. cbn [c_gw c_threads] in *.
  unfold ask_breaker in Ha. destruct (gw_backends gw !! i) as [b|] eqn:Hb; [|by apply lookup_ge_None in Hb; lia].
  destruct (allowRequest now (circuitBreaker b)) as [a cb] eqn:Hal. injection Ha as <- <-.
  set (t' := goto t _).
  assert (counted (ft_phase t') = counted (ft_phase t)) as Ec by (rewrite Ht; by destruct a).
  eapply step_inv; try done; [exact (If k t Hk)|by apply addrs_alter|by destruct a|..]; cbn [gw_backends on_backend set_backends].
  - intros j b' (b0 & Hb0 & [[-> ->]|[_ ->]])%alter_cases; rewrite (tally_insert_same _ _ _ _ _ _ Hk Ec); exact (Ia _ _ Hb0).
  - assert (∀ j, tally unreported j (<[k := t']> ts) = tally unreported j ts + one_if (unreported (ft_phase t') = Some j)) as Hti.
    { intros j. pose proof (tally_insert unreported j ts k t t' Hk) as Hti. rewrite Ht in Hti.
      change (one_if (unreported (Chosen (Some i)) = Some j)) with 0 in Hti. lia. }
    intros j b' (b0 & Hb0 & [[-> ->]|[Hne ->]])%alter_cases Hs; rewrite Hti.
    + rewrite Hb in Hb0. injection Hb0 as <-. cbn [circuitBreaker with_breaker] in *.
      pose proof (allow_trials _ _ _ _ Hal Hs) as Hle. specialize (It i b Hb).
      assert (one_if (unreported (ft_phase t') = Some i) = if a then 1 else 0) as E1.
      { unfold t', one_if. destruct a; cbn; [by rewrite decide_True|by rewrite decide_False]. }
      rewrite E1. destruct (decide (cb_state (circuitBreaker b) = HalfOpen)) as [Eh|]; [specialize (It Eh)|];
        destruct a; lia.
    + specialize (It j b0 Hb0 Hs). lia.
  - exists owned. split; [done|]. eapply holders_same; [done..|]. rewrite Ht. by destruct a.
Qed.

(** [fetch_add] and [fetch_sub] on a backend's counter. *)
Lemma active_inv gw ts k t p i n :
  conc_inv (mkConc gw ts) → ts !! k = Some t → phase_ok (length (gw_backends gw)) p →
  unreported p = unreported (ft_phase t) → held p = held (ft_phase t) →
  (∀ j, Z.of_nat (tally counted j (<[k := goto t p]> ts)) =
        Z.of_nat (tally counted j ts) + (if decide (j = i) then n else 0))%Z →
  conc_inv (mkConc (on_backend i (add_active n) gw) (<[k := goto t p]> ts)).
Proof.
  intros Hi Hk Hph Eu Eh Hn. pose proof Hi as [_ _ Ia It If [owned [Hp Hh]]]. cbn [c_gw c_threads] in *.
  eapply step_inv; try done; [exact (If k t Hk)|by apply addrs_alter|..]; cbn [gw_backends on_backend set_backends].
  - intros j b' (b0 & Hb0 & [[-> ->]|[Hne ->]])%alter_cases; rewrite Hn.
    + rewrite decide_True by done. cbn [activeConnections add_active]. by rewrite (Ia i b0 Hb0), wrap32_add.
    + rewrite decide_False by done. rewrite Z.add_0_r. by apply Ia.
  - intros j b' (b0 & Hb0 & [[-> ->]|[Hne ->]])%alter_cases Hs; rewrite (tally_insert_same _ _ _ _ t _ Hk) by done;
      by apply (It _ b0).
  - exists owned. split; [done|]. by eapply holders_same.
Qed.

(** A report to a breaker. *)
Lemma report_inv gw ts k t p i g :
  conc_inv (mkConc gw ts) → ts !! k = Some t → phase_ok (length (gw_backends gw)) p →
  counted p = counted (ft_phase t) → held p = held (ft_phase t) →
  unreported (ft_phase t) = Some i → unreported p = None → (∀ cb, cb_state (g cb) ≠ HalfOpen) →
  conc_inv (mkConc (on_backend i (λ b, with_breaker (g (circuitBreaker b)) b) gw) (<[k := goto t p]> ts)).
Proof.
  intros Hi Hk Hph Ec Eh Eu Eu' Hg. pose proof Hi as [_ _ Ia It If [owned [Hp Hh]]]. cbn [c_gw c_threads] in *.
  eapply step_inv; try done; [exact (If k t Hk)|by apply addrs_alter|..]; cbn [gw_backends on_backend set_backends].
  - intros j b' (b0 & Hb0 & [[-> ->]|[_ ->]])%alter_cases; rewrite (tally_insert_same _ _ _ _ t _ Hk) by done;
      exact (Ia _ _ Hb0).
  - intros j b' (b0 & Hb0 & [[-> ->]|[Hne ->]])%alter_cases Hs; [by destruct (Hg (circuitBreaker b0))|].
    pose proof (tally_insert unreported j ts k t (goto t p) Hk) as Hti. cbn [ft_phase goto] in Hti.
    unfold one_if in Hti. rewrite Eu, Eu', !decide_False in Hti by congruence. specialize (It j b0 Hb0 Hs). lia.
  - exists owned. split; [done|]. by eapply holders_same.
Qed.

(** A step of the pool alone. *)
Lemma pool_op_inv gw ts k t p pool os :
  conc_inv (mkConc gw ts) → ts !! k = Some t → phase_ok (length (gw_backends gw)) p →
  counted p = counted (ft_phase t) → unreported p = unreported (ft_phase t) →
  (∃ owned, pool_inv (mkPoolState pool os owned) ∧ holders (addrs (gw_backends gw)) (<[k := goto t p]> ts) owned) →
  conc_inv (mkConc (set_pool pool os gw) (<[k := goto t p]> ts)).
Proof.
  intros Hi Hk Hph Ec Eu Hpool. pose proof Hi as [_ _ Ia It If _]. cbn [c_gw c_threads] in *.
  eapply step_inv; try done; [exact (If k t Hk)|..]; cbn [gw_backends set_pool].
  - intros j b Hb. rewrite (tally_insert_same _ _ _ _ t _ Hk) by done. by apply Ia.
  - intros j b Hb. rewrite (tally_insert_same _ _ _ _ t _ Hk) by done. by apply It.
Qed.

Lemma addrs_lookup bs i b : bs !! i = Some b → addrs bs !! i = Some (host b, port b).
Proof. intros H. unfold addrs. by rewrite list_lookup_fmap, H. Qed.

Lemma take_idle_inv gw ts k t i b fd pool :
  conc_inv (mkConc gw ts) → ts !! k = Some t → ft_phase t = Counted i → gw_backends gw !! i = Some b →
  take_idle b (pool_ gw) = Some (fd, pool) →
  conc_inv (mkConc (set_pool pool (os_sockets gw) gw) (<[k := goto t (Borrowed i fd)]> ts)).
Proof.
  intros Hi Hk Ht Hb Hti. pose proof Hi as [_ Iph _ _ _ [owned [Hp Hh]]]. cbn [c_gw c_threads] in *.
  specialize (Iph k t Hk). rewrite Ht in Iph.
  unfold take_idle in Hti. destruct (idle_ (pool_ gw) !! key (host b) (port b)) as [[|fd0 rest]|] eqn:Hidle; [done| |done].
  injection Hti as <- <-. destruct (acquire_idle_inv _ _ _ _ _ _ _ Hp Hidle) as [Hfd Hp'].
  apply pool_op_inv; try done; try by rewrite Ht.
  exists (<[fd0 := (host b, port b)]> owned). split; [done|]. eapply (holders_gain _ _ _ _ t _ i).
  - done.
  - done.
  - by rewrite Ht.
  - cbn. by destruct (Z.leb_spec 0 fd0); [|lia].
  - by apply addrs_lookup.
  - destruct (inv_idle _ Hp (key (host b) (port b)) fd0) as [Ho _]; [|done].
    exists (fd0 :: rest). split; [done|left].
Qed.

Lemma dial_inv gw ts k t i b env fd os :
  conc_inv (mkConc gw ts) → ts !! k = Some t → ft_phase t = Dialling i → gw_backends gw !! i = Some b →
  os_fresh env → dialNew (at_dial env (os_sockets gw)) (host b) (port b) (os_sockets gw) = (fd, os) →
  conc_inv (mkConc (set_pool (pool_ gw) os gw) (<[k := goto t (Borrowed i fd)]> ts)).
Proof.
  intros Hi Hk Ht Hb Hf Hd. pose proof Hi as [_ Iph _ _ _ [owned [Hp Hh]]]. cbn [c_gw c_threads] in *.
  specialize (Iph k t Hk). rewrite Ht in Iph.
  apply pool_op_inv; try done; try by rewrite Ht.
  exists (if (fd <? 0)%Z then owned else <[fd := (host b, port b)]> owned).
  split; [by eapply acquire_dial_inv|]. destruct (Z.ltb_spec fd 0).
  - eapply holders_same; [done..|]. rewrite Ht. cbn. by destruct (Z.leb_spec 0 fd); [lia|].
  - eapply (holders_gain _ _ _ _ t _ i); [done|done|by rewrite Ht| |by apply addrs_lookup|].
    + cbn. by destruct (Z.leb_spec 0 fd); [|lia].
    + destruct (owned !! fd) as [a|] eqn:Ho; [|done]. apply (inv_owned _ Hp) in Ho. cbn in Ho.
      destruct (dialNew_spec _ _ _ _ _ _ (Hf _) Hd) as [[? _]|(_ & ? & _)]; [lia|congruence].
Qed.

(** Giving a borrowed connection back. *)
Lemma give_back gw ts k t t' i fd b :
  conc_inv (mkConc gw ts) → ts !! k = Some t → held (ft_phase t) = Some (i, fd) → held (ft_phase t') = None →
  gw_backends gw !! i = Some b →
  (∃ owned, pool_inv (mkPoolState (pool_ gw) (discard fd (os_sockets gw)) owned) ∧
     holders (addrs (gw_backends gw)) (<[k := t']> ts) owned) ∧
  (∀ pool os, release (host b) (port b) fd (pool_ gw) (os_sockets gw) = (pool, os) →
     ∃ owned, pool_inv (mkPoolState pool os owned) ∧ holders (addrs (gw_backends gw)) (<[k := t']> ts) owned).
Proof.
  intros Hi Hk Eh Eh' Hb. pose proof Hi as [_ _ _ _ _ [owned [Hp Hh]]]. cbn [c_gw c_threads] in *.
  assert (owned !! fd = Some (host b, port b)) as Ho.
  { destruct (hold_in _ _ _ Hh _ _ _ _ Hk Eh) as (a & Ha & Ho). rewrite (addrs_lookup _ _ _ Hb) in Ha. congruence. }
  assert (holders (addrs (gw_backends gw)) (<[k := t']> ts) (delete fd owned)) as Hh' by (by eapply holders_lose).
  split; [|intros pool os Hr]; exists (delete fd owned); (split; [|done]); (eapply pool_step_inv; [|exact Hp]).
  - by eapply step_discard.
  - by eapply step_release.
Qed.

Lemma one_counted ts k t p i (n : Z) :
  ts !! k = Some t → (counted (ft_phase t) = None ∧ counted p = Some i ∧ n = 1%Z) ∨
    (counted (ft_phase t) = Some i ∧ counted p = None ∧ n = (-1)%Z) →
  ∀ j, (Z.of_nat (tally counted j (<[k := goto t p]> ts)) =
        Z.of_nat (tally counted j ts) + (if decide (j = i) then n else 0))%Z.
Proof.
  intros Hk Hn j. pose proof (tally_insert counted j ts k t (goto t p) Hk) as H. cbn [ft_phase goto] in H.
  unfold one_if in H. destruct Hn as [(E & E' & ->)|(E & E' & ->)]; rewrite E, E' in H;
    repeat destruct (decide _); simplify_eq; lia.
Qed.

Lemma group_ok gw route l : pointers_ok gw → gw_lbs gw !! lb route = Some l → Forall (λ i, i < length (gw_backends gw)) (backends_ l).
Proof. intros Hp Hl. unfold pointers_ok in Hp. rewrite Forall_forall in Hp. by eapply Hp, list_elem_of_lookup_2. Qed.

(** The searches of [pick]. *)
Lemma pick_phase_inv gw ts k t env is_last p gw' :
  conc_inv (mkConc gw ts) → ts !! k = Some t →
  match ft_phase t with Ticket _ | Probe _ _ | Scan _ _ | Weigh _ _ _ | Chosen None => True | _ => False end →
  phase_tick iterate env (ft_route t) (ft_req t) is_last (ft_phase t) gw = Some (p, gw') →
  conc_inv (mkConc gw' (<[k := goto t p]> ts)).
Proof.
  intros Hi Hk Hph Htk. pose proof Hi as [Ip Iph _ _ If _]. cbn [c_gw c_threads] in *.
  specialize (Iph k t Hk). specialize (If k t Hk).
  destruct (ft_phase t) as [|n|o n|best [|i rest]|best i rest|[i|]| | | | | | | | | | | | ] eqn:Ht; try done; cbn in Htk.
  - destruct n as [|n]; [injection Htk as <- <-; by eapply quiet_inv; rewrite ?Ht|].
    unfold take_ticket in Htk. destruct (gw_lbs gw !! lb (ft_route t)) as [l|] eqn:Hl.
    2: { injection Htk as <- <-. by eapply quiet_inv; rewrite ?Ht. }
    cbn in Htk. injection Htk as <- <-. eapply quiet_inv; rewrite ?Ht; try done.
    + cbn. rewrite list_fmap_insert. apply list_insert_id. by rewrite list_lookup_fmap, Hl.
    + cbn. destruct (at_ticket l (rrCounter_ l)) as [i|] eqn:Hat; [|done]. cbn.
      pose proof (group_ok _ _ _ Ip Hl) as Hg. rewrite Forall_forall in Hg. by eapply Hg, list_elem_of_lookup_2.
  - destruct o as [i|]; injection Htk as <- <-; [|by eapply quiet_inv; rewrite ?Ht].
    case_if; eapply quiet_inv; rewrite ?Ht; done.
  - injection Htk as <- <-. eapply quiet_inv; rewrite ?Ht; try done. by destruct Iph.
  - injection Htk as <- <-. destruct Iph as [H1 [H2 H3]%Forall_cons].
    case_if; eapply quiet_inv; rewrite ?Ht; done.
  - injection Htk as <- <-. destruct Iph as (H1 & H2 & H3).
    eapply quiet_inv; rewrite ?Ht; try done. cbn. split; [|done]. by case_if.
  - injection Htk as <- <-. by eapply quiet_inv; rewrite ?Ht.
Qed.

(** The exchange and what follows it. *)
Lemma exchange_phase_inv gw ts k t env is_last p gw' :
  conc_inv (mkConc gw ts) → ts !! k = Some t →
  match ft_phase t with
  | Borrowed _ _ | Exchanged _ _ _ | Succeeded _ _ _ _ | Returning _ _ _ _ | Failed _ _ | Failing _ => True | _ => False
  end →
  phase_tick iterate env (ft_route t) (ft_req t) is_last (ft_phase t) gw = Some (p, gw') →
  conc_inv (mkConc gw' (<[k := goto t p]> ts)).
Proof.
  intros Hi Hk Hph Htk. pose proof Hi as [_ Iph _ _ If _]. cbn [c_gw c_threads] in *.
  specialize (Iph k t Hk). specialize (If k t Hk).
  destruct (ft_phase t) as [| | | | | | | | | |i fd|i fd r|i fd resp reus|i fd resp reus|i fd|i| | ] eqn:Ht; try done;
    cbn -[sendAndReceive release] in Htk.
  - destruct (gw_backends gw !! i) as [b|] eqn:Hb; [|done]. cbn -[sendAndReceive] in Htk.
    destruct (Z.leb_spec 0 fd).
    + destruct (sendAndReceive _ _ _ _); [done|]. injection Htk as <- <-. by eapply quiet_inv; rewrite ?Ht.
    + injection Htk as <- <-. eapply quiet_inv; rewrite ?Ht; done.
  - injection Htk as <- <-. destruct Iph as [Hlt Hr].
    apply active_inv; rewrite ?Ht; try done; [by destruct r as [[resp reus]|]; [split; [|apply Hr; eauto]|]|
      by destruct r as [[]|]|by destruct r as [[]|]|].
    apply one_counted; [done|]. right. rewrite Ht. by destruct r as [[]|].
  - injection Htk as <- <-. eapply (report_inv _ _ _ _ _ _ onSuccess); rewrite ?Ht; try done.
    apply success_not_half_open.
  - destruct Iph as [Hlt Hfd]. destruct (gw_backends gw !! i) as [b|] eqn:Hb; [|done]. cbn -[release] in Htk.
    assert (held (ft_phase t) = Some (i, fd)) as Eh by (rewrite Ht; cbn; by destruct (Z.leb_spec 0 fd); [|lia]).
    destruct (give_back gw ts k t (goto t (after_reply is_last resp)) i fd b) as [Hdis Hrel]; try done.
    { cbn. unfold after_reply. by repeat case_if. }
    injection Htk as <- <-.
    assert (∀ pool os, (∃ owned, pool_inv (mkPoolState pool os owned) ∧
       holders (addrs (gw_backends gw)) (<[k := goto t (after_reply is_last resp)]> ts) owned) →
       conc_inv (mkConc (set_pool pool os gw) (<[k := goto t (after_reply is_last resp)]> ts))) as Hop.
    { intros pool os H. apply pool_op_inv; rewrite ?Ht; try done; unfold after_reply; by repeat case_if. }
    destruct reus; [|by apply Hop]. destruct (release _ _ _ _ _) as [pool os] eqn:Hr. by apply Hop, Hrel.
  - destruct (lookup_lt_is_Some_2 _ _ Iph) as [b Hb]. injection Htk as <- <-. destruct (Z.leb_spec 0 fd) as [Hfd|Hfd].
    + destruct (give_back gw ts k t (goto t (Failing i)) i fd b) as [Hdis _]; try done.
      { rewrite Ht. cbn. by destruct (Z.leb_spec 0 fd); [|lia]. }
      by apply pool_op_inv; rewrite ?Ht.
    + eapply quiet_inv; rewrite ?Ht; try done. cbn. by destruct (Z.leb_spec 0 fd); [lia|].
  - injection Htk as <- <-. eapply (report_inv _ _ _ _ _ _ (onFailure (at_failure env))); rewrite ?Ht;
      try done; [by case_if..|]. apply failure_not_half_open.
Qed.

Lemma phase_tick_inv gw ts k t env is_last p gw' :
  conc_inv (mkConc gw ts) → ts !! k = Some t → os_fresh env →
  phase_tick iterate env (ft_route t) (ft_req t) is_last (ft_phase t) gw = Some (p, gw') →
  conc_inv (mkConc gw' (<[k := goto t p]> ts)).
Proof.
  intros Hi Hk Hf Htk. pose proof (ci_phases _ Hi k t Hk) as Hph. cbn [c_gw] in Hph.
  destruct (ft_phase t) as [| | | | |[i|]| |i|i|i| | | | | | | | ] eqn:Ht;
    try discriminate Htk;
    try (rewrite <- Ht in Htk; eapply pick_phase_inv; [done|done|by rewrite Ht|exact Htk]);
    try (rewrite <- Ht in Htk; eapply exchange_phase_inv; [done|done|by rewrite Ht|exact Htk]);
    cbn -[ask_breaker dialNew] in Htk.
  - destruct (gw_backends gw !! i) as [b|] eqn:Hb; [|done]. cbn -[ask_breaker] in Htk.
    destruct (ask_breaker _ _ _) as [ok gw1] eqn:Ha. injection Htk as <- <-. by eapply ask_inv.
  - injection Htk as <- <-. apply active_inv; rewrite ?Ht; try done. apply one_counted; [done|]. left. by rewrite Ht.
  - destruct (gw_backends gw !! i) as [b|] eqn:Hb; [|done]. cbn in Htk.
    destruct (take_idle b (pool_ gw)) as [[fd pool]|] eqn:Hti; injection Htk as <- <-; [by eapply take_idle_inv|].
    eapply quiet_inv; rewrite ?Ht; try done. exact (ci_fresh _ Hi k t Hk).
  - destruct (gw_backends gw !! i) as [b|] eqn:Hb; [|done]. cbn -[dialNew] in Htk.
    destruct (dialNew _ _ _ _) as [fd os] eqn:Hd. injection Htk as <- <-. by eapply dial_inv.
Qed.

Lemma fwd_tick_inv gw ts k t t' gw' :
  conc_inv (mkConc gw ts) → ts !! k = Some t → fwd_tick iterate t gw = Some (t', gw') →
  conc_inv (mkConc gw' (<[k := t']> ts)).
Proof.
  intros Hi Hk. pose proof (ci_fresh _ Hi k t Hk) as Hf. pose proof (ci_pointers _ Hi) as Hp. cbn [c_gw] in Hp.
  assert (∀ m, ft_phase t = Refused ∨ ft_phase t = Waiting →
    conc_inv (mkConc (on_metrics m gw) (<[k := continue t]> ts))) as Hnext.
  { intros m Hph. eapply quiet_inv; try done; [by apply Forall_tail|by destruct Hph as [->| ->]..]. }
  unfold fwd_tick. destruct (ft_phase t) eqn:Ht.
  1: { destruct (ft_left t) as [|n]; [intros [= <- <-]; by eapply quiet_inv; rewrite ?Ht|].
       destruct (ft_envs t) as [|e0 es] eqn:He; [done|]. rewrite <- He. intros [= <- <-].
       assert (
         phase_ok (length (gw_backends gw)) (enter_pick (ft_route t) gw) ∧
         counted (enter_pick (ft_route t) gw) = None ∧ unreported (enter_pick (ft_route t) gw) = None ∧
         held (enter_pick (ft_route t) gw) = None) as (H1 & H2 & H3 & H4).
       { unfold enter_pick. destruct (gw_lbs gw !! lb (ft_route t)) as [l|] eqn:Hl; [|done].
         destruct (decide _); [done|]. destruct (strategy_ l); [done|]. split_and!; try done.
         cbn. split; [done|]. by eapply group_ok. }
       eapply quiet_inv; rewrite ?Ht; try done. by rewrite He. }
  all: try (intros [= <- <-]; by apply Hnext; auto).
  all: rewrite <- Ht; destruct (ft_envs t) as [|env envs]; [done|]; apply Forall_cons in Hf as [Hf1 _].
  all: destruct (phase_tick _ _ _ _ _ _ _) as [[p gw1]|] eqn:Htk; [|done]; intros [= <- <-]; by eapply phase_tick_inv.
Qed.
End invariant.

(** ** Schedules *)

(** The operating system hands out unused descriptors. *)
Definition fresh_action (a : action) : Prop :=
  match a with Request _ _ envs => Forall os_fresh envs | _ => True end.

(** No request is in flight. *)
Record at_rest (gw : Gateway) : Prop := {
  rest_pointers : pointers_ok gw;
  rest_pool : pool_inv (pool_at_rest gw);
  rest_backends b : b ∈ gw_backends gw → activeConnections b = 0%Z ∧ cb_state (circuitBreaker b) ≠ HalfOpen
}.

Lemma at_rest_inv gw : at_rest gw → conc_inv (mkConc gw []).
Proof.
  intros [H1 H2 H3]. split; cbn; try done.
  - intros i b Hb. by destruct (H3 b (list_elem_of_lookup_2 _ _ _ Hb)) as [-> _].
  - intros i b Hb. by destruct (H3 b (list_elem_of_lookup_2 _ _ _ Hb)) as [_ ?].
  - exists ∅. split; [done|]. split; [intros fd a; by rewrite lookup_empty|done|done].
Qed.

Lemma tally_snoc f i ts t : f (ft_phase t) = None → tally f i (ts ++ [t]) = tally f i ts.
Proof.
  intros E. unfold tally. rewrite filter_app, filter_cons, E, decide_False by done. by rewrite app_nil_r.
Qed.

Lemma snoc_cases {A} (l : list A) x k y :
  (l ++ [x]) !! k = Some y → l !! k = Some y ∨ (k = length l ∧ y = x).
Proof.
  intros [H|[Hle H]]%lookup_app_Some; [by left|right].
  destruct (k - length l) eqn:E; simpl in H; [|done]. split; [lia|congruence].
Qed.

(** A new request. *)
Lemma request_inv gw ts route req envs :
  conc_inv (mkConc gw ts) → Forall os_fresh envs →
  conc_inv (mkConc gw (ts ++ [start_forward gw route req envs])).
Proof.
  intros [Ip Iph Ia It If [owned [Hp [H1 H2 H3]]]] Hf. cbn [c_gw c_threads] in *. set (t := start_forward _ _ _ _).
  split; cbn [c_gw c_threads].
  - done.
  - intros k t0 [H|[_ ->]]%snoc_cases; [by eapply Iph|done].
  - intros i b Hb. rewrite tally_snoc by done. by apply Ia.
  - intros i b Hb. rewrite tally_snoc by done. by apply It.
  - intros k t0 [H|[_ ->]]%snoc_cases; [by eapply If|done].
  - exists owned. split; [done|]. split.
    + intros fd a (k & t0 & i & Hk & Hh)%H1. exists k, t0, i. by rewrite (lookup_app_l_Some _ _ _ _ Hk).
    + intros k t0 i fd [H|[_ ->]]%snoc_cases; [by eapply H2|done].
    + intros k1 k2 t1 t2 i1 i2 fd [L1|[_ ->]]%snoc_cases [L2|[_ ->]]%snoc_cases; try done. by eapply H3.
Qed.

Section schedules.
Context (iterate : gmap bytes bytes → header_list).

Lemma act_inv c a : conc_inv c → fresh_action a → conc_inv (act iterate c a).
Proof.
  intros Hi Ha. destruct c as [gw ts], a as [k|route req envs|i ok|rl|ca|f|n]; unfold act; cbn [c_gw c_threads].
  - destruct (ts !! k) as [t|] eqn:Hk; [|done].
    destruct (fwd_tick iterate t gw) as [[t' gw']|] eqn:Ht; [|done]. by eapply fwd_tick_inv.
  - by apply request_inv.
  - pose proof Hi as [Ip Iph Ia It If Hpool]. cbn [c_gw c_threads] in *.
    split; cbn [c_gw c_threads gw_backends on_backend set_backends]; try done.
    + unfold pointers_ok. cbn. by rewrite length_alter.
    + by rewrite length_alter.
    + intros j b (b0 & Hb0 & [[-> ->]|[_ ->]])%alter_cases; exact (Ia _ _ Hb0).
    + intros j b (b0 & Hb0 & [[-> ->]|[_ ->]])%alter_cases; exact (It _ _ Hb0).
    + by rewrite addrs_alter.
  - destruct Hi. by split.
  - destruct Hi. by split.
  - destruct Hi. by split.
  - destruct Hi. by split.
Qed.

Lemma run_schedule_inv schedule c :
  conc_inv c → Forall fresh_action schedule → conc_inv (run_schedule iterate schedule c).
Proof.
  revert c. induction schedule as [|a l IH]; intros c Hi Hf; [done|].
  apply Forall_cons in Hf as [Ha Hf]. cbn. by apply IH; [apply act_inv|].
Qed.

(** *** Progress *)

Definition phase_rank (p : phase) : nat :=
  match p with
  | Done _ => 0 | Head => 1 | Waiting | Refused => 2 | Returning _ _ _ _ | Failing _ => 3
  | Succeeded _ _ _ _ | Failed _ _ => 4 | Exchanged _ _ _ => 5 | Borrowed _ _ => 6 | Dialling _ => 7
  | Counted _ => 8 | Allowed _ => 9 | Chosen _ => 10 | Ticket k => 2 * k + 11 | Probe _ k => 2 * k + 12
  | Scan _ rest => 2 * length rest + 11 | Weigh _ _ rest => 2 * length rest + 12
  end.

Definition is_done (p : phase) : bool := match p with Done _ => true | _ => false end.

(** An upper bound on the operations left, for a group of [m] backends. *)
Definition rank (m : nat) (t : fwd_thread) : nat :=
  if is_done (ft_phase t) then 0 else ft_left t * (2 * m + 12) + phase_rank (ft_phase t).

Definition group_size (gw : Gateway) (route : Route) : nat :=
  from_option (λ l, length (backends_ l)) 0 (gw_lbs gw !! lb route).

(** The environment of the thread answers, for every iteration left. *)
Definition env_ok (t : fwd_thread) : Prop :=
  Forall answers (ft_envs t) ∧
  match ft_phase t with
  | Head => ft_left t ≤ length (ft_envs t)
  | Done _ => True
  | _ => ft_left t < length (ft_envs t)
  end.

Lemma phase_tick_rank env route req is_last p gw p' gw' :
  phase_tick iterate env route req is_last p gw = Some (p', gw') → phase_rank p' < phase_rank p.
Proof.
  destruct p as [|[|k]|[i|] k|best [|i rest]|best i rest|[i|]| |i|i|i|i fd|i fd r|i fd resp reus|i fd resp reus|i fd|i| | ];
    cbn -[sendAndReceive release dialNew ask_breaker take_ticket take_idle].
  all: try by intros [= <- <-]; cbn; repeat case_if; cbn; lia.
  - destruct (take_ticket _ _) as [o gw1]. intros [= <- <-]. cbn. lia.
  - destruct (gw_backends gw !! i); [|done]. cbn -[ask_breaker]. destruct (ask_breaker _ _ _) as [[] gw1]; intros [= <- <-]; cbn; lia.
  - destruct (gw_backends gw !! i); [|done]. cbn -[take_idle]. destruct (take_idle _ _) as [[fd pool]|]; intros [= <- <-]; cbn; lia.
  - destruct (gw_backends gw !! i); [|done]. cbn -[dialNew]. destruct (dialNew _ _ _ _) as [fd os]; intros [= <- <-]; cbn; lia.
  - destruct (gw_backends gw !! i); [|done]. cbn -[sendAndReceive]. destruct (if (0 <=? fd)%Z then _ else _); [done|].
    intros [= <- <-]; cbn; lia.
  - intros [= <- <-]. destruct r as [[]|]; cbn; lia.
  - destruct (gw_backends gw !! i); [|done]. cbn -[release]. intros [= <- <-].
    unfold after_reply. repeat case_if; cbn; lia.
Qed.

Lemma enter_pick_rank route gw : phase_rank (enter_pick route gw) ≤ 2 * group_size gw route + 11.
Proof.
  unfold enter_pick, group_size. destruct (gw_lbs gw !! lb route) as [l|]; [|cbn; lia].
  destruct (decide _); [cbn; lia|]. destruct (strategy_ l); cbn; lia.
Qed.

Lemma fwd_tick_rank t gw t' gw' :
  fwd_tick iterate t gw = Some (t', gw') →
  rank (group_size gw (ft_route t)) t' < rank (group_size gw (ft_route t)) t ∧ ft_route t' = ft_route t ∧
  (env_ok t → env_ok t').
Proof.
  unfold fwd_tick. destruct t as [route req n envs p]. cbn [ft_route ft_req ft_left ft_envs ft_phase].
  generalize (group_size gw route), (enter_pick_rank route gw). intros m Hm.
  assert (∀ g, Some (continue (mkFwd route req n envs p), g) = Some (t', gw') → phase_rank p = 2 →
    is_done p = false → rank m t' < rank m (mkFwd route req n envs p) ∧ ft_route t' = route ∧
    (env_ok (mkFwd route req n envs p) → env_ok t')) as Hnext.
  { intros g [= <- <-] E Ed. unfold rank. cbn. rewrite Ed, E. split; [lia|]. split; [done|].
    intros [Ha Hl]. split; [by apply Forall_tail|]. cbn in *. destruct envs; destruct p; cbn in *; try done; lia. }
  assert (∀ env envs' p' g, envs = env :: envs' → phase_tick iterate env route req (bool_decide (n = 0)) p gw = Some (p', g) →
    match p with Head | Done _ => False | _ => True end →
    rank m (goto (mkFwd route req n envs p) p') < rank m (mkFwd route req n envs p) ∧
    (env_ok (mkFwd route req n envs p) → env_ok (goto (mkFwd route req n envs p) p'))) as Hin.
  { intros env envs' p' g -> Ht Hp. apply phase_tick_rank in Ht. unfold rank. cbn [ft_phase ft_left goto]. split.
    - destruct p; try done; destruct p'; cbn [is_done]; cbn in *; lia.
    - intros [Ha Hl]. split; [done|]. cbn in *. destruct p'; try done; destruct p; try done; lia. }
  destruct p.
  1: { destruct n as [|n].
       - intros [= <- <-]. unfold rank. cbn. split; [lia|]. split; [done|]. by intros [Ha _].
       - destruct envs as [|env envs]; [done|]. intros [= <- <-]. unfold rank. cbn [ft_phase ft_left is_done].
         split; [case_if; cbn [phase_rank] in *; lia|]. split; [done|]. intros [Ha Hl]. split; [done|]. cbn in *.
         destruct (enter_pick route gw); try done; lia. }
  all: try by intros H; eapply Hnext.
  all: try by destruct envs.
  all: destruct envs as [|env envs]; [done|]; destruct (phase_tick _ _ _ _ _ _ _) as [[p' g]|] eqn:Ht; [|done];
    intros [= <- <-]; destruct (Hin env envs p' g eq_refl Ht I) as [H1 H2]; done.
Qed.

Lemma fwd_tick_progress t gw :
  phase_ok (length (gw_backends gw)) (ft_phase t) → env_ok t → is_done (ft_phase t) = false →
  is_Some (fwd_tick iterate t gw).
Proof.
  intros Hph [Ha Hl] Hd. unfold fwd_tick. destruct t as [route req n envs p]. cbn in *.
  assert (match p with Head | Done _ | Refused | Waiting => True | _ => ∃ env envs', envs = env :: envs' end) as He.
  { destruct p; try done; destruct envs; cbn in Hl; try lia; eauto. }
  assert (∀ i, i < length (gw_backends gw) → is_Some (gw_backends gw !! i)) as Hb by (intros i; apply lookup_lt_is_Some_2).
  destruct p as [|[|k]|[i|] k|best [|i rest]|best i rest|[i|]| |i|i|i|i fd|i fd r|i fd resp reus|i fd resp reus|i fd|i| | ]; try done;
    try (destruct He as (env & envs' & ->)); try by eexists.
  - destruct n; [by eexists|]. destruct envs; [cbn in Hl; lia|by eexists].
  - cbn -[take_ticket]. destruct (take_ticket _ _). by eexists.
  - destruct (Hb i Hph) as [b Hbi]. cbn -[ask_breaker]. rewrite Hbi. cbn -[ask_breaker].
    destruct (ask_breaker _ _ _). by eexists.
  - destruct (Hb i Hph) as [b Hbi]. cbn -[take_idle]. rewrite Hbi. cbn -[take_idle].
    destruct (take_idle _ _) as [[]|]; by eexists.
  - destruct (Hb i Hph) as [b Hbi]. cbn -[dialNew]. rewrite Hbi. cbn -[dialNew].
    destruct (dialNew _ _ _ _). by eexists.
  - destruct (Hb i Hph) as [b Hbi]. cbn -[sendAndReceive]. rewrite Hbi. cbn -[sendAndReceive].
    apply Forall_cons in Ha as [Ha _]. destruct (0 <=? fd)%Z; [|by eexists].
    specialize (Ha (buildBackendRequest iterate req (host b)) (maxResponseBodyBytes gw)).
    destruct (sendAndReceive _ _ _ _); [done|by eexists].
  - destruct Hph as [Hph _]. destruct (Hb i Hph) as [b Hbi]. cbn -[release]. rewrite Hbi. by eexists.
Qed.

(** What no action changes: the groups and the retry policy. *)
Definition fixed_parts (gw : Gateway) : list (list bptr * LbStrategy) * RetryPolicy :=
  (lb_face <$> gw_lbs gw, retryPolicy_ gw).

Lemma phase_tick_fixed env route req is_last p gw p' gw' :
  phase_tick iterate env route req is_last p gw = Some (p', gw') → fixed_parts gw' = fixed_parts gw.
Proof.
  destruct p as [|[|k]|[i|] k|best [|i rest]|best i rest|[i|]| |i|i|i|i fd|i fd r|i fd resp reus|i fd resp reus|i fd|i| | ];
    cbn -[sendAndReceive release dialNew ask_breaker take_ticket take_idle].
  all: try by intros [= <- <-].
  - unfold take_ticket. destruct (gw_lbs gw !! lb route) as [l|] eqn:Hl; cbn; intros [= <- <-]; [|done].
    unfold fixed_parts. cbn. rewrite list_fmap_insert, list_insert_id; [done|]. by rewrite list_lookup_fmap, Hl.
  - destruct (gw_backends gw !! i) as [b|] eqn:Hb; [|done]. cbn. unfold ask_breaker. rewrite Hb.
    destruct (allowRequest _ _). by intros [= <- <-].
  - destruct (gw_backends gw !! i); [|done]. cbn -[take_idle]. destruct (take_idle _ _) as [[fd pool]|]; by intros [= <- <-].
  - destruct (gw_backends gw !! i); [|done]. cbn -[dialNew]. destruct (dialNew _ _ _ _) as [fd os]; by intros [= <- <-].
  - destruct (gw_backends gw !! i); [|done]. cbn -[sendAndReceive]. destruct (if (0 <=? fd)%Z then _ else _); [done|].
    by intros [= <- <-].
  - destruct (gw_backends gw !! i); [|done]. cbn -[release]. intros [= <- <-].
    destruct reus; [|done]. by destruct (release _ _ _ _ _).
  - intros [= <- <-]. by case_if.
Qed.

Lemma act_fixed c a : fixed_parts (c_gw (act iterate c a)) = fixed_parts (c_gw c).
Proof.
  destruct c as [gw ts], a as [k|route req envs|i ok|rl|ca|f|n]; try done. unfold act. cbn [c_gw c_threads].
  destruct (ts !! k) as [t|]; [|done]. destruct (fwd_tick iterate t gw) as [[t' gw']|] eqn:Ht; [|done]. cbn [c_gw].
  unfold fwd_tick in Ht. destruct (ft_phase t) eqn:Hp.
  1: { destruct (ft_left t); [by injection Ht as <- <-|]. destruct (ft_envs t); [done|]. by injection Ht as <- <-. }
  all: try by injection Ht as <- <-.
  all: destruct (ft_envs t) as [|env envs]; [done|]; destruct (phase_tick _ _ _ _ _ _ _) as [[p' g]|] eqn:Htk; [|done];
    injection Ht as <- <-; by eapply phase_tick_fixed.
Qed.

Lemma run_schedule_fixed schedule c : fixed_parts (c_gw (run_schedule iterate schedule c)) = fixed_parts (c_gw c).
Proof.
  revert c. induction schedule as [|a l IH]; intros c; [done|]. cbn. unfold run_schedule in IH. by rewrite IH, act_fixed.
Qed.

Lemma group_size_fixed gw gw' route : fixed_parts gw' = fixed_parts gw → group_size gw' route = group_size gw route.
Proof.
  intros [= E _]. unfold group_size. apply (f_equal (λ l, l !! lb route)) in E. rewrite !list_lookup_fmap in E.
  destruct (gw_lbs gw' !! lb route) as [l'|], (gw_lbs gw !! lb route) as [l|]; simplify_eq/=; [|done].
  by match goal with H : backends_ _ = _ |- _ => rewrite H end.
Qed.

(** How often thread [k] is scheduled. *)
Definition is_tick (k : nat) (a : action) : bool :=
  match a with Tick j => bool_decide (j = k) | _ => false end.

Definition ticks (k : nat) (schedule : list action) : nat := length (filter (λ a, is_tick k a = true) schedule).

Lemma ticks_cons k a l : ticks k (a :: l) = ticks k [a] + ticks k l.
Proof. unfold ticks. rewrite !filter_cons. by destruct (decide (is_tick k a = true)). Qed.

Lemma ticks_one k a : ticks k [a] = if is_tick k a then 1 else 0.
Proof. unfold ticks. rewrite filter_cons. by destruct (is_tick k a). Qed.

(** A thread only moves by its own ticks, and each brings it closer to its
    response. *)
Lemma act_thread c a k t :
  conc_inv c → c_threads c !! k = Some t → env_ok t →
  ∃ t', c_threads (act iterate c a) !! k = Some t' ∧ ft_route t' = ft_route t ∧ env_ok t' ∧
    rank (group_size (c_gw c) (ft_route t)) t' ≤ rank (group_size (c_gw c) (ft_route t)) t - ticks k [a].
Proof.
  intros Hi Hk He. destruct c as [gw ts]. cbn [c_gw c_threads] in *.
  assert (∀ gw', ticks k [a] = 0 → ∃ t', c_threads (mkConc gw' ts) !! k = Some t' ∧ ft_route t' = ft_route t ∧ env_ok t' ∧
    rank (group_size gw (ft_route t)) t' ≤ rank (group_size gw (ft_route t)) t - ticks k [a]) as Hstay.
  { intros gw' E. exists t. rewrite E. split_and!; [done..|lia]. }
  destruct a as [j|route req envs|i ok|rl|ca|f|n]; unfold act; cbn [c_gw c_threads]; try (apply (Hstay gw); by rewrite ticks_one).
  - destruct (decide (j = k)) as [->|Hne].
    + rewrite Hk, ticks_one. cbn [is_tick]. rewrite bool_decide_eq_true_2 by done.
      destruct (fwd_tick iterate t gw) as [[t' gw']|] eqn:Ht.
      * destruct (fwd_tick_rank _ _ _ _ Ht) as (Hr & Hro & He'). exists t'. cbn [c_threads].
        rewrite (insert_hit _ _ _ _ Hk). split_and!; [done|done|by apply He'|lia].
      * exists t. split_and!; [done..|]. destruct (is_done (ft_phase t)) eqn:Hd; [unfold rank; rewrite Hd; lia|].
        destruct (fwd_tick_progress t gw) as [x Hx]; [exact (ci_phases _ Hi k t Hk)|done|done|congruence].
    + assert (ticks k [Tick j] = 0) as E by (rewrite ticks_one; cbn; by rewrite bool_decide_eq_false_2).
      destruct (ts !! j) as [tj|]; [|by apply (Hstay gw)].
      destruct (fwd_tick iterate tj gw) as [[t' gw']|]; [|by apply (Hstay gw)]. exists t. cbn [c_threads].
      rewrite list_lookup_insert_ne by done. split_and!; [done..|lia].
  - exists t. cbn [c_threads]. rewrite (lookup_app_l_Some _ _ _ _ Hk). split_and!; [done..|]. rewrite ticks_one. cbn. lia.
Qed.

Lemma run_thread schedule c k t :
  conc_inv c → Forall fresh_action schedule → c_threads c !! k = Some t → env_ok t →
  ∃ t', c_threads (run_schedule iterate schedule c) !! k = Some t' ∧ ft_route t' = ft_route t ∧
    rank (group_size (c_gw c) (ft_route t)) t' ≤ rank (group_size (c_gw c) (ft_route t)) t - ticks k schedule.
Proof.
  revert c t. induction schedule as [|a l IH]; intros c t Hi Hf Hk He.
  { exists t. split_and!; [done..|cbn; lia]. }
  apply Forall_cons in Hf as [Ha Hf]. destruct (act_thread c a k t Hi Hk He) as (t1 & Hk1 & Hr1 & He1 & Hle1).
  destruct (IH (act iterate c a) t1) as (t2 & Hk2 & Hr2 & Hle2); [by apply act_inv|done|done|done|].
  exists t2. rewrite ticks_cons. rewrite Hr1 in Hr2, Hle2.
  rewrite (group_size_fixed _ _ _ (act_fixed c a)) in Hle2. split_and!; [done|done|lia].
Qed.
End schedules.

(** ** Theorems *)

(** The operations a request to this route takes at most. *)
Definition forward_bound (gw : Gateway) (route : Route) : nat :=
  Z.to_nat (maxRetries (retryPolicy_ gw) + 1) * (2 * group_size gw route + 12) + 1.

Lemma tally_le f i ts : tally f i ts ≤ length ts.
Proof. apply length_filter. Qed.

(** C9: concurrent forwarding keeps the accounts.  In every state that any
    interleaving of requests, health verdicts and other work reaches from a
    gateway at rest: a backend's in-flight counter is the number of threads
    between its [fetch_add] and its [fetch_sub]; a borrowed connection is an
    open socket to the backend its thread talks to and no other thread has
    it; every open socket is borrowed by a thread or waits in the queue of
    its own backend; and a half-open breaker that has used up its trials has
    a thread that is still to report, so it cannot refuse for ever. *)
Theorem forward_concurrent_safe iterate schedule gw :
  let c := run_schedule iterate schedule (mkConc gw []) in
  at_rest gw → Forall fresh_action schedule →
  (∀ i b, gw_backends (c_gw c) !! i = Some b → (Z.of_nat (length (c_threads c)) ≤ int_max)%Z →
     activeConnections b = Z.of_nat (tally counted i (c_threads c))) ∧
  (∀ k t i fd, c_threads c !! k = Some t → held (ft_phase t) = Some (i, fd) →
     (∃ b, gw_backends (c_gw c) !! i = Some b ∧ os_sockets (c_gw c) !! fd = Some (host b, port b)) ∧
     ∀ k' t' i', c_threads c !! k' = Some t' → held (ft_phase t') = Some (i', fd) → k' = k) ∧
  (∀ fd h p, os_sockets (c_gw c) !! fd = Some (h, p) →
     (∃ k t i, c_threads c !! k = Some t ∧ held (ft_phase t) = Some (i, fd)) ∨ idle_in (pool_ (c_gw c)) (key h p) fd) ∧
  (∀ i b, gw_backends (c_gw c) !! i = Some b → cb_state (circuitBreaker b) = HalfOpen →
     (0 < halfOpenTrialRequests_ (circuitBreaker b) ≤ halfOpenInFlight_ (circuitBreaker b))%Z →
     ∃ k t, c_threads c !! k = Some t ∧ unreported (ft_phase t) = Some i).
Proof.
  intros c Hr Hf. pose proof (run_schedule_inv iterate schedule _ (at_rest_inv _ Hr) Hf) as Hi.
  fold c in Hi. destruct c as [g ts].
  destruct Hi as [_ _ Ia It _ [owned [Hp [H1 H2 H3]]]]. cbn [c_gw c_threads] in *. split_and!.
  - intros i b Hb Hmax. rewrite (Ia i b Hb). apply wrap32_small. pose proof (tally_le counted i ts).
    unfold int_min, int_max in *. lia.
  - intros k t i fd Hk Hh. split.
    + destruct (H2 _ _ _ _ Hk Hh) as (a & Ha & Ho). unfold addrs in Ha. rewrite list_lookup_fmap in Ha.
      destruct (gw_backends g !! i) as [b|]; [|done]. injection Ha as <-. exists b. split; [done|].
      by apply (inv_owned _ Hp) in Ho.
    + intros k' t' i' Hk' Hh'. by eapply H3.
  - intros fd h p Hos. destruct (inv_os _ Hp fd h p Hos) as [_ [Ho|?]]; [left|by right].
    destruct (H1 _ _ Ho) as (k & t & i & Hk & Hh & _). eauto.
  - intros i b Hb Hs Hlim. specialize (It i b Hb Hs). apply tally_pos. lia.
Qed.

(** Every request is answered, whatever the others do.  A request that
    arrives at any time, and whose backend exchanges end, has its response
    once its thread has been scheduled [forward_bound] times, however the
    other threads, new requests, health verdicts and updates of the rest of
    the gateway are interleaved with it. *)
Theorem forward_live iterate gw before route req envs after :
  at_rest gw → Forall fresh_action before → Forall os_fresh envs → Forall fresh_action after →
  Forall answers envs → (maxRetries (retryPolicy_ gw) + 1 ≤ Z.of_nat (length envs))%Z →
  let k := length (c_threads (run_schedule iterate before (mkConc gw []))) in
  forward_bound gw route ≤ ticks k after →
  ∃ t resp, c_threads (run_schedule iterate (before ++ Request route req envs :: after) (mkConc gw [])) !! k = Some t ∧
    ft_phase t = Done resp.
Proof.
  intros Hr Hb Hfe Ha Hans Hlen k Hticks.
  pose proof (run_schedule_inv iterate before _ (at_rest_inv _ Hr) Hb) as Hi.
  pose proof (run_schedule_fixed iterate before (mkConc gw [])) as Hfix. cbn [c_gw] in Hfix.
  unfold run_schedule at 1. rewrite foldl_app. cbn [foldl]. fold (run_schedule iterate before (mkConc gw [])) in *.
  set (c := run_schedule iterate before (mkConc gw [])) in *.
  set (t := start_forward (c_gw c) route req envs). set (c1 := act iterate c (Request route req envs)).
  assert (conc_inv c1) as Hi1 by (by apply act_inv).
  assert (c_threads c1 !! k = Some t) as Hk by (cbn; apply list_lookup_middle; done).
  assert (retryPolicy_ (c_gw c) = retryPolicy_ gw) as Erp by (by injection Hfix).
  destruct (run_thread iterate after c1 k t Hi1 Ha Hk) as (t' & Hk' & _ & Hle).
  { split; [done|]. cbn. pose proof (attempts_le (c_gw c)). rewrite Erp in *. lia. }
  change (group_size (c_gw c1) (ft_route t)) with (group_size (c_gw c) route) in Hle.
  rewrite (group_size_fixed _ _ _ Hfix) in Hle.
  assert (rank (group_size gw route) t ≤ forward_bound gw route) as Erank.
  { unfold rank, t, forward_bound. cbn [ft_left ft_phase start_forward]. pose proof (attempts_le (c_gw c)) as Ha'.
    rewrite Erp in Ha'. cbn. nia. }
  assert (rank (group_size gw route) t' = 0) as E0 by lia.
  exists t'. unfold rank in E0. destruct (ft_phase t') as [| | | | | | | | | | | | | | | | |resp] eqn:Hp; cbn in E0; try lia.
  exists resp. split; [exact Hk'|done].
Qed.

(** A thread that is alone computes what [forwardWithResilience] does:
    the interleaved model and the sequential one agree. *)
Theorem forward_steps_agree iterate envs route req gw resp gw' :
  forwardWithResilience iterate envs route req gw = Some (resp, gw') →
  ∃ t, rtc (tick_rel iterate) (start_forward gw route req envs, gw) (t, gw') ∧ ft_phase t = Done resp.
Proof. unfold forwardWithResilience. apply forward_alone. Qed.

(** Two requests for one backend, their steps alternating. *)
Definition demo_schedule : list action :=
  [Request demo_route demo_get [demo_env demo_reply; demo_env demo_reply];
   Request demo_route demo_get [demo_env demo_reply; demo_env demo_reply]] ++
  concat (replicate 7 [Tick 0; Tick 1]).

Lemma demo_at_rest : at_rest demo_closed.
Proof.
  split; [apply demo_pointers|by apply (initial_pool_inv 2 500)|]. intros b Hb.
  apply list_elem_of_singleton in Hb as ->. done.
Qed.

Lemma demo_schedule_fresh : Forall fresh_action demo_schedule.
Proof. repeat constructor; apply demo_env_fresh. Qed.

Lemma forward_concurrent_safe_witness :
  let c := run_schedule map_to_list demo_schedule (mkConc demo_closed []) in
  (∀ i b, gw_backends (c_gw c) !! i = Some b → (Z.of_nat (length (c_threads c)) ≤ int_max)%Z →
     activeConnections b = Z.of_nat (tally counted i (c_threads c))) ∧
  tally counted 0 (c_threads c) = 2 ∧ size (os_sockets (c_gw c)) = 2.
Proof.
  split; [|split; vm_compute; reflexivity].
  exact (proj1 (forward_concurrent_safe map_to_list demo_schedule demo_closed demo_at_rest demo_schedule_fresh)).
Defined.

Definition demo_turns : list action := concat (replicate 29 [Tick 0; Tick 2; Verdict 0 true]).

Lemma forward_live_witness :
  let k := length (c_threads (run_schedule map_to_list demo_schedule (mkConc demo_closed []))) in
  k = 2 ∧
  ∃ t resp, c_threads (run_schedule map_to_list (demo_schedule ++ Request demo_route demo_get [demo_env demo_reply; demo_env demo_reply]
      :: demo_turns) (mkConc demo_closed [])) !! k = Some t ∧ ft_phase t = Done resp.
Proof.
  split; [vm_compute; reflexivity|].
  refine (forward_live map_to_list demo_closed demo_schedule demo_route demo_get [demo_env demo_reply; demo_env demo_reply]
    demo_turns demo_at_rest demo_schedule_fresh _ _ _ _ _).
  - repeat constructor; apply demo_env_fresh.
  - repeat constructor.
  - repeat constructor; apply demo_env_answers.
  - simpl. lia.
  - vm_compute. lia.
Defined.

Lemma forward_steps_agree_witness :
  ∃ t, rtc (tick_rel map_to_list) (start_forward demo_closed demo_route demo_get [demo_env demo_reply], demo_closed)
    (t, demo_result.2) ∧ ft_phase t = Done demo_result.1.
Proof.
  apply (forward_steps_agree map_to_list [demo_env demo_reply] demo_route demo_get demo_closed demo_result.1 demo_result.2).
  vm_compute. reflexivity.
Defined.
