(* ===== verification/EventLoop.v ===== *)
(** * Event loop (include/core/EventLoop.hpp, src/core/EventLoop.cpp)

    The kernel's interest list and the table of callbacks.  The constructor,
    [add], [modify] and [poll] throw ([None]) when [epoll_create1],
    [epoll_ctl] or [epoll_wait] fails; [epoll_ctl] refuses to register a
    descriptor twice and to change one that is not registered. *)
From S2P Require Import Prelude.

Definition EPOLLIN : Z := 1.
Definition EPOLLOUT : Z := 4.
Definition EPOLLERR : Z := 8.
Definition EPOLLHUP : Z := 16.

Record EventLoop := mkEventLoop {
  interest : gmap Z Z;        (* descriptor to event mask, in the kernel *)
  callbacks_ : gset Z         (* descriptors with a callback *)
}.

Definition newEventLoop : EventLoop := mkEventLoop ∅ ∅.

(** The constructor, [epollFd] being the answer of [epoll_create1] and [epolls]
    the epoll descriptors open in the process. *)
Definition createEventLoop (epollFd : Z) (epolls : gset Z) : option (EventLoop * gset Z) :=
  if (epollFd <? 0)%Z then None else Some (newEventLoop, {[epollFd]} ∪ epolls).

Definition deleteEventLoop (epollFd : Z) (epolls : gset Z) : gset Z :=
  if (0 <=? epollFd)%Z then epolls ∖ {[epollFd]} else epolls.

(** [epoll_ctl] refuses a descriptor that is registered already ([EEXIST]) and
    to change one that is not ([ENOENT]); that it can also fail for want of
    kernel memory or watches ([ENOMEM], [ENOSPC]) is left out. *)
Definition loop_add (fd events : Z) (l : EventLoop) : option EventLoop :=
  match interest l !! fd with
  | Some _ => None
  | None => Some (mkEventLoop (<[fd := events]> (interest l)) ({[fd]} ∪ callbacks_ l))
  end.

Definition loop_modify (fd events : Z) (l : EventLoop) : option EventLoop :=
  match interest l !! fd with
  | None => None
  | Some _ => Some (mkEventLoop (<[fd := events]> (interest l)) (callbacks_ l))
  end.

Definition loop_remove (fd : Z) (l : EventLoop) : EventLoop :=
  mkEventLoop (delete fd (interest l)) (callbacks_ l ∖ {[fd]}).

(** What [epoll_wait] answers: the ready descriptors with their events, a
    signal, or another error. *)
Inductive wait_answer := Ready (events : list (Z * Z)) | Interrupted | WaitFailed.

Definition kMaxEvents : nat := 256.

(** [poll]: the events of one [epoll_wait], at most [kMaxEvents], each
    dispatched to the callback registered at that moment, then the tick; a
    signal ends the round without the tick.  [S] is the state the callbacks
    work on; [None] is an exception. *)
Section poll.
Context {S : Type} (loop_of : S → EventLoop) (callback : Z → Z → S → option S) (tick : S → S).

Fixpoint dispatch (events : list (Z * Z)) (s : S) : option S :=
  match events with
  | [] => Some s
  | (fd, mask) :: events' =>
      if decide (fd ∈ callbacks_ (loop_of s))
      then s' ← callback fd mask s; dispatch events' s'
      else dispatch events' s
  end.

Definition loop_poll (answer : wait_answer) (s : S) : option S :=
  match answer with
  | WaitFailed => None
  | Interrupted => Some s
  | Ready events => tick <$> dispatch (take kMaxEvents events) s
  end.
End poll.

(** The two tables agree. *)
Definition loop_ok (l : EventLoop) : Prop := dom (interest l) = callbacks_ l.

Lemma loop_add_ok fd events l l' : loop_add fd events l = Some l' → loop_ok l → loop_ok l'.
Proof.
  unfold loop_add, loop_ok. destruct (interest l !! fd); [done|]. intros [= <-] H. simpl.
  by rewrite dom_insert_L, H.
Qed.

Lemma loop_modify_ok fd events l l' : loop_modify fd events l = Some l' → loop_ok l → loop_ok l'.
Proof.
  unfold loop_modify, loop_ok. destruct (interest l !! fd) eqn:E; [|done]. intros [= <-] H. simpl.
  rewrite dom_insert_lookup_L by (by eexists). done.
Qed.

Lemma loop_remove_ok fd l : loop_ok l → loop_ok (loop_remove fd l).
Proof. unfold loop_ok. intros H. simpl. by rewrite dom_delete_L, H. Qed.
