(* ===== verification/TcpServer.v ===== *)
(** * Listening and accepting (include/network/TcpServer.hpp, src/network/TcpServer.cpp)

    The accept loop of a listening socket, driven by what [accept] answers.
    The operating system chooses the descriptor of a new connection given
    those in use, which the state of the caller determines.  The constructor
    and the destructor work on a table of sockets with the options the code
    sets; whether [bind] and [listen] succeed is an argument. *)
From S2P Require Import Prelude CxxString.
Local Open Scope nat_scope.

(** One answer of [accept]: a connection (its descriptor, its address, the
    clock in [onAccept]), nothing pending, an interrupted call, or an error. *)
Inductive accept_answer :=
  | Accepted (alloc : gset Z → Z) (ip : bytes) (now : Z)
  | AAgain
  | AIntr
  | AError.

Section accept.
Context {S : Type} (open_fds : S → gset Z) (onAccept : Z → bytes → Z → S → option S).

(** [None]: a callback throws, or the answers do not end the loop. *)
Fixpoint acceptAll (answers : list accept_answer) (s : S) : option S :=
  match answers with
  | [] => None
  | Accepted alloc ip now :: answers' =>
      s' ← onAccept (alloc (open_fds s)) ip now s;
      acceptAll answers' s'
  | AAgain :: _ => Some s
  | AIntr :: answers' => acceptAll answers' s
  | AError :: _ => Some s
  end.

(** The operating system hands out a descriptor that is not in use. *)
Definition alloc_fresh (listen : Z) (a : accept_answer) : Prop :=
  match a with
  | Accepted alloc _ _ => ∀ used, alloc used ∉ used ∧ alloc used ≠ listen
  | _ => True
  end.

(** An answer that ends the loop. *)
Definition ends_accept (a : accept_answer) : bool :=
  match a with AAgain | AError => true | _ => false end.

(** A property each callback keeps, and under which none throws, is kept by
    the loop, which ends when an answer ends it. *)
Lemma acceptAll_ok listen (P : S → Prop) answers s :
  (∀ fd ip now s, P s → fd ∉ open_fds s → fd ≠ listen → ∃ s', onAccept fd ip now s = Some s' ∧ P s') →
  Forall (alloc_fresh listen) answers → existsb ends_accept answers = true → P s →
  ∃ s', acceptAll answers s = Some s' ∧ P s'.
Proof.
  intros Hcb. revert s. induction answers as [|a answers IH]; intros s Hf He HP; [done|].
  apply Forall_cons in Hf as [Ha Hf]. destruct a as [alloc ip now| | |]; simpl in *; eauto.
  destruct (Ha (open_fds s)) as [H1 H2].
  destruct (Hcb (alloc (open_fds s)) ip now s HP H1 H2) as (s' & -> & HP'). simpl. eauto.
Qed.
End accept.

(** ** Sockets and their options *)

Record sock := mkSock {
  reuse_addr : bool;                   (* SO_REUSEADDR *)
  reuse_port : bool;                   (* SO_REUSEPORT *)
  no_delay : bool;                     (* TCP_NODELAY *)
  sk_flags : Z;                        (* fcntl *)
  sk_bound : option (Z * Z);           (* address and port *)
  sk_backlog : option Z
}.

Abbreviation sock_table := (gmap Z sock).

(** [socket(AF_INET, SOCK_STREAM, 0)]. *)
Definition new_sock : sock := mkSock false false false 0 None None.

Definition O_NONBLOCK : Z := 2048.

Definition set_reuse_addr (k : sock) : sock :=
  mkSock true (reuse_port k) (no_delay k) (sk_flags k) (sk_bound k) (sk_backlog k).
Definition set_reuse_port (k : sock) : sock :=
  mkSock (reuse_addr k) true (no_delay k) (sk_flags k) (sk_bound k) (sk_backlog k).
Definition set_no_delay (k : sock) : sock :=
  mkSock (reuse_addr k) (reuse_port k) true (sk_flags k) (sk_bound k) (sk_backlog k).
Definition set_flags (flags : Z) (k : sock) : sock :=
  mkSock (reuse_addr k) (reuse_port k) (no_delay k) flags (sk_bound k) (sk_backlog k).
Definition set_bound (a : Z * Z) (k : sock) : sock :=
  mkSock (reuse_addr k) (reuse_port k) (no_delay k) (sk_flags k) (Some a) (sk_backlog k).
Definition set_backlog (n : Z) (k : sock) : sock :=
  mkSock (reuse_addr k) (reuse_port k) (no_delay k) (sk_flags k) (sk_bound k) (Some n).

(** [fcntl(fd, F_GETFL)] answers -1 for a descriptor that is not open, and
    [F_SETFL] then changes nothing. *)
Definition setNonBlocking (fd : Z) (t : sock_table) : sock_table :=
  let flags := from_option sk_flags (-1)%Z (t !! fd) in
  alter (set_flags (Z.lor flags O_NONBLOCK)) fd t.

Definition setTcpNoDelay (fd : Z) (t : sock_table) : sock_table := alter set_no_delay fd t.

(** ** Addresses *)

Definition INADDR_ANY : Z := 0.

(** The parts of [s] between occurrences of [c]. *)
Fixpoint split_char (c : ascii) (s : bytes) : list bytes :=
  match s with
  | [] => [[]]
  | d :: s' =>
      if bool_decide (d = c) then [] :: split_char c s'
      else match split_char c s' with
           | [] => [[d]]
           | part :: parts => (d :: part) :: parts
           end
  end.

(** A decimal octet without leading zeros. *)
Definition octet (s : bytes) : option Z :=
  if bool_decide (s = []) || negb (forallb isdigit s) then None
  else if bool_decide (1 < length s) && bool_decide (head s = Some "0"%char) then None
  else if (255 <? digits_value s)%Z then None else Some (digits_value s).

(** [inet_pton(AF_INET, ...)]: dotted decimal. *)
Definition inet_pton (s : bytes) : option Z :=
  match split_char "."%char s with
  | [a; b; c; d] =>
      a ← octet a; b ← octet b; c ← octet c; d ← octet d;
      Some (((a * 256 + b) * 256 + c) * 256 + d)%Z
  | _ => None
  end.

(** Lines 37-41: [addr] starts as zeros and the result of [inet_pton] is not
    looked at. *)
Definition listen_address (host : bytes) : Z :=
  if bool_decide (host = []) || bool_decide (host = str "0.0.0.0") then INADDR_ANY
  else default 0%Z (inet_pton host).

(** ** The constructor and the destructor *)

(** What the operating system answers: a descriptor, and the error texts of
    [bind] and [listen] when they fail. *)
Record listen_env := mkListenEnv {
  le_socket : gset Z → Z;
  le_bind : option bytes;
  le_listen : option bytes
}.

(** The exception's text, or the descriptor; and the sockets. *)
Definition newTcpServer (env : listen_env) (host : bytes) (port backlog : Z) (t : sock_table)
    : (bytes + Z) * sock_table :=
  let listenFd := le_socket env (dom t) in
  if (listenFd <? 0)%Z then (inl (str "socket() failed"), t)
  else
    let t := <[listenFd := new_sock]> t in
    let t := alter set_reuse_addr listenFd t in
    let t := alter set_reuse_port listenFd t in
    match le_bind env with
    | Some err => (inl (str "bind() failed: " ++ err), t)
    | None =>
        let t := alter (set_bound (listen_address host, (port mod 2 ^ 16)%Z)) listenFd t in
        match le_listen env with
        | Some err => (inl (str "listen() failed: " ++ err), t)
        | None =>
            let t := alter (set_backlog backlog) listenFd t in
            (inr listenFd, setNonBlocking listenFd t)
        end
    end.

Definition deleteTcpServer (listenFd : Z) (t : sock_table) : sock_table :=
  if (0 <=? listenFd)%Z then delete listenFd t else t.

(** *** Addresses are read back *)

Lemma split_char_clean c s : c ∉ s → split_char c s = [s].
Proof.
  induction s as [|d s IH]; intros Hc; [done|]. cbn. rewrite bool_decide_eq_false_2 by set_solver.
  by rewrite IH by set_solver.
Qed.

Lemma split_char_app c s r : c ∉ s → split_char c (s ++ c :: r) = s :: split_char c r.
Proof.
  induction s as [|d s IH]; intros Hc; cbn; [by rewrite bool_decide_eq_true_2|].
  rewrite bool_decide_eq_false_2 by set_solver. by rewrite IH by set_solver.
Qed.

Lemma to_string_no_dot n : (0 ≤ n)%Z → "."%char ∉ to_string n.
Proof. intros Hn Hin. by apply to_string_digits in Hin. Qed.

Lemma octet_to_string n : (0 ≤ n ≤ 255)%Z → octet (to_string n) = Some n.
Proof.
  intros [H0 H1]. assert (forallb (λ k, bool_decide (octet (to_string (Z.of_nat k)) = Some (Z.of_nat k))) (seq 0 256) = true) as Hall
    by (vm_compute; reflexivity).
  rewrite forallb_forall in Hall. specialize (Hall (Z.to_nat n)). rewrite Z2Nat.id in Hall by lia.
  apply bool_decide_eq_true in Hall; [done|]. apply in_seq. lia.
Qed.

Definition dotted (a b c d : Z) : bytes :=
  to_string a ++ "."%char :: to_string b ++ "."%char :: to_string c ++ "."%char :: to_string d.

Lemma inet_pton_dotted a b c d :
  (0 ≤ a ≤ 255)%Z → (0 ≤ b ≤ 255)%Z → (0 ≤ c ≤ 255)%Z → (0 ≤ d ≤ 255)%Z →
  inet_pton (dotted a b c d) = Some (((a * 256 + b) * 256 + c) * 256 + d)%Z.
Proof.
  intros Ha Hb Hc Hd. unfold inet_pton, dotted.
  rewrite !split_char_app, split_char_clean by (apply to_string_no_dot; lia). by rewrite !octet_to_string.
Qed.

Lemma alter_insert {A} (f : A → A) (k : Z) (x : A) (m : gmap Z A) : alter f k (<[k := x]> m) = <[k := f x]> m.
Proof.
  apply map_eq. intros j. destruct (decide (j = k)) as [->|Hne].
  - by rewrite lookup_alter_eq, !lookup_insert_eq.
  - by rewrite lookup_alter_ne, !lookup_insert_ne.
Qed.

(** The socket of a server that listens. *)
Definition listening (host : bytes) (port backlog : Z) : sock :=
  mkSock true true false O_NONBLOCK (Some (listen_address host, (port mod 2 ^ 16)%Z)) (Some backlog).

Lemma newTcpServer_ok env host port backlog t :
  (0 ≤ le_socket env (dom t))%Z → le_bind env = None → le_listen env = None →
  newTcpServer env host port backlog t =
    (inr (le_socket env (dom t)), <[le_socket env (dom t) := listening host port backlog]> t).
Proof.
  intros Hfd Hb Hl. unfold newTcpServer. rewrite Hb, Hl. destruct (Z.ltb_spec (le_socket env (dom t)) 0); [lia|].
  unfold setNonBlocking. by rewrite !alter_insert, lookup_insert_eq.
Qed.

(** A server that was created: its descriptor, and that closing it restores
    the table. *)
Lemma newTcpServer_closed env host port backlog t fd t' :
  le_socket env (dom t) ∉ dom t → newTcpServer env host port backlog t = (inr fd, t') →
  fd = le_socket env (dom t) ∧ deleteTcpServer fd t' = t.
Proof.
  intros Hn. destruct (decide (0 ≤ le_socket env (dom t))%Z) as [Hfd|].
  2: { unfold newTcpServer. destruct (Z.ltb_spec (le_socket env (dom t)) 0); [done|lia]. }
  destruct (le_bind env) eqn:Hb; [|destruct (le_listen env) eqn:Hl].
  - unfold newTcpServer. rewrite Hb. destruct (Z.ltb_spec (le_socket env (dom t)) 0); [lia|done].
  - unfold newTcpServer. rewrite Hb, Hl. destruct (Z.ltb_spec (le_socket env (dom t)) 0); [lia|done].
  - rewrite (newTcpServer_ok env host port backlog t Hfd Hb Hl). intros [= <- <-]. split; [done|].
    unfold deleteTcpServer. destruct (Z.leb_spec 0 (le_socket env (dom t))); [|lia].
    by rewrite delete_insert_id by (by apply not_elem_of_dom).
Qed.

(** ** Theorems *)

(** A listening socket is what the configuration says.  When the system
    calls succeed the constructor gives one new socket, non-blocking, with
    both reuse options, bound to the port and, for a dotted address, to that
    address, and the destructor undoes it; a valid port is not truncated. *)
Theorem tcp_server_listens env a b c d port backlog t :
  (0 ≤ a ≤ 255)%Z → (0 ≤ b ≤ 255)%Z → (0 ≤ c ≤ 255)%Z → (0 ≤ d ≤ 255)%Z → (0 ≤ port ≤ 65535)%Z →
  le_socket env (dom t) ∉ dom t → (0 ≤ le_socket env (dom t))%Z → le_bind env = None → le_listen env = None →
  let fd := le_socket env (dom t) in
  let '(r, t') := newTcpServer env (dotted a b c d) port backlog t in
  r = inr fd ∧
  t' = <[fd := mkSock true true false O_NONBLOCK (Some (((a * 256 + b) * 256 + c) * 256 + d, port)%Z) (Some backlog)]> t ∧
  deleteTcpServer fd t' = t.
Proof.
  intros Ha Hb Hc Hd Hp Hfresh Hfd Ebind Elisten fd. rewrite newTcpServer_ok by done. split; [done|].
  assert (listen_address (dotted a b c d) = ((a * 256 + b) * 256 + c) * 256 + d)%Z as Eaddr.
  { unfold listen_address. case_bool_decide as E1.
    - apply (f_equal length) in E1. unfold dotted in E1. rewrite length_app in E1. cbn in E1. lia.
    - case_bool_decide as E2; cbn [orb]; [|by rewrite inet_pton_dotted].
      pose proof (inet_pton_dotted a b c d Ha Hb Hc Hd) as H. rewrite E2 in H.
      assert (inet_pton (str "0.0.0.0") = Some 0%Z) as E0 by (vm_compute; reflexivity). rewrite E0 in H.
      injection H as H. exact H. }
  unfold listening. rewrite Eaddr, Z.mod_small by lia. split; [done|].
  unfold deleteTcpServer, fd. destruct (Z.leb_spec 0 (le_socket env (dom t))); [|lia].
  apply delete_insert_id. by apply not_elem_of_dom.
Qed.

Definition listen_ok (fd : Z) : listen_env := mkListenEnv (λ _, fd) None None.

Lemma tcp_server_listens_witness :
  newTcpServer (listen_ok 3) (str "127.0.0.1") 8080 1024 ∅ =
    (inr 3%Z, {[3%Z := mkSock true true false O_NONBLOCK (Some (2130706433, 8080)%Z) (Some 1024%Z)]}) ∧
  deleteTcpServer 3 {[3%Z := mkSock true true false O_NONBLOCK (Some (2130706433, 8080)%Z) (Some 1024%Z)]} = ∅.
Proof.
  pose proof (tcp_server_listens (listen_ok 3) 127 0 0 1 8080 1024 ∅) as H.
  change (dotted 127 0 0 1) with (str "127.0.0.1") in H.
  destruct (newTcpServer (listen_ok 3) (str "127.0.0.1") 8080 1024 ∅) as [r t'].
  destruct H as (-> & -> & H3); try lia; done.
Defined.

(** A host that is not a dotted address listens everywhere.  The result of
    [inet_pton] is ignored, so a host name or a mistyped address binds to
    every interface instead of failing. *)
Theorem bad_host_listens_everywhere env host port backlog t :
  inet_pton host = None → (0 ≤ le_socket env (dom t))%Z → le_bind env = None → le_listen env = None →
  let '(r, t') := newTcpServer env host port backlog t in
  r = inr (le_socket env (dom t)) ∧
  sk_bound <$> t' !! le_socket env (dom t) = Some (Some (INADDR_ANY, port mod 2 ^ 16)%Z).
Proof.
  intros Hp Hfd Hb Hl. rewrite newTcpServer_ok by done. split; [done|]. rewrite lookup_insert_eq. cbn.
  unfold listen_address. rewrite Hp. by case_if.
Qed.

Lemma bad_host_listens_everywhere_witness :
  sk_bound <$> (newTcpServer (listen_ok 3) (str "localhost") 8080 1024 ∅).2 !! 3%Z = Some (Some (INADDR_ANY, 8080%Z)).
Proof.
  pose proof (bad_host_listens_everywhere (listen_ok 3) (str "localhost") 8080 1024 ∅) as H.
  destruct (newTcpServer (listen_ok 3) (str "localhost") 8080 1024 ∅) as [r t']. by apply H.
Defined.

(** A constructor that throws leaves its socket open: the destructor of an
    object that was not constructed does not run. *)
Theorem listen_failure_leaks env host port backlog t err :
  le_socket env (dom t) ∉ dom t → (0 ≤ le_socket env (dom t))%Z →
  le_bind env = Some err ∨ (le_bind env = None ∧ le_listen env = Some err) →
  let '(r, t') := newTcpServer env host port backlog t in
  (∃ text, r = inl text) ∧ dom t' = {[le_socket env (dom t)]} ∪ dom t.
Proof.
  intros Hfresh Hfd Herr. unfold newTcpServer. destruct (Z.ltb_spec (le_socket env (dom t)) 0); [lia|].
  destruct Herr as [-> | [-> ->]]; (split; [by eexists|]); by rewrite !dom_alter_L, dom_insert_L.
Qed.

(** ** Accepted sockets

    The loop over the table of sockets: each new socket gets its options
    before the callback sees it (lines 60-70). *)
Definition configure_client (fd : Z) (t : sock_table) : sock_table := setTcpNoDelay fd (setNonBlocking fd (<[fd := new_sock]> t)).

Definition accept_configured (onAccept : Z → bytes → Z → sock_table → option sock_table)
    (answers : list accept_answer) (t : sock_table) : option sock_table :=
  acceptAll (λ t, dom t) (λ fd ip now t, onAccept fd ip now (configure_client fd t)) answers t.

Definition client_sock : sock := mkSock false false true O_NONBLOCK None None.

Lemma configure_client_eq fd t : configure_client fd t = <[fd := client_sock]> t.
Proof. unfold configure_client, setTcpNoDelay, setNonBlocking. by rewrite !alter_insert, lookup_insert_eq. Qed.

(** Accepted sockets are ready for the event loop.  Whatever [accept] answers,
    the loop ends at the first answer that says so; the sockets that were
    open are as they were, and every new one is non-blocking and sends small
    writes at once. *)
Theorem accepted_sockets_configured listen answers t :
  Forall (alloc_fresh listen) answers → existsb ends_accept answers = true →
  ∃ t', accept_configured (λ _ _ _ t, Some t) answers t = Some t' ∧ t ⊆ t' ∧
    ∀ fd k, t' !! fd = Some k → t !! fd = None → k = client_sock.
Proof.
  intros Hf He. apply (acceptAll_ok _ _ listen (λ t', t ⊆ t' ∧ ∀ fd k, t' !! fd = Some k → t !! fd = None → k = client_sock));
    [|done|done|by split; [|congruence]].
  intros fd ip now t1 [Hsub Hnew] Hfd _. eexists. split; [done|]. rewrite configure_client_eq. split.
  - etrans; [exact Hsub|]. apply insert_subseteq. by apply not_elem_of_dom.
  - intros fd' k. destruct (decide (fd' = fd)) as [->|Hne]; [rewrite lookup_insert_eq; congruence|].
    rewrite lookup_insert_ne by done. apply Hnew.
Qed.
