(* ===== verification/Worker.v ===== *)
(** * Worker: client connections and the request pipeline
      (src/core/Gateway.cpp, lines 34-257; include/core/Connection.hpp)

    One worker's connections and event loop, over the shared gateway.  Each
    handler takes what the environment answers while it runs: results of
    [recv] and [send], clock readings, the events of forwarding.  A handler
    has no result ([None]) when an [EventLoop] call throws or when forwarding
    does not end within its events. *)
From Stdlib Require Import QArith.
From S2P Require Import Prelude CxxString Rounding CircuitBreaker RateLimiter RetryPolicy LRUCache HttpMessage HttpParser LoadBalancer Router ConnectionPool Metrics Observability BackendIO Forward EventLoop.
Local Open Scope nat_scope.

Record ClientConnection := mkClientConnection {
  clientIp : bytes;
  parser : HttpParser;
  pendingWrite : bytes;
  writeOffset : nat;
  closeAfterWrite : bool;
  lastActivity : Z             (* nanoseconds *)
}.

Definition hasPendingWrite (c : ClientConnection) : bool :=
  bool_decide (writeOffset c < length (pendingWrite c)).

Definition newClientConnection (ip : bytes) (now : Z) : ClientConnection :=
  mkClientConnection ip newHttpParser [] 0 false now.

Definition set_parser (p : HttpParser) (c : ClientConnection) : ClientConnection :=
  mkClientConnection (clientIp c) p (pendingWrite c) (writeOffset c) (closeAfterWrite c) (lastActivity c).
Definition touch (now : Z) (p : HttpParser) (c : ClientConnection) : ClientConnection :=
  mkClientConnection (clientIp c) p (pendingWrite c) (writeOffset c) (closeAfterWrite c) now.
Definition set_write (pending : bytes) (offset : nat) (c : ClientConnection) : ClientConnection :=
  mkClientConnection (clientIp c) (parser c) pending offset (closeAfterWrite c) (lastActivity c).

Record Worker := mkWorker {
  conns_ : gmap Z ClientConnection;
  loop_ : EventLoop;
  client_fds : gset Z;         (* client sockets open in the process *)
  gw_ : Gateway
}.

Definition set_conn (fd : Z) (c : ClientConnection) (w : Worker) : Worker :=
  mkWorker (<[fd := c]> (conns_ w)) (loop_ w) (client_fds w) (gw_ w).
Definition set_gw (g : Gateway) (w : Worker) : Worker :=
  mkWorker (conns_ w) (loop_ w) (client_fds w) g.
Definition set_loop (l : EventLoop) (w : Worker) : Worker :=
  mkWorker (conns_ w) l (client_fds w) (gw_ w).

Section worker.
Context (rnd : Q → Q) (print_double : Q → bytes) (iterate : gmap bytes bytes → header_list).

(** ** Responding *)

Definition queueResponse (resp : HttpResponse) (closeAfter : bool) (cg : ClientConnection * Gateway)
    : ClientConnection * Gateway :=
  let '(c, g) := cg in
  (mkClientConnection (clientIp c) (parser c) (pendingWrite c ++ serialize (negb closeAfter) resp)
     (writeOffset c) closeAfter (lastActivity c),
   on_metrics (recordResponse (rs_statusCode resp)) g).

(** Clock readings and other answers while one request is handled. *)
Record request_env := mkRequestEnv {
  rv_suffix : Z;                       (* random part of the request id *)
  rv_uptime : Q;                       (* seconds since startTime_ *)
  rv_limit : Z;                        (* clock in the rate limiter *)
  rv_get : Z;                          (* clock in cache_.get *)
  rv_put : Z;                          (* clock in cache_.put *)
  rv_attempts : list attempt_env;      (* events of forwarding *)
  rv_latency : Z                       (* microseconds since startTs *)
}.

(** [recordLatency] followed by [queueResponse]. *)
Definition respond (env : request_env) (resp : HttpResponse) (req : HttpRequest)
    (cg : ClientConnection * Gateway) : ClientConnection * Gateway :=
  queueResponse resp (negb (rq_keepAlive req))
    (cg.1, on_metrics (recordLatencyMicros (u64 (rv_latency env))) cg.2).

Definition metrics_response (env : request_env) (g : Gateway) : HttpResponse :=
  setHeader (str "Content-Type") (str "text/plain; version=0.0.4")
    (make 200 (str "OK") (toPrometheusText rnd print_double (rv_uptime env) (metrics g))).

Definition health_response : HttpResponse :=
  make 200 (str "OK") (str "{" ++ [DQ] ++ str "status" ++ [DQ] ++ str ":" ++ [DQ] ++ str "ok" ++ [DQ] ++ str "}").

(** Lines 166-169: the response built from a cache entry. *)
Definition hit_response (cached : CachedResponse) (req : HttpRequest) : HttpResponse :=
  let resp := make (cr_statusCode cached) (cr_statusText cached) (cr_body cached) in
  let resp := mkHttpResponse (rs_statusCode resp) (rs_statusText resp) (cr_headers cached) (rs_body resp) in
  setHeader (str "X-Request-Id") (rq_requestId req) (setHeader (str "X-Cache") (str "HIT") resp).

(** Lines 177-186: forward, tag, store and account. *)
Definition proxy (env : request_env) (route : Route) (req : HttpRequest) (cacheableRequest : bool)
    (cg : ClientConnection * Gateway) : option (ClientConnection * Gateway) :=
  let '(c, g) := cg in
  match forwardWithResilience iterate (rv_attempts env) route req g with
  | None => None
  | Some (resp, g) =>
      let resp := setHeader (str "X-Request-Id") (rq_requestId req) resp in
      let '(resp, g) :=
        if cacheableRequest && (rs_statusCode resp =? 200)%Z then
          let resp := setHeader (str "X-Cache") (str "MISS") resp in
          (resp,
           set_cache (cache_put (rv_put env) (cacheKey req)
             (mkCachedResponse (rs_statusCode resp) (rs_statusText resp) (rs_headers resp) (rs_body resp))
             (cache_ g)) g)
        else (resp, g) in
      let g := if (500 <=? rs_statusCode resp)%Z then on_metrics incErrors g else g in
      Some (respond env resp req (c, g))
  end.

(** Lines 160-186: the cache, then the backend. *)
Definition serve_route (env : request_env) (route : Route) (req : HttpRequest)
    (cg : ClientConnection * Gateway) : option (ClientConnection * Gateway) :=
  let '(c, g) := cg in
  let cacheableRequest :=
    cacheable route && (bool_decide (rq_method req = str "GET") || bool_decide (rq_method req = str "HEAD")) in
  if cacheableRequest then
    let '(cached, cache) := cache_get (rv_get env) (cacheKey req) (cache_ g) in
    let g := set_cache cache g in
    match cached with
    | Some e => Some (respond env (hit_response e req) req (c, on_metrics incCacheHit g))
    | None => proxy env route req true (c, on_metrics incCacheMiss g)
    end
  else proxy env route req false (c, g).

Definition handleRequest (env : request_env) (req : HttpRequest) (cg : ClientConnection * Gateway)
    : option (ClientConnection * Gateway) :=
  let c := cg.1 in
  let g := on_metrics incRequests cg.2 in
  if decide (rq_path req = str "/metrics") then Some (respond env (metrics_response env g) req (c, g))
  else if decide (rq_path req = str "/gateway/health") then Some (respond env health_response req (c, g))
  else
    let '(admitted, rl) := allow rnd (rv_limit env) (clientIp c) (inject_Z 1) (rateLimiter_ g) in
    let g := set_limiter rl g in
    if negb admitted then
      Some (respond env (make 429 (str "Too Many Requests") (str "rate limit exceeded")) req
              (c, on_metrics incRateLimited g))
    else
      match match_route (rq_path req) (router_ g) with
      | None =>
          Some (respond env (make 404 (str "Not Found") (str "no matching route")) req
                  (c, on_metrics incErrors g))
      | Some route => serve_route env route req (c, g)
      end.

(** ** Reading *)

(** Lines 104-115: drain the complete requests that are buffered. *)
Fixpoint drain (envs : list request_env) (cg : ClientConnection * Gateway)
    : option (ClientConnection * Gateway) :=
  match envs with
  | [] => None
  | env :: envs' =>
      let '(c, g) := cg in
      match parse emptyRequest (parser c) with
      | (Incomplete, _, p) => Some (set_parser p c, g)
      | (Error, _, p) =>
          Some (queueResponse (make 400 (str "Bad Request") (str "malformed request")) true (set_parser p c, g))
      | (Complete, req, p) =>
          let '(id, counter) := next_id (rv_suffix env) (id_counter g) in
          match handleRequest env (set_requestId req id) (set_parser p c, set_ids counter g) with
          | None => None
          | Some (c, g) => if closeAfterWrite c then Some (c, g) else drain envs' (c, g)
          end
      end
  end.

(** What one [recv] answers; data is never empty. *)
Inductive recv_answer := RData (data : bytes) (now : Z) | RClosed | RAgain | RIntr | RError.

Definition recv_buffer : Z := 16384.

(** Lines 88-101: read until the socket is drained; [inl] is an early
    [closeConnection]. *)
Fixpoint read_socket (rs : list recv_answer) (c : ClientConnection) : option (unit + ClientConnection) :=
  match rs with
  | [] => None
  | RData data now :: rs' =>
      let c := touch now (append data (parser c)) c in
      if (size_of data <? recv_buffer)%Z then Some (inr c) else read_socket rs' c
  | RClosed :: _ => Some (inl tt)
  | RAgain :: _ => Some (inr c)
  | RIntr :: rs' => read_socket rs' c
  | RError :: _ => Some (inl tt)
  end.

(** ** Closing and flushing *)

Definition closeConnection (fd : Z) (w : Worker) : Worker :=
  match conns_ w !! fd with
  | None => w
  | Some _ =>
      mkWorker (delete fd (conns_ w)) (loop_remove fd (loop_ w)) (client_fds w ∖ {[fd]})
        (on_metrics connectionClosed (gw_ w))
  end.

Inductive write_answer := Wrote (n : nat) | WAgain | WError.

Inductive flush_end := Flushed | WouldBlock | Broken.

(** Lines 207-221: write until done, blocked or broken; the bytes that went
    out. *)
Fixpoint write_socket (ws : list write_answer) (c : ClientConnection)
    : option (flush_end * bytes * ClientConnection) :=
  if hasPendingWrite c then
    match ws with
    | [] => None
    | Wrote n :: ws' =>
        if decide (n = 0) then Some (Broken, [], c)
        else
          let data := take n (drop (writeOffset c) (pendingWrite c)) in
          match write_socket ws' (set_write (pendingWrite c) (writeOffset c + n) c) with
          | None => None
          | Some (e, out, c') => Some (e, data ++ out, c')
          end
    | WAgain :: _ => Some (WouldBlock, [], c)
    | WError :: _ => Some (Broken, [], c)
    end
  else Some (Flushed, [], c).

(** [flushIfPossible], with the bytes sent to the client. *)
Definition flushIfPossible (ws : list write_answer) (fd : Z) (w : Worker) : option (bytes * Worker) :=
  match conns_ w !! fd with
  | None => Some ([], w)
  | Some c =>
      if negb (hasPendingWrite c) then Some ([], w)
      else
        match write_socket ws c with
        | None => None
        | Some (WouldBlock, out, c') =>
            l ← loop_modify fd (Z.lor EPOLLIN EPOLLOUT) (loop_ w);
            Some (out, set_loop l (set_conn fd c' w))
        | Some (Broken, out, c') => Some (out, closeConnection fd (set_conn fd c' w))
        | Some (Flushed, out, c') =>
            let c' := set_write [] 0 c' in
            if closeAfterWrite c' then Some (out, closeConnection fd (set_conn fd c' w))
            else l ← loop_modify fd EPOLLIN (loop_ w); Some (out, set_loop l (set_conn fd c' w))
        end
  end.

(** ** Handlers *)

Record event_env := mkEventEnv {
  ev_recvs : list recv_answer;
  ev_requests : list request_env;
  ev_writes : list write_answer        (* of the flush after a read *)
}.

Definition onReadable (env : event_env) (fd : Z) (w : Worker) : option (bytes * Worker) :=
  match conns_ w !! fd with
  | None => Some ([], w)
  | Some c =>
      match read_socket (ev_recvs env) c with
      | None => None
      | Some (inl _) => Some ([], closeConnection fd w)
      | Some (inr c1) =>
          match drain (ev_requests env) (c1, gw_ w) with
          | None => None
          | Some (c2, g) => flushIfPossible (ev_writes env) fd (set_gw g (set_conn fd c2 w))
          end
      end
  end.

Definition onWritable (ws : list write_answer) (fd : Z) (w : Worker) : option (bytes * Worker) :=
  flushIfPossible ws fd w.

Definition onEvent (env : event_env) (ws : list write_answer) (fd events : Z) (w : Worker)
    : option (bytes * Worker) :=
  if negb (Z.land events (Z.lor EPOLLHUP EPOLLERR) =? 0)%Z then Some ([], closeConnection fd w)
  else
    match (if negb (Z.land events EPOLLIN =? 0)%Z then onReadable env fd w else Some ([], w)) with
    | None => None
    | Some (out, w) =>
        match conns_ w !! fd with
        | None => Some (out, w)
        | Some _ =>
            if negb (Z.land events EPOLLOUT =? 0)%Z then
              match onWritable ws fd w with
              | None => None
              | Some (out', w') => Some (out ++ out', w')
              end
            else Some (out, w)
        end
    end.

Definition onAccept (fd : Z) (ip : bytes) (now : Z) (w : Worker) : option Worker :=
  let g := on_metrics connectionOpened (gw_ w) in
  let w := mkWorker (<[fd := newClientConnection ip now]> (conns_ w)) (loop_ w) ({[fd]} ∪ client_fds w) g in
  l ← loop_add fd EPOLLIN (loop_ w); Some (set_loop l w).

Definition kIdleTimeout : Z := ns_of_ms 60000.

Definition idle_too_long (now : Z) (c : ClientConnection) : bool :=
  negb (hasPendingWrite c) && (kIdleTimeout <? now - lastActivity c)%Z.

Definition sweepIdleConnections (now : Z) (w : Worker) : Worker :=
  let toClose := fst <$> filter (λ p, idle_too_long now p.2 = true) (map_to_list (conns_ w)) in
  foldl (flip closeConnection) w toClose.

(** Lines 52-55, when the worker stops. *)
Definition close_all_connections (w : Worker) : Worker :=
  foldl (flip closeConnection) w (fst <$> map_to_list (conns_ w)).
End worker.
