(* ===== verification/WorkerPipeline.v ===== *)
(** * The request pipeline

    What [handleRequest] does on each of its branches, that every request
    gets exactly one response, and that draining a connection's buffer
    terminates. *)
From Stdlib Require Import QArith.
From S2P Require Import Prelude CxxString Rounding CircuitBreaker RateLimiter RetryPolicy LRUCache HttpMessage HttpParser HttpParserResume HttpParserSafety LoadBalancer Router ConnectionPool Metrics Observability BackendIO Forward EventLoop Worker.
Local Open Scope nat_scope.

Section pipeline.
Context (rnd : Q → Q) (print_double : Q → bytes) (iterate : gmap bytes bytes → header_list).

(** ** One response per request *)

(** [c'] is [c] with one more response queued. *)
Definition one_response (keepAlive : bool) (resp : HttpResponse) (c c' : ClientConnection) : Prop :=
  pendingWrite c' = pendingWrite c ++ serialize keepAlive resp ∧ closeAfterWrite c' = negb keepAlive ∧
  parser c' = parser c ∧ clientIp c' = clientIp c ∧ writeOffset c' = writeOffset c ∧
  lastActivity c' = lastActivity c.

Lemma respond_one env resp req c g c' g' :
  Some (respond env resp req (c, g)) = Some (c', g') → ∃ resp, one_response (rq_keepAlive req) resp c c'.
Proof.
  intros [= <- <-]. exists resp. unfold one_response. simpl. by rewrite negb_involutive.
Qed.

Lemma proxy_one env route req b c g c' g' :
  proxy iterate env route req b (c, g) = Some (c', g') → ∃ resp, one_response (rq_keepAlive req) resp c c'.
Proof.
  unfold proxy. destruct (forwardWithResilience _ _ _ _ _) as [[resp g1]|]; [|done].
  destruct (b && _); apply respond_one.
Qed.

Lemma serve_route_one env route req c g c' g' :
  serve_route iterate env route req (c, g) = Some (c', g') →
  ∃ resp, one_response (rq_keepAlive req) resp c c'.
Proof.
  unfold serve_route. destruct (cacheable route && _); [|apply proxy_one].
  destruct (cache_get _ _ _) as [[e|] cache]; [apply respond_one|apply proxy_one].
Qed.

Lemma handleRequest_one env req c g c' g' :
  handleRequest rnd print_double iterate env req (c, g) = Some (c', g') →
  ∃ resp, one_response (rq_keepAlive req) resp c c'.
Proof.
  unfold handleRequest. cbn [fst snd].
  destruct (decide _); [apply respond_one|].
  destruct (decide _); [apply respond_one|].
  destruct (allow _ _ _ _ _) as [[] rl]; cbn [negb].
  2: { apply respond_one. }
  destruct (match_route _ _) as [route|]; [intros H; by eapply serve_route_one|apply respond_one].
Qed.

(** ** Downstream of the rate limiter *)

(** The parts of the gateway beyond the rate limiter. *)
Definition downstream (g : Gateway) :=
  (gw_backends g, gw_lbs g, cache_ g, pool_ g, os_sockets g, router_ g, retryPolicy_ g).

Lemma respond_downstream env resp req c g : downstream (respond env resp req (c, g)).2 = downstream g.
Proof. done. Qed.

(** ** What handling a request keeps *)

(** Addresses, health, in-flight counters, balancers and policy, as
    forwarding keeps them; the limiter, the cache, the metrics and the
    identifiers may change. *)
Record steady (g g' : Gateway) : Prop := {
  st_backends : backend_face <$> gw_backends g' = backend_face <$> gw_backends g;
  st_lbs : lb_face <$> gw_lbs g' = lb_face <$> gw_lbs g;
  st_router : router_ g' = router_ g;
  st_retry : retryPolicy_ g' = retryPolicy_ g
}.

#[global] Instance steady_preorder : PreOrder steady.
Proof. split; [by intros g; split|]. intros g1 g2 g3 [] []. split; congruence. Qed.

Lemma steady_same g g' : same_gateway g g' → steady g g'.
Proof. by intros []; split. Qed.

Lemma proxy_steady env route req b c g c' g' :
  counters_ok g → proxy iterate env route req b (c, g) = Some (c', g') → steady g g'.
Proof.
  intros Hc. unfold proxy. destruct (forwardWithResilience _ _ _ _ _) as [[resp g1]|] eqn:Hf; [|done].
  pose proof (steady_same _ _ (forward_loop_same _ _ _ _ _ _ _ _ Hc Hf)) as Hs.
  destruct (b && _); destruct (500 <=? _)%Z; intros [= _ <-]; (transitivity g1; [done|by split]).
Qed.

Lemma serve_route_steady env route req c g c' g' :
  counters_ok g → serve_route iterate env route req (c, g) = Some (c', g') → steady g g'.
Proof.
  intros Hc. unfold serve_route. destruct (cacheable route && _); [|by apply proxy_steady].
  destruct (cache_get _ _ _) as [[e|] cache]; [by intros [= _ <-]|].
  intros H%proxy_steady; [|done]. etransitivity; [|exact H]. by split.
Qed.

Lemma handleRequest_steady env req c g c' g' :
  counters_ok g → handleRequest rnd print_double iterate env req (c, g) = Some (c', g') → steady g g'.
Proof.
  intros Hc. unfold handleRequest. cbn [fst snd].
  destruct (decide _); [by intros [= _ <-]|]. destruct (decide _); [by intros [= _ <-]|].
  destruct (allow _ _ _ _ _) as [[] rl]; cbn [negb]; [|by intros [= _ <-]].
  destruct (match_route _ _) as [route|]; [|by intros [= _ <-]].
  intros H%serve_route_steady; [|done]. etransitivity; [|exact H]. by split.
Qed.

Lemma steady_counters g g' : steady g g' → counters_ok g → counters_ok g'.
Proof.
  intros [Hb _ _ _] H. unfold counters_ok in *. rewrite Forall_forall in *.
  intros b [i Hi]%list_elem_of_lookup.
  assert (backend_face <$> gw_backends g !! i = Some (backend_face b)) as E.
  { rewrite <- !list_lookup_fmap. rewrite <- Hb, list_lookup_fmap, Hi. done. }
  destruct (gw_backends g !! i) as [b0|] eqn:E0; [|done]. injection E as _ _ _ E.
  rewrite <- E. apply H. by eapply list_elem_of_lookup_2.
Qed.

Lemma steady_pointers g g' : steady g g' → pointers_ok g → pointers_ok g'.
Proof.
  intros [Hb Hl _ _] H. unfold pointers_ok in *.
  apply (f_equal length) in Hb. rewrite !length_fmap in Hb. rewrite Hb.
  rewrite Forall_forall in *. intros l [i Hi]%list_elem_of_lookup.
  assert (lb_face <$> gw_lbs g !! i = Some (lb_face l)) as E.
  { rewrite <- !list_lookup_fmap. rewrite <- Hl, list_lookup_fmap, Hi. done. }
  destruct (gw_lbs g !! i) as [l0|] eqn:E0; [|done]. injection E as E _.
  rewrite <- E. apply H. by eapply list_elem_of_lookup_2.
Qed.

(** ** Termination *)

(** Enough events to forward one request. *)
Definition attempts_ok (g : Gateway) (env : request_env) : Prop :=
  Forall answers (rv_attempts env) ∧
  (maxRetries (retryPolicy_ g) + 1 ≤ Z.of_nat (length (rv_attempts env)))%Z.

Lemma proxy_returns env route req b c g :
  counters_ok g → pointers_ok g → attempts_ok g env → is_Some (proxy iterate env route req b (c, g)).
Proof.
  intros Hc Hp [Ha Hn]. unfold proxy, forwardWithResilience. pose proof (attempts_le g) as Hle.
  destruct (forward_loop_returns iterate (Z.to_nat (attempts g)) (rv_attempts env)
              route req g) as [[resp g'] ->]; [done|done|done|lia|].
  destruct (b && _); by eexists.
Qed.

Lemma handleRequest_returns env req c g :
  counters_ok g → pointers_ok g → attempts_ok g env →
  is_Some (handleRequest rnd print_double iterate env req (c, g)).
Proof.
  intros Hc Hp Ha. unfold handleRequest. cbn [fst snd].
  destruct (decide _); [by eexists|]. destruct (decide _); [by eexists|].
  destruct (allow _ _ _ _ _) as [[] rl]; cbn [negb]; [|by eexists].
  destruct (match_route _ _) as [route|]; [|by eexists].
  unfold serve_route. destruct (cacheable route && _); [|by apply proxy_returns].
  destruct (cache_get _ _ _) as [[e|] cache]; [by eexists|by apply proxy_returns].
Qed.

Lemma attempts_ok_steady g g' env : steady g g' → attempts_ok g env → attempts_ok g' env.
Proof. intros [_ _ _ E] [H1 H2]. split; [done|]. by rewrite E. Qed.

Lemma drain_returns envs c g :
  parser_wf (parser c) → (size_of (buffer_ (parser c)) < 2 ^ 64)%Z →
  length (buffer_ (parser c)) < length envs →
  counters_ok g → pointers_ok g → Forall (attempts_ok g) envs →
  is_Some (drain rnd print_double iterate envs (c, g)).
Proof.
  revert c g. induction envs as [|env envs IH]; intros c g Hwf Hsz Hlen Hc Hp Ha; [simpl in Hlen; lia|].
  apply Forall_cons in Ha as [Ha1 Ha]. cbn [drain].
  destruct (parse emptyRequest (parser c)) as [[st req] p] eqn:Hparse.
  destruct st; [by eexists| |by eexists].
  destruct (parse_wf _ _ _ _ _ Hsz Hwf Hparse) as [Hwf' Hc']; [done|].
  destruct (Hc' eq_refl) as [_ (n & Hn & Hb)]. cbn [next_id].
  set (g1 := set_ids _ g). set (c1 := set_parser p c). set (req1 := set_requestId req _).
  destruct (handleRequest_returns env req1 c1 g1) as [[c2 g2] Hh]; [done|done|done|].
  rewrite Hh. destruct (closeAfterWrite c2); [by eexists|].
  destruct (handleRequest_one _ _ _ _ _ _ Hh) as [resp (_ & _ & Ep & _)].
  assert (steady g g2) as Hs.
  { transitivity g1; [by split|]. by eapply handleRequest_steady. }
  apply IH.
  - rewrite Ep. done.
  - rewrite Ep. simpl. rewrite Hb. unfold size_of in *. rewrite length_drop. lia.
  - rewrite Ep. simpl. rewrite Hb, length_drop. simpl in Hlen. lia.
  - by eapply steady_counters.
  - by eapply steady_pointers.
  - eapply Forall_impl; [exact Ha|]. intros e He. by eapply attempts_ok_steady.
Qed.

(** Queued bytes are only ever added to. *)
Lemma drain_appends envs c g c' g' :
  drain rnd print_double iterate envs (c, g) = Some (c', g') →
  (∃ out, pendingWrite c' = pendingWrite c ++ out) ∧ writeOffset c' = writeOffset c ∧
  clientIp c' = clientIp c ∧ lastActivity c' = lastActivity c.
Proof.
  revert c g. induction envs as [|env envs IH]; intros c g; [done|]. cbn [drain].
  destruct (parse emptyRequest (parser c)) as [[st req] p] eqn:Hparse.
  destruct st.
  - intros [= <- <-]. split_and!; [|done..]. exists []. by rewrite app_nil_r.
  - cbn [next_id]. destruct (handleRequest _ _ _ _ _ _) as [[c2 g2]|] eqn:Hh; [|done].
    destruct (handleRequest_one _ _ _ _ _ _ Hh) as [resp (E1 & _ & _ & E2 & E3 & E4)]. simpl in *.
    destruct (closeAfterWrite c2).
    + intros [= <- <-]. split_and!; [|done..]. by exists (serialize (rq_keepAlive req) resp).
    + intros H. destruct (IH _ _ H) as ((out & F1) & F2 & F3 & F4).
      split_and!; [|congruence..]. exists (serialize (rq_keepAlive req) resp ++ out).
      by rewrite F1, E1, app_assoc.
  - intros [= <- <-]. split_and!; [|done..]. by eexists.
Qed.
End pipeline.

(** ** Cached responses *)

(** Every entry satisfies [Q]. *)
Definition cache_all {V} (Q : Entry V → Prop) (c : LRUCache V) : Prop := Forall Q (abs c).

Lemma cache_get_all {V} (Q : Entry V → Prop) now k c :
  cache_ok c → cache_all Q c →
  cache_all Q (cache_get now k c).2 ∧ ∀ v, (cache_get now k c).1 = Some v → ∃ e, Q e ∧ e_value e = v ∧ e_key e = k.
Proof.
  intros Hok Hall. destruct (cache_get_refines now k c Hok) as (_ & Hr & Ha).
  unfold cache_all in *. rewrite Ha, Hr. unfold spec_get.
  destruct (lookup_key k (abs c)) as [e|] eqn:E; [|done].
  apply lookup_key_Some in E as [Hin Hk].
  assert (Q e) as He by (rewrite Forall_forall in Hall; auto).
  assert (Forall Q (remove_key k (abs c))) as Hrm.
  { unfold remove_key. rewrite Forall_forall in *. intros x [_ Hx]%list_elem_of_filter. auto. }
  destruct (expired c now e); simpl; [by split|]. split; [by constructor|].
  intros v [= <-]. by exists e.
Qed.

Lemma cache_put_all {V} (Q : Entry V → Prop) now k v c :
  cache_ok c → cache_all Q c → Q (mkEntry k v now) → cache_all Q (cache_put now k v c).
Proof.
  intros Hok Hall Hq. destruct (cache_put_refines now k v c Hok) as [_ Ha].
  unfold cache_all in *. rewrite Ha. unfold spec_put. apply Forall_take. constructor; [done|].
  unfold remove_key. rewrite Forall_forall in *. intros x [_ Hx]%list_elem_of_filter. auto.
Qed.

Definition cached_200 (e : Entry CachedResponse) : Prop := cr_statusCode (e_value e) = 200%Z.

Definition cache_sound (g : Gateway) : Prop := cache_ok (cache_ g) ∧ cache_all cached_200 (cache_ g).

Section theorems.
Context (rnd : Q → Q) (print_double : Q → bytes) (iterate : gmap bytes bytes → header_list).

Lemma proxy_sound env route req b c g c' g' :
  cache_sound g → counters_ok g → proxy iterate env route req b (c, g) = Some (c', g') → cache_sound g'.
Proof.
  intros [Hok Hall] Hc. unfold proxy.
  destruct (forwardWithResilience _ _ _ _ _) as [[resp g1]|] eqn:Hf; [|done].
  pose proof (same_cache _ _ (forward_loop_same _ _ _ _ _ _ _ _ Hc Hf)) as E.
  destruct b; cbn [andb].
  2: { destruct (500 <=? _)%Z; intros [= _ <-]; split; simpl; by rewrite E. }
  destruct (Z.eqb_spec (rs_statusCode (setHeader (str "X-Request-Id") (rq_requestId req) resp)) 200) as [E2|].
  - destruct (500 <=? _)%Z; intros [= _ <-]; (split; simpl; rewrite E;
      [by apply cache_put_refines|by apply cache_put_all]).
  - destruct (500 <=? _)%Z; intros [= _ <-]; split; simpl; by rewrite E.
Qed.

Lemma handleRequest_sound env req c g c' g' :
  cache_sound g → counters_ok g →
  handleRequest rnd print_double iterate env req (c, g) = Some (c', g') → cache_sound g'.
Proof.
  intros Hs Hc. unfold handleRequest. cbn [fst snd].
  destruct (decide _); [by intros [= _ <-]|]. destruct (decide _); [by intros [= _ <-]|].
  destruct (allow _ _ _ _ _) as [[] rl]; cbn [negb]; [|by intros [= _ <-]].
  destruct (match_route _ _) as [route|]; [|by intros [= _ <-]].
  unfold serve_route. destruct (cacheable route && _); [|by apply proxy_sound].
  destruct (cache_get _ _ _) as [o cache] eqn:Hg. destruct Hs as [Hok Hall].
  assert (cache_ok cache ∧ cache_all cached_200 cache) as Hs'.
  { pose proof (cache_get_refines (rv_get env) (cacheKey req) _ Hok) as (H1 & _).
    pose proof (cache_get_all cached_200 (rv_get env) (cacheKey req) _ Hok Hall) as (H2 & _).
    simpl in Hg. by rewrite Hg in H1, H2. }
  destruct o as [e|]; [by intros [= _ <-]|]. by apply proxy_sound.
Qed.
End theorems.

(** ** Theorems *)

Definition demo_request_env : request_env :=
  mkRequestEnv 7 1 1000 1000 2000 [demo_env demo_reply; demo_env demo_reply] 300.

Definition demo_conn : ClientConnection := newClientConnection (str "10.1.1.1") 0.

Definition demo_print_double (q : Q) : bytes := to_string (Qround.Qfloor q).


Lemma demo_attempts : attempts_ok demo_closed demo_request_env.
Proof. split; [repeat constructor; apply demo_env_answers|simpl; lia]. Qed.


(** A rate-limited request goes no further.  When the limiter refuses a
    request for anything but the two built-in endpoints, the answer is 429
    and neither the router, the cache, the balancers, the backends nor the
    connection pool is touched; the built-in endpoints answer 200 without
    asking the limiter or touching any of them. *)
Theorem rate_limited_goes_no_further rnd print_double iterate env req c g :
  let builtin := rq_path req = str "/metrics" ∨ rq_path req = str "/gateway/health" in
  (builtin ∨ (allow rnd (rv_limit env) (clientIp c) (inject_Z 1) (rateLimiter_ g)).1 = false) →
  ∃ c' g' resp, handleRequest rnd print_double iterate env req (c, g) = Some (c', g') ∧
    one_response (rq_keepAlive req) resp c c' ∧ downstream g' = downstream g ∧
    (builtin → rs_statusCode resp = 200%Z ∧ rateLimiter_ g' = rateLimiter_ g) ∧
    (¬ builtin → resp = make 429 (str "Too Many Requests") (str "rate limit exceeded")).
Proof.
  intros builtin H. unfold handleRequest. cbn [fst snd].
  destruct (decide (rq_path req = str "/metrics")) as [E1|N1].
  { do 3 eexists. split; [reflexivity|]. split; [|split; [reflexivity|]].
    - unfold one_response, respond, queueResponse. simpl. by rewrite negb_involutive.
    - split; [done|]. intros Hn. destruct Hn. by left. }
  destruct (decide (rq_path req = str "/gateway/health")) as [E2|N2].
  { do 3 eexists. split; [reflexivity|]. split; [|split; [reflexivity|]].
    - unfold one_response, respond, queueResponse. simpl. by rewrite negb_involutive.
    - split; [done|]. intros Hn. destruct Hn. by right. }
  destruct H as [[?|?]|H]; [done|done|].
  change (rateLimiter_ (on_metrics incRequests g)) with (rateLimiter_ g).
  destruct (allow _ _ _ _ _) as [ok rl]. simpl in H. subst ok.
  do 3 eexists. split; [reflexivity|]. split; [|split; [reflexivity|]].
  - unfold one_response, respond, queueResponse. simpl. by rewrite negb_involutive.
  - split; [|done]. intros [?|?]; done.
Qed.

Lemma rate_limited_goes_no_further_witness :
  let g := set_limiter (newRateLimiter 0 0) demo_closed in
  ∃ c' g' resp, handleRequest rnd64 demo_print_double map_to_list demo_request_env demo_get
      (demo_conn, g) = Some (c', g') ∧
    one_response (rq_keepAlive demo_get) resp demo_conn c' ∧ downstream g' = downstream g ∧
    (rq_path demo_get = str "/metrics" ∨ rq_path demo_get = str "/gateway/health" →
       rs_statusCode resp = 200%Z ∧ rateLimiter_ g' = rateLimiter_ g) ∧
    (¬ (rq_path demo_get = str "/metrics" ∨ rq_path demo_get = str "/gateway/health") →
       resp = make 429 (str "Too Many Requests") (str "rate limit exceeded")).
Proof.
  intros g. apply (rate_limited_goes_no_further rnd64 demo_print_double map_to_list demo_request_env demo_get
    demo_conn g). right. vm_compute. reflexivity.
Defined.

(** The request is one the route's cache may answer. *)
Definition cacheable_request (route : Route) (req : HttpRequest) : Prop :=
  cacheable route = true ∧ (rq_method req = str "GET" ∨ rq_method req = str "HEAD").

Lemma cacheable_request_test route req :
  cacheable_request route req →
  cacheable route && (bool_decide (rq_method req = str "GET") || bool_decide (rq_method req = str "HEAD")) = true.
Proof.
  intros [-> H]. simpl. destruct H as [H|H].
  - by rewrite bool_decide_true.
  - by rewrite (bool_decide_true (rq_method req = str "HEAD")), orb_true_r.
Qed.

(** What a proxied 200 stores. *)
Definition stored_response (resp : HttpResponse) (req : HttpRequest) : CachedResponse :=
  let resp := setHeader (str "X-Cache") (str "MISS") (setHeader (str "X-Request-Id") (rq_requestId req) resp) in
  mkCachedResponse (rs_statusCode resp) (rs_statusText resp) (rs_headers resp) (rs_body resp).

Lemma proxy_stores iterate env route req c g resp g1 :
  forwardWithResilience iterate (rv_attempts env) route req g = Some (resp, g1) →
  rs_statusCode resp = 200%Z →
  ∃ c' g', proxy iterate env route req true (c, g) = Some (c', g') ∧
    cache_ g' = cache_put (rv_put env) (cacheKey req) (stored_response resp req) (cache_ g1) ∧
    downstream (set_cache (cache_ g1) g') = downstream g1.
Proof.
  intros Hf H200. unfold proxy. rewrite Hf. cbn [andb].
  assert ((rs_statusCode (setHeader (str "X-Request-Id") (rq_requestId req) resp) =? 200)%Z = true) as ->
    by (by apply Z.eqb_eq).
  cbn [setHeader rs_statusCode]. rewrite H200. do 2 eexists. split; [reflexivity|].
  split; [unfold stored_response; simpl; by rewrite H200|done].
Qed.

(** The headers but those the gateway sets on what it proxies and caches. *)
Definition from_backend (k : bytes) : bool := negb (bool_decide (k = str "X-Cache") || bool_decide (k = str "X-Request-Id")).

Definition untagged (hs : header_list) : header_list := filter (λ h, from_backend h.1 = true) hs.

Lemma untagged_set k v hs : from_backend k = false → untagged (set_header_list k v hs) = untagged hs.
Proof. apply (filter_set_header from_backend). Qed.

(** C34: the cache answers what the backend answered.  A cacheable GET or HEAD
    that missed and was answered 200 by a backend is stored (the cache has
    room for one entry at least); the next request with the same method, path
    and query, before the time to live has passed, is answered from the cache
    with the status, reason, headers (in their order) and body the backend
    gave, but for an X-Cache header saying HIT and the request id, which is
    its own, and no balancer, backend, breaker or connection is touched. *)
Theorem cache_replays iterate env1 env2 route req1 req2 c1 c2 g resp g1 :
  cacheable_request route req1 → cacheable_request route req2 → cacheKey req1 = cacheKey req2 →
  cache_ok (cache_ g) → (1 ≤ cache_capacity (cache_ g))%Z → counters_ok g →
  (cache_get (rv_get env1) (cacheKey req1) (cache_ g)).1 = None →
  forwardWithResilience iterate (rv_attempts env1) route req1
    (on_metrics incCacheMiss (set_cache (cache_get (rv_get env1) (cacheKey req1) (cache_ g)).2 g))
    = Some (resp, g1) →
  rs_statusCode resp = 200%Z →
  (cache_ttl (cache_ g) ≤ 0 ∨ rv_get env2 - rv_put env1 ≤ ns_of_ms (cache_ttl (cache_ g)))%Z →
  ∃ c1' g' c2' g'' hit,
    serve_route iterate env1 route req1 (c1, g) = Some (c1', g') ∧
    serve_route iterate env2 route req2 (c2, g') = Some (c2', g'') ∧
    one_response (rq_keepAlive req2) hit c2 c2' ∧
    rs_statusCode hit = 200%Z ∧ rs_statusText hit = rs_statusText resp ∧ rs_body hit = rs_body resp ∧
    untagged (rs_headers hit) = untagged (rs_headers resp) ∧
    get_header (str "X-Cache") (rs_headers hit) = Some (str "HIT") ∧
    get_header (str "X-Request-Id") (rs_headers hit) = Some (rq_requestId req2) ∧
    downstream (set_cache (cache_ g') g'') = downstream g'.
Proof.
  intros Hr1 Hr2 Hkey Hok Hcap Hc Hmiss Hf H200 Httl.
  pose proof (cache_get_refines (rv_get env1) (cacheKey req1) _ Hok) as (Hok1 & _).
  pose proof (cache_get_cfg (rv_get env1) (cacheKey req1) (cache_ g)) as [Ecap Ettl].
  unfold serve_route at 1. rewrite cacheable_request_test by done.
  destruct (cache_get (rv_get env1) (cacheKey req1) (cache_ g)) as [o cache1]. simpl in Hmiss, Hok1, Ecap, Ettl, Hf.
  subst o.
  pose proof (same_cache _ _ (forward_loop_same _ _ _ _ _ (on_metrics incCacheMiss (set_cache cache1 g)) _ _ Hc Hf)) as Ec.
  simpl in Ec.
  destruct (proxy_stores iterate env1 route req1 c1 _ resp g1 Hf H200) as (c1' & g' & Hp & Hcache & Hdown).
  exists c1', g'. rewrite Hp.
  pose proof (get_after_put (cache_ g1) (rv_put env1) (rv_get env2) (cacheKey req1) (stored_response resp req1)) as Hget.
  rewrite Ec in Hget, Hcache. specialize (Hget Hok1 ltac:(lia)). rewrite Ettl in Hget.
  assert ((0 <? cache_ttl (cache_ g))%Z && (ns_of_ms (cache_ttl (cache_ g)) <? rv_get env2 - rv_put env1)%Z = false) as Hlive.
  { destruct (Z.ltb_spec 0 (cache_ttl (cache_ g))), (Z.ltb_spec (ns_of_ms (cache_ttl (cache_ g))) (rv_get env2 - rv_put env1));
      simpl; lia. }
  rewrite Hlive in Hget.
  unfold serve_route. rewrite cacheable_request_test by done. rewrite Hcache, <- Hkey.
  destruct (cache_get (rv_get env2) (cacheKey req1) _) as [o cache2]. simpl in Hget. subst o.
  do 3 eexists. split; [reflexivity|]. split; [reflexivity|].
  split; [unfold one_response, respond, queueResponse; cbn [fst snd]; by rewrite negb_involutive|].
  split_and!; try done.
  - cbn. by rewrite !untagged_set by (by vm_compute).
  - simpl. rewrite get_set_header_ne by done. apply get_set_header.
  - apply get_set_header.
  - simpl. unfold downstream. simpl. by rewrite Hcache.
Qed.

Definition demo_env2 : request_env := mkRequestEnv 9 1 2000 5000 2000 [] 10.

Definition tagged_reply : bytes :=
  str "HTTP/1.1 200 OK" ++ crlf ++ str "Content-Length: 2" ++ crlf ++ str "ETag: x" ++ crlf ++ crlf ++ str "hi".

Definition tagged_request_env : request_env :=
  mkRequestEnv 7 1 1000 1000 2000 [demo_env tagged_reply; demo_env tagged_reply] 300.

Lemma cache_replays_witness :
  ∃ c1' g' c2' g'' hit,
    serve_route map_to_list tagged_request_env demo_route demo_get (demo_conn, demo_closed) = Some (c1', g') ∧
    serve_route map_to_list demo_env2 demo_route demo_get (demo_conn, g') = Some (c2', g'') ∧
    one_response (rq_keepAlive demo_get) hit demo_conn c2' ∧
    rs_statusCode hit = 200%Z ∧ rs_statusText hit = str "OK" ∧ rs_body hit = str "hi" ∧
    untagged (rs_headers hit) = [(str "etag", str "x")] ∧
    get_header (str "X-Cache") (rs_headers hit) = Some (str "HIT") ∧
    get_header (str "X-Request-Id") (rs_headers hit) = Some (rq_requestId demo_get) ∧
    downstream (set_cache (cache_ g') g'') = downstream g'.
Proof.
  set (g0 := on_metrics incCacheMiss (set_cache (cache_get (rv_get tagged_request_env) (cacheKey demo_get)
               (cache_ demo_closed)).2 demo_closed)).
  set (r := default (emptyResponse, demo_closed)
    (forwardWithResilience map_to_list (rv_attempts tagged_request_env) demo_route demo_get g0)).
  refine (cache_replays map_to_list tagged_request_env demo_env2 demo_route demo_get demo_get demo_conn demo_conn
    demo_closed (mkHttpResponse 200 (str "OK") [(str "etag", str "x")] (str "hi")) r.2 _ _ _ _ _ _ _ _ _ _).
  - split; [done|by left].
  - split; [done|by left].
  - done.
  - apply new_cache_ok. lia.
  - simpl. lia.
  - apply demo_counters.
  - reflexivity.
  - vm_compute. reflexivity.
  - done.
  - right. unfold ns_of_ms. simpl. lia.
Defined.

(** Only successful responses are cached.  Whatever request is handled
    and however it ends, the cache stays consistent and every entry in it has
    status 200, so a hit is never an error response. *)
Theorem cache_holds_only_200 rnd print_double iterate env req c g c' g' :
  cache_sound g → counters_ok g →
  handleRequest rnd print_double iterate env req (c, g) = Some (c', g') →
  cache_sound g' ∧ ∀ now k v, (cache_get now k (cache_ g')).1 = Some v → cr_statusCode v = 200%Z.
Proof.
  intros Hs Hc H. pose proof (handleRequest_sound _ _ _ _ _ _ _ _ _ Hs Hc H) as [Hok Hall].
  split; [done|]. intros now k v Hv.
  destruct (cache_get_all cached_200 now k _ Hok Hall) as [_ Hq].
  by destruct (Hq v Hv) as (e & He & <- & _).
Qed.

Definition demo_handled : ClientConnection * Gateway :=
  default (demo_conn, demo_closed)
    (handleRequest rnd64 demo_print_double map_to_list demo_request_env demo_get (demo_conn, demo_closed)).

Lemma cache_holds_only_200_witness :
  cache_size (cache_ demo_handled.2) = 1%Z ∧ cache_sound demo_handled.2.
Proof.
  split; [vm_compute; reflexivity|].
  refine (proj1 (cache_holds_only_200 rnd64 demo_print_double map_to_list demo_request_env demo_get demo_conn
    demo_closed demo_handled.1 demo_handled.2 _ _ _)).
  - split; [apply new_cache_ok; lia|constructor].
  - apply demo_counters.
  - vm_compute. reflexivity.
Defined.

(** Draining a connection terminates.  With events for more requests than
    there are bytes buffered, and each forwarding ending, the loop over the
    buffered pipelined requests ends, and what was queued for the client
    before is still queued, followed by the new responses. *)
Theorem drain_terminates rnd print_double iterate envs c g :
  parser_wf (parser c) → (size_of (buffer_ (parser c)) < 2 ^ 64)%Z →
  length (buffer_ (parser c)) < length envs →
  counters_ok g → pointers_ok g → Forall (attempts_ok g) envs →
  ∃ c' g', drain rnd print_double iterate envs (c, g) = Some (c', g') ∧
    ∃ out, pendingWrite c' = pendingWrite c ++ out.
Proof.
  intros Hwf Hsz Hlen Hc Hp Ha.
  destruct (drain_returns rnd print_double iterate envs c g Hwf Hsz Hlen Hc Hp Ha) as [[c' g'] H].
  exists c', g'. split; [done|]. by destruct (drain_appends _ _ _ _ _ _ _ _ H).
Qed.

Definition two_requests : bytes :=
  str "GET /gateway/health HTTP/1.1" ++ crlf ++ crlf ++ str "GET /a HTTP/1.1" ++ crlf ++ crlf.

Lemma drain_terminates_witness :
  let c := set_parser (append two_requests newHttpParser) demo_conn in
  let envs := replicate 60 demo_request_env in
  ∃ c' g', drain rnd64 demo_print_double map_to_list envs (c, demo_closed) = Some (c', g') ∧
    ∃ out, pendingWrite c' = pendingWrite c ++ out.
Proof.
  intros c envs. apply (drain_terminates rnd64 demo_print_double map_to_list envs c demo_closed).
  - apply append_wf, newHttpParser_wf.
  - vm_compute. reflexivity.
  - by_decide.
  - apply demo_counters.
  - apply demo_pointers.
  - apply Forall_replicate, demo_attempts.
Defined.

(** ** HEAD requests *)

Definition demo_head (path : bytes) : HttpRequest :=
  mkHttpRequest (str "HEAD") path [] (str "HTTP/1.1") ∅ [] true (str "req-0-0").

(** What a backend answers to HEAD: the header of the answer to GET. *)
Definition demo_head_reply : bytes := take (length demo_reply - 2) demo_reply.

Definition demo_head_env : request_env := mkRequestEnv 7 1 1000 1000 2000 [demo_env demo_head_reply; demo_env demo_head_reply] 300.

(** HEAD is not understood.  A backend that answers HEAD as HTTP asks, with
    the header of the answer to GET and no body, is waited for until the
    deadline, each attempt counts as a failure of the backend, and the client
    is answered 502; and the gateway's own answer to HEAD carries a body,
    which the client takes for the start of the next response. *)
Theorem head_is_not_understood :
  match handleRequest rnd64 demo_print_double map_to_list demo_head_env (demo_head (str "/a")) (demo_conn, demo_closed) with
  | Some (c, g) =>
      is_prefix (str "HTTP/1.1 502 Bad Gateway") (pendingWrite c) = true ∧
      (consecutiveFailures_ ∘ circuitBreaker) <$> gw_backends g = [2%Z]
  | None => False
  end ∧
  match handleRequest rnd64 demo_print_double map_to_list demo_head_env (demo_head (str "/gateway/health")) (demo_conn, demo_closed) with
  | Some (c, _) =>
      (λ n, drop (n + 4) (pendingWrite c)) <$> find (crlf ++ crlf) (pendingWrite c) = Some (rs_body health_response) ∧
      rs_body health_response ≠ []
  | None => False
  end.
Proof.
  split; vm_compute; by split.
Qed.
