(* ===== verification/WorkerConnections.v ===== *)
(** * Client connections of a worker

    The connection table, the event loop and the open sockets stay in step
    under every handler, queued bytes reach the client in order and are not
    lost, and a connection with unsent bytes always waits for the socket to
    become writable. *)
From Stdlib Require Import QArith.
From S2P Require Import Prelude CxxString Rounding CircuitBreaker RateLimiter RetryPolicy LRUCache HttpMessage HttpParser HttpParserResume HttpParserSafety LoadBalancer Router ConnectionPool Metrics Observability BackendIO Forward EventLoop Worker WorkerPipeline.
Local Open Scope nat_scope.

(** ** Flushing *)

(** Bytes still to be sent. *)
Definition unsent (c : ClientConnection) : bytes := drop (writeOffset c) (pendingWrite c).

Lemma hasPendingWrite_unsent c : hasPendingWrite c = true ↔ unsent c ≠ [].
Proof.
  unfold hasPendingWrite, unsent. rewrite bool_decide_eq_true. split.
  - intros H E. apply (f_equal length) in E. rewrite length_drop in E. simpl in E. lia.
  - intros H. destruct (decide (writeOffset c < length (pendingWrite c))); [done|].
    rewrite drop_ge in H by lia. done.
Qed.

Lemma write_socket_spec ws c e out c' :
  write_socket ws c = Some (e, out, c') →
  unsent c = out ++ unsent c' ∧ closeAfterWrite c' = closeAfterWrite c ∧
  match e with
  | Flushed => hasPendingWrite c' = false
  | WouldBlock => hasPendingWrite c' = true
  | Broken => True
  end.
Proof.
  revert c out. induction ws as [|a ws IH]; intros c out; simpl;
    (destruct (hasPendingWrite c) eqn:Hp; [|by intros [= <- <- <-]]); [done|].
  destruct a as [n| |]; [|by intros [= <- <- <-]..].
  destruct (decide (n = 0)); [by intros [= <- <- <-]|].
  destruct (write_socket ws _) as [[[e0 out0] c0]|] eqn:Hw; [|done]. intros [= <- <- <-].
  destruct (IH _ _ Hw) as (H1 & H2 & H3). split_and!; [|done|done].
  unfold unsent in H1 at 1. simpl in H1. rewrite <- app_assoc, <- H1. unfold unsent.
  rewrite <- drop_drop. by rewrite take_drop.
Qed.

(** ** The invariant *)

Definition waits_for (c : ClientConnection) : Z :=
  if hasPendingWrite c then Z.lor EPOLLIN EPOLLOUT else EPOLLIN.

Section invariant.
Context (listen : Z).      (* the worker's listening socket *)

Record worker_ok (w : Worker) : Prop := {
  w_loop : loop_ok (loop_ w);
  w_known : dom (interest (loop_ w)) ⊆ dom (conns_ w) ∪ {[listen]};
  w_fds : client_fds w = dom (conns_ w);
  w_interest : ∀ fd c, conns_ w !! fd = Some c → interest (loop_ w) !! fd = Some (waits_for c)
}.

Lemma closeConnection_ok fd w :
  loop_ok (loop_ w) → dom (interest (loop_ w)) ⊆ dom (conns_ w) ∪ {[listen]} →
  client_fds w = dom (conns_ w) →
  (∀ fd' c, fd' ≠ fd → conns_ w !! fd' = Some c → interest (loop_ w) !! fd' = Some (waits_for c)) →
  is_Some (conns_ w !! fd) → worker_ok (closeConnection fd w).
Proof.
  intros Hl Hk Hf Hi [c Hc]. unfold closeConnection. rewrite Hc. split; simpl.
  - by apply loop_remove_ok.
  - rewrite !dom_delete_L. set_solver.
  - rewrite dom_delete_L, Hf. done.
  - intros fd' c' [Hne Hc']%lookup_delete_Some. rewrite lookup_delete_ne by done. by apply Hi.
Qed.

Lemma closeConnection_worker_ok fd w : worker_ok w → worker_ok (closeConnection fd w).
Proof.
  intros [H1 Hk H2 H3]. destruct (conns_ w !! fd) eqn:E.
  - apply closeConnection_ok; [done|done|done|by auto|by eexists].
  - unfold closeConnection. by rewrite E.
Qed.

(** Everything is in place for every connection but [fd], whose interest may
    be stale. *)
Record worker_ok_but (fd : Z) (w : Worker) : Prop := {
  wb_loop : loop_ok (loop_ w);
  wb_known : dom (interest (loop_ w)) ⊆ dom (conns_ w) ∪ {[listen]};
  wb_fds : client_fds w = dom (conns_ w);
  wb_registered : is_Some (interest (loop_ w) !! fd);
  wb_interest : ∀ fd' c, fd' ≠ fd → conns_ w !! fd' = Some c → interest (loop_ w) !! fd' = Some (waits_for c)
}.

Lemma set_conn_ok_but fd c w : worker_ok w → is_Some (conns_ w !! fd) → worker_ok_but fd (set_conn fd c w).
Proof.
  intros [H1 Hk H2 H3] [c0 Hc0]. split; simpl.
  - done.
  - rewrite dom_insert_lookup_L by (by eexists). done.
  - rewrite dom_insert_lookup_L by (by eexists). done.
  - rewrite (H3 _ _ Hc0). by eexists.
  - intros fd' c' Hne. rewrite lookup_insert_ne by done. apply H3.
Qed.

Lemma modify_ok fd ev c w :
  worker_ok_but fd w → conns_ w !! fd = Some c → ev = waits_for c →
  ∃ l, loop_modify fd ev (loop_ w) = Some l ∧ worker_ok (set_loop l w).
Proof.
  intros [H1 Hk H2 [m Hm] H4] Hc ->. unfold loop_modify. rewrite Hm. eexists. split; [done|].
  split; simpl; [| |done|].
  - unfold loop_ok in *. simpl. by rewrite dom_insert_lookup_L by (by eexists).
  - by rewrite dom_insert_lookup_L by (by eexists).
  - intros fd' c' Hc'. destruct (decide (fd' = fd)) as [->|Hne].
    + rewrite lookup_insert_eq. congruence.
    + rewrite lookup_insert_ne by done. by apply H4.
Qed.

(** Flushing a connection whose interest may be stale puts everything in
    order, provided it had no stale interest when there is nothing to send. *)
Lemma flush_ok ws fd w c :
  worker_ok_but fd w → conns_ w !! fd = Some c →
  (hasPendingWrite c = false → interest (loop_ w) !! fd = Some EPOLLIN) →
  write_socket ws c ≠ None →
  ∃ out w', flushIfPossible ws fd w = Some (out, w') ∧ worker_ok w' ∧
    match conns_ w' !! fd with
    | Some c' => unsent c = out ++ unsent c' ∧ closeAfterWrite c' = closeAfterWrite c ∧
                 (unsent c' = [] → closeAfterWrite c' = true → unsent c = [])
    | None => ∃ rest, unsent c = out ++ rest
    end.
Proof.
  intros Hb Hc Hidle Hws. unfold flushIfPossible. rewrite Hc.
  destruct (hasPendingWrite c) eqn:Hp; simpl.
  2: { exists [], w. split_and!; [done| |].
       - destruct Hb as [B1 Bk B2 B3 B4]. split; [done|done|done|]. intros fd' c' Hc'.
         destruct (decide (fd' = fd)) as [->|Hne]; [|by apply B4]. rewrite Hc in Hc'. injection Hc' as <-.
         unfold waits_for. rewrite Hp. by apply Hidle.
       - rewrite Hc. by split_and!. }
  assert (∀ c', worker_ok_but fd (set_conn fd c' w)) as Hb'.
  { intros c'. destruct Hb as [B1 Bk B2 B3 B4]. split; simpl; [done| | |done|].
    - rewrite dom_insert_lookup_L by (by eexists). done.
    - rewrite dom_insert_lookup_L by (by eexists). done.
    - intros fd' c0 Hne. rewrite lookup_insert_ne by done. by apply B4. }
  assert (∀ c', worker_ok (closeConnection fd (set_conn fd c' w)) ∧
                conns_ (closeConnection fd (set_conn fd c' w)) !! fd = None) as Hclose.
  { intros c'. destruct (Hb' c') as [B1 Bk B2 B3 B4]. split.
    - apply closeConnection_ok; [done|done|done|done|]. simpl. rewrite lookup_insert_eq. by eexists.
    - unfold closeConnection. simpl. rewrite lookup_insert_eq. simpl. apply lookup_delete_eq. }
  destruct (write_socket ws c) as [[[e out] c']|] eqn:Hw; [|done].
  destruct (write_socket_spec _ _ _ _ _ Hw) as (H1 & H2 & H3). destruct e.
  - assert (unsent c' = []) as Hdone.
    { destruct (unsent c') eqn:E; [done|].
      assert (hasPendingWrite c' = true) by (by apply hasPendingWrite_unsent; rewrite E). congruence. }
    rewrite Hdone, app_nil_r in H1. cbn [closeAfterWrite set_write].
    destruct (closeAfterWrite c') eqn:Ha.
    + eexists _, _. split; [done|]. destruct (Hclose (set_write [] 0 c')) as [Hok ->].
      split; [done|]. exists []. by rewrite app_nil_r.
    + destruct (modify_ok fd EPOLLIN (set_write [] 0 c') (set_conn fd (set_write [] 0 c') w)) as (l & Hl & Hok).
      { done. } { simpl. apply lookup_insert_eq. } { done. }
      simpl in Hl. rewrite Hl. eexists _, _. split; [done|]. split; [done|]. simpl. rewrite lookup_insert_eq.
      unfold unsent at 2 3. simpl. rewrite app_nil_r. split_and!; [done|congruence|].
      intros _ Hx. congruence.
  - destruct (modify_ok fd (Z.lor EPOLLIN EPOLLOUT) c' (set_conn fd c' w)) as (l & Hl & Hok).
    { done. } { simpl. apply lookup_insert_eq. } { unfold waits_for. by rewrite H3. }
    simpl in Hl. rewrite Hl. eexists _, _. split; [done|]. split; [done|]. simpl. rewrite lookup_insert_eq.
    split_and!; [done|done|]. intros E. exfalso. by apply hasPendingWrite_unsent in H3.
  - eexists _, _. split; [done|]. destruct (Hclose c') as [Hok ->]. split; [done|]. by exists (unsent c').
Qed.

(** ** Handlers *)

Lemma write_socket_some ws fd w c :
  conns_ w !! fd = Some c → flushIfPossible ws fd w ≠ None → write_socket ws c ≠ None.
Proof.
  intros Hc Hf Hw. apply Hf. unfold flushIfPossible. rewrite Hc, Hw.
  destruct (hasPendingWrite c) eqn:Hp; [done|]. destruct ws; simpl in Hw; by rewrite Hp in Hw.
Qed.

Lemma flush_keeps_ok ws fd w c out w' :
  worker_ok_but fd w → conns_ w !! fd = Some c →
  (hasPendingWrite c = false → interest (loop_ w) !! fd = Some EPOLLIN) →
  flushIfPossible ws fd w = Some (out, w') → worker_ok w'.
Proof.
  intros Hb Hc Hi Hf. destruct (flush_ok ws fd w c) as (out' & w0 & Hf' & Hok & _); [done|done|done| |].
  - eapply write_socket_some; [done|]. by rewrite Hf.
  - rewrite Hf in Hf'. by injection Hf' as _ ->.
Qed.

Lemma worker_ok_weaken fd w : worker_ok w → is_Some (conns_ w !! fd) → worker_ok_but fd w.
Proof. intros [H1 Hk H2 H3] [c Hc]. split; [done|done|done| |by auto]. rewrite (H3 _ _ Hc). by eexists. Qed.

Lemma flush_worker_ok ws fd w out w' :
  worker_ok w → flushIfPossible ws fd w = Some (out, w') → worker_ok w'.
Proof.
  intros Hok Hf. destruct (conns_ w !! fd) as [c|] eqn:Hc.
  - eapply flush_keeps_ok; [by eapply worker_ok_weaken|exact Hc| |exact Hf].
    intros Hp. rewrite (w_interest _ Hok _ _ Hc). unfold waits_for. by rewrite Hp.
  - unfold flushIfPossible in Hf. rewrite Hc in Hf. by injection Hf as <- <-.
Qed.

Lemma read_socket_keeps rs c c' :
  read_socket rs c = Some (inr c') →
  pendingWrite c' = pendingWrite c ∧ writeOffset c' = writeOffset c ∧ closeAfterWrite c' = closeAfterWrite c.
Proof.
  revert c. induction rs as [|r rs IH]; intros c; simpl; [done|].
  destruct r as [data now| | | |]; [|done|by intros [= <-]|by apply IH|done].
  destruct (_ <? _)%Z; [by intros [= <-]|]. intros H%IH. done.
Qed.

Context (rnd : Q → Q) (print_double : Q → bytes) (iterate : gmap bytes bytes → header_list).

Lemma onReadable_ok env fd w out w' :
  worker_ok w → onReadable rnd print_double iterate env fd w = Some (out, w') → worker_ok w'.
Proof.
  intros Hok. unfold onReadable. destruct (conns_ w !! fd) as [c|] eqn:Hc; [|by intros [= <- <-]].
  destruct (read_socket _ c) as [[[]|c1]|] eqn:Hr; [..|done].
  { intros [= <- <-]. by apply closeConnection_worker_ok. }
  destruct (drain _ _ _ _ _) as [[c2 g]|] eqn:Hd; [|done].
  destruct (read_socket_keeps _ _ _ Hr) as (R1 & R2 & _).
  destruct (drain_appends _ _ _ _ _ _ _ _ Hd) as ((new & D1) & D2 & _).
  apply (flush_keeps_ok _ fd _ c2).
  - destruct (set_conn_ok_but fd c2 w Hok) as [B1 Bk B2 B3 B4]; [by eexists|]. by split.
  - simpl. apply lookup_insert_eq.
  - intros Hp. simpl. rewrite (w_interest _ Hok _ _ Hc). unfold waits_for.
    assert (hasPendingWrite c = false) as ->; [|done].
    unfold hasPendingWrite in *. apply bool_decide_eq_false in Hp. apply bool_decide_eq_false.
    rewrite D1, D2, R1, R2, length_app in Hp. lia.
Qed.

Lemma onEvent_ok env ws fd events w out w' :
  worker_ok w → onEvent rnd print_double iterate env ws fd events w = Some (out, w') → worker_ok w'.
Proof.
  intros Hok. unfold onEvent. destruct (negb _).
  { intros [= <- <-]. by apply closeConnection_worker_ok. }
  assert (∀ o1 w1, (if negb (Z.land events EPOLLIN =? 0)%Z then onReadable rnd print_double iterate env fd w
                    else Some ([], w)) = Some (o1, w1) → worker_ok w1) as Hread.
  { intros o1 w1. destruct (negb _); [by apply onReadable_ok|]. by intros [= <- <-]. }
  destruct (if negb (Z.land events EPOLLIN =? 0)%Z then _ else _) as [[o1 w1]|]; [|done].
  specialize (Hread o1 w1 eq_refl). destruct (conns_ w1 !! fd); [|by intros [= <- <-]].
  destruct (negb _); [|by intros [= <- <-]].
  destruct (onWritable ws fd w1) as [[o2 w2]|] eqn:Hw; [|done]. intros [= <- <-].
  by eapply flush_worker_ok.
Qed.

Lemma onAccept_ok fd ip now w :
  worker_ok w → fd ∉ client_fds w → fd ≠ listen →
  ∃ w', onAccept fd ip now w = Some w' ∧ worker_ok w' ∧
        conns_ w' = <[fd := newClientConnection ip now]> (conns_ w).
Proof.
  intros [H1 Hk H2 H3] Hnew Hne. unfold onAccept, loop_add. simpl.
  assert (interest (loop_ w) !! fd = None) as Hni.
  { apply not_elem_of_dom. rewrite H2 in Hnew. set_solver. }
  rewrite Hni. eexists. split; [done|]. split; [|done]. split; simpl.
  - unfold loop_ok in *. simpl. by rewrite dom_insert_L, H1.
  - rewrite !dom_insert_L. set_solver.
  - by rewrite dom_insert_L, H2.
  - intros fd' c. destruct (decide (fd' = fd)) as [->|Hne'].
    + rewrite !lookup_insert_eq. by intros [= <-].
    + rewrite !lookup_insert_ne by done. apply H3.
Qed.

Lemma close_list_ok fds w : worker_ok w → worker_ok (foldl (flip closeConnection) w fds).
Proof.
  revert w. induction fds as [|fd fds IH]; intros w Hok; [done|]. apply IH. by apply closeConnection_worker_ok.
Qed.

(** ** Runs of a worker *)

(** One thing that happens to a worker: a connection is accepted (the
    operating system's descriptor is not in use), an event is handled, the
    idle sweep runs, or another thread changes the shared gateway. *)
Inductive worker_step : Worker → Worker → Prop :=
  | ws_accept fd ip now w w' :
      fd ∉ client_fds w → fd ≠ listen → onAccept fd ip now w = Some w' → worker_step w w'
  | ws_event env ws fd events w out w' :
      onEvent rnd print_double iterate env ws fd events w = Some (out, w') → worker_step w w'
  | ws_sweep now w : worker_step w (sweepIdleConnections now w)
  | ws_stop w : worker_step w (close_all_connections w)
  | ws_shared g w : worker_step w (set_gw g w).

Lemma worker_step_ok w w' : worker_step w w' → worker_ok w → worker_ok w'.
Proof.
  destruct 1 as [fd ip now w w' Hn Hl Ha|env ws fd events w out w' He|now w|w|g w]; intros Hok.
  - destruct (onAccept_ok fd ip now w Hok Hn Hl) as (w1 & Ha' & Hok' & _). rewrite Ha in Ha'. by simplify_eq.
  - by eapply onEvent_ok.
  - by apply close_list_ok.
  - by apply close_list_ok.
  - destruct Hok. by split.
Qed.
End invariant.

(** ** Sweeping *)

Lemma close_list_conns fds w fd :
  conns_ (foldl (flip closeConnection) w fds) !! fd = if decide (fd ∈ fds) then None else conns_ w !! fd.
Proof.
  revert w. induction fds as [|x fds IH]; intros w; simpl; [done|]. rewrite IH.
  assert (conns_ (closeConnection x w) !! fd = if decide (fd = x) then None else conns_ w !! fd) as E.
  { unfold closeConnection. destruct (conns_ w !! x) eqn:Hx; simpl.
    - destruct (decide (fd = x)) as [->|]; [apply lookup_delete_eq|by rewrite lookup_delete_ne].
    - destruct (decide (fd = x)) as [->|]; done. }
  unfold flip. rewrite E. destruct (decide (fd ∈ fds)), (decide (fd = x)), (decide (fd ∈ x :: fds)); set_solver.
Qed.

Lemma sweep_conns now w fd c :
  conns_ (sweepIdleConnections now w) !! fd = Some c ↔
  conns_ w !! fd = Some c ∧ idle_too_long now c = false.
Proof.
  unfold sweepIdleConnections. rewrite close_list_conns.
  assert (∀ fd, fd ∈ (filter (λ p, idle_too_long now p.2 = true) (map_to_list (conns_ w))).*1 ↔
            ∃ c, conns_ w !! fd = Some c ∧ idle_too_long now c = true) as Hin.
  { intros fd'. rewrite list_elem_of_fmap. split.
    - intros ([k v] & -> & [H1 H2]%list_elem_of_filter). apply elem_of_map_to_list in H2. simpl in *. eauto.
    - intros (c' & H1 & H2). exists (fd', c'). split; [done|]. apply list_elem_of_filter.
      split; [done|]. by apply elem_of_map_to_list. }
  destruct (decide _) as [Hc|Hc].
  - split; [done|]. intros [H1 H2]. apply Hin in Hc as (c' & H3 & H4). congruence.
  - split; [|by intros [? _]]. intros H1. split; [done|].
    destruct (idle_too_long now c) eqn:E; [|done]. destruct Hc. apply Hin. eauto.
Qed.

(** ** Theorems *)

Definition fresh_worker (listen : Z) (g : Gateway) : Worker :=
  mkWorker ∅ (mkEventLoop {[listen := EPOLLIN]} {[listen]}) ∅ g.

Lemma fresh_worker_ok listen g : worker_ok listen (fresh_worker listen g).
Proof.
  split; simpl.
  - unfold loop_ok. simpl. by rewrite dom_singleton_L.
  - rewrite dom_singleton_L. set_solver.
  - by rewrite dom_empty_L.
  - intros fd c. by rewrite lookup_empty.
Qed.

(** C16: connections, sockets and event loop stay in step.  Whatever sequence
    of accepts, events, sweeps and outside changes a worker goes through, its
    open client sockets are exactly those of its connection table, each is
    registered with the event loop, and each waits for the socket to become
    writable exactly when it has unsent bytes; so registering an accepted
    connection never throws and no queued response is forgotten. *)
Theorem worker_invariant listen rnd print_double iterate g w :
  rtc (worker_step listen rnd print_double iterate) (fresh_worker listen g) w →
  client_fds w = dom (conns_ w) ∧ dom (interest (loop_ w)) = callbacks_ (loop_ w) ∧
  (∀ fd c, conns_ w !! fd = Some c → interest (loop_ w) !! fd = Some (waits_for c)) ∧
  (∀ fd ip now, fd ∉ client_fds w → fd ≠ listen → is_Some (onAccept fd ip now w)).
Proof.
  intros Hr. assert (worker_ok listen w) as Hok.
  { assert (∀ w0, rtc (worker_step listen rnd print_double iterate) w0 w → worker_ok listen w0 → worker_ok listen w) as H.
    { induction 1; eauto using worker_step_ok. }
    by eapply H; [exact Hr|apply fresh_worker_ok]. }
  pose proof Hok as [H1 Hk H2 H3]. split_and!; [done|done|done|].
  intros fd ip now Hn Hl. destruct (onAccept_ok listen fd ip now w Hok Hn Hl) as (w' & -> & _). by eexists.
Qed.

Lemma worker_invariant_witness :
  ∃ w, rtc (worker_step 3 rnd64 demo_print_double map_to_list) (fresh_worker 3 demo_closed) w ∧
       client_fds w = {[9%Z]} ∧ client_fds w = dom (conns_ w).
Proof.
  destruct (onAccept_ok 3 9 (str "10.1.1.1") 0 (fresh_worker 3 demo_closed)) as (w & Ha & Hok & Hc).
  - apply fresh_worker_ok.
  - simpl. set_solver.
  - lia.
  - assert (rtc (worker_step 3 rnd64 demo_print_double map_to_list) (fresh_worker 3 demo_closed) w) as Hr.
    { apply rtc_once. eapply ws_accept; [| |exact Ha]; [simpl; set_solver|lia]. }
    exists w. destruct (worker_invariant 3 rnd64 demo_print_double map_to_list demo_closed w Hr) as (E & _).
    split_and!; [done| |done]. rewrite E, Hc. simpl. rewrite dom_insert_L. set_solver.
Defined.

(** Flushing neither loses, repeats nor reorders bytes.  Given enough
    answers of [send], flushing a connection sends a prefix of its unsent
    bytes; if the connection stays open the rest stays queued and, when all
    went out, it was not one to be closed; the event loop and the tables are
    in step again. *)
Theorem flush_delivers listen ws fd w c :
  worker_ok listen w → conns_ w !! fd = Some c → write_socket ws c ≠ None →
  ∃ out w', flushIfPossible ws fd w = Some (out, w') ∧ worker_ok listen w' ∧
    match conns_ w' !! fd with
    | Some c' => unsent c = out ++ unsent c' ∧ closeAfterWrite c' = closeAfterWrite c ∧
                 (unsent c' = [] → closeAfterWrite c' = true → unsent c = [])
    | None => ∃ rest, unsent c = out ++ rest
    end.
Proof.
  intros Hok Hc Hw. apply flush_ok; [by eapply worker_ok_weaken|done| |done].
  intros Hp. rewrite (w_interest _ _ Hok _ _ Hc). unfold waits_for. by rewrite Hp.
Qed.

Definition half_sent : ClientConnection :=
  mkClientConnection (str "10.1.1.1") newHttpParser (str "HTTP/1.1 200 OK") 5 false 0.

Definition half_sent_worker : Worker :=
  mkWorker {[9%Z := half_sent]} (mkEventLoop {[3%Z := EPOLLIN; 9%Z := Z.lor EPOLLIN EPOLLOUT]} {[3%Z; 9%Z]})
    {[9%Z]} demo_closed.

Lemma flush_delivers_witness :
  ∃ out w', flushIfPossible [Wrote 4; WAgain] 9 half_sent_worker = Some (out, w') ∧ worker_ok 3 w' ∧
    match conns_ w' !! 9%Z with
    | Some c' => unsent half_sent = out ++ unsent c' ∧ closeAfterWrite c' = closeAfterWrite half_sent ∧
                 (unsent c' = [] → closeAfterWrite c' = true → unsent half_sent = [])
    | None => ∃ rest, unsent half_sent = out ++ rest
    end.
Proof.
  apply (flush_delivers 3 [Wrote 4; WAgain] 9 half_sent_worker half_sent).
  - split.
    + by_decide.
    + by_decide.
    + by_decide.
    + intros fd c Hc. simpl in Hc. apply lookup_singleton_Some in Hc as [<- <-]. vm_compute. reflexivity.
  - reflexivity.
  - vm_compute. congruence.
Defined.

(** The idle sweep closes the idle connections and only those.  After a
    sweep a connection is gone exactly when it had nothing to send and its
    last byte came in more than sixty seconds ago; a connection with unsent
    bytes is never swept, however long it has been silent. *)
Theorem sweep_spec now w fd c :
  conns_ w !! fd = Some c →
  conns_ (sweepIdleConnections now w) !! fd =
    (if decide (unsent c = [] ∧ (60 * 1000000000 < now - lastActivity c)%Z) then None else Some c).
Proof.
  intros Hc. destruct (conns_ (sweepIdleConnections now w) !! fd) as [c'|] eqn:E.
  - apply sweep_conns in E as [H1 H2]. rewrite Hc in H1. injection H1 as <-.
    unfold idle_too_long, kIdleTimeout, ns_of_ms in H2. rewrite decide_False; [done|].
    intros [Hu Ht]. apply andb_false_iff in H2 as [H2|H2].
    + apply negb_false_iff, hasPendingWrite_unsent in H2. done.
    + apply Z.ltb_ge in H2. lia.
  - rewrite decide_True; [done|]. destruct (idle_too_long now c) eqn:Hi.
    + unfold idle_too_long, kIdleTimeout, ns_of_ms in Hi. apply andb_true_iff in Hi as [H1 H2].
      apply negb_true_iff in H1. apply Z.ltb_lt in H2. split; [|lia].
      destruct (unsent c) eqn:Eu; [done|].
      assert (hasPendingWrite c = true) by (by apply hasPendingWrite_unsent; rewrite Eu). congruence.
    + assert (conns_ (sweepIdleConnections now w) !! fd = Some c) by (by apply sweep_conns). congruence.
Qed.

Lemma sweep_spec_witness :
  conns_ (sweepIdleConnections 61000000000 (set_conn 9 demo_conn (fresh_worker 3 demo_closed))) !! 9%Z =
    (if decide (unsent demo_conn = [] ∧ (60 * 1000000000 < 61000000000 - lastActivity demo_conn)%Z)
     then None else Some demo_conn).
Proof.
  apply (sweep_spec 61000000000 (set_conn 9 demo_conn (fresh_worker 3 demo_closed)) 9 demo_conn).
  vm_compute. reflexivity.
Defined.

(** ** A response that should close the connection may not *)

Definition close_then_keep : bytes :=
  str "GET /gateway/health HTTP/1.1" ++ crlf ++ str "Connection: close" ++ crlf ++ crlf ++
  str "GET /gateway/health HTTP/1.1" ++ crlf ++ crlf.

Definition run_events (w : Worker) : option Worker :=
  match onEvent rnd64 demo_print_double map_to_list
          (mkEventEnv [RData close_then_keep 1] [demo_request_env] [WAgain]) [] 9 EPOLLIN w with
  | None => None
  | Some (_, w) =>
      match onEvent rnd64 demo_print_double map_to_list
              (mkEventEnv [RData (str "G") 2] [demo_request_env; demo_request_env] [Wrote 1000]) [] 9 EPOLLIN w with
      | None => None
      | Some (_, w) => Some w
      end
  end.

(** The promise to close can be lost.  A client sends a request with
    Connection: close and a second request behind it.  The first response,
    which announces that the connection will be closed, does not fit the
    socket; when more bytes arrive before it is flushed, the second request
    is served after all and its keep-alive overwrites the flag, so both
    responses go out and the connection stays open. *)
Theorem close_promise_can_be_lost :
  match onAccept 9 (str "10.1.1.1") 0 (fresh_worker 3 demo_closed) with
  | None => False
  | Some w =>
      match onEvent rnd64 demo_print_double map_to_list
              (mkEventEnv [RData close_then_keep 1] [demo_request_env] [WAgain]) [] 9 EPOLLIN w with
      | None => False
      | Some (_, w1) => closeAfterWrite <$> conns_ w1 !! 9%Z = Some true
      end ∧
      match run_events w with
      | None => False
      | Some w2 => closeAfterWrite <$> conns_ w2 !! 9%Z = Some false ∧
                   unsent <$> conns_ w2 !! 9%Z = Some []
      end
  end.
Proof. vm_compute. done. Qed.
