(* ===== verification/WorkerLiveness.v ===== *)
(** * Responses reach the client (src/core/Gateway.cpp, flushIfPossible and onEvent)

    Liveness of a connection's output: a connection with unsent bytes is
    registered for writability (WorkerConnections), so the event loop keeps
    calling it as the client reads, and every such call makes progress until
    everything has been sent. *)
From Stdlib Require Import QArith.
From S2P Require Import Prelude CxxString Rounding HttpMessage HttpParser LRUCache CircuitBreaker RateLimiter LoadBalancer Router ConnectionPool Metrics BackendIO Forward EventLoop Worker WorkerPipeline WorkerConnections.
Local Open Scope nat_scope.

(** What [send] answers to a client that has read something: it takes at
    least one byte, possibly more in further calls, then blocks again. *)
Definition takes (ns : list nat) : list write_answer := ((λ n, Wrote (S n)) <$> ns) ++ [WAgain].

Lemma write_takes ns c :
  ∃ e out c', write_socket (takes ns) c = Some (e, out, c') ∧ e ≠ Broken ∧
    (hasPendingWrite c = true → ns ≠ [] → out ≠ []).
Proof.
  revert c. induction ns as [|n ns IH]; intros c; cbn; destruct (hasPendingWrite c) eqn:Hp; try (by eexists _, _, _).
  destruct (IH (set_write (pendingWrite c) (writeOffset c + S n) c)) as (e & out & c' & Hw & He & _).
  unfold takes in Hw. rewrite Hw. eexists _, _, _. split; [done|]. split; [done|]. intros _ _.
  apply hasPendingWrite_unsent in Hp. unfold unsent in Hp. by destruct (drop (writeOffset c) (pendingWrite c)).
Qed.

Section delivery.
Context (listen : Z) (rnd : Q → Q) (print_double : Q → bytes) (iterate : gmap bytes bytes → header_list).

(** One call sends something, and closes only what is fully sent and was to
    be closed. *)
Lemma flush_takes ns fd w c :
  worker_ok listen w → conns_ w !! fd = Some c → unsent c ≠ [] → ns ≠ [] →
  ∃ out w', flushIfPossible (takes ns) fd w = Some (out, w') ∧ worker_ok listen w' ∧ out ≠ [] ∧
    match conns_ w' !! fd with
    | Some c' => unsent c = out ++ unsent c' ∧ closeAfterWrite c' = closeAfterWrite c ∧
                 (unsent c' = [] → closeAfterWrite c = false)
    | None => unsent c = out ∧ closeAfterWrite c = true
    end.
Proof.
  intros Hok Hc Hu Hns. destruct (write_takes ns c) as (e & out & c' & Hw & He & Hout).
  assert (hasPendingWrite c = true) as Hp by (by apply hasPendingWrite_unsent).
  destruct (flush_ok listen (takes ns) fd w c) as (out' & w' & Hf & Hok' & Hm); [by eapply worker_ok_weaken|done| |congruence|].
  { by rewrite Hp. }
  assert (out' = out) as ->.
  { unfold flushIfPossible in Hf. rewrite Hc, Hp in Hf. cbn in Hf. rewrite Hw in Hf.
    destruct e; [destruct (closeAfterWrite _)| |done]; try (destruct (loop_modify _ _ _)); by simplify_eq/=. }
  exists out, w'. split; [done|]. split; [done|]. split; [by apply Hout|].
  destruct (conns_ w' !! fd) as [c1|] eqn:Hc1.
  - destruct Hm as (H1 & H2 & H3). split; [done|]. split; [done|]. intros E. rewrite <- H2.
    destruct (closeAfterWrite c1); [|done]. by specialize (H3 E eq_refl).
  - destruct (write_socket_spec _ _ _ _ _ Hw) as (H1 & H2 & H3).
    unfold flushIfPossible in Hf. rewrite Hc, Hp in Hf. cbn in Hf. rewrite Hw in Hf. destruct e; [| |done].
    + assert (unsent c' = []) as E0.
      { destruct (unsent c') eqn:E; [done|]. assert (hasPendingWrite c' = true) by (by apply hasPendingWrite_unsent; rewrite E).
        congruence. }
      rewrite E0, app_nil_r in H1. split; [done|]. cbn in Hf. rewrite H2 in Hf. destruct (closeAfterWrite c); [done|].
      destruct (loop_modify _ _ _); [|done]. injection Hf as <-. cbn in Hc1. by rewrite lookup_insert_eq in Hc1.
    + destruct (loop_modify _ _ _); [|done]. injection Hf as <-. cbn in Hc1. by rewrite lookup_insert_eq in Hc1.
Qed.

(** The writability events of one connection, each with what [send] takes;
    all that was sent. *)
Fixpoint writable_events (events : list (list nat)) (fd : Z) (w : Worker) : option (bytes * Worker) :=
  match events with
  | [] => Some ([], w)
  | ns :: events' =>
      match onEvent rnd print_double iterate (mkEventEnv [] [] []) (takes ns) fd EPOLLOUT w with
      | None => None
      | Some (out, w1) =>
          match writable_events events' fd w1 with
          | None => None
          | Some (outs, w2) => Some (out ++ outs, w2)
          end
      end
  end.

Lemma writable_event env ws fd w :
  onEvent rnd print_double iterate env ws fd EPOLLOUT w =
  match conns_ w !! fd with None => Some ([], w) | Some _ => flushIfPossible ws fd w end.
Proof.
  unfold onEvent, onWritable. change (Z.land EPOLLOUT EPOLLIN) with 0%Z. change (Z.land EPOLLOUT EPOLLOUT) with 4%Z.
  cbn. destruct (conns_ w !! fd); [|done]. cbn. by destruct (flushIfPossible ws fd w) as [[out w']|].
Qed.

Lemma no_more_events events fd w :
  match conns_ w !! fd with Some c => unsent c = [] | None => True end → writable_events events fd w = Some ([], w).
Proof.
  intros H. induction events as [|ns events IH]; [done|]. cbn [writable_events]. rewrite writable_event.
  destruct (conns_ w !! fd) as [c|] eqn:Hc; [|by rewrite IH].
  unfold flushIfPossible. rewrite Hc. destruct (hasPendingWrite c) eqn:Hp; [by apply hasPendingWrite_unsent in Hp|].
  cbn. by rewrite IH.
Qed.

Lemma events_deliver events fd w c :
  worker_ok listen w → conns_ w !! fd = Some c → unsent c ≠ [] → Forall (λ ns, ns ≠ []) events →
  length (unsent c) ≤ length events →
  ∃ w', writable_events events fd w = Some (unsent c, w') ∧ worker_ok listen w' ∧
    match conns_ w' !! fd with
    | Some c' => unsent c' = [] ∧ closeAfterWrite c = false
    | None => closeAfterWrite c = true
    end.
Proof.
  revert w c. induction events as [|ns events IH]; intros w c Hok Hc Hu Hev Hlen.
  { destruct (unsent c); [done|]. cbn in Hlen. lia. }
  apply Forall_cons in Hev as [Hns Hev]. cbn [writable_events]. rewrite writable_event, Hc.
  destruct (flush_takes ns fd w c Hok Hc Hu Hns) as (out & w1 & -> & Hok1 & Hout & Hm).
  destruct (conns_ w1 !! fd) as [c1|] eqn:Hc1.
  - destruct Hm as (E & Ecl & Hlast). destruct (decide (unsent c1 = [])) as [Hd|Hd].
    + rewrite no_more_events by (by rewrite Hc1). rewrite app_nil_r. exists w1. rewrite E, Hd, app_nil_r.
      split; [done|]. split; [done|]. rewrite Hc1. auto.
    + destruct (IH w1 c1 Hok1 Hc1 Hd Hev) as (w2 & -> & Hok2 & Hm2).
      { rewrite E, length_app in Hlen. destruct out; [done|]. cbn in Hlen. lia. }
      exists w2. rewrite E. split; [done|]. split; [done|]. by rewrite Ecl in Hm2.
  - destruct Hm as [E Hcl]. rewrite no_more_events by (by rewrite Hc1). rewrite app_nil_r. exists w1.
    rewrite E. split; [done|]. split; [done|]. by rewrite Hc1.
Qed.
End delivery.

(** ** Theorem *)

(** C31: what is queued is delivered.  A client that keeps reading gets all of
    its output: the connection is registered for writability as long as
    something is unsent, and after at most as many writability events as
    there are unsent bytes exactly those bytes have been sent, in order; the
    connection is then closed if it was announced as closing, and otherwise
    open and waiting for the next request. *)
Theorem output_is_delivered listen rnd print_double iterate events fd w c :
  worker_ok listen w → conns_ w !! fd = Some c → unsent c ≠ [] → Forall (λ ns, ns ≠ []) events →
  length (unsent c) ≤ length events →
  interest (loop_ w) !! fd = Some (Z.lor EPOLLIN EPOLLOUT) ∧
  ∃ w', writable_events rnd print_double iterate events fd w = Some (unsent c, w') ∧ worker_ok listen w' ∧
    match conns_ w' !! fd with
    | Some c' => unsent c' = [] ∧ closeAfterWrite c = false ∧ interest (loop_ w') !! fd = Some EPOLLIN
    | None => closeAfterWrite c = true
    end.
Proof.
  intros Hok Hc Hu Hev Hlen. assert (hasPendingWrite c = true) as Hp by (by apply hasPendingWrite_unsent).
  split; [rewrite (w_interest _ _ Hok _ _ Hc); unfold waits_for; by rewrite Hp|].
  destruct (events_deliver listen rnd print_double iterate events fd w c Hok Hc Hu Hev Hlen) as (w' & H1 & H2 & H3).
  exists w'. split; [done|]. split; [done|]. destruct (conns_ w' !! fd) as [c'|] eqn:Hc'; [|done].
  destruct H3 as [H3 H4]. split_and!; [done|done|]. rewrite (w_interest _ _ H2 _ _ Hc'). unfold waits_for.
  destruct (hasPendingWrite c') eqn:E; [by apply hasPendingWrite_unsent in E|done].
Qed.

Lemma output_is_delivered_witness :
  interest (loop_ half_sent_worker) !! 9%Z = Some (Z.lor EPOLLIN EPOLLOUT) ∧
  ∃ w', writable_events rnd64 demo_print_double map_to_list (replicate 10 [0]) 9 half_sent_worker = Some (unsent half_sent, w') ∧
    worker_ok 3 w' ∧
    match conns_ w' !! 9%Z with
    | Some c' => unsent c' = [] ∧ closeAfterWrite half_sent = false ∧ interest (loop_ w') !! 9%Z = Some EPOLLIN
    | None => closeAfterWrite half_sent = true
    end.
Proof.
  refine (output_is_delivered 3 rnd64 demo_print_double map_to_list (replicate 10 [0]) 9 half_sent_worker half_sent _ _ _ _ _).
  - split; [by_decide..|]. intros fd c Hc. simpl in Hc. apply lookup_singleton_Some in Hc as [<- <-]. vm_compute. reflexivity.
  - reflexivity.
  - vm_compute. congruence.
  - by apply Forall_replicate.
  - vm_compute. lia.
Defined.
