(* ===== verification/WorkerMetrics.v ===== *)
(** * What serving requests does to the metrics
      (src/core/Gateway.cpp, handleRequest; include/observability/Metrics.hpp)

    The registry is shared by all workers; its counters are unsigned 64-bit
    integers that wrap around, the response classes an array of six, the
    histogram a bucket count per bound.  Serving a request goes through many
    of its operations; [accounted] says what all of them keep: the types,
    the gauge of open connections, and the books, by which every request
    that is counted records exactly one latency. *)
From Stdlib Require Import QArith.
From S2P Require Import Prelude CxxString Rounding HttpMessage HttpParser LRUCache CircuitBreaker RateLimiter RetryPolicy LoadBalancer Router ConnectionPool Metrics Observability BackendIO Forward Worker.
Local Open Scope nat_scope.

(** ** Types of the registry *)

Definition is_u64 (n : Z) : Prop := (0 ≤ n < 2 ^ 64)%Z.

Definition sum_counts (l : list Z) : Z := foldr Z.add 0%Z l.

Record histogram_typed (h : LatencyHistogram) : Prop := {
  ht_bounds : bounds_ h = bucket_bounds;
  ht_length : length (counts_ h) = length bucket_bounds;
  ht_counts : Forall is_u64 (counts_ h);
  ht_total : total_ h = u64 (sum_counts (counts_ h))
}.

Record metrics_typed (m : Metrics) : Prop := {
  mt_counters : Forall is_u64 [requests_ m; errors_ m; cacheHits_ m; cacheMisses_ m; rateLimited_ m; retries_ m;
    circuitOpenRejections_ m];
  mt_gauge : (- 2 ^ 63 ≤ activeConnections_ m < 2 ^ 63)%Z;
  mt_length : length (responsesByClass_ m) = 6;
  mt_classes : Forall is_u64 (responsesByClass_ m);
  mt_latency : histogram_typed (latency_ m)
}.

Lemma u64_add a b : u64 (u64 a + b) = u64 (a + b).
Proof. unfold u64, u64_modulus. by rewrite Z.add_mod_idemp_l by lia. Qed.

Lemma u64_add_r a b : u64 (a + u64 b) = u64 (a + b).
Proof. unfold u64, u64_modulus. by rewrite Z.add_mod_idemp_r by lia. Qed.

Lemma u64_sub_r a b : u64 (a - u64 b) = u64 (a - b).
Proof. unfold u64, u64_modulus. by rewrite Zminus_mod_idemp_r. Qed.

Lemma add_u64 a b : is_u64 (a +u b).
Proof. apply u64_range. Qed.
#[local] Hint Resolve add_u64 : core.

Lemma nth_alter j i (f : Z → Z) l : i < length l → nth j (alter f i l) 0%Z = if decide (i = j) then f (nth j l 0%Z) else nth j l 0%Z.
Proof.
  intros Hi. rewrite !nth_lookup. destruct (decide (i = j)) as [->|Hne].
  - rewrite list_lookup_alter_eq. destruct (lookup_lt_is_Some_2 l j Hi) as [x Hx]. by rewrite Hx.
  - by rewrite list_lookup_alter_ne.
Qed.

Lemma sum_counts_alter i l :
  i < length l → u64 (sum_counts (alter (λ c, c +u 1)%Z i l)) = u64 (sum_counts l + 1).
Proof.
  revert i. induction l as [|x l IH]; intros i Hi; [simpl in Hi; lia|].
  destruct i as [|i]; cbn [alter list_alter sum_counts foldr].
  - rewrite u64_add. f_equal. lia.
  - fold (sum_counts (alter (λ c, c +u 1)%Z i l)). fold (sum_counts l).
    rewrite <- u64_add_r, IH by (simpl in Hi; lia). rewrite u64_add_r. f_equal. lia.
Qed.

Lemma alter_u64 i l : Forall is_u64 l → Forall is_u64 (alter (λ c, c +u 1)%Z i l).
Proof. intros H. apply Forall_alter; auto. Qed.

Lemma record_typed micros h : histogram_typed h → histogram_typed (record micros h).
Proof.
  intros [Hb Hl Hc Ht]. unfold record. split; cbn [bounds_ counts_ total_]; [done|by rewrite length_alter|by apply alter_u64|].
  rewrite sum_counts_alter.
  - by rewrite Ht, u64_add.
  - assert (length bucket_bounds = 14) by reflexivity. case_decide; lia.
Qed.

(** ** Requests and latencies *)

(** Requests counted whose latency has not been recorded. *)
Definition in_service (m : Metrics) : Z := u64 (requests_ m - total_ (latency_ m)).

(** From [m] to [m']: the types stay, so does the gauge, and [d] more requests
    are in service. *)
Record accounted (d : Z) (m m' : Metrics) : Prop := {
  ac_typed : metrics_typed m → metrics_typed m';
  ac_gauge : activeConnections_ m' = activeConnections_ m;
  ac_books : in_service m' = u64 (in_service m + d)
}.

Lemma in_service_range m : u64 (in_service m) = in_service m.
Proof. apply u64_small, u64_range. Qed.

Lemma accounted_refl m : accounted 0 m m.
Proof. split; [done|done|]. by rewrite Z.add_0_r, in_service_range. Qed.

Lemma accounted_trans d1 d2 m1 m2 m3 : accounted d1 m1 m2 → accounted d2 m2 m3 → accounted (d1 + d2) m1 m3.
Proof.
  intros [T1 G1 B1] [T2 G2 B2]. split; [auto|congruence|]. rewrite B2, B1, u64_add. f_equal. lia.
Qed.

(** The other operations on the registry. *)
Lemma accounted_side m f :
  f ∈ [incErrors; incCacheHit; incCacheMiss; incRateLimited; incRetries; incCircuitOpen] → accounted 0 m (f m).
Proof.
  intros Hf. repeat (apply elem_of_cons in Hf as [->|Hf]); [..|by apply elem_of_nil in Hf].
  all: split; [|done|by rewrite Z.add_0_r, in_service_range].
  all: intros [Hc Hg Hl Hk Hh]; split; try done; cbn in *; repeat (apply Forall_cons in Hc as [? Hc]);
    repeat (apply Forall_cons; split; [solve [auto]|]); done.
Qed.

Lemma accounted_request m : accounted 1 m (incRequests m).
Proof.
  split; [|done|].
  - intros [Hc Hg Hl Hk Hh]; split; try done; cbn in *; repeat (apply Forall_cons in Hc as [? Hc]).
    repeat (apply Forall_cons; split; [solve [auto]|]); done.
  - unfold in_service. cbn. rewrite u64_add. unfold Z.sub. rewrite u64_add. f_equal. lia.
Qed.

Lemma accounted_latency n m : accounted (-1) m (recordLatencyMicros n m).
Proof.
  split; [|done|].
  - intros [Hc Hg Hl Hk Hh]. split; try done. by apply record_typed.
  - unfold in_service. cbn. rewrite u64_add, u64_sub_r. f_equal. lia.
Qed.

(** A status in range indexes the array of classes. *)
Lemma accounted_response code m : accounted 0 m (recordResponse code m).
Proof.
  unfold recordResponse. case_if; [|apply accounted_refl]. split; [|done|].
  - intros [Hc Hg Hl Hk Hh]. split; try done; cbn; [by rewrite length_alter|by apply alter_u64].
  - by rewrite Z.add_0_r, in_service_range.
Qed.

(** Accepting and closing a connection keep the types too. *)
Lemma connection_typed m n :
  metrics_typed m →
  metrics_typed (mkMetrics (requests_ m) (errors_ m) (cacheHits_ m) (cacheMisses_ m) (rateLimited_ m) (retries_ m)
    (circuitOpenRejections_ m) (wrap64 n) (responsesByClass_ m) (latency_ m)).
Proof.
  intros [Hc Hg Hl Hk Hh]. split; try done. cbn. unfold wrap64.
  pose proof (Z.mod_pos_bound (n + 2 ^ 63) (2 ^ 64) ltac:(lia)). lia.
Qed.

Lemma newMetrics_typed : metrics_typed newMetrics.
Proof.
  split; [|cbn; lia|done| |].
  - cbn. repeat (constructor; [unfold is_u64; lia|]). constructor.
  - apply Forall_replicate. unfold is_u64. lia.
  - split; [done|done| |done]. apply Forall_replicate. unfold is_u64. lia.
Qed.

(** Nothing in service: as many latencies as requests. *)
Lemma balanced m : metrics_typed m → in_service m = 0%Z → requests_ m = total_ (latency_ m).
Proof.
  intros [Hc _ _ _ [_ _ _ Ht]] H. apply Forall_cons in Hc as [Hr _]. unfold is_u64 in Hr.
  assert (0 ≤ total_ (latency_ m) < 2 ^ 64)%Z by (rewrite Ht; apply u64_range).
  unfold in_service, u64, u64_modulus in H. apply Z.mod_divide in H as [k Hk]; [|lia]. nia.
Qed.

(** ** Serving a request *)

Lemma pick_backend_metrics route g r g' : pick_backend route g = (r, g') → metrics g' = metrics g.
Proof.
  unfold pick_backend. destruct (gw_lbs g !! _); [destruct (pick _ _)|]; by intros [= <- <-].
Qed.

Lemma ask_breaker_metrics now i g ok g' : ask_breaker now i g = (ok, g') → metrics g' = metrics g.
Proof.
  unfold ask_breaker. destruct (gw_backends g !! i); [destruct (allowRequest _ _)|]; by intros [= <- <-].
Qed.

Lemma contact_metrics iterate env req i b g fd r g' :
  contact iterate env req i b g = Some (fd, r, g') → metrics g' = metrics g.
Proof.
  unfold contact. cbv zeta. destruct (acquire _ _ _ _ _) as [[fd0 pool] os].
  destruct (if (0 <=? fd0)%Z then _ else _); [done|]. by intros [= <- <- <-].
Qed.

Lemma settle_metrics env i b fd r is_last g : metrics (result_gateway (settle env i b fd r is_last g)) = metrics g.
Proof.
  unfold settle. destruct r as [[resp []]|].
  - destruct (release _ _ _ _ _). by repeat case_if.
  - by repeat case_if.
  - by repeat case_if.
Qed.

(** An attempt leaves the registry alone, a refusal by the breaker apart. *)
Lemma attempt_accounted iterate env route req is_last g a :
  attempt iterate env route req is_last g = Some a → accounted 0 (metrics g) (metrics (result_gateway a)).
Proof.
  unfold attempt. destruct (pick_backend route g) as [[i|] g1] eqn:Hp; apply pick_backend_metrics in Hp; rewrite <- Hp.
  2: { intros [= <-]. apply accounted_refl. }
  destruct (gw_backends g1 !! i) as [b|]; [|done].
  destruct (ask_breaker _ _ _) as [ok g2] eqn:Ha. apply ask_breaker_metrics in Ha. rewrite <- Ha.
  destruct ok; [|intros [= <-]; apply accounted_side; set_solver].
  destruct (contact _ _ _ _ _ _) as [[[fd r] g3]|] eqn:Hc; [|done]. apply contact_metrics in Hc.
  intros [= <-]. rewrite settle_metrics, Hc. apply accounted_refl.
Qed.

Lemma forward_accounted iterate envs route req g resp g' :
  forwardWithResilience iterate envs route req g = Some (resp, g') → accounted 0 (metrics g) (metrics g').
Proof.
  unfold forwardWithResilience. generalize (Z.to_nat (attempts g)) as n. intros n. revert envs g.
  induction n as [|n IH]; intros envs g; simpl; [intros [= _ <-]; apply accounted_refl|].
  destruct envs as [|env envs]; [done|].
  destruct (attempt _ _ _ _ _ _) as [[r g1|g1|g1]|] eqn:Ha; [..|done]; apply attempt_accounted in Ha; simpl in Ha.
  - by intros [= _ <-].
  - intros H%IH. eapply (accounted_trans 0 0); [exact Ha|]. eapply (accounted_trans 0 0); [|exact H].
    apply accounted_side. set_solver.
  - intros H%IH. exact (accounted_trans 0 0 _ _ _ Ha H).
Qed.

(** A response settles the request. *)
Lemma respond_accounted env resp req c g c' g' :
  Some (respond env resp req (c, g)) = Some (c', g') → accounted (-1) (metrics g) (metrics g').
Proof.
  unfold respond, queueResponse. cbn [fst snd]. intros [= _ <-].
  exact (accounted_trans (-1) 0 _ _ _ (accounted_latency _ _) (accounted_response _ _)).
Qed.

Section serving.
Context (rnd : Q → Q) (print_double : Q → bytes) (iterate : gmap bytes bytes → header_list).

Lemma proxy_accounted env route req b c g c' g' :
  proxy iterate env route req b (c, g) = Some (c', g') → accounted (-1) (metrics g) (metrics g').
Proof.
  unfold proxy. destruct (forwardWithResilience _ _ _ _ _) as [[resp g1]|] eqn:Hf; [|done].
  apply forward_accounted in Hf. destruct (b && _); cbv beta iota zeta; intros H%respond_accounted.
  all: eapply (accounted_trans 0 (-1)); [exact Hf|]; eapply (accounted_trans 0 (-1)); [|exact H].
  all: case_if; [apply accounted_side; set_solver|apply accounted_refl].
Qed.

Lemma handleRequest_accounted env req c g c' g' :
  handleRequest rnd print_double iterate env req (c, g) = Some (c', g') → accounted 0 (metrics g) (metrics g').
Proof.
  unfold handleRequest. cbn [fst snd]. intros H.
  apply (accounted_trans 1 (-1) _ (incRequests (metrics g))); [apply accounted_request|]. revert H.
  destruct (decide _); [by intros ?%respond_accounted|]. destruct (decide _); [by intros ?%respond_accounted|].
  destruct (allow _ _ _ _ _) as [[] rl]; cbn [negb].
  2: { intros H%respond_accounted. eapply (accounted_trans 0 (-1)); [|exact H]. apply accounted_side. set_solver. }
  destruct (match_route _ _) as [route|].
  2: { intros H%respond_accounted. eapply (accounted_trans 0 (-1)); [|exact H]. apply accounted_side. set_solver. }
  unfold serve_route. destruct (cacheable route && _); [|by intros ?%proxy_accounted].
  destruct (cache_get _ _ _) as [[e|] cache]; intros H; (eapply (accounted_trans 0 (-1));
    [|first [exact (respond_accounted _ _ _ _ _ _ _ H)|exact (proxy_accounted _ _ _ _ _ _ _ _ H)]]).
  all: apply accounted_side; set_solver.
Qed.

Lemma drain_accounted envs c g c' g' :
  drain rnd print_double iterate envs (c, g) = Some (c', g') → accounted 0 (metrics g) (metrics g').
Proof.
  revert c g. induction envs as [|env envs IH]; intros c g; [done|]. cbn [drain].
  destruct (parse _ _) as [[[] req] p]; [intros [= _ <-]; apply accounted_refl| |].
  - cbn [next_id]. destruct (handleRequest _ _ _ _ _ _) as [[c2 g2]|] eqn:Hh; [|done].
    apply handleRequest_accounted in Hh. destruct (closeAfterWrite c2); [intros [= _ <-]; exact Hh|].
    intros H%IH. exact (accounted_trans 0 0 _ _ _ Hh H).
  - intros [= _ <-]. apply (accounted_response 400).
Qed.
End serving.
