(* ===== verification/ServeConcurrent.v ===== *)
(** * Workers serving at once (src/core/Gateway.cpp, handleRequest)

    Every worker handles its requests on its own thread, over the one
    gateway.  A thread here is one call of [handleRequest]: a position in it
    ([vphase]) and, once it forwards, a thread of ForwardConcurrent.  One
    [serve_tick] is one operation on shared state: a [fetch_add] on a
    counter, a call into the limiter or the cache (each under its mutex) or
    an operation of [forwardWithResilience].  Recording a latency is two such
    operations, the bucket and the total.  The actions of a schedule are the
    ticks, new requests, the verdicts of the health checker, connections that
    open and close, and malformed requests.

    Every run is a run of ForwardConcurrent ([serve_simulates]), so that what
    is proved there of counters, connections and breakers holds here; and a
    thread that is alone computes [handleRequest] ([serve_alone]). *)
From Stdlib Require Import QArith.
From S2P Require Import Prelude CxxString Rounding HttpMessage HttpParser LRUCache CircuitBreaker RateLimiter RetryPolicy LoadBalancer Router ConnectionPool HealthChecker Metrics Observability BackendIO Forward ForwardConcurrent Worker WorkerPipeline WorkerMetrics.
Local Open Scope nat_scope.

(** ** Recording a latency (Metrics.hpp, lines 26-32) *)

Definition record_bucket (micros : Z) (h : LatencyHistogram) : LatencyHistogram :=
  let idx := lower_bound (bounds_ h) micros in
  let idx := if decide (length (counts_ h) ≤ idx) then length (counts_ h) - 1 else idx in
  mkLatencyHistogram (bounds_ h) (alter (λ c, c +u 1)%Z idx (counts_ h)) (total_ h).

Definition record_total (h : LatencyHistogram) : LatencyHistogram :=
  mkLatencyHistogram (bounds_ h) (counts_ h) (total_ h +u 1).

Definition on_latency (f : LatencyHistogram → LatencyHistogram) (m : Metrics) : Metrics :=
  mkMetrics (requests_ m) (errors_ m) (cacheHits_ m) (cacheMisses_ m) (rateLimited_ m)
    (retries_ m) (circuitOpenRejections_ m) (activeConnections_ m) (responsesByClass_ m) (f (latency_ m)).

Lemma record_in_two micros m :
  on_latency record_total (on_latency (record_bucket micros) m) = recordLatencyMicros micros m.
Proof. reflexivity. Qed.

(** ** A thread *)

(** How a request was answered. *)
Inductive kind :=
  | KPage | KHealth | KLimited | KNoRoute
  | KHit (e : CachedResponse)
  | KForward (cacheable : bool).

Inductive vphase :=
  | Arrived                                         (* before incRequests *)
  | Page                                            (* reading the counters *)
  | Limiting
  | Limited                                         (* refused by the limiter *)
  | Unrouted
  | Looking (route : Route)                         (* before cache_.get *)
  | Hit (e : CachedResponse)
  | Missed (route : Route)
  | Forwarding (cacheable : bool)
  | Storing (resp : HttpResponse)                   (* before cache_.put *)
  | Erring (cacheable : bool) (resp : HttpResponse) (* before incErrors *)
  | Bucketing (k : kind) (resp : HttpResponse)      (* recordLatency *)
  | Totalling (k : kind) (resp : HttpResponse)
  | Queueing (k : kind) (resp : HttpResponse)       (* queueResponse *)
  | Served (k : kind) (resp : HttpResponse).

Record serve_thread := mkServe {
  sv_ip : bytes;
  sv_req : HttpRequest;
  sv_env : request_env;              (* what the environment answers *)
  sv_seen : Metrics;                 (* what the loads of the metrics page saw *)
  sv_fwd : option fwd_thread;        (* forwardWithResilience, once entered *)
  sv_phase : vphase
}.

Definition at_vphase (p : vphase) (t : serve_thread) : serve_thread :=
  mkServe (sv_ip t) (sv_req t) (sv_env t) (sv_seen t) (sv_fwd t) p.

Definition with_fwd (f : fwd_thread) (p : vphase) (t : serve_thread) : serve_thread :=
  mkServe (sv_ip t) (sv_req t) (sv_env t) (sv_seen t) (Some f) p.

(** Line 160. *)
Definition cacheable_request (route : Route) (req : HttpRequest) : bool :=
  cacheable route && (bool_decide (rq_method req = str "GET") || bool_decide (rq_method req = str "HEAD")).

(** Line 177: the call of [forwardWithResilience]. *)
Definition enter_forward (route : Route) (c : bool) (gw : Gateway) (t : serve_thread) : serve_thread :=
  with_fwd (start_forward gw route (sv_req t) (rv_attempts (sv_env t))) (Forwarding c) t.

(** Lines 181 and 183: the cached form of a response, and what follows. *)
Definition cached_form (resp : HttpResponse) : CachedResponse :=
  mkCachedResponse (rs_statusCode resp) (rs_statusText resp) (rs_headers resp) (rs_body resp).

Definition count_errors (c : bool) (resp : HttpResponse) : vphase :=
  if (500 <=? rs_statusCode resp)%Z then Erring c resp else Bucketing (KForward c) resp.

(** Lines 178-183: after [forwardWithResilience] has returned. *)
Definition after_forward (c : bool) (req : HttpRequest) (resp : HttpResponse) : vphase :=
  let resp := setHeader (str "X-Request-Id") (rq_requestId req) resp in
  if c && (rs_statusCode resp =? 200)%Z then Storing (setHeader (str "X-Cache") (str "MISS") resp)
  else count_errors c resp.

Section tick.
Context (rnd : Q → Q) (print_double : Q → bytes) (iterate : gmap bytes bytes → header_list).

(** One operation of a thread; [None]: it is done, or its environment has not
    answered. *)
Definition serve_tick (t : serve_thread) (gw : Gateway) : option (serve_thread * Gateway) :=
  let req := sv_req t in
  let env := sv_env t in
  match sv_phase t with
  | Arrived =>
      let p := if decide (rq_path req = str "/metrics") then Page
               else if decide (rq_path req = str "/gateway/health") then Bucketing KHealth health_response
               else Limiting in
      Some (at_vphase p t, on_metrics incRequests gw)
  | Page => Some (at_vphase (Bucketing KPage (metrics_response rnd print_double env (on_metrics (λ _, sv_seen t) gw))) t, gw)
  | Limiting =>
      let '(admitted, rl) := allow rnd (rv_limit env) (sv_ip t) (inject_Z 1) (rateLimiter_ gw) in
      let gw := set_limiter rl gw in
      Some (if negb admitted then at_vphase Limited t
            else match match_route (rq_path req) (router_ gw) with
                 | None => at_vphase Unrouted t
                 | Some route => if cacheable_request route req then at_vphase (Looking route) t
                                 else enter_forward route false gw t
                 end, gw)
  | Limited =>
      Some (at_vphase (Bucketing KLimited (make 429 (str "Too Many Requests") (str "rate limit exceeded"))) t,
            on_metrics incRateLimited gw)
  | Unrouted =>
      Some (at_vphase (Bucketing KNoRoute (make 404 (str "Not Found") (str "no matching route"))) t,
            on_metrics incErrors gw)
  | Looking route =>
      let '(cached, cache) := cache_get (rv_get env) (cacheKey req) (cache_ gw) in
      Some (at_vphase (match cached with Some e => Hit e | None => Missed route end) t, set_cache cache gw)
  | Hit e => Some (at_vphase (Bucketing (KHit e) (hit_response e req)) t, on_metrics incCacheHit gw)
  | Missed route => Some (enter_forward route true gw t, on_metrics incCacheMiss gw)
  | Forwarding c =>
      f ← sv_fwd t;
      '(f', gw') ← fwd_tick iterate f gw;
      Some (with_fwd f' (match ft_phase f' with Done resp => after_forward c req resp | _ => Forwarding c end) t, gw')
  | Storing resp =>
      Some (at_vphase (count_errors true resp) t,
            set_cache (cache_put (rv_put env) (cacheKey req) (cached_form resp) (cache_ gw)) gw)
  | Erring c resp => Some (at_vphase (Bucketing (KForward c) resp) t, on_metrics incErrors gw)
  | Bucketing k resp => Some (at_vphase (Totalling k resp) t, on_metrics (on_latency (record_bucket (u64 (rv_latency env)))) gw)
  | Totalling k resp => Some (at_vphase (Queueing k resp) t, on_metrics (on_latency record_total) gw)
  | Queueing k resp => Some (at_vphase (Served k resp) t, on_metrics (recordResponse (rs_statusCode resp)) gw)
  | Served _ _ => None
  end.

(** ** The gateway and its workers *)

Record serving := mkServing { sg_gw : Gateway; sg_threads : list serve_thread }.

Inductive serve_action :=
  | Serve (k : nat)
  | Begin (ip : bytes) (req : HttpRequest) (env : request_env) (seen : Metrics)   (* lines 112-113 *)
  | Checked (i : bptr) (ok : bool)
  | Opened
  | Closed_
  | Malformed.                                                                    (* line 109 *)

Definition serve_act (s : serving) (a : serve_action) : serving :=
  let gw := sg_gw s in
  match a with
  | Serve k =>
      match sg_threads s !! k with
      | None => s
      | Some t =>
          match serve_tick t gw with
          | None => s
          | Some (t', gw') => mkServing gw' (<[k := t']> (sg_threads s))
          end
      end
  | Begin ip req env seen =>
      let '(id, counter) := next_id (rv_suffix env) (id_counter gw) in
      mkServing (set_ids counter gw) (sg_threads s ++ [mkServe ip (set_requestId req id) env seen None Arrived])
  | Checked i ok => mkServing (on_backend i (set_healthy ok) gw) (sg_threads s)
  | Opened => mkServing (on_metrics connectionOpened gw) (sg_threads s)
  | Closed_ => mkServing (on_metrics connectionClosed gw) (sg_threads s)
  | Malformed => mkServing (on_metrics (recordResponse 400) gw) (sg_threads s)
  end.

Definition run_serve (schedule : list serve_action) (s : serving) : serving := foldl serve_act s schedule.
End tick.

(** ** Every run is a run of ForwardConcurrent *)

(** The forwarding threads of the serving threads. *)
Definition forwarders (ts : list serve_thread) : list fwd_thread := omap sv_fwd ts.

Definition simulates (s : serving) (c : conc) : Prop :=
  c_gw c = sg_gw s ∧ c_threads c ≡ₚ forwarders (sg_threads s).

Lemma forwarders_split ts k t t' :
  ts !! k = Some t →
  forwarders ts = forwarders (take k ts) ++ option_list (sv_fwd t) ++ forwarders (drop (S k) ts) ∧
  forwarders (<[k := t']> ts) = forwarders (take k ts) ++ option_list (sv_fwd t') ++ forwarders (drop (S k) ts).
Proof.
  intros Hk. unfold forwarders. split.
  - rewrite <- (take_drop_middle ts k t Hk) at 1. rewrite omap_app. cbn. by destruct (sv_fwd t).
  - rewrite insert_take_drop by (by eapply lookup_lt_Some). rewrite omap_app. cbn. by destruct (sv_fwd t').
Qed.

(** A step that does not touch the forwarding thread. *)
Lemma forwarders_same ts k t t' :
  ts !! k = Some t → sv_fwd t' = sv_fwd t → forwarders (<[k := t']> ts) = forwarders ts.
Proof. intros Hk E. destruct (forwarders_split ts k t t' Hk) as [-> ->]. by rewrite E. Qed.

Lemma forwarders_enter ts k t t' f :
  ts !! k = Some t → sv_fwd t = None → sv_fwd t' = Some f → forwarders (<[k := t']> ts) ≡ₚ forwarders ts ++ [f].
Proof.
  intros Hk E E'. destruct (forwarders_split ts k t t' Hk) as [-> ->]. rewrite E, E'. cbn.
  rewrite <- app_assoc. by rewrite (Permutation_app_comm _ [f]).
Qed.

Lemma forwarders_tick ts k t t' f f' l :
  ts !! k = Some t → sv_fwd t = Some f → sv_fwd t' = Some f' → l ≡ₚ forwarders ts →
  ∃ j, l !! j = Some f ∧ <[j := f']> l ≡ₚ forwarders (<[k := t']> ts).
Proof.
  intros Hk E E' Hl. destruct (forwarders_split ts k t t' Hk) as [H1 H2]. rewrite H1, E in Hl. rewrite H2, E'. cbn in *.
  assert (f ∈ l) as (l1 & l2 & ->)%list_elem_of_split by (rewrite Hl; set_solver).
  exists (length l1). split; [by rewrite list_lookup_middle|]. rewrite insert_app_r_alt by done.
  rewrite Nat.sub_diag. cbn. apply Permutation_app_inv in Hl.
  by rewrite <- !Permutation_middle, Hl.
Qed.

Section simulation.
Context (rnd : Q → Q) (print_double : Q → bytes) (iterate : gmap bytes bytes → header_list).

(** The operating system hands out unused descriptors. *)
Definition fresh_begin (a : serve_action) : Prop :=
  match a with Begin _ _ env _ => Forall os_fresh (rv_attempts env) | _ => True end.

Definition fresh_thread (t : serve_thread) : Prop := Forall os_fresh (rv_attempts (sv_env t)).

(** Threads that have not entered [forwardWithResilience] have no forwarding
    thread. *)
Definition before_forward (p : vphase) : bool :=
  match p with Arrived | Page | Limiting | Looking _ | Missed _ => true | _ => false end.

Definition unentered (t : serve_thread) : Prop := before_forward (sv_phase t) = true → sv_fwd t = None.

(** What a tick does, in the terms of ForwardConcurrent. *)
Inductive tick_effect (t t' : serve_thread) (gw gw' : Gateway) : Prop :=
  | Local a : sv_fwd t' = sv_fwd t → (∀ ts, act iterate (mkConc gw ts) a = mkConc gw' ts) → fresh_action a → tick_effect t t' gw gw'
  | Enter a route : sv_fwd t = None → (∀ ts, act iterate (mkConc gw ts) a = mkConc gw' ts) → fresh_action a →
      sv_fwd t' = Some (start_forward gw' route (sv_req t) (rv_attempts (sv_env t))) → tick_effect t t' gw gw'
  | Step f f' : sv_fwd t = Some f → sv_fwd t' = Some f' → fwd_tick iterate f gw = Some (f', gw') → tick_effect t t' gw gw'.

Lemma serve_tick_effect t gw t' gw' :
  unentered t → serve_tick rnd print_double iterate t gw = Some (t', gw') → tick_effect t t' gw gw'.
Proof.
  intros Hu. unfold serve_tick. unfold unentered in Hu. destruct (sv_phase t) eqn:Hp; cbn [before_forward] in Hu.
  - intros [= <- <-]. by apply (Local _ _ _ _ (Measure incRequests)).
  - intros [= <- <-]. by apply (Local _ _ _ _ (Measure id)); [|intros ts; destruct gw|].
  - destruct (allow _ _ _ _ _) as [[] rl]; cbn [negb]; [|intros [= <- <-]; by apply (Local _ _ _ _ (Limit rl))].
    destruct (match_route _ _) as [route|]; [|intros [= <- <-]; by apply (Local _ _ _ _ (Limit rl))].
    destruct (cacheable_request _ _); intros [= <- <-]; [by apply (Local _ _ _ _ (Limit rl))|].
    by apply (Enter _ _ _ _ (Limit rl) route); [apply Hu| | |].
  - intros [= <- <-]. by apply (Local _ _ _ _ (Measure incRateLimited)).
  - intros [= <- <-]. by apply (Local _ _ _ _ (Measure incErrors)).
  - destruct (cache_get _ _ _) as [cached cache]. intros [= <- <-]. by apply (Local _ _ _ _ (Cache cache)).
  - intros [= <- <-]. by apply (Local _ _ _ _ (Measure incCacheHit)).
  - intros [= <- <-]. by apply (Enter _ _ _ _ (Measure incCacheMiss) route); [apply Hu| | |].
  - destruct (sv_fwd t) as [f|] eqn:Hf; [|done]. cbn.
    destruct (fwd_tick _ _ _) as [[f' g]|] eqn:Ht; [|done]. cbn. intros [= <- <-]. by apply (Step _ _ _ _ f f').
  - intros [= <- <-]. by apply (Local _ _ _ _ (Cache (cache_put (rv_put (sv_env t)) (cacheKey (sv_req t)) (cached_form resp) (cache_ gw)))).
  - intros [= <- <-]. by apply (Local _ _ _ _ (Measure incErrors)).
  - intros [= <- <-]. by apply (Local _ _ _ _ (Measure (on_latency (record_bucket (u64 (rv_latency (sv_env t))))))).
  - intros [= <- <-]. by apply (Local _ _ _ _ (Measure (on_latency record_total))).
  - intros [= <- <-]. by apply (Local _ _ _ _ (Measure (recordResponse (rs_statusCode resp)))).
  - done.
Qed.

(** What a tick leaves alone. *)
Lemma serve_tick_static t gw t' gw' :
  serve_tick rnd print_double iterate t gw = Some (t', gw') →
  sv_ip t' = sv_ip t ∧ sv_req t' = sv_req t ∧ sv_env t' = sv_env t ∧ (unentered t → unentered t').
Proof.
  unfold serve_tick, unentered. destruct (sv_phase t) eqn:Hp; cbn [before_forward].
  all: try by intros [= <- <-]; cbn; repeat case_decide; split_and!.
  - destruct (allow _ _ _ _ _) as [[] rl]; cbn [negb]; [|intros [= <- <-]; by split_and!].
    destruct (match_route _ _) as [route|]; [|intros [= <- <-]; by split_and!].
    destruct (cacheable_request _ _); intros [= <- <-]; by split_and!.
  - destruct (cache_get _ _ _) as [[] cache]; intros [= <- <-]; by split_and!.
  - destruct (sv_fwd t) as [f|]; [|done]. cbn. destruct (fwd_tick _ _ _) as [[f' g]|]; [|done]. cbn. intros [= <- <-]. cbn.
    split_and!; [done..|]. intros _. destruct (ft_phase f'); try done. unfold after_forward, count_errors. by repeat case_if.
  - intros [= <- <-]. cbn. split_and!; [done..|]. unfold count_errors. by case_if.
Qed.

Record serve_wf (s : serving) : Prop := {
  wf_fresh t : t ∈ sg_threads s → fresh_thread t;
  wf_entered t : t ∈ sg_threads s → unentered t
}.

Lemma serve_act_wf s a : serve_wf s → fresh_begin a → serve_wf (serve_act rnd print_double iterate s a).
Proof.
  intros [Hf Hu] Ha. destruct s as [gw ts], a as [k|ip req env seen|i ok| | |]; cbn [serve_act sg_gw sg_threads] in *; try by split.
  - destruct (ts !! k) as [t|] eqn:Hk; [|by split]. destruct (serve_tick _ _ _ _ _) as [[t' gw']|] eqn:Ht; [|by split].
    destruct (serve_tick_static _ _ _ _ Ht) as (_ & _ & Ee & Hu'). pose proof (list_elem_of_lookup_2 _ _ _ Hk) as Hin.
    split; cbn; intros t0 [k0 H0]%list_elem_of_lookup.
    + apply insert_cases in H0 as [[_ ->]|[_ H0]]; [|by eapply Hf, list_elem_of_lookup_2].
      unfold fresh_thread. rewrite Ee. by apply Hf.
    + apply insert_cases in H0 as [[_ ->]|[_ H0]]; [|by eapply Hu, list_elem_of_lookup_2]. by apply Hu', Hu.
  - cbn. split; cbn; intros t0 [H|H%list_elem_of_singleton]%elem_of_app; subst; auto; done.
Qed.

Lemma run_serve_wf schedule s :
  serve_wf s → Forall fresh_begin schedule → serve_wf (run_serve rnd print_double iterate schedule s).
Proof.
  revert s. induction schedule as [|a l IH]; intros s Hs Hf; [done|].
  apply Forall_cons in Hf as [Ha Hf]. cbn. by apply IH; [apply serve_act_wf|].
Qed.

Lemma start_wf gw : serve_wf (mkServing gw []).
Proof. split; cbn; intros t Ht; by apply elem_of_nil in Ht. Qed.

(** One action is matched by at most two. *)
Lemma serve_act_simulates s a c :
  serve_wf s → simulates s c → fresh_begin a →
  ∃ l, Forall fresh_action l ∧ simulates (serve_act rnd print_double iterate s a) (run_schedule iterate l c).
Proof.
  intros [Hfr Hu] [Hg Hp] Ha. destruct s as [gw ts], c as [gw0 cts]. cbn [sg_gw sg_threads c_gw c_threads] in *. subst gw0.
  destruct a as [k|ip req env seen|i ok| | |]; cbn [serve_act sg_gw sg_threads].
  - destruct (ts !! k) as [t|] eqn:Hk; [|by exists []]. destruct (serve_tick _ _ _ _ _) as [[t' gw']|] eqn:Ht; [|by exists []].
    pose proof (list_elem_of_lookup_2 _ _ _ Hk) as Hin.
    destruct (serve_tick_effect t gw t' gw' (Hu t Hin) Ht) as [a E Hact Hfa|a route E Hact Hfa E'|f f' E E' Htick].
    + exists [a]. split; [by constructor|]. cbn [run_schedule foldl]. rewrite Hact. split; [done|].
      cbn [c_threads sg_threads]. by rewrite (forwarders_same ts k t t').
    + exists [a; Request route (sv_req t) (rv_attempts (sv_env t))]. split; [constructor; [done|]; constructor; [by apply (Hfr t)|done]|].
      cbn [run_schedule foldl]. rewrite Hact. split; [done|]. cbn [act c_threads c_gw sg_threads].
      rewrite (forwarders_enter ts k t t' _ Hk E E'). by rewrite Hp.
    + destruct (forwarders_tick ts k t t' f f' cts Hk E E' Hp) as (j & Hj & Hperm).
      exists [Tick j]. split; [by constructor|]. cbn [run_schedule foldl act c_gw c_threads]. rewrite Hj, Htick. by split.
  - exists [Identify (next_id (rv_suffix env) (id_counter gw)).2]. split; [by constructor|]. split; [done|]. cbn.
    unfold forwarders. rewrite omap_app. cbn. by rewrite app_nil_r.
  - exists [Verdict i ok]. split; [by constructor|]. by split.
  - exists [Measure connectionOpened]. split; [by constructor|]. by split.
  - exists [Measure connectionClosed]. split; [by constructor|]. by split.
  - exists [Measure (recordResponse 400)]. split; [by constructor|]. by split.
Qed.

Lemma run_simulates schedule s c :
  serve_wf s → simulates s c → Forall fresh_begin schedule →
  ∃ l, Forall fresh_action l ∧ simulates (run_serve rnd print_double iterate schedule s) (run_schedule iterate l c).
Proof.
  revert s c. induction schedule as [|a schedule IH]; intros s c Hw Hs Hf; [by exists []|].
  apply Forall_cons in Hf as [Ha Hf]. destruct (serve_act_simulates s a c Hw Hs Ha) as (l1 & Hl1 & Hs1).
  destruct (IH _ _ (serve_act_wf s a Hw Ha) Hs1 Hf) as (l2 & Hl2 & Hs2).
  exists (l1 ++ l2). split; [by apply Forall_app|]. unfold run_schedule in *. by rewrite foldl_app.
Qed.
End simulation.

Lemma tally_perm f i ts ts' : ts ≡ₚ ts' → tally f i ts = tally f i ts'.
Proof. intros H. unfold tally. by rewrite H. Qed.

(** ** A thread that is alone computes [handleRequest] *)

Section alone.
Context (rnd : Q → Q) (print_double : Q → bytes) (iterate : gmap bytes bytes → header_list).

Definition serve_rel (s s' : serve_thread * Gateway) : Prop :=
  serve_tick rnd print_double iterate s.1 s.2 = Some s'.

Lemma serve_step t gw t' gw' s :
  serve_tick rnd print_double iterate t gw = Some (t', gw') → rtc serve_rel (t', gw') s → rtc serve_rel (t, gw) s.
Proof. intros H. by apply rtc_l. Qed.

Lemma at_vphase_twice p p' t : at_vphase p' (at_vphase p t) = at_vphase p' t.
Proof. reflexivity. Qed.

(** From the response to the end. *)
Lemma respond_alone k resp t c gw :
  sv_phase t = Bucketing k resp →
  rtc serve_rel (t, gw) (at_vphase (Served k resp) t, (respond (sv_env t) resp (sv_req t) (c, gw)).2).
Proof.
  intros Hp. eapply serve_step; [unfold serve_tick; by rewrite Hp|].
  eapply serve_step; [reflexivity|]. eapply serve_step; [reflexivity|]. apply rtc_refl.
Qed.

Lemma fwd_done_stuck f gw resp : ft_phase f = Done resp → fwd_tick iterate f gw = None.
Proof. intros E. unfold fwd_tick. rewrite E. by destruct (ft_envs f). Qed.

Lemma forwarding_alone f gw f' gw' c t resp :
  rtc (tick_rel iterate) (f, gw) (f', gw') → ft_phase f' = Done resp → is_done (ft_phase f) = false →
  sv_phase t = Forwarding c → sv_fwd t = Some f →
  rtc serve_rel (t, gw) (with_fwd f' (after_forward c (sv_req t) resp) t, gw').
Proof.
  remember (f, gw) as s eqn:Es. remember (f', gw') as s' eqn:Es'. intros H Hd. revert f gw t Es.
  induction H as [s|s s1 s2 H1 Hr IH]; intros f gw t -> Hn Hp Hf.
  { injection Es' as -> ->. by rewrite Hd in Hn. }
  subst s2. destruct s1 as [f1 gw1]. unfold tick_rel in H1. cbn in H1.
  eapply serve_step; [unfold serve_tick; rewrite Hp, Hf; cbn; rewrite H1; reflexivity|].
  destruct (is_done (ft_phase f1)) eqn:Ed.
  - assert ((f1, gw1) = (f', gw')) as [= -> ->].
    { inversion Hr as [|x y z Hxy]; [done|]. destruct (ft_phase f1) eqn:E1; try done.
      subst. unfold tick_rel in Hxy. cbn in Hxy. by rewrite (fwd_done_stuck f1 gw1 resp0 E1) in Hxy. }
    rewrite Hd. apply rtc_refl.
  - specialize (IH eq_refl f1 gw1 (with_fwd f1 (Forwarding c) t) eq_refl Ed eq_refl eq_refl).
    destruct (ft_phase f1); try done; exact IH.
Qed.

(** The thread ends with a response that leaves the connection as [c'] and the
    gateway as [gw']. *)
Definition computes (t : serve_thread) (gw : Gateway) (c c' : ClientConnection) (gw' : Gateway) : Prop :=
  ∃ t' k resp, rtc serve_rel (t, gw) (t', gw') ∧ sv_phase t' = Served k resp ∧
    c' = (respond (sv_env t) resp (sv_req t) (c, gw)).1.

Lemma computes_step t gw t1 gw1 c c' gw' :
  serve_tick rnd print_double iterate t gw = Some (t1, gw1) → computes t1 gw1 c c' gw' → computes t gw c c' gw'.
Proof.
  intros Ht (t' & k & resp & H1 & H2 & H3). destruct (serve_tick_static _ _ _ _ _ _ _ Ht) as (_ & Eq & Ee & _).
  exists t', k, resp. split_and!; [by eapply serve_step|done|]. by rewrite Eq, Ee in H3.
Qed.

Lemma computes_respond k resp t gw c c' gw' :
  Some (respond (sv_env t) resp (sv_req t) (c, gw)) = Some (c', gw') → sv_phase t = Bucketing k resp → computes t gw c c' gw'.
Proof.
  intros Ex Hp. assert (respond (sv_env t) resp (sv_req t) (c, gw) = (c', gw')) as Er by congruence.
  exists (at_vphase (Served k resp) t), k, resp. pose proof (respond_alone k resp t c gw Hp) as H. by rewrite Er in *.
Qed.

(** Lines 178-186. *)
Lemma settled_alone c t conn gw resp conn' gw' :
  sv_phase t = count_errors c resp →
  Some (respond (sv_env t) resp (sv_req t) (conn, if (500 <=? rs_statusCode resp)%Z then on_metrics incErrors gw else gw)) =
    Some (conn', gw') → computes t gw conn conn' gw'.
Proof.
  unfold count_errors. intros Hp Hr. destruct (500 <=? _)%Z.
  - eapply computes_step; [unfold serve_tick; rewrite Hp; reflexivity|]. by eapply computes_respond.
  - by eapply computes_respond.
Qed.

Lemma proxy_alone route c t conn gw conn' gw' :
  sv_phase t = Forwarding c → sv_fwd t = Some (start_forward gw route (sv_req t) (rv_attempts (sv_env t))) →
  proxy iterate (sv_env t) route (sv_req t) c (conn, gw) = Some (conn', gw') → computes t gw conn conn' gw'.
Proof.
  intros Hp Hf. unfold proxy. destruct (forwardWithResilience _ _ _ _ _) as [[resp g1]|] eqn:Hfw; [|done].
  unfold forwardWithResilience in Hfw. apply forward_alone in Hfw as (f & Hr & Hd).
  pose proof (forwarding_alone _ _ _ _ c t resp Hr Hd eq_refl Hp Hf) as H1. clear Hr. unfold after_forward in H1.
  set (resp1 := setHeader (str "X-Request-Id") (rq_requestId (sv_req t)) resp) in *.
  assert (∀ t1, rtc serve_rel (t, gw) (t1, g1) → sv_env t1 = sv_env t → sv_req t1 = sv_req t →
    computes t1 g1 conn conn' gw' → computes t gw conn conn' gw') as Hgo.
  { intros t1 Hr1 Ee Eq (t' & k & r & H & H' & H''). exists t', k, r. rewrite Ee, Eq in H''.
    split; [by etransitivity|done]. }
  destruct (c && (rs_statusCode resp1 =? 200)%Z) eqn:Ec; cbv beta iota zeta; intros H; (eapply Hgo; [exact H1|done|done|]).
  - assert (c = true) as -> by (by destruct c). eapply computes_step; [reflexivity|]. by eapply (settled_alone true).
  - by eapply (settled_alone c).
Qed.

(** Lines 160-186. *)
Lemma serve_route_alone route t conn gw conn' gw' :
  sv_phase t = (if cacheable_request route (sv_req t) then Looking route else Forwarding false) →
  (cacheable_request route (sv_req t) = false →
     sv_fwd t = Some (start_forward gw route (sv_req t) (rv_attempts (sv_env t)))) →
  serve_route iterate (sv_env t) route (sv_req t) (conn, gw) = Some (conn', gw') → computes t gw conn conn' gw'.
Proof.
  unfold serve_route. fold (cacheable_request route (sv_req t)). destruct (cacheable_request route (sv_req t)) eqn:Ec; intros Hp Hf.
  2: { intros H. eapply (proxy_alone route false); [done|by apply Hf|exact H]. }
  destruct (cache_get _ _ _) as [cached cache] eqn:Eg. intros H.
  eapply computes_step; [unfold serve_tick; rewrite Hp, Eg; reflexivity|]. destruct cached as [e|].
  - eapply computes_step; [reflexivity|]. by eapply computes_respond.
  - eapply computes_step; [reflexivity|]. by eapply (proxy_alone route true).
Qed.

Lemma handle_alone env req seen c gw c' gw' :
  handleRequest rnd print_double iterate env req (c, gw) = Some (c', gw') → seen = incRequests (metrics gw) →
  computes (mkServe (clientIp c) req env seen None Arrived) gw c c' gw'.
Proof.
  intros H ->. unfold handleRequest in H. cbn [fst snd] in H.
  eapply computes_step; [reflexivity|]. cbn [at_vphase sv_phase sv_ip sv_req sv_env sv_seen sv_fwd].
  set (g1 := on_metrics incRequests gw) in *.
  destruct (decide (rq_path req = str "/metrics")).
  { eapply computes_step; [reflexivity|]. by eapply computes_respond. }
  destruct (decide (rq_path req = str "/gateway/health")); [by eapply computes_respond|].
  destruct (allow _ _ _ _ _) as [ok rl] eqn:Ea. set (g2 := set_limiter rl g1) in *.
  eapply (computes_step _ _ (if negb ok then _ else _) g2).
  { unfold serve_tick. cbn [at_vphase sv_phase sv_env sv_ip sv_req]. rewrite Ea. reflexivity. }
  destruct ok; cbn [negb] in *; [|eapply computes_step; [reflexivity|]; by eapply computes_respond].
  change (router_ g1) with (router_ g2) in H. destruct (match_route _ _) as [route|];
    [|eapply computes_step; [reflexivity|]; by eapply computes_respond].
  destruct (cacheable_request route req) eqn:E; (eapply (serve_route_alone route); [cbn; by rewrite E|cbn; by rewrite E|exact H]).
Qed.
End alone.

(** ** Theorems *)

(** C5: workers refine the forwarding threads.  Whatever a gateway at rest is
    asked to serve, and however its workers interleave, its state is one that
    a schedule of ForwardConcurrent reaches with the same forwarding threads.
    So at every moment a backend's in-flight counter is the number of
    requests in flight to it, every open backend socket is borrowed by one
    request or idle in its backend's queue, and when no request is being
    forwarded every counter is zero and every socket idle. *)
Theorem serve_simulates rnd print_double iterate schedule gw :
  at_rest gw → Forall fresh_begin schedule →
  let s := run_serve rnd print_double iterate schedule (mkServing gw []) in
  let fs := forwarders (sg_threads s) in
  (∃ l, Forall fresh_action l ∧ simulates s (run_schedule iterate l (mkConc gw []))) ∧
  (∀ i b, gw_backends (sg_gw s) !! i = Some b → (Z.of_nat (length fs) ≤ int_max)%Z →
     activeConnections b = Z.of_nat (tally counted i fs)) ∧
  (∀ fd h p, os_sockets (sg_gw s) !! fd = Some (h, p) →
     (∃ f i, f ∈ fs ∧ held (ft_phase f) = Some (i, fd)) ∨ idle_in (pool_ (sg_gw s)) (key h p) fd) ∧
  (Forall (λ f, is_done (ft_phase f) = true) fs →
     Forall (λ b, activeConnections b = 0%Z) (gw_backends (sg_gw s)) ∧
     ∀ fd h p, os_sockets (sg_gw s) !! fd = Some (h, p) → idle_in (pool_ (sg_gw s)) (key h p) fd).
Proof.
  intros Hr Hf s fs.
  destruct (run_simulates rnd print_double iterate schedule (mkServing gw []) (mkConc gw []) (start_wf gw) (conj eq_refl (Permutation_refl _)) Hf)
    as (l & Hl & Hs). fold s in Hs. pose proof (run_schedule_inv iterate l _ (at_rest_inv _ Hr) Hl) as Hi.
  pose proof Hs as [Eg Hp]. fold fs in Hp. destruct Hi as [_ _ Ia _ _ [owned [Hpool [H1 _ _]]]]. rewrite Eg in Ia, Hpool.
  assert (∀ fd h p, os_sockets (sg_gw s) !! fd = Some (h, p) →
     (∃ f i, f ∈ fs ∧ held (ft_phase f) = Some (i, fd)) ∨ idle_in (pool_ (sg_gw s)) (key h p) fd) as Hsock.
  { intros fd h p Hos. destruct (inv_os _ Hpool fd h p Hos) as [_ [Ho|?]]; [left|by right].
    destruct (H1 _ _ Ho) as (k & t & i & Hk & Hh & _). exists t, i. split; [|done]. rewrite <- Hp. by eapply list_elem_of_lookup_2. }
  split_and!; [by exists l| |exact Hsock|].
  - intros i b Hb Hlen. rewrite (Ia i b Hb), (tally_perm _ _ _ _ Hp).
    apply wrap32_small. pose proof (tally_le counted i fs). unfold int_min in *. lia.
  - intros Hd. split.
    + apply Forall_lookup. intros i b Hb. rewrite (Ia i b Hb), (tally_perm _ _ _ _ Hp).
      assert (tally counted i fs = 0) as ->; [|done]. destruct (tally counted i fs) eqn:E; [done|].
      destruct (tally_pos counted i fs) as (k & t & Hk & Hc); [lia|]. rewrite Forall_lookup in Hd. specialize (Hd k t Hk).
      by destruct (ft_phase t).
    + intros fd h p [(f & i & Hin & Hh)|?]%Hsock; [|done]. rewrite Forall_forall in Hd. specialize (Hd f Hin).
      by destruct (ft_phase f).
Qed.

(** Two clients ask for the same page; their steps alternate. *)
Definition serve_demo : list serve_action :=
  [Opened; Begin (str "10.1.1.1") demo_get demo_request_env newMetrics; Begin (str "10.1.1.2") demo_get demo_request_env newMetrics] ++
  concat (replicate 12 [Serve 0; Serve 1]).

Lemma serve_demo_fresh : Forall fresh_begin serve_demo.
Proof. repeat constructor; apply demo_env_fresh. Qed.

Definition serve_demo_state : serving := run_serve rnd64 demo_print_double map_to_list serve_demo (mkServing demo_closed []).

Lemma serve_simulates_witness :
  ∃ l, Forall fresh_action l ∧ simulates serve_demo_state (run_schedule map_to_list l (mkConc demo_closed [])).
Proof.
  exact (proj1 (serve_simulates rnd64 demo_print_double map_to_list serve_demo demo_closed demo_at_rest serve_demo_fresh)).
Defined.

(** The interleaved and the sequential handler agree.  A request handled
    without interference takes the steps of the interleaved model to the same
    response and the same gateway as [handleRequest] computes. *)
Theorem serve_alone rnd print_double iterate env req c gw c' gw' :
  handleRequest rnd print_double iterate env req (c, gw) = Some (c', gw') →
  ∃ t' k resp,
    rtc (serve_rel rnd print_double iterate)
      (mkServe (clientIp c) req env (incRequests (metrics gw)) None Arrived, gw) (t', gw') ∧
    sv_phase t' = Served k resp ∧ c' = (queueResponse resp (negb (rq_keepAlive req)) (c, gw)).1.
Proof. intros H. by apply handle_alone with (seen := incRequests (metrics gw)) in H. Qed.

Lemma serve_alone_witness :
  match handleRequest rnd64 demo_print_double map_to_list demo_request_env demo_get (demo_conn, demo_closed) with
  | Some (c', gw') => ∃ t' k resp,
      rtc (serve_rel rnd64 demo_print_double map_to_list)
        (mkServe (clientIp demo_conn) demo_get demo_request_env (incRequests (metrics demo_closed)) None Arrived, demo_closed) (t', gw') ∧
      sv_phase t' = Served k resp ∧ c' = (queueResponse resp (negb (rq_keepAlive demo_get)) (demo_conn, demo_closed)).1
  | None => False
  end.
Proof.
  destruct (handleRequest rnd64 demo_print_double map_to_list demo_request_env demo_get (demo_conn, demo_closed)) as [[c' gw']|] eqn:E.
  - exact (serve_alone rnd64 demo_print_double map_to_list demo_request_env demo_get demo_conn demo_closed c' gw' E).
  - assert (is_Some (handleRequest rnd64 demo_print_double map_to_list demo_request_env demo_get (demo_conn, demo_closed))) as [? Hs]
      by (vm_compute; by eexists). by rewrite E in Hs.
Defined.
