(* ===== verification/ServeIntegrity.v ===== *)
(** * Where responses come from (src/core/Gateway.cpp, handleRequest and
      forwardWithResilience)

    Integrity of what the workers serve, under every interleaving: the
    response of a request is the gateway's own for the path, the limiter or
    the router, or the reply that a backend of the matched route gave to
    this very request, or the reply stored for a request with the same cache
    key.  The cache never mixes keys, and what it holds are replies of status
    200 that some request obtained from a backend. *)
From Stdlib Require Import QArith.
From S2P Require Import Prelude CxxString Rounding HttpMessage HttpParser LRUCache CircuitBreaker RateLimiter RetryPolicy LoadBalancer Router ConnectionPool HealthChecker Metrics Observability BackendIO Forward ForwardConcurrent Worker WorkerPipeline WorkerMetrics ServeConcurrent.
Local Open Scope nat_scope.

(** ** What never changes in a gateway *)

Record same_face (g0 gw : Gateway) : Prop := {
  sf_max : maxResponseBodyBytes gw = maxResponseBodyBytes g0;
  sf_addrs : addrs (gw_backends gw) = addrs (gw_backends g0);
  sf_lbs : lb_face <$> gw_lbs gw = lb_face <$> gw_lbs g0;
  sf_router : router_ gw = router_ g0;
  sf_retry : retryPolicy_ gw = retryPolicy_ g0
}.

(** The backends of a route. *)
Definition group (gw : Gateway) (route : Route) : list bptr := from_option backends_ [] (gw_lbs gw !! lb route).

Lemma group_face g0 gw route : same_face g0 gw → group gw route = group g0 route.
Proof.
  intros [_ _ E _ _]. apply (f_equal (λ l, l !! lb route)) in E. rewrite !list_lookup_fmap in E. unfold group.
  destruct (gw_lbs gw !! lb route), (gw_lbs g0 !! lb route); try done. by injection E as E _.
Qed.

Section provenance.
Context (iterate : gmap bytes bytes → header_list) (g0 : Gateway).

(** [r] is what a backend of [route] answered to [req], with the answers of
    the network in one of [envs]. *)
Definition from_backend (route : Route) (req : HttpRequest) (envs : list attempt_env) (r : HttpResponse) : Prop :=
  ∃ env i h p reusable, env ∈ envs ∧ i ∈ group g0 route ∧ addrs (gw_backends g0) !! i = Some (h, p) ∧
    sendAndReceive (buildBackendRequest iterate req h) (maxResponseBodyBytes g0) (at_sends env) (at_recvs env) =
      Returned (Some (r, reusable)).

(** [r] is one of the gateway's own answers when no backend gave one. *)
Definition gateway_made (r : HttpResponse) : Prop :=
  r = make 503 (str "Service Unavailable") (str "no healthy backends") ∨
  r = make 502 (str "Bad Gateway") (str "backend request failed") ∨
  r = make 503 (str "Service Unavailable") (str "all retries exhausted").

Section phases.
Context (route : Route) (req : HttpRequest) (envs : list attempt_env).

Definition phase_from (p : phase) : Prop :=
  match p with
  | Head | Ticket _ | Refused | Waiting => True
  | Probe i _ | Chosen i => from_option (λ i, i ∈ group g0 route) True i
  | Scan best rest => from_option (λ i, i ∈ group g0 route) True best.1 ∧ rest ⊆ group g0 route
  | Weigh best i rest => from_option (λ i, i ∈ group g0 route) True best.1 ∧ i ∈ group g0 route ∧ rest ⊆ group g0 route
  | Allowed i | Counted i | Dialling i | Borrowed i _ | Failed i _ | Failing i => i ∈ group g0 route
  | Exchanged i _ r => i ∈ group g0 route ∧ ∀ resp reusable, r = Some (resp, reusable) → from_backend route req envs resp
  | Succeeded i _ resp _ | Returning i _ resp _ => i ∈ group g0 route ∧ from_backend route req envs resp
  | Done resp => from_backend route req envs resp ∨ gateway_made resp
  end.

Lemma enter_pick_from gw : same_face g0 gw → phase_from (enter_pick route gw).
Proof.
  intros Hf. pose proof (group_face g0 gw route Hf) as E. unfold group at 1 in E. unfold enter_pick.
  destruct (gw_lbs gw !! lb route) as [l|]; [|done]. cbn in E. destruct (decide _); [done|].
  destruct (strategy_ l); cbn; [done|]. by rewrite E.
Qed.

Lemma take_ticket_from gw i gw' k : same_face g0 gw → take_ticket route gw = (i, gw') → phase_from (Probe i k).
Proof.
  intros Hf. pose proof (group_face g0 gw route Hf) as E. unfold group at 1 in E. unfold take_ticket.
  destruct (gw_lbs gw !! lb route) as [l|]; [|intros [= <- _]; done]. cbn in E. unfold fetch_add. intros [= <- _].
  unfold at_ticket. destruct (backends_ l !! _) as [b|] eqn:Hb; [|done]. cbn. rewrite <- E. by eapply list_elem_of_lookup_2.
Qed.

Lemma phase_tick_from env is_last p gw p' gw' :
  same_face g0 gw → env ∈ envs → phase_from p →
  phase_tick iterate env route req is_last p gw = Some (p', gw') → phase_from p'.
Proof.
  intros Hf He. destruct p as [|[|k]|[i|] k|best [|i rest]|best i rest|[i|]| |i|i|i|i fd|i fd r|i fd resp reus|i fd resp reus|i fd|i| | ];
    cbn -[sendAndReceive release dialNew ask_breaker take_ticket take_idle phase_from]; intros Hp; try done.
  - by intros [= <- _].
  - destruct (take_ticket route gw) as [i gw1] eqn:Ht. intros [= <- _]. by eapply take_ticket_from.
  - intros [= <- _]. by case_if.
  - by intros [= <- _].
  - intros [= <- _]. by destruct Hp.
  - intros [= <- _]. destruct Hp as [Hb Hr]. assert (i ∈ group g0 route ∧ rest ⊆ group g0 route) as [Hi Hr'] by set_solver.
    by case_if.
  - intros [= <- _]. destruct Hp as (Hb & Hi & Hr). by case_if.
  - destruct (gw_backends gw !! i); [|done]. cbn -[ask_breaker]. destruct (ask_breaker _ _ _) as [[] gw1]; by intros [= <- _].
  - intros [= <- _]. right. by left.
  - by intros [= <- _].
  - destruct (gw_backends gw !! i); [|done]. cbn -[take_idle]. destruct (take_idle _ _) as [[]|]; by intros [= <- _].
  - destruct (gw_backends gw !! i); [|done]. cbn -[dialNew]. destruct (dialNew _ _ _ _). by intros [= <- _].
  - destruct (gw_backends gw !! i) as [b|] eqn:Hb; [|done]. cbn -[sendAndReceive].
    destruct (if (0 <=? fd)%Z then _ else _) as [|r] eqn:Hx; [done|]. intros [= <- _]. split; [done|].
    intros resp reus ->. destruct (0 <=? fd)%Z; [|done]. exists env, i, (host b), (port b), reus.
    split_and!; [done|done| |by rewrite <- (sf_max _ _ Hf)]. rewrite <- (sf_addrs _ _ Hf). unfold addrs. by rewrite list_lookup_fmap, Hb.
  - intros [= <- _]. destruct Hp as [Hi Hr]. destruct r as [[resp reus]|]; [|done]. split; [done|]. by eapply Hr.
  - by intros [= <- _].
  - destruct (gw_backends gw !! i); [|done]. cbn -[release]. intros [= <- _]. destruct Hp. unfold after_reply.
    repeat case_if; cbn; auto.
  - by intros [= <- _].
  - intros [= <- _]. destruct is_last; [|done]. right. right. by left.
Qed.
End phases.

(** A forwarding thread for [req] that entered with [envs]. *)
Record fwd_from (req : HttpRequest) (envs : list attempt_env) (f : fwd_thread) : Prop := {
  ff_req : ft_req f = req;
  ff_envs : ft_envs f `suffix_of` envs;
  ff_phase : phase_from (ft_route f) req envs (ft_phase f)
}.

Lemma fwd_tick_from req envs f gw f' gw' :
  same_face g0 gw → fwd_from req envs f → fwd_tick iterate f gw = Some (f', gw') →
  fwd_from req envs f' ∧ ft_route f' = ft_route f.
Proof.
  intros Hg [Hq He Hp]. destruct f as [route rq n es p]. cbn [ft_req ft_envs ft_route ft_phase ft_left] in *. subst rq.
  assert (∀ g, Some (continue (mkFwd route req n es p), g) = Some (f', gw') → fwd_from req envs f' ∧ ft_route f' = route) as Hc.
  { intros g [= <- _]. split; [|done]. split; [done| |done]. cbn. destruct es as [|x es]; [done|].
    etransitivity; [|exact He]. by apply suffix_cons_r. }
  assert (match es with [] => None | env :: _ =>
      '(p', gw') ← phase_tick iterate env route req (bool_decide (n = 0)) p gw; Some (goto (mkFwd route req n es p) p', gw') end =
      Some (f', gw') → fwd_from req envs f' ∧ ft_route f' = route) as Hin.
  { intros H. destruct es as [|env es]; [done|]. destruct (phase_tick _ _ _ _ _ _ _) as [[p1 g1]|] eqn:Ht; [|done].
    injection H as <- _. split; [|done]. split; [done|done|]. eapply phase_tick_from; [done| |exact Hp|exact Ht].
    destruct He as [l ->]. set_solver. }
  unfold fwd_tick. cbn [ft_phase ft_left ft_envs ft_route ft_req]. destruct p; try exact (Hc _); try exact Hin.
  destruct n as [|n].
  - intros [= <- _]. split; [|done]. split; [done|done|]. right. right. by right.
  - destruct es; [done|]. intros [= <- _]. split; [|done]. split; [done|done|]. by apply enter_pick_from.
Qed.

(** ** The gateway's face through a step *)

Lemma face_backend i f gw :
  (∀ b, host (f b) = host b ∧ port (f b) = port b) → same_face g0 gw → same_face g0 (on_backend i f gw).
Proof. intros Hf [H1 H2 H3 H4 H5]. split; try done. cbn. by rewrite addrs_alter. Qed.

Lemma phase_tick_face env route req is_last p gw p' gw' :
  same_face g0 gw → phase_tick iterate env route req is_last p gw = Some (p', gw') → same_face g0 gw'.
Proof.
  intros Hf Ht. pose proof (phase_tick_fixed iterate _ _ _ _ _ _ _ _ Ht) as [= Hl Hr].
  destruct Hf as [H1 H2 H3 H4 H5].
  cut (maxResponseBodyBytes gw' = maxResponseBodyBytes gw ∧ addrs (gw_backends gw') = addrs (gw_backends gw) ∧ router_ gw' = router_ gw).
  { intros (E1 & E2 & E3). split; congruence. }
  clear H1 H2 H3 H4 H5 Hl Hr. revert Ht.
  destruct p as [|[|k]|[i|] k|best [|i rest]|best i rest|[i|]| |i|i|i|i fd|i fd r|i fd resp reus|i fd resp reus|i fd|i| | ];
    cbn -[sendAndReceive release dialNew ask_breaker take_ticket take_idle]; try done; try by intros [= _ <-].
  - unfold take_ticket. destruct (gw_lbs gw !! lb route); [destruct (fetch_add _)|]; by intros [= _ <-].
  - destruct (gw_backends gw !! i) as [b|] eqn:Hb; [|done]. cbn. unfold ask_breaker. rewrite Hb.
    destruct (allowRequest _ _). intros [= _ <-]. cbn. by rewrite addrs_alter.
  - intros [= _ <-]. cbn. by rewrite addrs_alter.
  - destruct (gw_backends gw !! i); [|done]. cbn -[take_idle]. destruct (take_idle _ _) as [[]|]; by intros [= _ <-].
  - destruct (gw_backends gw !! i); [|done]. cbn -[dialNew]. destruct (dialNew _ _ _ _). by intros [= _ <-].
  - destruct (gw_backends gw !! i); [|done]. cbn -[sendAndReceive]. destruct (if (0 <=? fd)%Z then _ else _); [done|]. by intros [= _ <-].
  - intros [= _ <-]. cbn. by rewrite addrs_alter.
  - intros [= _ <-]. cbn. by rewrite addrs_alter.
  - destruct (gw_backends gw !! i); [|done]. cbn -[release]. intros [= _ <-]. destruct reus; [by destruct (release _ _ _ _ _)|done].
  - intros [= _ <-]. by case_if.
  - intros [= _ <-]. cbn. by rewrite addrs_alter.
Qed.

Lemma fwd_tick_face f gw f' gw' : same_face g0 gw → fwd_tick iterate f gw = Some (f', gw') → same_face g0 gw'.
Proof.
  intros Hf. unfold fwd_tick. destruct (ft_phase f) eqn:Hp.
  1: { destruct (ft_left f); [by intros [= _ <-]|]. destruct (ft_envs f); [done|]. by intros [= _ <-]. }
  all: try by intros [= _ <-]; destruct Hf; split.
  all: destruct (ft_envs f) as [|env es]; [done|]; destruct (phase_tick _ _ _ _ _ _ _) as [[p1 g1]|] eqn:Ht; [|done];
    intros [= _ <-]; by eapply phase_tick_face.
Qed.

(** [forwardWithResilience] leaves the cache and the limiter alone. *)
Lemma phase_tick_cache env route req is_last p gw p' gw' :
  phase_tick iterate env route req is_last p gw = Some (p', gw') → cache_ gw' = cache_ gw ∧ rateLimiter_ gw' = rateLimiter_ gw.
Proof.
  destruct p as [|[|k]|[i|] k|best [|i rest]|best i rest|[i|]| |i|i|i|i fd|i fd r|i fd resp reus|i fd resp reus|i fd|i| | ];
    cbn -[sendAndReceive release dialNew ask_breaker take_ticket take_idle]; try done; try by intros [= _ <-].
  - unfold take_ticket. destruct (gw_lbs gw !! lb route); [destruct (fetch_add _)|]; by intros [= _ <-].
  - destruct (gw_backends gw !! i) as [b|] eqn:Hb; [|done]. cbn. unfold ask_breaker. rewrite Hb.
    destruct (allowRequest _ _). by intros [= _ <-].
  - destruct (gw_backends gw !! i); [|done]. cbn -[take_idle]. destruct (take_idle _ _) as [[]|]; by intros [= _ <-].
  - destruct (gw_backends gw !! i); [|done]. cbn -[dialNew]. destruct (dialNew _ _ _ _). by intros [= _ <-].
  - destruct (gw_backends gw !! i); [|done]. cbn -[sendAndReceive]. destruct (if (0 <=? fd)%Z then _ else _); [done|]. by intros [= _ <-].
  - destruct (gw_backends gw !! i); [|done]. cbn -[release]. intros [= _ <-]. destruct reus; [by destruct (release _ _ _ _ _)|done].
  - intros [= _ <-]. by case_if.
Qed.

Lemma fwd_tick_cache f gw f' gw' :
  fwd_tick iterate f gw = Some (f', gw') → cache_ gw' = cache_ gw ∧ rateLimiter_ gw' = rateLimiter_ gw.
Proof.
  unfold fwd_tick. destruct (ft_phase f) eqn:Hp.
  1: { destruct (ft_left f); [by intros [= _ <-]|]. destruct (ft_envs f); [done|]. by intros [= _ <-]. }
  all: try by intros [= _ <-].
  all: destruct (ft_envs f) as [|env es]; [done|]; destruct (phase_tick _ _ _ _ _ _ _) as [[p1 g1]|] eqn:Ht; [|done];
    intros [= _ <-]; by eapply phase_tick_cache.
Qed.
End provenance.

(** ** What a response is *)

(** Lines 178-181: the reply of forwarding as it is sent. *)
Definition tagged (c : bool) (req : HttpRequest) (r : HttpResponse) : HttpResponse :=
  let r := setHeader (str "X-Request-Id") (rq_requestId req) r in
  if c && (rs_statusCode r =? 200)%Z then setHeader (str "X-Cache") (str "MISS") r else r.

Section integrity.
Context (rnd : Q → Q) (print_double : Q → bytes) (iterate : gmap bytes bytes → header_list) (g0 : Gateway).

(** The thread has forwarded its request and got [r]. *)
Definition got (t : serve_thread) (r : HttpResponse) : Prop := ∃ f, sv_fwd t = Some f ∧ ft_phase f = Done r.

(** The thread's route and request, and what its forwarding got. *)
Definition obtained (t : serve_thread) (c : bool) (r : HttpResponse) : Prop :=
  got t r ∧ ∃ route, match_route (rq_path (sv_req t)) (router_ g0) = Some route ∧ c = cacheable_request route (sv_req t) ∧
    (from_backend iterate g0 route (sv_req t) (rv_attempts (sv_env t)) r ∨ gateway_made r).

(** The thread obtained, for this key, the response of which [e] is a copy. *)
Definition stored (key : bytes) (e : CachedResponse) (t : serve_thread) : Prop :=
  cacheKey (sv_req t) = key ∧ ∃ r, obtained t true r ∧ rs_statusCode r = 200%Z ∧ e = cached_form (tagged true (sv_req t) r).

Definition in_store (ts : list serve_thread) (key : bytes) (e : CachedResponse) : Prop := Exists (stored key e) ts.

(** Why [resp] answers the request of [t]. *)
Definition explained (ts : list serve_thread) (t : serve_thread) (k : kind) (resp : HttpResponse) : Prop :=
  let req := sv_req t in
  match k with
  | KPage => rq_path req = str "/metrics" ∧
      resp = metrics_response rnd print_double (sv_env t) (on_metrics (λ _, sv_seen t) g0)
  | KHealth => rq_path req = str "/gateway/health" ∧ resp = health_response
  | KLimited => resp = make 429 (str "Too Many Requests") (str "rate limit exceeded")
  | KNoRoute => match_route (rq_path req) (router_ g0) = None ∧ resp = make 404 (str "Not Found") (str "no matching route")
  | KHit e => in_store ts (cacheKey req) e ∧ resp = hit_response e req
  | KForward c => ∃ r, obtained t c r ∧ resp = tagged c req r
  end.

Definition phase_explained (ts : list serve_thread) (t : serve_thread) : Prop :=
  match sv_phase t with
  | Arrived | Limiting | Limited => True
  | Page => rq_path (sv_req t) = str "/metrics"
  | Unrouted => match_route (rq_path (sv_req t)) (router_ g0) = None
  | Looking route | Missed route =>
      match_route (rq_path (sv_req t)) (router_ g0) = Some route ∧ cacheable_request route (sv_req t) = true
  | Hit e => in_store ts (cacheKey (sv_req t)) e
  | Forwarding c => ∃ f, sv_fwd t = Some f ∧ match_route (rq_path (sv_req t)) (router_ g0) = Some (ft_route f) ∧
      c = cacheable_request (ft_route f) (sv_req t) ∧
      fwd_from iterate g0 (sv_req t) (rv_attempts (sv_env t)) f
  | Storing resp => ∃ r, obtained t true r ∧ rs_statusCode r = 200%Z ∧ resp = tagged true (sv_req t) r
  | Erring c resp => explained ts t (KForward c) resp
  | Bucketing k resp | Totalling k resp | Queueing k resp | Served k resp => explained ts t k resp
  end.

Record integrity (s : serving) : Prop := {
  in_face : same_face g0 (sg_gw s);
  in_entered t : t ∈ sg_threads s → unentered t;
  in_cache_ok : cache_ok (cache_ (sg_gw s));
  in_cache : cache_all (λ e, in_store (sg_threads s) (e_key e) (e_value e)) (cache_ (sg_gw s));
  in_threads t : t ∈ sg_threads s → phase_explained (sg_threads s) t
}.

(** A thread keeps what it got. *)
Lemma tick_keeps_got t gw t' gw' r :
  unentered t → serve_tick rnd print_double iterate t gw = Some (t', gw') → got t r → got t' r.
Proof.
  intros Hu Ht (f & Hf & Hd). exists f. split; [|done].
  destruct (serve_tick_effect rnd print_double iterate t gw t' gw' Hu Ht) as [a E _ _|a route E _ _ _|f1 f' E _ Hx]; [congruence|congruence|].
  rewrite Hf in E. injection E as <-. by rewrite (fwd_done_stuck iterate f gw r Hd) in Hx.
Qed.

Lemma tick_keeps_stored key e t gw t' gw' :
  unentered t → serve_tick rnd print_double iterate t gw = Some (t', gw') → stored key e t → stored key e t'.
Proof.
  intros Hu Ht (Hk & r & (Hg & Hro) & Hs). destruct (serve_tick_static _ _ _ _ _ _ _ Ht) as (_ & Eq & Ee & _).
  split; [by rewrite Eq|]. exists r. rewrite Eq. split; [|done]. split; [by eapply tick_keeps_got|]. by rewrite Eq, Ee.
Qed.

Lemma insert_keeps_store ts k t gw t' gw' key e :
  ts !! k = Some t → unentered t → serve_tick rnd print_double iterate t gw = Some (t', gw') →
  in_store ts key e → in_store (<[k := t']> ts) key e.
Proof.
  unfold in_store. rewrite !Exists_exists. intros Hk Hu Ht (t0 & [j Hj]%list_elem_of_lookup & Hs).
  destruct (decide (j = k)) as [->|Hne].
  - exists t'. split; [by eapply list_elem_of_lookup_2, insert_hit|]. eapply tick_keeps_stored; [exact Hu|exact Ht|congruence].
  - exists t0. split; [|done]. eapply (list_elem_of_lookup_2 _ j). by rewrite list_lookup_insert_ne.
Qed.

Lemma explained_mono ts ts' t k resp :
  (∀ key e, in_store ts key e → in_store ts' key e) → explained ts t k resp → explained ts' t k resp.
Proof. intros H. unfold explained. destruct k; try done. intros [? ?]. auto. Qed.

Lemma phase_explained_mono ts ts' t :
  (∀ key e, in_store ts key e → in_store ts' key e) → phase_explained ts t → phase_explained ts' t.
Proof.
  intros H. unfold phase_explained. destruct (sv_phase t); try done; auto; by apply explained_mono.
Qed.

Lemma tagged_status c req r : rs_statusCode (tagged c req r) = rs_statusCode r.
Proof. unfold tagged. by case_if. Qed.

(** The end of forwarding. *)
Lemma after_forward_explained ts t c r :
  obtained t c r → sv_phase t = after_forward c (sv_req t) r → phase_explained ts t.
Proof.
  intros Ho Hp. unfold phase_explained. rewrite Hp. unfold after_forward, count_errors.
  destruct (c && _) eqn:Ec.
  - assert (c = true) as -> by (by destruct c). exists r. split_and!; [done| |].
    + cbn in Ec. apply Z.eqb_eq in Ec. exact Ec.
    + unfold tagged. by rewrite Ec.
  - case_if; exists r; (split; [done|]); unfold tagged; by rewrite Ec.
Qed.

(** One tick of a thread, from its phase to the next. *)
Lemma serve_tick_explained ts t gw t' gw' :
  same_face g0 gw → unentered t → cache_ok (cache_ gw) → cache_all (λ e, in_store ts (e_key e) (e_value e)) (cache_ gw) →
  phase_explained ts t → serve_tick rnd print_double iterate t gw = Some (t', gw') → phase_explained ts t'.
Proof.
  intros Hf Hu Hok Hc Hp Ht. unfold serve_tick in Ht. unfold phase_explained in Hp. destruct (sv_phase t) eqn:Eph.
  - injection Ht as <- _. unfold phase_explained. cbn. repeat case_decide; done.
  - injection Ht as <- _. by split.
  - destruct (allow _ _ _ _ _) as [[] rl]; cbn [negb] in Ht; [|by injection Ht as <- _].
    change (router_ (set_limiter rl gw)) with (router_ gw) in Ht. rewrite (sf_router _ _ Hf) in Ht.
    destruct (match_route _ _) as [route|] eqn:Er; [|by injection Ht as <- _].
    destruct (cacheable_request _ _) eqn:Ec; injection Ht as <- _; [by split|].
    eexists. split; [reflexivity|]. split_and!; [done|done|]. by split.
  - by injection Ht as <- _.
  - injection Ht as <- _. by split.
  - destruct (cache_get _ _ _) as [cached cache] eqn:Eg. injection Ht as <- _. destruct cached as [e|]; [|done]. unfold phase_explained. cbn.
    destruct (cache_get_all _ (rv_get (sv_env t)) (cacheKey (sv_req t)) _ Hok Hc) as [_ Hq]. rewrite Eg in Hq.
    by destruct (Hq e eq_refl) as (e0 & He & <- & <-).
  - injection Ht as <- _. by split.
  - injection Ht as <- _. destruct Hp as [Hr Hca]. eexists. split; [reflexivity|]. split_and!; [done|done|]. by split.
  - destruct Hp as (f & Hfw & Hro & -> & Hff). rewrite Hfw in Ht. cbn in Ht. destruct (fwd_tick _ _ _) as [[f' g]|] eqn:Htk; [|done].
    cbn in Ht. injection Ht as <- _. destruct (fwd_tick_from iterate g0 _ _ _ _ _ _ Hf Hff Htk) as [Hff' Er].
    destruct (ft_phase f') eqn:Ed.
    all: try (eexists; split; [reflexivity|]; rewrite Er; by split_and!).
    apply (after_forward_explained _ _ (cacheable_request (ft_route f) (sv_req t)) resp); [|done].
    split; [by exists f'|]. exists (ft_route f). cbn. split_and!; [done|done|]. destruct Hff' as [_ _ Hph]. rewrite Ed, Er in Hph. exact Hph.
  - injection Ht as <- _. destruct Hp as (r & Ho & Hs & ->). unfold phase_explained, count_errors. cbn.
    rewrite tagged_status, Hs. cbn. by exists r.
  - injection Ht as <- _. exact Hp.
  - injection Ht as <- _. exact Hp.
  - injection Ht as <- _. exact Hp.
  - injection Ht as <- _. exact Hp.
  - done.
Qed.
Lemma serve_tick_face t gw t' gw' :
  same_face g0 gw → serve_tick rnd print_double iterate t gw = Some (t', gw') → same_face g0 gw'.
Proof.
  intros Hf. pose proof Hf as [H1 H2 H3 H4 H5]. unfold serve_tick. destruct (sv_phase t); try by intros [= _ <-].
  - destruct (allow _ _ _ _ _). by intros [= _ <-].
  - destruct (cache_get _ _ _). by intros [= _ <-].
  - destruct (sv_fwd t) as [f|]; [|done]. cbn. destruct (fwd_tick _ _ _) as [[f' g]|] eqn:Ht; [|done]. cbn. intros [= _ <-].
    by eapply fwd_tick_face.
Qed.

(** The cache holds what threads have stored, [P] being that and staying so. *)
Lemma serve_tick_cache (P : Entry CachedResponse → Prop) t gw t' gw' :
  cache_ok (cache_ gw) → cache_all P (cache_ gw) → serve_tick rnd print_double iterate t gw = Some (t', gw') →
  (∀ resp now, sv_phase t = Storing resp → P (mkEntry (cacheKey (sv_req t)) (cached_form resp) now)) →
  cache_ok (cache_ gw') ∧ cache_all P (cache_ gw').
Proof.
  intros Hok Hall Ht Hs. unfold serve_tick in Ht. destruct (sv_phase t) eqn:Hp; try by injection Ht as _ <-.
  - destruct (allow _ _ _ _ _). by injection Ht as _ <-.
  - destruct (cache_get _ _ _) as [cached cache] eqn:Eg. injection Ht as _ <-. cbn.
    pose proof (cache_get_refines (rv_get (sv_env t)) (cacheKey (sv_req t)) _ Hok) as [Hok' _].
    pose proof (cache_get_all P (rv_get (sv_env t)) (cacheKey (sv_req t)) _ Hok Hall) as [Hall' _]. by rewrite Eg in Hok', Hall'.
  - destruct (sv_fwd t) as [f|]; [|done]. cbn in Ht. destruct (fwd_tick _ _ _) as [[f' g]|] eqn:Htk; [|done]. cbn in Ht.
    injection Ht as _ <-. destruct (fwd_tick_cache iterate _ _ _ _ Htk) as [-> _]. done.
  - injection Ht as _ <-. cbn. split; [by apply cache_put_refines|]. apply cache_put_all; [done|done|]. by apply Hs.
  - done.
Qed.

Lemma tick_integrity ts k t gw t' gw' :
  integrity (mkServing gw ts) → ts !! k = Some t → serve_tick rnd print_double iterate t gw = Some (t', gw') →
  integrity (mkServing gw' (<[k := t']> ts)).
Proof.
  intros [Hf Hu Hok Hc Ht0] Hk Ht. cbn [sg_gw sg_threads] in *. pose proof (list_elem_of_lookup_2 _ _ _ Hk) as Hin.
  assert (∀ key e, in_store ts key e → in_store (<[k := t']> ts) key e) as Hmono
    by (intros key e; by eapply insert_keeps_store; [|apply Hu|]).
  pose proof (serve_tick_explained ts t gw t' gw' Hf (Hu t Hin) Hok Hc (Ht0 t Hin) Ht) as Hex.
  assert (cache_all (λ e, in_store (<[k := t']> ts) (e_key e) (e_value e)) (cache_ gw)) as Hc'.
  { unfold cache_all in *. eapply Forall_impl; [exact Hc|]. intros e. apply Hmono. }
  destruct (serve_tick_cache _ t gw t' gw' Hok Hc' Ht) as [Hok' Hall].
  { intros resp now Hp. cbn [e_key e_value]. pose proof (Ht0 t Hin) as Hs. unfold phase_explained in Hs. rewrite Hp in Hs.
    destruct Hs as (r & Ho & Hst & ->). apply Hmono, Exists_exists. exists t. split; [done|]. split; [done|]. by exists r. }
  split; cbn [sg_gw sg_threads]; [by eapply serve_tick_face| |done|exact Hall|].
  - intros t1 [j Hj]%list_elem_of_lookup. apply insert_cases in Hj as [[_ ->]|[_ Hj]]; [|by eapply Hu, list_elem_of_lookup_2].
    destruct (serve_tick_static _ _ _ _ _ _ _ Ht) as (_ & _ & _ & H). by apply H, Hu.
  - intros t1 [j Hj]%list_elem_of_lookup. apply (phase_explained_mono ts); [done|].
    apply insert_cases in Hj as [[_ ->]|[_ Hj]]; [done|]. by eapply Ht0, list_elem_of_lookup_2.
Qed.

(** An action that leaves the threads and the cache alone. *)
Lemma quiet_integrity ts gw gw' :
  integrity (mkServing gw ts) → same_face g0 gw' → cache_ gw' = cache_ gw → integrity (mkServing gw' ts).
Proof. intros [Hf Hu Hok Hc Ht] Hf' E. split; cbn in *; rewrite ?E; done. Qed.

Lemma act_integrity s a : integrity s → integrity (serve_act rnd print_double iterate s a).
Proof.
  intros Hi. destruct s as [gw ts], a as [k|ip req env seen|i ok| | |]; cbn [serve_act sg_gw sg_threads].
  - destruct (ts !! k) as [t|] eqn:Hk; [|done]. destruct (serve_tick _ _ _ _ _) as [[t' gw']|] eqn:Ht; [|done].
    by eapply tick_integrity.
  - cbn [next_id]. pose proof Hi as [Hf Hu Hok Hc Ht]. cbn [sg_gw sg_threads] in *. set (t1 := mkServe _ _ _ _ _ _).
    assert (∀ key e, in_store ts key e → in_store (ts ++ [t1]) key e) as Hmono by (intros key e H; apply Exists_app; by left).
    split; cbn [sg_gw sg_threads]; [by destruct Hf; split| |done| |].
    + intros t [H|H%list_elem_of_singleton]%elem_of_app; [by apply Hu|by subst].
    + eapply Forall_impl; [exact Hc|]. intros e. apply Hmono.
    + intros t [H|H%list_elem_of_singleton]%elem_of_app; [|by subst]. apply (phase_explained_mono ts); [done|by apply Ht].
  - eapply quiet_integrity; [exact Hi| |done]. by apply face_backend; [|apply Hi].
  - eapply quiet_integrity; [exact Hi| |done]. by destruct (in_face _ Hi).
  - eapply quiet_integrity; [exact Hi| |done]. by destruct (in_face _ Hi).
  - eapply quiet_integrity; [exact Hi| |done]. by destruct (in_face _ Hi).
Qed.

Lemma run_integrity schedule s : integrity s → integrity (run_serve rnd print_double iterate schedule s).
Proof. revert s. induction schedule as [|a l IH]; intros s Hi; [done|]. cbn. by apply IH, act_integrity. Qed.
End integrity.

Lemma start_integrity rnd print_double iterate gw :
  cache_ok (cache_ gw) → abs (cache_ gw) = [] → integrity rnd print_double iterate gw (mkServing gw []).
Proof.
  intros Hok Ha. split; cbn; [by split|intros t Ht; by apply elem_of_nil in Ht|done| |intros t Ht; by apply elem_of_nil in Ht].
  unfold cache_all. by rewrite Ha.
Qed.

(** ** Theorems *)

(** C4: every response has a reason, whatever the workers do at once.  From a
    gateway whose cache is empty, in every state of every schedule: a
    response that has been queued for a client is the metrics page or the
    health page for their paths, a refusal by the limiter, the answer that no
    route matches, the tagged reply that a backend of the matched route gave
    to this very request (or the gateway's 502 or 503), or, for a cacheable
    request, the copy of a 200 reply that a request with the same cache key
    got from a backend of its route; and everything in the cache is such a
    copy, under its own key. *)
Theorem served_explained rnd print_double iterate schedule gw :
  cache_ok (cache_ gw) → abs (cache_ gw) = [] →
  let s := run_serve rnd print_double iterate schedule (mkServing gw []) in
  (∀ t k resp, t ∈ sg_threads s → sv_phase t = Served k resp →
     explained rnd print_double iterate gw (sg_threads s) t k resp) ∧
  (∀ now key e, (cache_get now key (cache_ (sg_gw s))).1 = Some e → in_store iterate gw (sg_threads s) key e).
Proof.
  intros Hok Ha s. pose proof (start_integrity rnd print_double iterate gw Hok Ha) as H0.
  apply (run_integrity _ _ _ _ schedule) in H0 as [_ _ Hok' Hc Ht]. fold s in Hok', Hc, Ht. split.
  - intros t k resp Hin Hp. specialize (Ht t Hin). unfold phase_explained in Ht. by rewrite Hp in Ht.
  - intros now key e Hg. destruct (cache_get_all _ now key _ Hok' Hc) as [_ Hq].
    by destruct (Hq e Hg) as (e0 & He & <- & <-).
Qed.

(** In the demonstration the second client finds what the first has stored. *)
Definition late_demo : list serve_action := serve_demo ++ concat (replicate 9 [Serve 0; Serve 1]) ++
  [Begin (str "10.1.1.3") demo_get demo_env2 newMetrics] ++ replicate 8 (Serve 2).

Definition late_state : serving := run_serve rnd64 demo_print_double map_to_list late_demo (mkServing demo_closed []).

Lemma served_explained_witness :
  (λ t, match sv_phase t with Served (KHit _) _ => true | _ => false end) <$> sg_threads late_state !! 2 = Some true ∧
  ∀ t k resp, t ∈ sg_threads late_state → sv_phase t = Served k resp →
    explained rnd64 demo_print_double map_to_list demo_closed (sg_threads late_state) t k resp.
Proof.
  split; [vm_compute; reflexivity|].
  refine (proj1 (served_explained rnd64 demo_print_double map_to_list late_demo demo_closed _ _)).
  - apply new_cache_ok. lia.
  - reflexivity.
Defined.
