(* ===== verification/ServeMetrics.v ===== *)
(** * What the shared counters and the limiter say while workers serve
      (src/core/Gateway.cpp, handleRequest; Metrics.hpp; RateLimiter.hpp)

    Under every interleaving of ServeConcurrent, each counter of the registry
    is the number of requests, or of events of the run, that have passed the
    increment, modulo its 64 bits; and the limiter lets no client through more
    often than its rate allows, over all workers together and up to a stated
    rounding error. *)
From Stdlib Require Import QArith.
From S2P Require Import Prelude CxxString Rounding HttpMessage HttpParser LRUCache CircuitBreaker RateLimiter RateLimiterOrder RetryPolicy LoadBalancer Router ConnectionPool HealthChecker Metrics Observability BackendIO Forward ForwardConcurrent Worker WorkerPipeline WorkerMetrics ServeConcurrent ServeIntegrity.
Local Open Scope nat_scope.

(** ** Which requests a counter counts *)

(** The kind of answer, once there is one. *)
Definition answer (p : vphase) : option (kind * HttpResponse) :=
  match p with
  | Bucketing k resp | Totalling k resp | Queueing k resp | Served k resp => Some (k, resp)
  | _ => None
  end.

Definition is_kind (f : kind → HttpResponse → bool) (t : serve_thread) : bool :=
  from_option (λ p, f p.1 p.2) false (answer (sv_phase t)).

Definition arrived (t : serve_thread) : bool := match sv_phase t with Arrived => false | _ => true end.
Definition limited (t : serve_thread) : bool := is_kind (λ k _, match k with KLimited => true | _ => false end) t.
Definition hit (t : serve_thread) : bool := is_kind (λ k _, match k with KHit _ => true | _ => false end) t.
Definition missed (t : serve_thread) : bool :=
  match sv_phase t with
  | Forwarding c | Erring c _ => c
  | Storing _ => true
  | _ => is_kind (λ k _, match k with KForward c => c | _ => false end) t
  end.
Definition erred (t : serve_thread) : bool :=
  is_kind (λ k resp, match k with KNoRoute => true | KForward _ => (500 <=? rs_statusCode resp)%Z | _ => false end) t.
Definition bucketed (t : serve_thread) : bool :=
  match sv_phase t with Totalling _ _ | Queueing _ _ | Served _ _ => true | _ => false end.
Definition totalled (t : serve_thread) : bool := match sv_phase t with Queueing _ _ | Served _ _ => true | _ => false end.
Definition in_class (j : nat) (t : serve_thread) : bool :=
  match sv_phase t with
  | Served _ resp => (100 <=? rs_statusCode resp)%Z && (rs_statusCode resp <? 600)%Z && bool_decide (Z.to_nat (rs_statusCode resp `quot` 100) = j)
  | _ => false
  end.

(** A counter, the requests it counts, and whether malformed requests count
    too. *)
Definition ledger : list ((Metrics → Z) * (serve_thread → bool) * bool) :=
  [(requests_, arrived, false); (rateLimited_, limited, false); (cacheHits_, hit, false); (cacheMisses_, missed, false);
   (errors_, erred, false); (λ m, u64 (sum_counts (counts_ (latency_ m))), bucketed, false);
   (λ m, total_ (latency_ m), totalled, false)] ++
  ((λ j, (λ m, nth j (responsesByClass_ m) 0%Z, in_class j, bool_decide (j = 4))) <$> seq 1 5).

(** The arrays have their lengths. *)
Definition shape (m : Metrics) : Prop :=
  length (responsesByClass_ m) = 6 ∧ 0 < length (counts_ (latency_ m)).

(** From [m] to [m'] while [t] goes to [t']: one more is counted, or nothing
    has changed. *)
Definition moves (get : Metrics → Z) (w : serve_thread → bool) (m m' : Metrics) (t t' : serve_thread) : Prop :=
  (get m' = get m ∧ w t' = w t) ∨ (get m' = u64 (get m + 1) ∧ w t = false ∧ w t' = true).

Lemma fwd_tick_metrics iterate f gw f' gw' :
  fwd_tick iterate f gw = Some (f', gw') →
  metrics gw' = match ft_phase f with
                | Waiting => incRetries (metrics gw)
                | Refused => incCircuitOpen (metrics gw)
                | _ => metrics gw
                end.
Proof.
  assert (∀ env route req is_last p gw p' gw', phase_tick iterate env route req is_last p gw = Some (p', gw') →
    metrics gw' = metrics gw) as Hph.
  { clear. intros env route req is_last p gw p' gw'.
    destruct p as [|[|k]|[i|] k|best [|i rest]|best i rest|[i|]| |i|i|i|i fd|i fd r|i fd resp reus|i fd resp reus|i fd|i| | ];
      cbn -[sendAndReceive release dialNew ask_breaker take_ticket take_idle]; try done; try by intros [= _ <-].
    - unfold take_ticket. destruct (gw_lbs gw !! lb route); [destruct (fetch_add _)|]; by intros [= _ <-].
    - destruct (gw_backends gw !! i) as [b|] eqn:Hb; [|done]. cbn. unfold ask_breaker. rewrite Hb.
      destruct (allowRequest _ _). by intros [= _ <-].
    - destruct (gw_backends gw !! i); [|done]. cbn -[take_idle]. destruct (take_idle _ _) as [[]|]; by intros [= _ <-].
    - destruct (gw_backends gw !! i); [|done]. cbn -[dialNew]. destruct (dialNew _ _ _ _). by intros [= _ <-].
    - destruct (gw_backends gw !! i); [|done]. cbn -[sendAndReceive]. destruct (if (0 <=? fd)%Z then _ else _); [done|]. by intros [= _ <-].
    - destruct (gw_backends gw !! i); [|done]. cbn -[release]. intros [= _ <-]. destruct reus; [by destruct (release _ _ _ _ _)|done].
    - intros [= _ <-]. by case_if. }
  unfold fwd_tick. destruct (ft_phase f) eqn:Hp.
  1: { destruct (ft_left f); [by intros [= _ <-]|]. destruct (ft_envs f); [done|]. by intros [= _ <-]. }
  all: try by intros [= _ <-].
  all: destruct (ft_envs f) as [|env es]; [done|]; destruct (phase_tick _ _ _ _ _ _ _) as [[p1 g1]|] eqn:Ht; [|done];
    intros [= _ <-]; by eapply Hph.
Qed.

(** ** One tick *)

(** The class counters: [recordResponse] counts the class of its argument. *)
Lemma class_counted code j m :
  shape m →
  nth j (responsesByClass_ (recordResponse code m)) 0%Z =
    if (100 <=? code)%Z && (code <? 600)%Z && bool_decide (Z.to_nat (code `quot` 100) = j)
    then u64 (nth j (responsesByClass_ m) 0%Z + 1) else nth j (responsesByClass_ m) 0%Z.
Proof.
  intros [Hl _]. unfold recordResponse. destruct (_ && _) eqn:E; [|done]. cbn [andb responsesByClass_].
  assert (Z.to_nat (code `quot` 100) < 6).
  { apply andb_true_iff in E as [?%Z.leb_le ?%Z.ltb_lt]. rewrite Z.quot_div_nonneg by lia.
    assert (0 ≤ code / 100 < 6)%Z by (split; [apply Z.div_pos; lia|apply Z.div_lt_upper_bound; lia]). lia. }
  rewrite nth_alter by lia. case_decide; by case_bool_decide.
Qed.

Lemma record_response_shape code m : shape m → shape (recordResponse code m).
Proof. intros [H1 H2]. unfold recordResponse. case_match; split; cbn; by rewrite ?length_alter. Qed.

(** The counters of this ledger are those of [m]. *)
Definition same_counters (m m' : Metrics) : Prop := Forall (λ '(get, _, _), get m' = get m) ledger.

Lemma fwd_same_counters iterate f gw f' gw' :
  fwd_tick iterate f gw = Some (f', gw') → (shape (metrics gw) → shape (metrics gw')) ∧ same_counters (metrics gw) (metrics gw').
Proof. intros ->%fwd_tick_metrics. destruct (ft_phase f); (split; [done|repeat constructor]). Qed.

Definition accounted (m m' : Metrics) (t t' : serve_thread) : Prop :=
  shape m' ∧ Forall (λ '(get, w, _), moves get w m m' t t') ledger.

Lemma same_accounted m m' t t' :
  shape m' → same_counters m m' → Forall (λ '(_, w, _), w t' = w t) ledger → accounted m m' t t'.
Proof.
  unfold same_counters. intros Hs Hm Hw. split; [done|]. rewrite Forall_forall in Hm, Hw. apply Forall_forall. intros [[get w] off] Hin.
  left. split; [apply (Hm _ Hin)|apply (Hw _ Hin)].
Qed.

(** One line of the ledger at a time. *)
Ltac ledger_lines := unfold ledger; cbn [fmap list_fmap seq app]; repeat (apply Forall_cons; split); [cbv beta iota..|apply Forall_nil; exact I].

Ltac line := first [by left|by right].

Section counters.
Context (rnd : Q → Q) (print_double : Q → bytes) (iterate : gmap bytes bytes → header_list).

Lemma bucket_accounted micros k resp t m :
  shape m → sv_phase t = Bucketing k resp →
  accounted m (on_latency (record_bucket micros) m) t (at_vphase (Totalling k resp) t).
Proof.
  destruct t as [ip req env seen fwd ph]. intros [H1 H2] Hp. cbn in Hp. subst ph. split.
  { split; cbn; by rewrite ?length_alter. }
  ledger_lines; try line. right. split_and!; [|done|done]. cbn [on_latency latency_ record_bucket counts_].
  rewrite sum_counts_alter by (case_decide; lia). by rewrite u64_add.
Qed.

Lemma response_accounted k resp t m :
  shape m → sv_phase t = Queueing k resp →
  accounted m (recordResponse (rs_statusCode resp) m) t (at_vphase (Served k resp) t).
Proof.
  destruct t as [ip req env seen fwd ph]. intros Hs Hp. cbn in Hp. subst ph. split; [by apply record_response_shape|].
  assert (∀ j, moves (λ m, nth j (responsesByClass_ m) 0%Z) (in_class j) m (recordResponse (rs_statusCode resp) m)
    (mkServe ip req env seen fwd (Queueing k resp)) (mkServe ip req env seen fwd (Served k resp))) as Hj.
  { intros j. unfold moves, in_class. cbn [sv_phase]. rewrite (class_counted _ _ _ Hs).
    destruct (_ && bool_decide _); [by right|by left]. }
  unfold at_vphase. cbn [sv_ip sv_req sv_env sv_seen sv_fwd].
  ledger_lines; try apply Hj; left; (split; [|done]); unfold recordResponse; by case_match.
Qed.

(** A step that leaves the counters alone. *)
Ltac unmoved := apply same_accounted; [done|repeat constructor|ledger_lines; by repeat case_match].

(** Only server errors are on the way to [incErrors]. *)
Definition errs (t : serve_thread) : Prop := match sv_phase t with Erring _ resp => (500 <=? rs_statusCode resp)%Z = true | _ => True end.

Lemma tick_errs t gw t' gw' : serve_tick rnd print_double iterate t gw = Some (t', gw') → errs t'.
Proof.
  unfold serve_tick. destruct (sv_phase t).
  all: try by intros [= <- <-].
  - intros [= <- <-]. unfold errs. cbn. by repeat case_decide.
  - destruct (allow _ _ _ _ _) as [[] rl]; cbn [negb]; [|by intros [= <- <-]]. destruct (match_route _ _); [|by intros [= <- <-]].
    destruct (cacheable_request _ _); by intros [= <- <-].
  - destruct (cache_get _ _ _) as [[]]; by intros [= <- <-].
  - destruct (sv_fwd t) as [f|]; [|done]. cbn. destruct (fwd_tick _ _ _) as [[f' g]|]; [|done]. cbn. intros [= <- <-].
    unfold errs, after_forward, count_errors. cbn. destruct (ft_phase f'); try done. destruct (_ && _); [done|].
    by destruct (500 <=? _)%Z eqn:E5.
  - intros [= <- <-]. unfold errs, count_errors. cbn. by destruct (500 <=? _)%Z eqn:E5.
Qed.

Lemma tick_accounted t gw t' gw' :
  shape (metrics gw) → errs t → serve_tick rnd print_double iterate t gw = Some (t', gw') →
  accounted (metrics gw) (metrics gw') t t'.
Proof.
  intros Hs He. unfold serve_tick. destruct t as [ip req env seen fwd ph]. cbn [sv_phase sv_req sv_env sv_ip sv_seen sv_fwd].
  unfold errs in He. destruct ph as [| | | | |route|e|route|c|resp|c resp|k resp|k resp|k resp|].
  - intros [= <- <-]. split; [done|]. ledger_lines; repeat case_decide; line.
  - intros [= <- <-]. unmoved.
  - destruct (allow _ _ _ _ _) as [[] rl]; cbn [negb]; [|intros [= <- <-]; unmoved].
    destruct (match_route _ _) as [route|]; [|intros [= <- <-]; unmoved].
    destruct (cacheable_request _ _); intros [= <- <-]; unmoved.
  - intros [= <- <-]. split; [done|]. ledger_lines; line.
  - intros [= <- <-]. split; [done|]. ledger_lines; line.
  - destruct (cache_get _ _ _) as [[]]; intros [= <- <-]; unmoved.
  - intros [= <- <-]. split; [done|]. ledger_lines; line.
  - intros [= <- <-]. split; [done|]. ledger_lines; line.
  - destruct fwd as [f|]; [|done]. cbn. destruct (fwd_tick _ _ _) as [[f' g]|] eqn:Ht; [|done]. cbn. intros [= <- <-].
    destruct (fwd_same_counters _ _ _ _ _ Ht) as [Hs' Hc].
    apply same_accounted; [auto|done|]. unfold after_forward, count_errors.
    destruct (ft_phase f'); try (ledger_lines; done).
    destruct (c && _) eqn:Ec; [destruct c; [|done]; ledger_lines; done|].
    destruct (500 <=? _)%Z eqn:E5; ledger_lines; done.
  - intros [= <- <-]. apply same_accounted; [done|repeat constructor|]. unfold count_errors.
    destruct (500 <=? _)%Z eqn:E5; ledger_lines; done.
  - intros [= <- <-]. split; [done|]. cbn in He. ledger_lines; line.
  - intros [= <- <-]. by apply bucket_accounted.
  - intros [= <- <-]. split; [done|]. ledger_lines; line.
  - intros [= <- <-]. by apply response_accounted.
  - done.
Qed.

(** ** Every counter, over a run *)

Definition malformed (schedule : list serve_action) : Z := count_if (λ a, match a with Malformed => true | _ => false end) schedule.

(** [get] says how many of the threads have passed its increment, and of the
    malformed requests if they count. *)
Definition entry_holds (m : Metrics) (ts : list serve_thread) (bad : Z) (entry : (Metrics → Z) * (serve_thread → bool) * bool) : Prop :=
  let '(get, w, off) := entry in get m = u64 (count_if w ts + if off then bad else 0).

Record books (bad : Z) (s : serving) : Prop := {
  bk_shape : shape (metrics (sg_gw s));
  bk_errs : ∀ t, t ∈ sg_threads s → errs t;
  bk_entries : Forall (entry_holds (metrics (sg_gw s)) (sg_threads s) bad) ledger
}.

Lemma count_if_cons {A} (f : A → bool) x l : count_if f (x :: l) = (Z.b2z (f x) + count_if f l)%Z.
Proof. unfold count_if, size_of. cbn [List.filter]. destruct (f x); cbn [length Z.b2z]; lia. Qed.

Lemma count_if_insert {A} (f : A → bool) l k x y :
  l !! k = Some x → count_if f (<[k := y]> l) = (count_if f l - Z.b2z (f x) + Z.b2z (f y))%Z.
Proof.
  revert k. induction l as [|z l IH]; intros [|k] H; [done|done| |].
  - injection H as ->. change (<[0:=y]> (x :: l)) with (y :: l). rewrite !count_if_cons. lia.
  - change (<[S k:=y]> (z :: l)) with (z :: <[k:=y]> l). rewrite !count_if_cons. specialize (IH k H). lia.
Qed.

Lemma entry_moves m m' ts k t t' bad entry :
  ts !! k = Some t → (let '(get, w, _) := entry in moves get w m m' t t') →
  entry_holds m ts bad entry → entry_holds m' (<[k := t']> ts) bad entry.
Proof.
  destruct entry as [[get w] off]. cbn. intros Hk Hm H. rewrite (count_if_insert _ _ _ _ _ Hk).
  destruct Hm as [[-> ->]|(-> & -> & ->)]; rewrite H, ?u64_add; apply (f_equal u64); cbn [Z.b2z]; lia.
Qed.

Lemma entry_snoc m ts bad entry t :
  sv_phase t = Arrived → entry ∈ ledger → entry_holds m ts bad entry → entry_holds m (ts ++ [t]) bad entry.
Proof.
  intros Hp Hin. assert (Forall (λ '(_, w, _), w t = false) ledger) as Hw.
  { destruct t as [ip req env seen fwd ph]. cbn in Hp. subst ph. ledger_lines; done. }
  rewrite Forall_forall in Hw. specialize (Hw _ Hin). destruct entry as [[get w] off]. unfold entry_holds.
  by rewrite count_if_snoc, Hw, Z.add_0_r.
Qed.

Lemma same_books bad gw gw' ts :
  shape (metrics gw') → same_counters (metrics gw) (metrics gw') → books bad (mkServing gw ts) → books bad (mkServing gw' ts).
Proof.
  intros Hs Hm [_ He Hf]. split; [done|done|]. cbn [sg_gw sg_threads] in *. unfold same_counters in Hm.
  rewrite Forall_forall in Hm, Hf. apply Forall_forall. intros entry Hin. specialize (Hm entry Hin). specialize (Hf entry Hin).
  destruct entry as [[get w] off]. unfold entry_holds in *. by rewrite Hm.
Qed.

(** A malformed request: one more response of class 4. *)
Lemma malformed_counted m ts bad :
  shape m → Forall (entry_holds m ts bad) ledger → Forall (entry_holds (recordResponse 400 m) ts (bad + 1)) ledger.
Proof.
  intros Hs. unfold ledger. cbn [fmap list_fmap seq app]. rewrite !Forall_cons. intros Hall. destruct_and!.
  split_and!; [..|done]; unfold entry_holds in *; rewrite ?(class_counted 400 _ m Hs); try done.
  match goal with H : nth 4 _ _ = _ |- _ => rewrite H end. change (bool_decide (4 = 4)) with true. cbv iota. rewrite u64_add.
  apply (f_equal u64). lia.
Qed.

Lemma act_books s a bad :
  books bad s → books (bad + malformed [a]) (serve_act rnd print_double iterate s a).
Proof.
  intros [Hs He Hf]. destruct s as [gw ts]. cbn [sg_gw sg_threads] in *. destruct a as [k|ip req env seen|i ok| | |]; cbn [serve_act sg_gw sg_threads].
  1: { change (malformed [Serve k]) with 0%Z. rewrite Z.add_0_r. destruct (ts !! k) as [t|] eqn:Hk; [|done].
    destruct (serve_tick _ _ _ _ _) as [[t' gw']|] eqn:Ht; [|done].
    destruct (tick_accounted _ _ _ _ Hs (He t (list_elem_of_lookup_2 _ _ _ Hk)) Ht) as [Hs' Hm].
    split; cbn [sg_gw sg_threads]; [done| |].
    - intros t0 Hin. apply list_elem_of_lookup in Hin as [j Hj]. destruct (decide (k = j)) as [<-|Hne].
      + rewrite list_lookup_insert_eq in Hj by (by eapply lookup_lt_Some). injection Hj as <-. by eapply tick_errs.
      + rewrite list_lookup_insert_ne in Hj by done. by eapply He, list_elem_of_lookup_2.
    - rewrite Forall_forall in Hf, Hm. apply Forall_forall. intros entry Hin. eapply entry_moves; [done| |by apply Hf].
      specialize (Hm entry Hin). by destruct entry as [[get w] off]. }
  all: change (malformed _) with 0%Z || change (malformed _) with 1%Z; rewrite ?Z.add_0_r.
  - destruct (next_id _ _) as [id counter]. split; cbn [sg_gw sg_threads]; [done| |].
    + intros t [Hin|Hin]%elem_of_app; [by apply He|]. apply list_elem_of_singleton in Hin. by subst t.
    + rewrite Forall_forall in Hf. apply Forall_forall. intros entry Hin. specialize (Hf entry Hin).
      by apply entry_snoc.
  - by apply same_books with gw; [|repeat constructor|].
  - by apply same_books with gw; [|repeat constructor|].
  - by apply same_books with gw; [|repeat constructor|].
  - split; [by apply record_response_shape|done|]. cbn [sg_gw sg_threads metrics on_metrics].
    by apply malformed_counted.
Qed.

Lemma run_books schedule s bad :
  books bad s → books (bad + malformed schedule) (run_serve rnd print_double iterate schedule s).
Proof.
  revert s bad. induction schedule as [|a schedule IH]; intros s bad H; [by rewrite Z.add_0_r|].
  cbn [run_serve foldl]. replace (bad + malformed (a :: schedule))%Z with (bad + malformed [a] + malformed schedule)%Z.
  - apply IH. by apply act_books.
  - unfold malformed. rewrite !count_if_cons. cbn [count_if List.filter]. change (count_if _ []) with 0%Z. lia.
Qed.
(** ** Counters of events *)

(** A request may retry and be refused several times, and connections come
    and go: these counters count the events of the run.  A thread about to go
    on to another attempt after one that failed, and one that a breaker has
    just refused. *)
Definition forwarding_at (f : phase → bool) (t : serve_thread) : bool :=
  match sv_phase t, sv_fwd t with Forwarding _, Some ft => f (ft_phase ft) | _, _ => false end.
Definition retrying : serve_thread → bool := forwarding_at (λ p, match p with Waiting => true | _ => false end).
Definition refused : serve_thread → bool := forwarding_at (λ p, match p with Refused => true | _ => false end).

(** The turns of the schedule given to a thread of which [w] holds. *)
Definition turn (w : serve_thread → bool) (s : serving) (a : serve_action) : Z :=
  match a with Serve k => from_option (λ t, Z.b2z (w t)) 0%Z (sg_threads s !! k) | _ => 0%Z end.

Fixpoint turns (w : serve_thread → bool) (schedule : list serve_action) (s : serving) : Z :=
  match schedule with
  | [] => 0
  | a :: schedule' => turn w s a + turns w schedule' (serve_act rnd print_double iterate s a)
  end.

(** Connections opened less connections closed. *)
Definition open_connections (schedule : list serve_action) : Z :=
  count_if (λ a, match a with Opened => true | _ => false end) schedule -
  count_if (λ a, match a with Closed_ => true | _ => false end) schedule.

Record tallied (retries refusals connections : Z) (m : Metrics) : Prop := {
  tl_retries : retries_ m = u64 retries;
  tl_refusals : circuitOpenRejections_ m = u64 refusals;
  tl_connections : activeConnections_ m = wrap64 connections
}.

Lemma tick_tallied t gw t' gw' x y z :
  serve_tick rnd print_double iterate t gw = Some (t', gw') → tallied x y z (metrics gw) →
  tallied (x + Z.b2z (retrying t)) (y + Z.b2z (refused t)) z (metrics gw').
Proof.
  destruct t as [ip req env seen fwd ph]. unfold serve_tick, retrying, refused, forwarding_at.
  cbn [sv_phase sv_req sv_env sv_ip sv_seen sv_fwd]. intros Ht [H1 H2 H3].
  assert (∀ m, retries_ m = retries_ (metrics gw) → circuitOpenRejections_ m = circuitOpenRejections_ (metrics gw) →
    activeConnections_ m = activeConnections_ (metrics gw) → tallied (x + Z.b2z false) (y + Z.b2z false) z m) as Hsame.
  { intros m E1 E2 E3. cbn [Z.b2z]. rewrite !Z.add_0_r. split; congruence. }
  revert Ht. destruct ph as [| | | | |route|e|route|c|resp|c resp|k resp|k resp|k resp|];
    try (by intros [= <- <-]; apply Hsame).
  - destruct (allow _ _ _ _ _) as [ok rl]. intros [= <- <-]. by apply Hsame.
  - destruct (cache_get _ _ _). intros [= <- <-]. by apply Hsame.
  - destruct fwd as [f|]; [|done]. cbn. destruct (fwd_tick _ _ _) as [[f' g]|] eqn:Hf; [|done]. cbn. intros [= <- <-].
    apply fwd_tick_metrics in Hf. rewrite Hf. destruct (ft_phase f); try (by apply Hsame);
      cbn [Z.b2z]; rewrite !Z.add_0_r; (split; [..|done]); cbn; by rewrite ?H1, ?H2, ?u64_add.
  - intros [= <- <-]. by apply Hsame; cbn; unfold recordResponse; case_match.
Qed.

Lemma act_tallied s a x y z :
  tallied x y z (metrics (sg_gw s)) →
  tallied (x + turn retrying s a) (y + turn refused s a) (z + open_connections [a])
    (metrics (sg_gw (serve_act rnd print_double iterate s a))).
Proof.
  destruct s as [gw ts]. intros H.
  destruct a as [k|ip req env seen|i ok| | |]; cbn [serve_act sg_gw sg_threads turn];
    change (open_connections [_]) with 0%Z || change (open_connections [_]) with 1%Z || change (open_connections [_]) with (-1)%Z;
    rewrite ?Z.add_0_r.
  - destruct (ts !! k) as [t|]; cbn [from_option]; [|by rewrite !Z.add_0_r].
    destruct (serve_tick _ _ _ _ _) as [[t' gw']|] eqn:Ht; [by eapply tick_tallied|]. cbn [sg_gw].
    assert (retrying t = false ∧ refused t = false) as [-> ->]; [|by rewrite !Z.add_0_r].
    clear H. unfold serve_tick in Ht. unfold retrying, refused, forwarding_at. destruct (sv_phase t); try done.
    destruct (sv_fwd t) as [f|]; [|done]. cbn in Ht. destruct (fwd_tick iterate f gw) as [[]|] eqn:Hf; [done|].
    unfold fwd_tick in Hf. by destruct (ft_phase f).
  - by destruct (next_id _ _).
  - done.
  - destruct H as [H1 H2 H3]. split; [done|done|]. cbn in H3 |- *. rewrite H3. apply wrap64_add.
  - destruct H as [H1 H2 H3]. split; [done|done|]. cbn in H3 |- *. rewrite H3. apply wrap64_add.
  - destruct H. by split.
Qed.

Lemma run_tallied schedule s x y z :
  tallied x y z (metrics (sg_gw s)) →
  tallied (x + turns retrying schedule s) (y + turns refused schedule s) (z + open_connections schedule)
    (metrics (sg_gw (run_serve rnd print_double iterate schedule s))).
Proof.
  revert s x y z. induction schedule as [|a schedule IH]; intros s x y z H.
  { cbn. by rewrite !Z.add_0_r. }
  apply (act_tallied s a), IH in H. cbn [turns run_serve foldl].
  replace (open_connections (a :: schedule)) with (open_connections [a] + open_connections schedule)%Z.
  - by rewrite !Z.add_assoc.
  - unfold open_connections. rewrite !count_if_cons. change (count_if _ []) with 0%Z. lia.
Qed.
End counters.

(** ** The limiter, over all workers *)

(** A request of the client [ip] that the limiter has let through. *)
Definition through (ip : bytes) (t : serve_thread) : bool :=
  bool_decide (sv_ip t = ip) &&
  match sv_phase t with
  | Unrouted | Looking _ | Hit _ | Missed _ | Forwarding _ | Storing _ | Erring _ _ => true
  | p => from_option (λ a, match a.1 with KNoRoute | KHit _ | KForward _ => true | _ => false end) false (answer p)
  end.

(** A request of the client [ip] that the limiter has answered. *)
Definition asked (ip : bytes) (t : serve_thread) : bool :=
  bool_decide (sv_ip t = ip) &&
  match sv_phase t with
  | Limited | Unrouted | Looking _ | Hit _ | Missed _ | Forwarding _ | Storing _ | Erring _ _ => true
  | p => from_option (λ a, match a.1 with KPage | KHealth => false | _ => true end) false (answer p)
  end.

Section rate.
Context (rnd : Q → Q) `{!Rounding rnd, !Accurate rnd}.
Context (print_double : Q → bytes) (iterate : gmap bytes bytes → header_list).
Context (ip : bytes) (c r : Q) (L M : Z) (D : Q).
Hypothesis capacity_nonneg : (0 <= c)%Q.
Hypothesis rate_nonneg : (0 <= r)%Q.
Hypothesis window_start : (0 < L)%Z.
Hypothesis window_end : (L <= M)%Z.
Hypothesis debt_nonneg : (0 <= D)%Q.

Definition on_time (env : request_env) : Prop := (L <= rv_limit env <= M)%Z.

Definition begins_on_time (a : serve_action) : Prop := match a with Begin _ _ env _ => on_time env | _ => True end.

(** The limiter after [j] answers to the client, [n] of them yes. *)
Definition kept (j n : Z) (gw : Gateway) : Prop :=
  (j ≤ 2 ^ 49)%Z → rounded_window ip c r L M D j n (rateLimiter_ gw).

Record paced (s : serving) : Prop := {
  pc_times : ∀ t, t ∈ sg_threads s → on_time (sv_env t);
  pc_window : kept (count_if (asked ip) (sg_threads s)) (count_if (through ip) (sg_threads s)) (sg_gw s)
}.

(** One tick: the limiter answers, or it is not asked. *)
Lemma tick_paced t gw t' gw' j n :
  on_time (sv_env t) → serve_tick rnd print_double iterate t gw = Some (t', gw') → kept j n gw →
  kept (j - Z.b2z (asked ip t) + Z.b2z (asked ip t')) (n - Z.b2z (through ip t) + Z.b2z (through ip t')) gw'.
Proof.
  intros Hon Ht Hw. destruct (serve_tick_static _ _ _ _ _ _ _ Ht) as (Eip & _). revert Ht.
  assert (∀ a b gw', rateLimiter_ gw' = rateLimiter_ gw → kept (j - Z.b2z a + Z.b2z a) (n - Z.b2z b + Z.b2z b) gw') as Hsame.
  { intros a b gw1 E. unfold kept. by rewrite !Z.sub_add, E. }
  unfold serve_tick, through, asked. rewrite Eip. destruct (sv_phase t) eqn:Hp.
  all: try by intros [= <- <-]; apply Hsame.
  - intros [= <- <-]. repeat case_decide; by apply Hsame.
  - destruct (allow _ _ _ _ _) as [ok rl] eqn:Ea. intros [= <- <-]. change (inject_Z 1) with 1%Q in Ea.
    rewrite !andb_false_r. cbn [Z.b2z]. rewrite !Z.sub_0_r.
    destruct (decide (sv_ip t = ip)) as [E|E].
    + intros Hmax. rewrite (bool_decide_eq_true_2 _ E) in *. cbn [andb] in *.
      assert (rounded_window ip c r L M D (j + 1) (n + Z.b2z ok) rl) as Hrl.
      { assert (j + 1 ≤ 2 ^ 49)%Z as Hj.
        { revert Hmax. destruct ok; cbn [negb]; [|cbn; lia]. destruct (match_route _ _); [destruct (cacheable_request _ _)|]; cbn; lia. }
        pose proof (allow_rounded rnd ip c r L M D capacity_nonneg rate_nonneg window_start window_end debt_nonneg j n
          (rateLimiter_ gw) (rv_limit (sv_env t)) (Hw ltac:(lia)) Hj Hon) as H.
        rewrite E in Ea. by rewrite Ea in H. }
      revert Hrl. cbn [rateLimiter_ set_limiter]. destruct ok; cbn [negb Z.b2z]; [|done].
      destruct (match_route _ _); [destruct (cacheable_request _ _)|]; done.
    + rewrite (bool_decide_eq_false_2 _ E). cbn [andb Z.b2z]. rewrite !Z.add_0_r. intros Hmax.
      pose proof (other_rounded rnd ip c r L M D j n (rateLimiter_ gw) (rv_limit (sv_env t)) (sv_ip t) E (Hw Hmax)) as H.
      by rewrite Ea in H.
  - destruct (cache_get _ _ _) as [[]]; intros [= <- <-]; by apply Hsame.
  - destruct (sv_fwd t) as [f|]; [|done]. cbn. destruct (fwd_tick _ _ _) as [[f' g]|] eqn:Ht; [|done]. cbn. intros [= <- <-].
    destruct (fwd_tick_cache _ _ _ _ _ Ht) as [_ El]. unfold after_forward, count_errors.
    destruct (ft_phase f'); try by apply Hsame. destruct (_ && (_ =? 200)%Z); [|destruct (500 <=? _)%Z]; by apply Hsame.
  - intros [= <- <-]. unfold count_errors. destruct (500 <=? _)%Z; by apply Hsame.
Qed.

Lemma act_paced s a :
  begins_on_time a → paced s → paced (serve_act rnd print_double iterate s a).
Proof.
  intros Ha [Ht Hw]. destruct s as [gw ts]. cbn [sg_gw sg_threads] in *.
  destruct a as [k|ip' req env seen|i ok| | |]; cbn [serve_act sg_gw sg_threads]; try by split.
  - destruct (ts !! k) as [t|] eqn:Hk; [|by split]. pose proof (Ht t (list_elem_of_lookup_2 _ _ _ Hk)) as Hon.
    destruct (serve_tick _ _ _ _ _) as [[t' gw']|] eqn:E; [|by split]. split; cbn [sg_gw sg_threads].
    + destruct (serve_tick_static _ _ _ _ _ _ _ E) as (_ & _ & Ee & _). intros t0 (i & Hi)%list_elem_of_lookup.
      destruct (decide (k = i)) as [<-|Hne].
      * rewrite list_lookup_insert_eq in Hi by (by eapply lookup_lt_Some). injection Hi as <-. by rewrite Ee.
      * rewrite list_lookup_insert_ne in Hi by done. by eapply Ht, list_elem_of_lookup_2.
    + rewrite !(count_if_insert _ _ _ _ _ Hk). by eapply tick_paced.
  - destruct (next_id _ _) as [id counter]. split; cbn [sg_gw sg_threads].
    + intros t [Hin|Hin]%elem_of_app; [by apply Ht|]. apply list_elem_of_singleton in Hin. by subst t.
    + rewrite !count_if_snoc. unfold through at 2, asked at 2. cbn. rewrite !andb_false_r. by rewrite !Z.add_0_r.
Qed.

Lemma run_paced schedule s :
  Forall begins_on_time schedule → paced s → paced (run_serve rnd print_double iterate schedule s).
Proof.
  revert s. induction schedule as [|a schedule IH]; intros s Hf H; [done|].
  apply Forall_cons in Hf as [Ha Hf]. cbn. by apply IH; [|apply act_paced].
Qed.
End rate.

(** ** Theorems *)

(** C7: the counters are exact under concurrency.  From a fresh registry, in
    every state of every interleaving: the number of requests, of refusals by
    the limiter, of cache hits and misses, of errors, of recorded latencies
    (as the sum of the buckets and as the total) and of responses of each
    class are, modulo 2^64, the numbers of requests that have passed the
    increment; a malformed request counts as a response of class 4 and
    nothing else.  The number of retries and the number of refusals by a
    breaker are, modulo 2^64, how often a thread went on to another attempt
    and how often a breaker refused one, and the gauge of active connections
    is the connections opened less those closed (64 bits, signed). *)
Theorem metrics_count rnd print_double iterate schedule gw :
  metrics gw = newMetrics →
  let s := run_serve rnd print_double iterate schedule (mkServing gw []) in
  let m := metrics (sg_gw s) in
  let ts := sg_threads s in
  requests_ m = u64 (count_if arrived ts) ∧
  rateLimited_ m = u64 (count_if limited ts) ∧
  cacheHits_ m = u64 (count_if hit ts) ∧
  cacheMisses_ m = u64 (count_if missed ts) ∧
  errors_ m = u64 (count_if erred ts) ∧
  u64 (sum_counts (counts_ (latency_ m))) = u64 (count_if bucketed ts) ∧
  total_ (latency_ m) = u64 (count_if totalled ts) ∧
  (∀ j, 1 ≤ j ≤ 5 → nth j (responsesByClass_ m) 0%Z = u64 (count_if (in_class j) ts + if decide (j = 4) then malformed schedule else 0)) ∧
  retries_ m = u64 (turns rnd print_double iterate retrying schedule (mkServing gw [])) ∧
  circuitOpenRejections_ m = u64 (turns rnd print_double iterate refused schedule (mkServing gw [])) ∧
  activeConnections_ m = wrap64 (open_connections schedule).
Proof.
  intros Hm. cbv zeta.
  assert (tallied 0 0 0 (metrics (sg_gw (mkServing gw [])))) as Ht by (cbn; by rewrite Hm).
  apply (run_tallied rnd print_double iterate schedule) in Ht as [Hr Ho Hg]. rewrite !Z.add_0_l in *.
  assert (books 0 (mkServing gw [])) as H0.
  { split; cbn [sg_gw sg_threads]; rewrite ?Hm; [by split; cbn; [|lia]|intros t Ht; by apply elem_of_nil in Ht|]. ledger_lines; done. }
  apply (run_books rnd print_double iterate schedule) in H0 as [_ _ Hf]. rewrite Z.add_0_l in Hf. revert Hf.
  unfold ledger. cbn [fmap list_fmap seq app]. rewrite !Forall_cons. unfold entry_holds. rewrite !Z.add_0_r. intros Hall. destruct_and!.
  split_and!; try done. intros j Hj. clear Hr Ho Hg.
  destruct j as [|[|[|[|[|[|j]]]]]]; try lia; cbn [decide]; case_decide; try done; by rewrite Z.add_0_r.
Qed.

(** A malformed request, and a request whose backend cannot be reached and
    which is tried again. *)
Definition failing_env : request_env :=
  mkRequestEnv 7 1 1000 1000 2000 [demo_env []; demo_env []] 300.

Definition metrics_demo : list serve_action :=
  Malformed :: Opened :: Begin (str "10.1.1.4") demo_get failing_env newMetrics :: replicate 40 (Serve 0).

Lemma metrics_count_witness :
  let s := run_serve rnd64 demo_print_double map_to_list metrics_demo (mkServing demo_closed []) in
  requests_ (metrics (sg_gw s)) = 1%Z ∧ malformed metrics_demo = 1%Z ∧ retries_ (metrics (sg_gw s)) = 1%Z ∧
  requests_ (metrics (sg_gw s)) = u64 (count_if arrived (sg_threads s)) ∧
  nth 4 (responsesByClass_ (metrics (sg_gw s))) 0%Z =
    u64 (count_if (in_class 4) (sg_threads s) + if decide (4 = 4) then malformed metrics_demo else 0) ∧
  retries_ (metrics (sg_gw s)) =
    u64 (turns rnd64 demo_print_double map_to_list retrying metrics_demo (mkServing demo_closed [])).
Proof.
  intros s. split; [vm_compute; reflexivity|]. split; [reflexivity|]. split; [vm_compute; reflexivity|].
  pose proof (metrics_count rnd64 demo_print_double map_to_list metrics_demo demo_closed eq_refl)
    as (H & _ & _ & _ & _ & _ & _ & Hj & Hr & _).
  split; [exact H|]. split; [apply (Hj 4); lia|exact Hr].
Defined.

(** C8: the rate holds over all workers, in binary64.  Whatever the workers do
    at once: of the requests of one client address whose readings of the clock
    lie in a window of time, the limiter lets through at most the capacity
    and the refill of the window, up to the rounding of its arithmetic; only
    requests that it has let through are routed, looked up in the cache or
    forwarded.  The arithmetic is any that is accurate to [2 ^ -53]
    (binary64 without overflow and underflow, or exact): each answer to the
    client may then be off by [2 ^ -49] of the most that its bucket can hold,
    earn or owe; at the start it owes at most [D] tokens (nothing when it has
    no bucket yet), and the limiter answers at most [2 ^ 49] of its requests. *)
Theorem serving_rate_bound rnd `{!Rounding rnd, !Accurate rnd} print_double iterate schedule gw ip L M D :
  let c := capacity_ (rateLimiter_ gw) in
  let r := refillPerSecond_ (rateLimiter_ gw) in
  let ts := sg_threads (run_serve rnd print_double iterate schedule (mkServing gw [])) in
  (0 <= c)%Q → (0 <= r)%Q → (0 < L)%Z → (L <= M)%Z → (0 <= D)%Q → owes_at_most ip M D (rateLimiter_ gw) →
  Forall (begins_on_time L M) schedule → (count_if (asked ip) ts ≤ 2 ^ 49)%Z →
  (inject_Z (count_if (through ip) ts)
    <= c + earned r L M + inject_Z (count_if (asked ip) ts) * ((c + earned r L M + D) * (1 # 562949953421312)))%Q.
Proof.
  intros c r ts Hc Hr HL HM HD Ho Hf Hmax.
  assert (paced ip c r L M D (mkServing gw [])) as H0.
  { split; [intros t Ht; by apply elem_of_nil in Ht|]. intros _. by apply rounded_opens. }
  apply (run_paced rnd print_double iterate ip c r L M D Hc Hr HL HM HD schedule) in H0 as [_ Hw]; [|done].
  exact (rw_bound _ _ _ _ _ _ _ _ _ (Hw Hmax)).
Qed.

(** A burst of one at a third of a request per second, rounded: requests at
    one and at four seconds.  In binary64 both get through, which is a trifle
    more than the capacity and what is earned in three seconds. *)
Definition third_gateway : Gateway := set_limiter (newRateLimiter (inject_Z 1) (rnd64 (1 # 3))) demo_closed.

Definition asks_at (ns : Z) : request_env := mkRequestEnv 7 1 ns 1000 2000 (rv_attempts demo_request_env) 300.

Definition third_demo : list serve_action :=
  [Begin (str "10.1.1.1") demo_get (asks_at 1000000000) newMetrics; Begin (str "10.1.1.1") demo_get (asks_at 4000000000) newMetrics;
   Serve 0; Serve 0; Serve 1; Serve 1].

Lemma serving_rate_bound_witness :
  let c := capacity_ (rateLimiter_ third_gateway) in
  let r := refillPerSecond_ (rateLimiter_ third_gateway) in
  let ts := sg_threads (run_serve rnd64 demo_print_double map_to_list third_demo (mkServing third_gateway [])) in
  (count_if (through (str "10.1.1.1")) ts = 2%Z ∧ Qle_bool 2 (c + earned r 1000000000 4000000000) = false) ∧
  (inject_Z (count_if (through (str "10.1.1.1")) ts)
    <= c + earned r 1000000000 4000000000 + inject_Z (count_if (asked (str "10.1.1.1")) ts) *
         ((c + earned r 1000000000 4000000000 + 0) * (1 # 562949953421312)))%Q.
Proof.
  split; [split; vm_compute; reflexivity|].
  apply (serving_rate_bound rnd64 demo_print_double map_to_list third_demo third_gateway (str "10.1.1.1") 1000000000 4000000000 0).
  - vm_compute; congruence.
  - vm_compute; congruence.
  - lia.
  - lia.
  - vm_compute; congruence.
  - intros b Hb. discriminate Hb.
  - unfold third_demo. repeat (apply Forall_cons; split); [vm_compute; split; congruence..|apply Forall_nil; exact I].
  - vm_compute; congruence.
Defined.
