(* ===== verification/ServeLiveness.v ===== *)
(** * Every request is served, whatever the other workers do
      (src/core/Gateway.cpp, handleRequest)

    A request handled by one of many workers that are interleaved in any way
    has its response queued after a number of its own operations that depends
    only on the configuration: the retries and the size of the largest
    backend group. *)
From Stdlib Require Import QArith.
From S2P Require Import Prelude CxxString Rounding HttpMessage HttpParser LRUCache CircuitBreaker RateLimiter RetryPolicy LoadBalancer Router ConnectionPool HealthChecker Metrics Observability BackendIO Forward ForwardConcurrent Worker WorkerPipeline WorkerMetrics ServeConcurrent ServeIntegrity.
Local Open Scope nat_scope.

(** ** How many operations are left *)

Definition largest_group (gw : Gateway) : nat := max_list ((λ l, length (backends_ l)) <$> gw_lbs gw).

Lemma group_size_le gw route : group_size gw route ≤ largest_group gw.
Proof.
  unfold group_size, largest_group. destruct (gw_lbs gw !! lb route) as [l|] eqn:E; cbn; [|lia].
  apply max_list_elem_of_le. apply list_elem_of_fmap. exists l. split; [done|]. by eapply list_elem_of_lookup_2.
Qed.

(** The most operations of one call of [forwardWithResilience]. *)
Definition forward_most (gw : Gateway) : nat := Z.to_nat (maxRetries (retryPolicy_ gw) + 1) * (2 * largest_group gw + 12) + 1.

Definition serve_rank (g0 : Gateway) (t : serve_thread) : nat :=
  match sv_phase t with
  | Served _ _ => 0 | Queueing _ _ => 1 | Totalling _ _ => 2 | Bucketing _ _ => 3
  | Erring _ _ | Hit _ | Unrouted | Limited | Page => 4
  | Storing _ => 5
  | Forwarding _ => 5 + from_option (λ f, rank (group_size g0 (ft_route f)) f) 0 (sv_fwd t)
  | Missed _ => 6 + forward_most g0 | Looking _ => 7 + forward_most g0
  | Limiting => 8 + forward_most g0 | Arrived => 9 + forward_most g0
  end.

Section live.
Context (rnd : Q → Q) (print_double : Q → bytes) (iterate : gmap bytes bytes → header_list) (g0 : Gateway).

(** The network answers, for every iteration of the retry loop. *)
Definition answered (env : request_env) : Prop :=
  Forall answers (rv_attempts env) ∧ (maxRetries (retryPolicy_ g0) + 1 ≤ Z.of_nat (length (rv_attempts env)))%Z.

Record alive (t : serve_thread) : Prop := {
  al_env : answered (sv_env t);
  al_fwd : ∀ c, sv_phase t = Forwarding c → ∃ f, sv_fwd t = Some f ∧ env_ok f ∧ is_done (ft_phase f) = false
}.

(** What ties a serving state to ForwardConcurrent. *)
Record linked (s : serving) : Prop := {
  ln_wf : serve_wf s;
  ln_sim : ∃ c, conc_inv c ∧ simulates s c;
  ln_fixed : fixed_parts (sg_gw s) = fixed_parts g0
}.

Lemma act_linked s a : linked s → fresh_begin a → linked (serve_act rnd print_double iterate s a).
Proof.
  intros [Hw (c & Hi & Hs) Hf] Ha. destruct (serve_act_simulates rnd print_double iterate s a c Hw Hs Ha) as (l & Hl & Hs').
  split; [by apply serve_act_wf| |].
  - exists (run_schedule iterate l c). split; [by apply run_schedule_inv|done].
  - destruct Hs as [Eg _], Hs' as [Eg' _]. rewrite <- Eg', run_schedule_fixed. by rewrite Eg.
Qed.

Lemma linked_phases s k t f :
  linked s → sg_threads s !! k = Some t → sv_fwd t = Some f → phase_ok (length (gw_backends (sg_gw s))) (ft_phase f).
Proof.
  intros [_ (c & Hi & [Eg Hp]) _] Hk Hf.
  assert (f ∈ c_threads c) as (j & Hj)%list_elem_of_lookup.
  { rewrite Hp. unfold forwarders. apply list_elem_of_omap. exists t. split; [by eapply list_elem_of_lookup_2|done]. }
  rewrite <- Eg. exact (ci_phases _ Hi j f Hj).
Qed.

Lemma start_rank gw route req envs :
  fixed_parts gw = fixed_parts g0 → rank (group_size g0 route) (start_forward gw route req envs) ≤ forward_most g0.
Proof.
  intros [= _ Er]. pose proof (attempts_le gw) as Ha. rewrite Er in Ha.
  unfold rank, forward_most, start_forward. cbn. pose proof (group_size_le g0 route). nia.
Qed.

Lemma enter_alive gw route c t :
  fixed_parts gw = fixed_parts g0 → alive t →
  alive (enter_forward route c gw t) ∧ serve_rank g0 (enter_forward route c gw t) ≤ 5 + forward_most g0.
Proof.
  intros Hf [[Ha Hl] _]. split.
  - split; [done|]. intros c' _. eexists. split; [reflexivity|]. split; [|done]. split; [done|]. injection Hf as _ Er.
    pose proof (attempts_le gw) as Hle. rewrite Er in Hle. cbn. lia.
  - unfold serve_rank. cbn [sv_phase sv_fwd enter_forward with_fwd from_option]. pose proof (start_rank gw route (sv_req t) (rv_attempts (sv_env t)) Hf).
    change (ft_route (start_forward _ _ _ _)) with route. lia.
Qed.

Lemma step_alive p t : alive t → (∀ c, p ≠ Forwarding c) → alive (at_vphase p t).
Proof. intros [Ha _] Hp. split; [done|]. intros c E. by destruct (Hp c). Qed.

Lemma count_errors_rank c resp t : serve_rank g0 (at_vphase (count_errors c resp) t) ≤ 4 ∧ ∀ c', count_errors c resp ≠ Forwarding c'.
Proof. unfold count_errors. destruct (500 <=? _)%Z; cbn; split; try done; lia. Qed.

Lemma after_forward_rank c req resp t :
  serve_rank g0 (at_vphase (after_forward c req resp) t) ≤ 5 ∧ ∀ c', after_forward c req resp ≠ Forwarding c'.
Proof.
  unfold after_forward. destruct (c && _); [by cbn; split; [lia|]|].
  destruct (count_errors_rank c (setHeader (str "X-Request-Id") (rq_requestId req) resp) t). split; [lia|done].
Qed.

Lemma forwarding_alive f f' gw gw' c t :
  fixed_parts gw = fixed_parts g0 → alive t → sv_phase t = Forwarding c → sv_fwd t = Some f → fwd_tick iterate f gw = Some (f', gw') →
  let t' := with_fwd f' (match ft_phase f' with Done resp => after_forward c (sv_req t) resp | _ => Forwarding c end) t in
  alive t' ∧ serve_rank g0 t' < serve_rank g0 t.
Proof.
  intros Hfix [Ha Hfw] Hp Hf Ht. destruct (Hfw c Hp) as (f0 & E0 & He & Hd). rewrite Hf in E0. injection E0 as <-.
  destruct (fwd_tick_rank iterate _ _ _ _ Ht) as (Hr & Hro & He'). rewrite (group_size_fixed _ _ _ Hfix) in Hr.
  assert (serve_rank g0 t = 5 + rank (group_size g0 (ft_route f)) f) as -> by (unfold serve_rank; by rewrite Hp, Hf).
  destruct (ft_phase f') eqn:Hp'; cbv zeta.
  all: try (split; [split; [done|]; intros c' _; exists f'; split_and!; [done|auto|by rewrite Hp']|];
    unfold serve_rank; cbn [with_fwd sv_phase sv_fwd from_option]; rewrite Hro; lia).
  destruct (after_forward_rank c (sv_req t) resp (with_fwd f' Arrived t)) as [Hrk Hne].
  split; [split; [done|]; intros c' E; by destruct (Hne c')|].
  change (with_fwd f' ?p t) with (at_vphase p (with_fwd f' Arrived t)). lia.
Qed.

Lemma tick_alive s k t :
  linked s → sg_threads s !! k = Some t → alive t →
  match serve_tick rnd print_double iterate t (sg_gw s) with
  | None => serve_rank g0 t = 0
  | Some (t', _) => alive t' ∧ serve_rank g0 t' < serve_rank g0 t
  end.
Proof.
  intros Hl Hk Ha. pose proof (ln_fixed _ Hl) as Hfix. unfold serve_tick.
  assert (∀ p n, (∀ c, p ≠ Forwarding c) → serve_rank g0 (at_vphase p t) < n → alive (at_vphase p t) ∧ serve_rank g0 (at_vphase p t) < n) as Hstep.
  { intros p n Hp Hn. split; [by apply step_alive|done]. }
  destruct (sv_phase t) eqn:Hp.
  all: assert (serve_rank g0 t = serve_rank g0 (at_vphase (sv_phase t) t)) as -> by done; rewrite Hp.
  all: try (apply Hstep; [done|cbn; lia]).
  - apply Hstep; [by repeat case_decide|]. repeat case_decide; cbn; lia.
  - destruct (allow _ _ _ _ _) as [[] rl]; cbn [negb]; [|by apply Hstep; [|cbn; lia]].
    destruct (match_route _ _) as [route|]; [|by apply Hstep; [|cbn; lia]].
    destruct (cacheable_request _ _); [by apply Hstep; [|cbn; lia]|].
    destruct (enter_alive (set_limiter rl (sg_gw s)) route false t Hfix Ha). split; [done|]. cbn [serve_rank at_vphase sv_phase]. lia.
  - destruct (cache_get _ _ _) as [[]]; (apply Hstep; [done|cbn; lia]).
  - destruct (enter_alive (sg_gw s) route true t Hfix Ha). split; [done|]. cbn [serve_rank at_vphase sv_phase]. lia.
  - destruct (al_fwd _ Ha _ Hp) as (f & Hf & He & Hd). rewrite Hf. cbn [mbind option_bind].
    destruct (fwd_tick_progress iterate f (sg_gw s) (linked_phases s k t f Hl Hk Hf) He Hd) as [[f' gw'] Ht].
    rewrite Ht. cbn [mbind option_bind]. pose proof (forwarding_alive f f' (sg_gw s) gw' _ t Hfix Ha Hp Hf Ht) as H.
    cbv zeta in H. assert (serve_rank g0 t = serve_rank g0 (at_vphase (Forwarding cacheable) t)) as E by (rewrite <- Hp; done).
    by rewrite <- E.
  - destruct (count_errors_rank true resp t). apply Hstep; [done|cbn [serve_rank at_vphase sv_phase]; lia].
  - done.
Qed.

(** How often thread [k] is scheduled. *)
Definition is_turn (k : nat) (a : serve_action) : bool := match a with Serve j => bool_decide (j = k) | _ => false end.

Definition turns (k : nat) (schedule : list serve_action) : nat := length (List.filter (is_turn k) schedule).

Lemma turns_cons k a l : turns k (a :: l) = (if is_turn k a then 1 else 0) + turns k l.
Proof. unfold turns. cbn. by destruct (is_turn k a). Qed.

(** What one action makes of thread [k]. *)
Definition advanced (t t' : serve_thread) (n : nat) : Prop :=
  alive t' ∧ sv_ip t' = sv_ip t ∧ sv_env t' = sv_env t ∧ sv_req t' = sv_req t ∧ serve_rank g0 t' ≤ serve_rank g0 t - n.

Lemma act_alive s a k t :
  linked s → sg_threads s !! k = Some t → alive t →
  ∃ t', sg_threads (serve_act rnd print_double iterate s a) !! k = Some t' ∧ advanced t t' (if is_turn k a then 1 else 0).
Proof.
  intros Hl Hk Ha. assert (advanced t t 0) as Hstay by (split_and!; [done..|lia]).
  destruct a as [j|ip req env seen|i ok| | |]; cbn [serve_act is_turn]; try by exists t.
  - destruct (decide (j = k)) as [->|Hne].
    + rewrite bool_decide_eq_true_2 by done. rewrite Hk. pose proof (tick_alive s k t Hl Hk Ha) as H.
      destruct (serve_tick _ _ _ _ _) as [[t' gw']|] eqn:Ht.
      * destruct (serve_tick_static _ _ _ _ _ _ _ Ht) as (E1 & E2 & E3 & _), H as [Ha' Hr]. exists t'. cbn [sg_threads].
        rewrite list_lookup_insert_eq by (by eapply lookup_lt_Some). split; [done|]. split_and!; [done..|lia].
      * exists t. split; [done|]. split_and!; [done..|lia].
    + rewrite bool_decide_eq_false_2 by done. exists t. split; [|done].
      destruct (sg_threads s !! j); [|done]. destruct (serve_tick _ _ _ _ _) as [[]|]; [|done]. cbn [sg_threads].
      by rewrite list_lookup_insert_ne.
  - exists t. destruct (next_id _ _). cbn [sg_threads]. split; [by apply lookup_app_l_Some|done].
Qed.

Lemma run_alive schedule s k t :
  linked s → Forall fresh_begin schedule → sg_threads s !! k = Some t → alive t →
  ∃ t', sg_threads (run_serve rnd print_double iterate schedule s) !! k = Some t' ∧ advanced t t' (turns k schedule).
Proof.
  revert s t. induction schedule as [|a l IH]; intros s t Hl Hf Hk Ha.
  { exists t. split; [done|]. split_and!; [done..|cbn; lia]. }
  apply Forall_cons in Hf as [Hfa Hf]. destruct (act_alive s a k t Hl Hk Ha) as (t1 & Hk1 & Ha1 & E1 & E2 & E3 & Hr1).
  destruct (IH _ t1 (act_linked s a Hl Hfa) Hf Hk1 Ha1) as (t2 & Hk2 & Ha2 & E1' & E2' & E3' & Hr2).
  exists t2. split; [done|]. rewrite turns_cons. split_and!; [done|congruence..|lia].
Qed.

Lemma run_linked schedule s : linked s → Forall fresh_begin schedule → linked (run_serve rnd print_double iterate schedule s).
Proof.
  revert s. induction schedule as [|a l IH]; intros s Hl Hf; [done|]. apply Forall_cons in Hf as [Ha Hf].
  cbn. by apply IH; [apply act_linked|].
Qed.

Lemma start_linked : at_rest g0 → linked (mkServing g0 []).
Proof. intros Hr. split; [apply start_wf| |done]. exists (mkConc g0 []). split; [by apply at_rest_inv|]. by split. Qed.
End live.

(** The operations one request takes at most. *)
Definition serve_bound (gw : Gateway) : nat := 9 + forward_most gw.

(** ** Theorems *)

(** C6: every request is served, whatever the other workers do.  A request that
    arrives at any time at a gateway that was at rest, and whose backend
    exchanges end, has its response queued once its thread has been
    scheduled [serve_bound] times, however other requests, health verdicts,
    connections and malformed requests are interleaved with it. *)
Theorem serving_live rnd print_double iterate gw before ip req env seen after :
  at_rest gw → Forall fresh_begin (before ++ Begin ip req env seen :: after) → answered gw env →
  let k := length (sg_threads (run_serve rnd print_double iterate before (mkServing gw []))) in
  serve_bound gw ≤ turns k after →
  ∃ t kind resp,
    sg_threads (run_serve rnd print_double iterate (before ++ Begin ip req env seen :: after) (mkServing gw [])) !! k = Some t ∧
    sv_phase t = Served kind resp ∧ sv_ip t = ip ∧ rq_path (sv_req t) = rq_path req.
Proof.
  intros Hr Hf Hans k Hturns. apply Forall_app in Hf as [Hb [Hbegin Ha]%Forall_cons].
  pose proof (start_linked gw Hr) as Hl.
  apply (run_linked rnd print_double iterate gw before _) in Hl; [|done].
  pose proof (act_linked rnd print_double iterate gw _ _ Hl Hbegin) as Hl1.
  unfold run_serve at 1. rewrite foldl_app. cbn [foldl]. fold (run_serve rnd print_double iterate before (mkServing gw [])) in *.
  set (s := run_serve rnd print_double iterate before (mkServing gw [])) in *.
  set (s1 := serve_act rnd print_double iterate s (Begin ip req env seen)) in *.
  set (t := mkServe ip (set_requestId req (next_id (rv_suffix env) (id_counter (sg_gw s))).1) env seen None Arrived).
  assert (sg_threads s1 !! k = Some t) as Hk.
  { unfold s1, t. cbn [serve_act]. destruct (next_id _ _) as [id counter]. cbn [sg_threads fst]. by apply list_lookup_middle. }
  destruct (run_alive rnd print_double iterate gw after s1 k t Hl1 Ha Hk) as (t' & Hk' & _ & E1 & _ & E3 & Hrk); [by split|].
  assert (serve_rank gw t' = 0) as E0 by (unfold serve_bound in Hturns; cbn [serve_rank t sv_phase] in Hrk; lia).
  exists t'. unfold serve_rank in E0. destruct (sv_phase t') eqn:Hp; cbn in E0; try lia.
  eexists _, _. split_and!; [exact Hk'|done|done|by rewrite E3].
Qed.

(** A third client arrives while two are being served. *)
Definition crowd : list serve_action := concat (replicate (serve_bound demo_closed) [Serve 0; Serve 2; Serve 1]).

Lemma crowd_fresh : Forall fresh_begin (serve_demo ++ Begin (str "10.1.1.3") demo_get demo_request_env newMetrics :: crowd).
Proof.
  apply Forall_app. split; [apply serve_demo_fresh|]. constructor; [repeat constructor; apply demo_env_fresh|].
  unfold crowd. generalize (serve_bound demo_closed). intros n. induction n as [|n IH]; [constructor|]. by repeat constructor.
Qed.

Lemma serving_live_witness :
  ∃ t kind resp,
    sg_threads (run_serve rnd64 demo_print_double map_to_list
      (serve_demo ++ Begin (str "10.1.1.3") demo_get demo_request_env newMetrics :: crowd) (mkServing demo_closed [])) !!
      length (sg_threads (run_serve rnd64 demo_print_double map_to_list serve_demo (mkServing demo_closed []))) = Some t ∧
    sv_phase t = Served kind resp ∧ sv_ip t = str "10.1.1.3" ∧ rq_path (sv_req t) = rq_path demo_get.
Proof.
  refine (serving_live rnd64 demo_print_double map_to_list demo_closed serve_demo (str "10.1.1.3") demo_get demo_request_env
    newMetrics crowd demo_at_rest crowd_fresh demo_attempts _).
  apply Nat.leb_le. vm_compute. reflexivity.
Defined.
