(* ===== verification/DrainConcurrent.v ===== *)
(** * Pipelined connections, many at once (src/core/Gateway.cpp, onReadable)

    A worker that has read from a connection drains it: it parses requests
    off the buffer and handles each to its end before it parses the next
    (lines 104-115).  A [drainer] is such a loop on one connection; its
    requests are threads of ServeConcurrent, so that between any two of its
    operations other workers, draining other connections, may do theirs.

    However they interleave, a connection's output is the responses to its
    own requests, in the order in which they were sent, each for the request
    it answers ([responses_in_order]); every connection is drained
    ([draining_live]); and a drainer that is alone computes [drain]
    ([drain_steps_agree]). *)
From Stdlib Require Import QArith.
From S2P Require Import Prelude CxxString Rounding HttpMessage HttpParser HttpParserResume HttpParserSafety LRUCache CircuitBreaker RateLimiter RetryPolicy LoadBalancer Router ConnectionPool HealthChecker Metrics Observability BackendIO Forward ForwardConcurrent Worker WorkerPipeline WorkerMetrics ServeConcurrent ServeIntegrity ServeLiveness.
Local Open Scope nat_scope.

(** ** A connection being drained *)

Inductive drain_pos :=
  | Parsing                 (* before parser.parse *)
  | Handling (k : nat)      (* in handleRequest, thread [k] *)
  | Drained.

Record drainer := mkDrainer {
  dr_conn : ClientConnection;
  dr_envs : list (request_env * Metrics);            (* what the environment answers to the requests to come *)
  dr_pos : drain_pos;
  dr_log : list (HttpRequest * HttpResponse)         (* the requests answered so far: not part of the program's state *)
}.

Definition start_drainer (c : ClientConnection) (envs : list (request_env * Metrics)) : drainer := mkDrainer c envs Parsing [].

(** Line 109. *)
Definition malformed_response : HttpResponse := make 400 (str "Bad Request") (str "malformed request").

(** [queueResponse], the part that is the connection's. *)
Definition queued (resp : HttpResponse) (closeAfter : bool) (c : ClientConnection) : ClientConnection :=
  mkClientConnection (clientIp c) (parser c) (pendingWrite c ++ serialize (negb closeAfter) resp)
    (writeOffset c) closeAfter (lastActivity c).

Section drainers.
Context (rnd : Q → Q) (print_double : Q → bytes) (iterate : gmap bytes bytes → header_list).

(** One operation of a drainer: one iteration's parsing, one operation of
    [handleRequest], or what follows it (lines 104-115), with what it does to
    the shared state; [None]: it is done, or its environment has not
    answered. *)
Definition drain_tick (d : drainer) (s : serving) : option (drainer * option serve_action) :=
  let c := dr_conn d in
  match dr_pos d with
  | Parsing =>
      match parse emptyRequest (parser c) with
      | (Incomplete, _, p) => Some (mkDrainer (set_parser p c) (dr_envs d) Drained (dr_log d), None)
      | (Error, _, p) =>
          Some (mkDrainer (queued malformed_response true (set_parser p c)) (dr_envs d) Drained (dr_log d), Some Malformed)
      | (Complete, req, p) =>
          match dr_envs d with
          | [] => None
          | (env, seen) :: envs =>
              Some (mkDrainer (set_parser p c) envs (Handling (length (sg_threads s))) (dr_log d),
                    Some (Begin (clientIp c) req env seen))
          end
      end
  | Handling k =>
      match sg_threads s !! k with
      | None => None
      | Some t =>
          match sv_phase t with
          | Served _ resp =>
              let c' := queued resp (negb (rq_keepAlive (sv_req t))) c in
              Some (mkDrainer c' (dr_envs d) (if closeAfterWrite c' then Drained else Parsing) (dr_log d ++ [(sv_req t, resp)]), None)
          | _ => Some (d, Some (Serve k))
          end
      end
  | Drained => None
  end.

(** ** The gateway, its threads and the connections being drained *)

Record draining := mkDraining { dg_serving : serving; dg_drainers : list drainer }.

Inductive drain_action :=
  | Drain (i : nat)
  | Readable (c : ClientConnection) (envs : list (request_env * Metrics))
  | Verdict_ (i : bptr) (ok : bool)       (* the health checker *)
  | Opened_
  | Closing.

Definition act_opt (s : serving) (a : option serve_action) : serving := from_option (serve_act rnd print_double iterate s) s a.

Definition drain_act (s : draining) (a : drain_action) : draining :=
  match a with
  | Drain i =>
      match d ← dg_drainers s !! i; drain_tick d (dg_serving s) with
      | None => s
      | Some (d', a) => mkDraining (act_opt (dg_serving s) a) (<[i := d']> (dg_drainers s))
      end
  | Readable c envs => mkDraining (dg_serving s) (dg_drainers s ++ [start_drainer c envs])
  | Verdict_ i ok => mkDraining (act_opt (dg_serving s) (Some (Checked i ok))) (dg_drainers s)
  | Opened_ => mkDraining (act_opt (dg_serving s) (Some Opened)) (dg_drainers s)
  | Closing => mkDraining (act_opt (dg_serving s) (Some Closed_)) (dg_drainers s)
  end.

Definition run_drain (schedule : list drain_action) (s : draining) : draining := foldl drain_act s schedule.

(** What an action does to the shared state. *)
Definition serve_part (s : draining) (a : drain_action) : option serve_action :=
  match a with
  | Drain i => d ← dg_drainers s !! i; '(_, a) ← drain_tick d (dg_serving s); a
  | Readable _ _ => None
  | Verdict_ i ok => Some (Checked i ok)
  | Opened_ => Some Opened
  | Closing => Some Closed_
  end.

Lemma drain_act_serves s a : dg_serving (drain_act s a) = act_opt (dg_serving s) (serve_part s a).
Proof.
  destruct a; try done. cbn. destruct (dg_drainers s !! i) as [d|]; [|done]. cbn.
  by destruct (drain_tick d (dg_serving s)) as [[]|].
Qed.

(** So every run is a run of ServeConcurrent. *)
Fixpoint serve_schedule (schedule : list drain_action) (s : draining) : list serve_action :=
  match schedule with
  | [] => []
  | a :: schedule' => option_list (serve_part s a) ++ serve_schedule schedule' (drain_act s a)
  end.

Lemma run_drain_serves schedule s :
  dg_serving (run_drain schedule s) = run_serve rnd print_double iterate (serve_schedule schedule s) (dg_serving s).
Proof.
  revert s. induction schedule as [|a schedule IH]; intros s; [done|]. cbn [run_drain foldl serve_schedule]. fold (run_drain schedule (drain_act s a)).
  rewrite IH, drain_act_serves. unfold run_serve. rewrite foldl_app. by destruct (serve_part s a).
Qed.
End drainers.

(** ** What a drainer has done *)

(** Completed requests, in the order in which the parser gives them. *)
Inductive parses (p0 : HttpParser) : list HttpRequest → HttpParser → Prop :=
  | parses_nil : parses p0 [] p0
  | parses_snoc rs p r p' : parses p0 rs p → parse emptyRequest p = (Complete, r, p') → parses p0 (rs ++ [r]) p'.

Definition output_of (log : list (HttpRequest * HttpResponse)) : bytes :=
  concat ((λ e, serialize (rq_keepAlive e.1) e.2) <$> log).

Lemma output_of_snoc log q resp : output_of (log ++ [(q, resp)]) = output_of log ++ serialize (rq_keepAlive q) resp.
Proof. unfold output_of. rewrite fmap_app, concat_app. cbn. by rewrite app_nil_r. Qed.

Definition kept (log : list (HttpRequest * HttpResponse)) : Prop := Forall (λ e, rq_keepAlive e.1 = true) log.

(** How draining the connection [c0] ended: with a request that asks to
    close, with an incomplete request, or with a malformed one. *)
Definition drained_with (c0 c : ClientConnection) (rs : list HttpRequest) (log : list (HttpRequest * HttpResponse)) : Prop :=
  ∃ p, parses (parser c0) rs p ∧
    ((∃ log' q resp, log = log' ++ [(q, resp)] ∧ kept log' ∧ rq_keepAlive q = false ∧ parser c = p ∧ closeAfterWrite c = true ∧
        pendingWrite c = pendingWrite c0 ++ output_of log) ∨
     (∃ req, kept log ∧ parse emptyRequest p = (Incomplete, req, parser c) ∧ pendingWrite c = pendingWrite c0 ++ output_of log) ∨
     (∃ req, kept log ∧ parse emptyRequest p = (Error, req, parser c) ∧ closeAfterWrite c = true ∧
        pendingWrite c = pendingWrite c0 ++ output_of log ++ serialize false malformed_response)).

(** [rs] are the requests answered so far. *)
Definition progress (c0 : ClientConnection) (ts : list serve_thread) (rs : list HttpRequest) (d : drainer) : Prop :=
  match dr_pos d with
  | Parsing =>
      parses (parser c0) rs (parser (dr_conn d)) ∧ kept (dr_log d) ∧ pendingWrite (dr_conn d) = pendingWrite c0 ++ output_of (dr_log d)
  | Handling k =>
      (∃ t r id, ts !! k = Some t ∧ sv_ip t = clientIp c0 ∧ sv_req t = set_requestId r id ∧
         parses (parser c0) (rs ++ [r]) (parser (dr_conn d))) ∧
      kept (dr_log d) ∧ pendingWrite (dr_conn d) = pendingWrite c0 ++ output_of (dr_log d)
  | Drained => drained_with c0 (dr_conn d) rs (dr_log d)
  end.

(** The thread that answered an entry of the log. *)
Definition answered_by (c0 : ClientConnection) (ts : list serve_thread) (e : HttpRequest * HttpResponse) : Prop :=
  ∃ k t kind, ts !! k = Some t ∧ sv_ip t = clientIp c0 ∧ sv_req t = e.1 ∧ sv_phase t = Served kind e.2.

Record drain_ok (c0 : ClientConnection) (ts : list serve_thread) (d : drainer) : Prop := {
  do_ip : clientIp (dr_conn d) = clientIp c0;
  do_progress : ∃ rs, Forall2 (λ r e, ∃ id, e.1 = set_requestId r id) rs (dr_log d) ∧ progress c0 ts rs d;
  do_served : Forall (answered_by c0 ts) (dr_log d)
}.

(** Threads keep their requests, and their responses. *)
Definition persist (ts ts' : list serve_thread) : Prop :=
  ∀ k t, ts !! k = Some t → ∃ t', ts' !! k = Some t' ∧ sv_ip t' = sv_ip t ∧ sv_req t' = sv_req t ∧
    ∀ kind resp, sv_phase t = Served kind resp → sv_phase t' = Served kind resp.

Lemma persist_refl ts : persist ts ts.
Proof. intros k t Hk. by exists t. Qed.

Lemma answered_persist c0 ts ts' e : persist ts ts' → answered_by c0 ts e → answered_by c0 ts' e.
Proof.
  intros Hp (k & t & kind & Hk & H1 & H2 & H3). destruct (Hp k t Hk) as (t' & Hk' & E1 & E2 & E3).
  exists k, t', kind. split_and!; [done|congruence|congruence|by apply E3].
Qed.

Lemma progress_persist c0 ts ts' rs d : persist ts ts' → progress c0 ts rs d → progress c0 ts' rs d.
Proof.
  intros Hp. unfold progress. destruct (dr_pos d) as [|k|]; [done| |done].
  intros ((t & r & id & Hk & H1 & H2 & H3) & H4). split; [|done]. destruct (Hp k t Hk) as (t' & Hk' & E1 & E2 & _).
  exists t', r, id. split_and!; [done|congruence|congruence|done].
Qed.

Lemma drain_ok_persist c0 ts ts' d : persist ts ts' → drain_ok c0 ts d → drain_ok c0 ts' d.
Proof.
  intros Hp [H1 (rs & H2 & H3) H4]. split; [done| |].
  - exists rs. split; [done|]. by eapply progress_persist.
  - eapply Forall_impl; [exact H4|]. intros e. by apply answered_persist.
Qed.

Lemma start_drain_ok c ts envs : drain_ok c ts (start_drainer c envs).
Proof.
  split; [done| |constructor]. exists []. split; [constructor|]. cbn. split_and!; [constructor|constructor|by rewrite app_nil_r].
Qed.

Section order.
Context (rnd : Q → Q) (print_double : Q → bytes) (iterate : gmap bytes bytes → header_list).

Lemma act_persist s a : persist (sg_threads s) (sg_threads (act_opt rnd print_double iterate s a)).
Proof.
  destruct a as [a|]; [|apply persist_refl]. destruct s as [gw ts]. cbn [act_opt from_option].
  destruct a as [j|ip req env seen|i ok| | |]; cbn [serve_act sg_gw sg_threads]; try apply persist_refl.
  - destruct (ts !! j) as [tj|] eqn:Hj; [|apply persist_refl].
    destruct (serve_tick _ _ _ _ _) as [[t' gw']|] eqn:Ht; [|apply persist_refl]. cbn [sg_threads].
    intros k t Hk. destruct (decide (j = k)) as [->|Hne].
    + rewrite Hj in Hk. injection Hk as <-. destruct (serve_tick_static _ _ _ _ _ _ _ Ht) as (E1 & E2 & _).
      exists t'. rewrite list_lookup_insert_eq by (by eapply lookup_lt_Some). split_and!; [done|done|done|].
      intros kind resp Hp. unfold serve_tick in Ht. by rewrite Hp in Ht.
    + exists t. by rewrite list_lookup_insert_ne.
  - destruct (next_id _ _). cbn [sg_threads]. intros k t Hk. exists t. split; [by apply lookup_app_l_Some|done].
Qed.

(** One operation of the drainer itself. *)
Lemma tick_drain_ok c0 d s d' a :
  drain_ok c0 (sg_threads s) d → drain_tick d s = Some (d', a) →
  drain_ok c0 (sg_threads (act_opt rnd print_double iterate s a)) d'.
Proof.
  intros [Hip (rs & Hrs & Hpr) Hs]. unfold drain_tick. unfold progress in Hpr. destruct (dr_pos d) as [|k|] eqn:Hpos; [| |done].
  - destruct Hpr as (Hp & Hk & Ho). destruct (parse emptyRequest (parser (dr_conn d))) as [[[] req] p] eqn:Ep.
    + intros [= <- <-]. split; [done| |done]. exists rs. split; [done|]. exists (parser (dr_conn d)). split; [done|]. right. left. by exists req.
    + destruct (dr_envs d) as [|[env seen] envs]; [done|]. intros [= <- <-]. split; [done| |].
      * exists rs. split; [done|]. cbn [progress dr_pos dr_conn dr_log set_parser parser pendingWrite]. split; [|done].
        cbn [act_opt from_option serve_act]. destruct (next_id _ _) as [id counter]. cbn [sg_threads].
        eexists _, req, id. split; [by apply list_lookup_middle|]. cbn. split_and!; [done|done|]. by eapply parses_snoc.
      * eapply Forall_impl; [exact Hs|]. intros e. apply answered_persist, act_persist.
    + intros [= <- <-]. split; [done| |done]. exists rs. split; [done|]. exists (parser (dr_conn d)). split; [done|]. right. right.
      exists req. cbn. rewrite Ho. by rewrite <- app_assoc.
  - destruct Hpr as ((t & r & id & Hk & H1 & H2 & H3) & H4 & H5). rewrite Hk.
    assert (∀ a, drain_ok c0 (sg_threads (act_opt rnd print_double iterate s a)) d) as Hsame.
    { intros a'. apply (drain_ok_persist c0 (sg_threads s)); [apply act_persist|]. split; [done| |done]. exists rs. split; [done|].
      unfold progress. rewrite Hpos. split; [|done]. by exists t, r, id. }
    destruct (sv_phase t) eqn:Hph; try (intros [= <- <-]; apply Hsame).
    intros [= <- <-]. cbn [act_opt from_option]. split; [done| |].
    + exists (rs ++ [r]). split.
      { cbn [dr_log]. apply Forall2_app; [done|]. constructor; [|constructor]. by exists id. }
      assert (pendingWrite c0 ++ output_of (dr_log d) ++ serialize (rq_keepAlive (sv_req t)) resp =
        pendingWrite c0 ++ output_of (dr_log d ++ [(sv_req t, resp)])) as Eo by (by rewrite output_of_snoc).
      unfold progress. cbn [dr_pos dr_conn dr_log queued closeAfterWrite parser pendingWrite]. rewrite H5, negb_involutive, <- app_assoc.
      destruct (rq_keepAlive (sv_req t)) eqn:Hka; cbn [negb].
      * split_and!; [done| |exact Eo]. apply Forall_app. split; [done|]. by constructor.
      * exists (parser (dr_conn d)). split; [done|]. left. exists (dr_log d), (sv_req t), resp. split_and!; [done|done|done|done|done|].
        cbn [queued pendingWrite]. by rewrite H5, <- app_assoc.
    + cbn [dr_log]. apply Forall_app. split; [done|]. constructor; [|constructor]. by exists k, t, k0.
Qed.

Lemma act_drain_ok c0 i s a d :
  dg_drainers s !! i = Some d → drain_ok c0 (sg_threads (dg_serving s)) d →
  ∃ d', dg_drainers (drain_act rnd print_double iterate s a) !! i = Some d' ∧
    drain_ok c0 (sg_threads (dg_serving (drain_act rnd print_double iterate s a))) d'.
Proof.
  intros Hi Hok. rewrite drain_act_serves. pose proof (act_persist (dg_serving s) (serve_part s a)) as Hp.
  pose proof (drain_ok_persist _ _ _ _ Hp Hok) as Hok'.
  destruct a as [j|c envs|b ok| |]; cbn [drain_act dg_drainers]; try by exists d.
  - destruct (dg_drainers s !! j) as [dj|] eqn:Hj; [|by exists d]. cbn [mbind option_bind serve_part].
    destruct (drain_tick dj (dg_serving s)) as [[dj' a]|] eqn:Ht; [|by exists d]. cbn [dg_drainers].
    destruct (decide (j = i)) as [->|Hne].
    + rewrite Hj in Hi. injection Hi as ->. exists dj'. rewrite list_lookup_insert_eq by (by eapply lookup_lt_Some).
      split; [done|]. cbn [serve_part]. rewrite Hj. cbn [mbind option_bind]. rewrite Ht. by eapply tick_drain_ok.
    + exists d. by rewrite list_lookup_insert_ne.
  - exists d. split; [by apply lookup_app_l_Some|done].
Qed.

Lemma run_drain_ok c0 i schedule s d :
  dg_drainers s !! i = Some d → drain_ok c0 (sg_threads (dg_serving s)) d →
  ∃ d', dg_drainers (run_drain rnd print_double iterate schedule s) !! i = Some d' ∧
    drain_ok c0 (sg_threads (dg_serving (run_drain rnd print_double iterate schedule s))) d'.
Proof.
  revert s d. induction schedule as [|a schedule IH]; intros s d Hi Hok; [by exists d|].
  destruct (act_drain_ok c0 i s a d Hi Hok) as (d1 & Hi1 & Hok1). by apply (IH _ d1).
Qed.
End order.

(** ** Every connection is drained *)

Definition fresh_envs (envs : list (request_env * Metrics)) : Prop := Forall (λ e, Forall os_fresh (rv_attempts e.1)) envs.

Definition fresh_readable (a : drain_action) : Prop := match a with Readable _ envs => fresh_envs envs | _ => True end.

Section live.
Context (rnd : Q → Q) (print_double : Q → bytes) (iterate : gmap bytes bytes → header_list) (g0 : Gateway).

Record drain_linked (s : draining) : Prop := {
  dl_linked : linked g0 (dg_serving s);
  dl_fresh : ∀ i d, dg_drainers s !! i = Some d → fresh_envs (dr_envs d)
}.

Lemma act_opt_linked s a : linked g0 s → from_option fresh_begin True a → linked g0 (act_opt rnd print_double iterate s a).
Proof. destruct a as [a|]; [|done]. by apply act_linked. Qed.

Lemma tick_fresh d s d' a : fresh_envs (dr_envs d) → drain_tick d s = Some (d', a) → from_option fresh_begin True a ∧ fresh_envs (dr_envs d').
Proof.
  intros Hf. unfold drain_tick. destruct (dr_pos d) as [|k|]; [| |done].
  - destruct (parse _ _) as [[[] req] p]; [by intros [= <- <-]| |by intros [= <- <-]].
    destruct (dr_envs d) as [|[env seen] envs]; [done|]. apply Forall_cons in Hf as [H1 H2]. by intros [= <- <-].
  - destruct (sg_threads s !! k) as [t|]; [|done]. by destruct (sv_phase t); intros [= <- <-].
Qed.

Lemma act_drain_linked s a : drain_linked s → fresh_readable a → drain_linked (drain_act rnd print_double iterate s a).
Proof.
  intros [Hl Hf] Ha. destruct a as [i|c envs|i ok| |]; cbn [drain_act].
  - destruct (dg_drainers s !! i) as [d|] eqn:Hi; [|by split]. cbn [mbind option_bind].
    destruct (drain_tick d (dg_serving s)) as [[d' a]|] eqn:Ht; [|by split]. destruct (tick_fresh _ _ _ _ (Hf _ _ Hi) Ht) as [H1 H2].
    split; cbn [dg_serving dg_drainers]; [by apply act_opt_linked|]. intros j dj Hj. destruct (decide (i = j)) as [<-|Hne].
    + rewrite list_lookup_insert_eq in Hj by (by eapply lookup_lt_Some). by injection Hj as <-.
    + rewrite list_lookup_insert_ne in Hj by done. by eapply Hf.
  - split; [done|]. cbn [dg_drainers]. intros j dj [Hj|[_ Hj]]%lookup_app_Some; [by eapply Hf|].
    apply list_lookup_singleton_Some in Hj as [_ <-]. done.
  - split; [by apply act_opt_linked|done].
  - split; [by apply act_opt_linked|done].
  - split; [by apply act_opt_linked|done].
Qed.

(** The requests a buffer can hold are answered, and the one in service is
    on its way. *)
Definition lively (ts : list serve_thread) (d : drainer) : Prop :=
  Forall (λ e, answered g0 e.1) (dr_envs d) ∧
  match dr_pos d with
  | Drained => True
  | pos =>
      let p := parser (dr_conn d) in
      parser_wf p ∧ (size_of (buffer_ p) < 2 ^ 64)%Z ∧ length (buffer_ p) < length (dr_envs d) ∧
      match pos with Handling k => ∃ t, ts !! k = Some t ∧ alive g0 t | _ => True end
  end.

Definition drain_rank (ts : list serve_thread) (d : drainer) : nat :=
  let left := length (buffer_ (parser (dr_conn d))) * (serve_bound g0 + 3) in
  match dr_pos d with
  | Drained => 0
  | Parsing => 1 + left
  | Handling k => 2 + from_option (serve_rank g0) 0 (ts !! k) + left
  end.

Lemma act_opt_alive s a k t :
  linked g0 s → sg_threads s !! k = Some t → alive g0 t →
  ∃ t', sg_threads (act_opt rnd print_double iterate s a) !! k = Some t' ∧ alive g0 t' ∧
    serve_rank g0 t' ≤ serve_rank g0 t - from_option (λ a, if is_turn k a then 1 else 0) 0 a.
Proof.
  intros Hl Hk Ha. destruct a as [a|]; [|exists t; split_and!; [done|done|cbn; lia]].
  destruct (act_alive rnd print_double iterate g0 s a k t Hl Hk Ha) as (t' & Hk' & Ha' & _ & _ & _ & Hr). by exists t'.
Qed.

Lemma lively_others s a d :
  linked g0 s → lively (sg_threads s) d →
  let ts' := sg_threads (act_opt rnd print_double iterate s a) in
  lively ts' d ∧ drain_rank ts' d ≤ drain_rank (sg_threads s) d.
Proof.
  intros Hl [He Hp] ts'. unfold lively, drain_rank. destruct (dr_pos d) as [|k|]; [by split| |by split].
  destruct Hp as (H1 & H2 & H3 & t & Hk & Ha). destruct (act_opt_alive s a k t Hl Hk Ha) as (t' & Hk' & Ha' & Hr).
  fold ts' in Hk'. split; [split_and!; try done; by exists t'|]. rewrite Hk, Hk'. cbn [from_option]. lia.
Qed.

Lemma lively_tick s d :
  linked g0 s → lively (sg_threads s) d →
  match drain_tick d s with
  | None => drain_rank (sg_threads s) d = 0
  | Some (d', a) =>
      let ts' := sg_threads (act_opt rnd print_double iterate s a) in
      lively ts' d' ∧ drain_rank ts' d' < drain_rank (sg_threads s) d
  end.
Proof.
  intros Hl [He Hp]. unfold drain_tick, lively, drain_rank. destruct (dr_pos d) as [|k|] eqn:Hpos; [| |done].
  - destruct Hp as (Hwf & Hsz & Hlen & _). destruct (parse emptyRequest (parser (dr_conn d))) as [[[] req] p] eqn:Ep.
    + cbn. split; [by split|lia].
    + destruct (dr_envs d) as [|[env seen] envs]; [cbn in Hlen; lia|]. apply Forall_cons in He as [He1 He].
      destruct (parse_wf _ _ _ _ _ Hsz Hwf Ep) as [Hwf' Hc]; [done|]. destruct (Hc eq_refl) as (_ & n & Hn & Eb).
      cbn [act_opt from_option serve_act dr_pos dr_conn dr_envs set_parser parser]. destruct (next_id _ _) as [id counter]. cbn [sg_threads].
      rewrite list_lookup_middle by done. cbn [length] in Hlen. rewrite Eb, length_drop. split.
      * split; [done|]. split_and!; [done|unfold size_of in *; rewrite length_drop; lia|lia|].
        eexists. split; [reflexivity|]. by split.
      * cbn [from_option serve_rank sv_phase]. unfold serve_bound. nia.
    + cbn. split; [by split|lia].
  - destruct Hp as (Hwf & Hsz & Hlen & t & Hk & Ha). rewrite Hk.
    assert (match sv_phase t with Served _ _ => False | _ => True end → 0 < serve_rank g0 t) as Hpos'.
    { unfold serve_rank. destruct (sv_phase t); try done; lia. }
    assert (match sv_phase t with Served _ _ => False | _ => True end →
      let ts' := sg_threads (act_opt rnd print_double iterate s (Some (Serve k))) in
      lively ts' d ∧ drain_rank ts' d < drain_rank (sg_threads s) d) as Hgo.
    { intros Hn ts'. specialize (Hpos' Hn). destruct (act_opt_alive s (Some (Serve k)) k t Hl Hk Ha) as (t' & Hk' & Ha' & Hr).
      cbn [from_option is_turn] in Hr. rewrite bool_decide_eq_true_2 in Hr by done. fold ts' in Hk'.
      unfold lively, drain_rank. rewrite Hpos, Hk, Hk'. cbn [from_option]. split; [split_and!; try done; by exists t'|lia]. }
    unfold lively, drain_rank in Hgo. rewrite Hpos, Hk in Hgo. cbn [from_option] in Hgo |- *.
    destruct (sv_phase t) eqn:Hph; try (rewrite Hpos; exact (Hgo I)).
    cbn [act_opt from_option dr_envs dr_pos dr_conn queued parser closeAfterWrite].
    destruct (negb (rq_keepAlive (sv_req t))); (split; [by split_and!|lia]).
Qed.
(** How often drainer [i] is scheduled. *)
Definition is_drain (i : nat) (a : drain_action) : bool := match a with Drain j => bool_decide (j = i) | _ => false end.

Definition drains (i : nat) (schedule : list drain_action) : nat := length (List.filter (is_drain i) schedule).

Lemma drains_cons i a l : drains i (a :: l) = (if is_drain i a then 1 else 0) + drains i l.
Proof. unfold drains. cbn. by destruct (is_drain i a). Qed.

Lemma act_lively s a i d :
  drain_linked s → dg_drainers s !! i = Some d → lively (sg_threads (dg_serving s)) d →
  let s' := drain_act rnd print_double iterate s a in
  ∃ d', dg_drainers s' !! i = Some d' ∧ lively (sg_threads (dg_serving s')) d' ∧
    drain_rank (sg_threads (dg_serving s')) d' ≤ drain_rank (sg_threads (dg_serving s)) d - (if is_drain i a then 1 else 0).
Proof.
  intros [Hl _] Hi Hd. cbv zeta. rewrite drain_act_serves. pose proof (lively_others (dg_serving s) (serve_part s a) d Hl Hd) as [Hd' Hr'].
  destruct a as [j|c envs|b ok| |]; cbn [drain_act dg_drainers is_drain].
  - cbn [serve_part] in *. destruct (dg_drainers s !! j) as [dj|] eqn:Hj; cbn [mbind option_bind] in *.
    2: { exists d. split_and!; [done|done|]. rewrite bool_decide_eq_false_2 by (intros ->; congruence). lia. }
    pose proof (lively_tick (dg_serving s) dj Hl) as Ht. destruct (decide (j = i)) as [->|Hne].
    + rewrite Hi in Hj. injection Hj as <-. specialize (Ht Hd). rewrite bool_decide_eq_true_2 by done.
      destruct (drain_tick d (dg_serving s)) as [[d' a]|]; cbn [mbind option_bind] in *.
      * exists d'. cbn [dg_drainers]. rewrite list_lookup_insert_eq by (by eapply lookup_lt_Some). split_and!; [done|exact (proj1 Ht)|].
        destruct Ht as [_ Ht]. cbv zeta in Ht. lia.
      * exists d. split_and!; [done|done|lia].
    + rewrite bool_decide_eq_false_2 by done.
      destruct (drain_tick dj (dg_serving s)) as [[dj' a]|]; cbn [mbind option_bind dg_drainers] in *; exists d;
        rewrite ?list_lookup_insert_ne by done; (split_and!; [done|done|lia]).
  - exists d. split_and!; [by apply lookup_app_l_Some|done|lia].
  - exists d. split_and!; [done|done|lia].
  - exists d. split_and!; [done|done|lia].
  - exists d. split_and!; [done|done|lia].
Qed.

Lemma run_drain_linked schedule s :
  drain_linked s → Forall fresh_readable schedule → drain_linked (run_drain rnd print_double iterate schedule s).
Proof.
  revert s. induction schedule as [|a l IH]; intros s Hl Hf; [done|]. apply Forall_cons in Hf as [Ha Hf].
  apply (IH (drain_act rnd print_double iterate s a)); [by apply act_drain_linked|done].
Qed.

Lemma run_lively schedule s i d :
  drain_linked s → Forall fresh_readable schedule → dg_drainers s !! i = Some d → lively (sg_threads (dg_serving s)) d →
  drain_rank (sg_threads (dg_serving s)) d ≤ drains i schedule →
  ∃ d', dg_drainers (run_drain rnd print_double iterate schedule s) !! i = Some d' ∧ dr_pos d' = Drained.
Proof.
  revert s d. induction schedule as [|a l IH]; intros s d Hl Hf Hi Hd Hr.
  { exists d. split; [done|]. unfold drain_rank in Hr. cbn [drains List.filter length] in Hr. destruct (dr_pos d); [|cbn in Hr; lia|done].
    cbn in Hr. lia. }
  apply Forall_cons in Hf as [Ha Hf]. destruct (act_lively s a i d Hl Hi Hd) as (d1 & Hi1 & Hd1 & Hr1). rewrite drains_cons in Hr.
  apply (IH _ d1); [by apply act_drain_linked|done|done|done|lia].
Qed.
End live.

(** The operations draining a connection takes at most. *)
Definition drain_bound (gw : Gateway) (c : ClientConnection) : nat := 1 + length (buffer_ (parser c)) * (serve_bound gw + 3).

(** ** A drainer that is alone computes [drain] *)

Section alone.
Context (rnd : Q → Q) (print_double : Q → bytes) (iterate : gmap bytes bytes → header_list).

Lemma serve_rtc_req t gw t' gw' : rtc (serve_rel rnd print_double iterate) (t, gw) (t', gw') → sv_req t' = sv_req t.
Proof.
  remember (t, gw) as s eqn:Es. remember (t', gw') as s' eqn:Es'. intros H. revert t gw Es.
  induction H as [s|s [t1 gw1] s2 H1 _ IH]; intros t gw ->; [by injection Es' as -> ->|].
  rewrite (IH Es' t1 gw1 eq_refl). by destruct (serve_tick_static _ _ _ _ _ _ _ H1) as (_ & E & _).
Qed.

(** The operations of one drainer. *)
Definition drain_rel (s s' : draining) : Prop := drain_act rnd print_double iterate s (Drain 0) = s'.

Lemma drain_rel_run s s' : rtc drain_rel s s' → ∃ n, run_drain rnd print_double iterate (replicate n (Drain 0)) s = s'.
Proof.
  induction 1 as [s|s s1 s2 H1 _ [n Hn]]; [by exists 0|]. exists (S n). unfold run_drain in *. cbn [replicate foldl]. by rewrite H1.
Qed.

Lemma serving_alone d k ts t gw t' gw' :
  rtc (serve_rel rnd print_double iterate) (t, gw) (t', gw') → dr_pos d = Handling k → ts !! k = Some t →
  rtc drain_rel (mkDraining (mkServing gw ts) [d]) (mkDraining (mkServing gw' (<[k := t']> ts)) [d]).
Proof.
  remember (t, gw) as s eqn:Es. remember (t', gw') as s' eqn:Es'. intros H. revert t gw ts Es.
  induction H as [s|s s1 s2 H1 _ IH]; intros t gw ts -> Hpos Hk.
  { injection Es' as -> ->. rewrite list_insert_id by done. apply rtc_refl. }
  destruct s1 as [t1 gw1]. unfold serve_rel in H1. cbn [fst snd] in H1.
  eapply rtc_l; [|specialize (IH Es' t1 gw1 (<[k := t1]> ts) eq_refl Hpos); rewrite list_insert_insert_eq in IH; apply IH].
  - unfold drain_rel. cbn [drain_act dg_drainers dg_serving lookup list_lookup mbind option_bind]. unfold drain_tick. rewrite Hpos. cbn [sg_threads].
    rewrite Hk. assert (∀ kd r, sv_phase t ≠ Served kd r) as Hn.
    { intros kd r E. unfold serve_tick in H1. by rewrite E in H1. }
    assert (act_opt rnd print_double iterate (mkServing gw ts) (Some (Serve k)) = mkServing gw1 (<[k := t1]> ts)) as Ea.
    { cbn [act_opt from_option serve_act sg_threads sg_gw]. by rewrite Hk, H1. }
    destruct (sv_phase t); try (by rewrite Ea). by destruct (Hn k0 resp).
  - by rewrite list_lookup_insert_eq by (by eapply lookup_lt_Some).
Qed.

(** One tick of the drainer, whatever it is. *)
Lemma drain_alone_step d gw ts d' a s' :
  drain_tick d (mkServing gw ts) = Some (d', a) →
  rtc drain_rel (mkDraining (act_opt rnd print_double iterate (mkServing gw ts) a) [d']) s' →
  rtc drain_rel (mkDraining (mkServing gw ts) [d]) s'.
Proof. intros Ht. apply rtc_l. unfold drain_rel. cbn. by rewrite Ht. Qed.

Lemma drain_alone envs c g c' g' ts log :
  drain rnd print_double iterate envs (c, g) = Some (c', g') →
  ∃ seens ts' d, length seens = length envs ∧ dr_conn d = c' ∧ dr_pos d = Drained ∧
    rtc drain_rel (mkDraining (mkServing g ts) [mkDrainer c (zip envs seens) Parsing log]) (mkDraining (mkServing g' ts') [d]).
Proof.
  revert c g ts log. induction envs as [|env envs IH]; intros c g ts log; [done|]. cbn [drain].
  destruct (parse emptyRequest (parser c)) as [[[] req] p] eqn:Ep.
  - intros [= <- <-]. eexists (replicate (S (length envs)) newMetrics), ts, _. rewrite length_replicate.
    split_and!; [done| | |eapply drain_alone_step; [unfold drain_tick; cbn [dr_pos dr_conn]; by rewrite Ep|apply rtc_refl]]; done.
  - destruct (next_id (rv_suffix env) (id_counter g)) as [id counter] eqn:Eid.
    destruct (handleRequest _ _ _ _ _ _) as [[c2 g2]|] eqn:Hh; [|done]. intros Hd.
    destruct (handle_alone _ _ _ _ _ _ _ _ _ _ Hh eq_refl) as (t' & kd & resp & Hr & Hph & Ec).
    set (seen := incRequests (metrics (set_ids counter g))) in *. set (req1 := set_requestId req id) in *.
    set (t := mkServe (clientIp (set_parser p c)) req1 env seen None Arrived) in *.
    set (log2 := log ++ [(req1, resp)]). set (ts2 := <[length ts := t']> (ts ++ [t])).
    assert (∀ envs2 s', rtc drain_rel (mkDraining (mkServing g2 ts2) [mkDrainer c2 envs2 (if closeAfterWrite c2 then Drained else Parsing) log2]) s' →
      rtc drain_rel (mkDraining (mkServing g ts) [mkDrainer c ((env, seen) :: envs2) Parsing log]) s') as Hgo.
    { intros envs2 s' Hs. eapply drain_alone_step; [unfold drain_tick; cbn [dr_pos dr_conn dr_envs]; rewrite Ep; reflexivity|].
      cbn [act_opt from_option serve_act sg_gw sg_threads]. rewrite Eid.
      etransitivity; [eapply (serving_alone _ (length ts)); [exact Hr|done|by apply list_lookup_middle]|].
      apply (drain_alone_step _ _ _ (mkDrainer c2 envs2 (if closeAfterWrite c2 then Drained else Parsing) log2) None); [|exact Hs]. unfold drain_tick. cbn [dr_pos sg_threads].
      match goal with |- context [?l !! length ts] => change l with ts2 end.
      assert (ts2 !! length ts = Some t') as -> by (unfold ts2; apply list_lookup_insert_eq; rewrite length_app; cbn; lia).
      rewrite Hph. rewrite (serve_rtc_req _ _ _ _ Hr). subst c2. reflexivity. }
    destruct (closeAfterWrite c2).
    + injection Hd as <- <-. eexists (seen :: replicate (length envs) newMetrics), ts2, _. cbn [length zip zip_with]. rewrite length_replicate.
      split_and!; [done| | |apply Hgo, rtc_refl]; done.
    + destruct (IH c2 g2 ts2 log2 Hd) as (seens & ts' & d & Hl & H1 & H2 & H3). exists (seen :: seens), ts', d.
      cbn [length zip zip_with]. rewrite Hl. split_and!; [done|done|done|]. by apply Hgo.
  - intros [= <- <-]. eexists (replicate (S (length envs)) newMetrics), ts, _. rewrite length_replicate.
    split_and!; [done| | |eapply drain_alone_step; [unfold drain_tick; cbn [dr_pos dr_conn]; by rewrite Ep|apply rtc_refl]]; done.
Qed.
End alone.

(** ** A connection that becomes readable *)

Section readable.
Context (rnd : Q → Q) (print_double : Q → bytes) (iterate : gmap bytes bytes → header_list).
Context (gw : Gateway) (before after : list drain_action) (c : ClientConnection) (envs : list (request_env * Metrics)).

Local Abbreviation start := (mkDraining (mkServing gw []) []).
Local Abbreviation final := (run_drain rnd print_double iterate (before ++ Readable c envs :: after) start).
Local Abbreviation i := (length (dg_drainers (run_drain rnd print_double iterate before start))).

Lemma readable_start :
  let s1 := drain_act rnd print_double iterate (run_drain rnd print_double iterate before start) (Readable c envs) in
  dg_drainers s1 !! i = Some (start_drainer c envs) ∧ final = run_drain rnd print_double iterate after s1.
Proof.
  intros s1. split; [cbn; by apply list_lookup_middle|]. unfold s1, run_drain. by rewrite foldl_app.
Qed.

Lemma readable_ok : ∃ d, dg_drainers final !! i = Some d ∧ drain_ok c (sg_threads (dg_serving final)) d.
Proof.
  destruct readable_start as [Hi ->]. exact (run_drain_ok rnd print_double iterate c _ after _ _ Hi (start_drain_ok c _ envs)).
Qed.

(** Every response has a reason. *)
Lemma log_explained log :
  cache_ok (cache_ gw) → abs (cache_ gw) = [] → Forall (answered_by c (sg_threads (dg_serving final))) log →
  Forall (λ e, ∃ t k, t ∈ sg_threads (dg_serving final) ∧ sv_ip t = clientIp c ∧ sv_req t = e.1 ∧
    explained rnd print_double iterate gw (sg_threads (dg_serving final)) t k e.2) log.
Proof.
  intros Hc Ha Hl. assert (integrity rnd print_double iterate gw (dg_serving final)) as Hint.
  { rewrite run_drain_serves. by apply run_integrity, start_integrity. }
  eapply Forall_impl; [exact Hl|]. intros e (k & t & kind & Hk & H1 & H2 & H3). pose proof (list_elem_of_lookup_2 _ _ _ Hk) as Hin.
  exists t, kind. split_and!; [done|done|done|]. pose proof (in_threads _ _ _ _ _ Hint t Hin) as Hex. unfold phase_explained in Hex.
  by rewrite H3 in Hex.
Qed.

(** Its environment answers all its requests. *)
Record drainable : Prop := {
  db_rest : at_rest gw;
  db_fresh : Forall fresh_readable (before ++ Readable c envs :: after);
  db_parser : parser_wf (parser c);
  db_size : (size_of (buffer_ (parser c)) < 2 ^ 64)%Z;
  db_envs : length (buffer_ (parser c)) < length envs;
  db_answers : Forall (λ e, answered gw e.1) envs;
  db_turns : drain_bound gw c ≤ drains i after
}.

Lemma readable_drained :
  drainable → ∃ d rs, dg_drainers final !! i = Some d ∧ dr_pos d = Drained ∧
    Forall2 (λ r e, ∃ id, e.1 = set_requestId r id) rs (dr_log d) ∧ drained_with c (dr_conn d) rs (dr_log d) ∧
    Forall (answered_by c (sg_threads (dg_serving final))) (dr_log d).
Proof.
  intros [Hr Hf Hwf Hsz Hlen Hans Hturns]. destruct readable_ok as (d & Hd & [_ (rs & Hrs & Hpr) Hs]).
  destruct readable_start as [Hi Ef]. apply Forall_app in Hf as [Hb [Hc Ha]%Forall_cons].
  assert (drain_linked gw (drain_act rnd print_double iterate (run_drain rnd print_double iterate before start) (Readable c envs))) as Hl.
  { apply act_drain_linked; [|done]. apply run_drain_linked; [|done]. split; [by apply start_linked|done]. }
  destruct (run_lively rnd print_double iterate gw after _ _ _ Hl Ha Hi) as (d' & Hd' & Hpos); [by split_and!|done|].
  rewrite <- Ef in Hd'. assert (d' = d) as -> by congruence. exists d, rs. unfold progress in Hpr. rewrite Hpos in Hpr. by split_and!.
Qed.
End readable.

(** ** Theorems *)

(** C2: every client gets its own responses, in its own order.  Whatever other
    workers do at once, and wherever the schedule stands: what draining a
    connection has added to its output is the responses to the requests
    parsed from its buffer, one each, in their order, each serialized for
    the connection mode its request asks for, and nothing else but the
    answer to a malformed request at the end.  Each response is explained:
    it is what a backend of the matched route answered to this request, a
    copy of such an answer to a request with the same cache key, or the
    gateway's own. *)
Theorem responses_in_order rnd print_double iterate gw before c envs after :
  cache_ok (cache_ gw) → abs (cache_ gw) = [] →
  let start := mkDraining (mkServing gw []) [] in
  let s := run_drain rnd print_double iterate (before ++ Readable c envs :: after) start in
  ∃ d rs, dg_drainers s !! length (dg_drainers (run_drain rnd print_double iterate before start)) = Some d ∧
    Forall2 (λ r e, ∃ id, e.1 = set_requestId r id) rs (dr_log d) ∧
    progress c (sg_threads (dg_serving s)) rs d ∧
    Forall (λ e, ∃ t k, t ∈ sg_threads (dg_serving s) ∧ sv_ip t = clientIp c ∧ sv_req t = e.1 ∧
      explained rnd print_double iterate gw (sg_threads (dg_serving s)) t k e.2) (dr_log d).
Proof.
  intros Hc Ha start s. destruct (readable_ok rnd print_double iterate gw before after c envs) as (d & Hd & [_ (rs & Hrs & Hpr) Hs]).
  exists d, rs. split_and!; [exact Hd|done|exact Hpr|]. by apply log_explained.
Qed.

(** Two clients, each with two requests in its buffer; their workers'
    operations alternate. *)
Definition drain_conn (ip : bytes) : ClientConnection := set_parser (append two_requests newHttpParser) (newClientConnection ip 0).

Definition drain_envs : list (request_env * Metrics) := replicate 60 (demo_request_env, newMetrics).

Definition drain_before : list drain_action := [Opened_; Readable (drain_conn (str "10.1.1.1")) drain_envs; Drain 0].

Definition drain_after : list drain_action := concat (replicate (drain_bound demo_closed (drain_conn (str "10.1.1.2"))) [Drain 1; Drain 0]).

Definition drain_demo : draining :=
  run_drain rnd64 demo_print_double map_to_list (drain_before ++ Readable (drain_conn (str "10.1.1.2")) drain_envs :: take 120 drain_after)
    (mkDraining (mkServing demo_closed []) []).

Lemma responses_in_order_witness :
  (λ d, length (dr_log d)) <$> dg_drainers drain_demo = [2; 2] ∧
  ∃ d rs, dg_drainers drain_demo !! 1 = Some d ∧
    Forall2 (λ r e, ∃ id, e.1 = set_requestId r id) rs (dr_log d) ∧
    progress (drain_conn (str "10.1.1.2")) (sg_threads (dg_serving drain_demo)) rs d ∧
    Forall (λ e, ∃ t k, t ∈ sg_threads (dg_serving drain_demo) ∧ sv_ip t = str "10.1.1.2" ∧ sv_req t = e.1 ∧
      explained rnd64 demo_print_double map_to_list demo_closed (sg_threads (dg_serving drain_demo)) t k e.2) (dr_log d).
Proof.
  split; [vm_compute; reflexivity|].
  refine (responses_in_order rnd64 demo_print_double map_to_list demo_closed drain_before (drain_conn (str "10.1.1.2")) drain_envs
    (take 120 drain_after) _ _).
  - apply new_cache_ok. lia.
  - reflexivity.
Defined.

(** C3: every connection is drained, whatever the others do.  A connection that
    becomes readable at any time at a gateway that was at rest, and whose
    requests' backend exchanges end, is drained once its worker has done
    [drain_bound] operations: its output is then the responses to every
    request its buffer held, in their order, up to the first that asks to
    close, the first malformed one, or the end of the buffer. *)
Theorem draining_live rnd print_double iterate gw before c envs after :
  at_rest gw → Forall fresh_readable (before ++ Readable c envs :: after) →
  parser_wf (parser c) → (size_of (buffer_ (parser c)) < 2 ^ 64)%Z →
  length (buffer_ (parser c)) < length envs → Forall (λ e, answered gw e.1) envs →
  let start := mkDraining (mkServing gw []) [] in
  let i := length (dg_drainers (run_drain rnd print_double iterate before start)) in
  drain_bound gw c ≤ drains i after →
  ∃ d rs, dg_drainers (run_drain rnd print_double iterate (before ++ Readable c envs :: after) start) !! i = Some d ∧
    dr_pos d = Drained ∧ Forall2 (λ r e, ∃ id, e.1 = set_requestId r id) rs (dr_log d) ∧ drained_with c (dr_conn d) rs (dr_log d).
Proof.
  intros Hr Hf Hwf Hsz Hlen Hans start i Hturns.
  destruct (readable_drained rnd print_double iterate gw before after c envs) as (d & rs & H1 & H2 & H3 & H4 & _); [done|].
  exists d, rs. by split_and!.
Qed.

Lemma drain_after_fresh : Forall fresh_readable drain_after.
Proof.
  unfold drain_after. generalize (drain_bound demo_closed (drain_conn (str "10.1.1.2"))). intros n. induction n as [|n IH]; [constructor|]. by repeat constructor.
Qed.

Lemma drain_envs_fresh : fresh_envs drain_envs.
Proof. apply Forall_replicate. repeat constructor; apply demo_env_fresh. Qed.

Lemma draining_live_witness :
  let start := mkDraining (mkServing demo_closed []) [] in
  ∃ d rs, dg_drainers (run_drain rnd64 demo_print_double map_to_list
      (drain_before ++ Readable (drain_conn (str "10.1.1.2")) drain_envs :: drain_after) start) !! 1 = Some d ∧
    dr_pos d = Drained ∧ Forall2 (λ r e, ∃ id, e.1 = set_requestId r id) rs (dr_log d) ∧
    drained_with (drain_conn (str "10.1.1.2")) (dr_conn d) rs (dr_log d).
Proof.
  refine (draining_live rnd64 demo_print_double map_to_list demo_closed drain_before (drain_conn (str "10.1.1.2")) drain_envs drain_after
    demo_at_rest _ _ _ _ _ _).
  - apply Forall_app. split; [by repeat (apply Forall_cons; split; [first [apply drain_envs_fresh|done]|])|]. constructor; [apply drain_envs_fresh|apply drain_after_fresh].
  - apply append_wf, newHttpParser_wf.
  - vm_compute. reflexivity.
  - by_decide.
  - apply Forall_replicate, demo_attempts.
  - apply Nat.leb_le. vm_compute. reflexivity.
Defined.

(** C13: one connection alone is drained as [drain] says.  The operations of a
    worker that nobody interrupts take a connection and the gateway to what
    the sequential [drain] computes from them. *)
Theorem drain_steps_agree rnd print_double iterate envs c g c' g' :
  drain rnd print_double iterate envs (c, g) = Some (c', g') →
  ∃ seens n, length seens = length envs ∧
    let s := run_drain rnd print_double iterate (replicate n (Drain 0))
      (mkDraining (mkServing g []) [start_drainer c (zip envs seens)]) in
    sg_gw (dg_serving s) = g' ∧ ∃ d, dg_drainers s = [d] ∧ dr_conn d = c' ∧ dr_pos d = Drained.
Proof.
  intros H. destruct (drain_alone _ _ _ _ _ _ _ _ [] [] H) as (seens & ts' & d & Hl & H1 & H2 & Hr).
  destruct (drain_rel_run _ _ _ _ _ Hr) as [n Hn]. exists seens, n. split; [done|]. unfold start_drainer. rewrite Hn. cbn. by eauto.
Qed.

Lemma drain_steps_agree_witness :
  match drain rnd64 demo_print_double map_to_list drain_envs.*1 (drain_conn (str "10.1.1.1"), demo_closed) with
  | Some (c', g') => ∃ seens n, length seens = length drain_envs.*1 ∧
      let s := run_drain rnd64 demo_print_double map_to_list (replicate n (Drain 0))
        (mkDraining (mkServing demo_closed []) [start_drainer (drain_conn (str "10.1.1.1")) (zip drain_envs.*1 seens)]) in
      sg_gw (dg_serving s) = g' ∧ ∃ d, dg_drainers s = [d] ∧ dr_conn d = c' ∧ dr_pos d = Drained
  | None => False
  end.
Proof.
  destruct (drain rnd64 demo_print_double map_to_list drain_envs.*1 (drain_conn (str "10.1.1.1"), demo_closed)) as [[c' g']|] eqn:E.
  - exact (drain_steps_agree rnd64 demo_print_double map_to_list drain_envs.*1 (drain_conn (str "10.1.1.1")) demo_closed c' g' E).
  - assert (is_Some (drain rnd64 demo_print_double map_to_list drain_envs.*1 (drain_conn (str "10.1.1.1"), demo_closed))) as [? Hs]
      by (vm_compute; by eexists). by rewrite E in Hs.
Defined.
