(* ===== verification/WorkerRun.v ===== *)
(** * A worker's life, and the metrics server
      (src/core/Gateway.cpp, lines 38-56 and 279-305)

    [Worker::run]: the listening socket is registered, rounds of the event
    loop dispatch to the accept loop, to the connections and to the idle
    sweep until the gateway stops, and the remaining connections are closed.
    Around it, the thread of a worker opens and closes the epoll descriptor
    and the listening socket.  The environment of a callback is taken from a
    list, one entry per callback; bytes sent are logged with the descriptor
    they went to. *)
From Stdlib Require Import QArith.
From S2P Require Import Prelude CxxString Rounding HttpMessage HttpParser LRUCache CircuitBreaker RateLimiter LoadBalancer Router ConnectionPool Metrics Observability BackendIO Forward EventLoop TcpServer Worker WorkerPipeline WorkerConnections WorkerMetrics.
Local Open Scope nat_scope.

Definition gauge (g : Gateway) : Z := activeConnections_ (metrics g).

(** The registry after some of the worker's life, [m0] being the registry at
    its start: the gauge counts the worker's connections on top, the types
    are kept and the books balanced. *)
Record gauge_ok (m0 : Metrics) (w : Worker) : Prop := {
  go_gauge : gauge (gw_ w) = wrap64 (activeConnections_ m0 + Z.of_nat (size (conns_ w)));
  go_typed : metrics_typed m0 → metrics_typed (metrics (gw_ w));
  go_books : in_service (metrics (gw_ w)) = in_service m0
}.

Lemma close_gauge base fd w : gauge_ok base w → gauge_ok base (closeConnection fd w).
Proof.
  intros H. unfold closeConnection. destruct (conns_ w !! fd) as [c|] eqn:E; [|done]. destruct H as [H Ht Hb].
  split; cbn [gw_ conns_]; [|intros Hm; by apply connection_typed, Ht|done].
  change (gauge (on_metrics connectionClosed (gw_ w))) with (wrap64 (gauge (gw_ w) + -1)).
  rewrite H, wrap64_add. f_equal. rewrite map_size_delete, E.
  assert (size (conns_ w) ≠ 0) by (intros E0%map_size_empty_inv; by rewrite E0, lookup_empty in E). simpl. lia.
Qed.

Lemma close_list_gauge base fds w : gauge_ok base w → gauge_ok base (foldl (flip closeConnection) w fds).
Proof. revert w. induction fds as [|fd fds IH]; intros w H; [done|]. by apply IH, close_gauge. Qed.

Lemma accept_gauge base fd ip now w w' :
  gauge_ok base w → conns_ w !! fd = None → onAccept fd ip now w = Some w' → gauge_ok base w'.
Proof.
  unfold onAccept. intros [H Ht Hb] Hn. cbn [loop_]. destruct (loop_add _ _ _) as [l|]; [|done].
  intros [= <-]. split; cbn [gw_ conns_ set_loop]; [|intros Hm; by apply connection_typed, Ht|done].
  change (gauge (on_metrics connectionOpened (gw_ w))) with (wrap64 (gauge (gw_ w) + 1)).
  rewrite H, wrap64_add, map_size_insert_None by done. f_equal. lia.
Qed.

Lemma set_conn_gauge base fd c g w :
  gauge_ok base w → is_Some (conns_ w !! fd) → accounted 0 (metrics (gw_ w)) (metrics g) →
  gauge_ok base (set_gw g (set_conn fd c w)).
Proof.
  intros [H Ht Hb] [c0 Hc] [At Ag Ab]. split; cbn [gw_ conns_ set_gw set_conn]; [|auto|].
  - unfold gauge in *. rewrite Ag, H. by rewrite (map_size_insert_Some _ _ _ _ Hc) || rewrite map_size_insert, Hc.
  - by rewrite Ab, Z.add_0_r, in_service_range.
Qed.

Lemma set_loop_gauge base l w : gauge_ok base w → gauge_ok base (set_loop l w).
Proof. by intros [H1 H2 H3]. Qed.

Lemma flush_gauge base ws fd w out w' :
  gauge_ok base w → flushIfPossible ws fd w = Some (out, w') → gauge_ok base w'.
Proof.
  intros H. unfold flushIfPossible. destruct (conns_ w !! fd) as [c|] eqn:Hc; [|by intros [= _ <-]].
  destruct (negb _); [by intros [= _ <-]|].
  assert (∀ c', gauge_ok base (set_conn fd c' w)) as Hs.
  { intros c'. apply (set_conn_gauge base fd c' (gw_ w) w); [done|by eexists|apply accounted_refl]. }
  destruct (write_socket ws c) as [[[[] o] c']|]; [..|done].
  - destruct (closeAfterWrite _); [intros [= _ <-]; by apply close_gauge|].
    destruct (loop_modify _ _ _) as [l|]; [|done]. intros [= _ <-]. apply set_loop_gauge, Hs.
  - destruct (loop_modify _ _ _) as [l|]; [|done]. intros [= _ <-]. apply set_loop_gauge, Hs.
  - intros [= _ <-]. by apply close_gauge.
Qed.

(** What the environment answers while one callback runs. *)
Record callback_env := mkCallbackEnv {
  cb_accepts : list accept_answer;
  cb_event_env : event_env;
  cb_writes : list write_answer
}.

(** The worker, the environments left, and what was sent. *)
Record run_state := mkRun {
  rs_worker : Worker;
  rs_envs : list callback_env;
  rs_sent : list (Z * bytes)
}.

Section run.
Context (rnd : Q → Q) (print_double : Q → bytes) (iterate : gmap bytes bytes → header_list).
Context (listen : Z).

(** The callbacks [run] and [onAccept] register. *)
Definition callback (fd events : Z) (s : run_state) : option run_state :=
  match rs_envs s with
  | [] => None
  | env :: envs =>
      if decide (fd = listen) then
        w ← acceptAll client_fds onAccept (cb_accepts env) (rs_worker s);
        Some (mkRun w envs (rs_sent s))
      else
        match onEvent rnd print_double iterate (cb_event_env env) (cb_writes env) fd events (rs_worker s) with
        | None => None
        | Some (out, w) => Some (mkRun w envs (rs_sent s ++ [(fd, out)]))
        end
  end.

Definition sweep_tick (now : Z) (s : run_state) : run_state :=
  mkRun (sweepIdleConnections now (rs_worker s)) (rs_envs s) (rs_sent s).

(** One round: what [epoll_wait] answers, and the clock of the sweep. *)
Definition worker_poll (round : wait_answer * Z) (s : run_state) : option run_state :=
  loop_poll (λ s, loop_ (rs_worker s)) callback (sweep_tick round.2) round.1 s.

Fixpoint poll_rounds (rounds : list (wait_answer * Z)) (s : run_state) : option run_state :=
  match rounds with
  | [] => Some s
  | r :: rounds' => s' ← worker_poll r s; poll_rounds rounds' s'
  end.

(** [run] once it listens, with the worker's event loop: [rounds] are the
    rounds until [running_] is cleared. *)
Definition worker_run (loop : EventLoop) (g : Gateway) (rounds : list (wait_answer * Z)) (envs : list callback_env)
    : option run_state :=
  l ← loop_add listen EPOLLIN loop;
  s ← poll_rounds rounds (mkRun (mkWorker ∅ l ∅ g) envs []);
  Some (mkRun (close_all_connections (rs_worker s)) (rs_envs s) (rs_sent s)).

End run.

Record thread_env := mkThreadEnv {
  th_epoll : gset Z → Z;           (* epoll_create1 *)
  th_listen : listen_env
}.

(** The thread of a worker (lines 522-525): the event loop of the [Worker], the
    listening socket of [run], the run, and their destructors.  [None] is an
    exception, which leaves the thread. *)
Definition worker_thread rnd print_double iterate (env : thread_env) (host : bytes) (port : Z) (g : Gateway)
    (rounds : list (wait_answer * Z)) (envs : list callback_env) (sockets : sock_table) (epolls : gset Z)
    : option (run_state * sock_table * gset Z) :=
  let epollFd := th_epoll env epolls in
  '(loop, opened) ← createEventLoop epollFd epolls;
  match newTcpServer (th_listen env) host port 1024 sockets with
  | (inl _, _) => None
  | (inr listenFd, sockets') =>
      s ← worker_run rnd print_double iterate listenFd loop g rounds envs;
      Some (s, deleteTcpServer listenFd sockets', deleteEventLoop epollFd opened)
  end.

Section run_invariant.
Context (rnd : Q → Q) (print_double : Q → bytes) (iterate : gmap bytes bytes → header_list).
Context (listen : Z).
Local Abbreviation callback := (callback rnd print_double iterate listen).
Local Abbreviation worker_poll := (worker_poll rnd print_double iterate listen).
Local Abbreviation poll_rounds := (poll_rounds rnd print_double iterate listen).

Lemma onEvent_gauge base env ws fd events w out w' :
  gauge_ok base w → onEvent rnd print_double iterate env ws fd events w = Some (out, w') → gauge_ok base w'.
Proof.
  intros H. unfold onEvent. destruct (negb _); [intros [= _ <-]; by apply close_gauge|].
  assert (∀ o1 w1, (if negb (Z.land events EPOLLIN =? 0)%Z then onReadable rnd print_double iterate env fd w
                    else Some ([], w)) = Some (o1, w1) → gauge_ok base w1) as Hread.
  { intros o1 w1. destruct (negb _); [|by intros [= _ <-]]. unfold onReadable.
    destruct (conns_ w !! fd) as [c|] eqn:Hc; [|by intros [= _ <-]].
    destruct (read_socket _ _) as [[[]|c1]|]; [intros [= _ <-]; by apply close_gauge| |done].
    destruct (drain _ _ _ _ _) as [[c2 g]|] eqn:Hd; [|done]. apply drain_accounted in Hd.
    apply flush_gauge. apply set_conn_gauge; [done|by eexists|done]. }
  destruct (if negb (Z.land events EPOLLIN =? 0)%Z then _ else _) as [[o1 w1]|]; [|done].
  specialize (Hread o1 w1 eq_refl). destruct (conns_ w1 !! fd); [|by intros [= _ <-]].
  destruct (negb _); [|by intros [= _ <-]]. unfold onWritable.
  destruct (flushIfPossible _ _ _) as [[o2 w2]|] eqn:Hfl; [|done]. intros [= _ <-]. by eapply flush_gauge.
Qed.

(** ** The invariant through a run *)

Definition envs_fresh (envs : list callback_env) : Prop :=
  Forall (λ env, Forall (alloc_fresh listen) (cb_accepts env)) envs.

(** The worker's tables agree and the gauge counts its connections. *)
Definition healthy_worker (base : Metrics) (w : Worker) : Prop := worker_ok listen w ∧ gauge_ok base w.

Definition run_ok (base : Metrics) (s : run_state) : Prop :=
  healthy_worker base (rs_worker s) ∧ envs_fresh (rs_envs s).

Lemma accept_healthy base fd ip now w :
  healthy_worker base w → fd ∉ client_fds w → fd ≠ listen →
  ∃ w', onAccept fd ip now w = Some w' ∧ healthy_worker base w'.
Proof.
  intros [Hok Hg] H1 H2. destruct (onAccept_ok listen fd ip now w Hok H1 H2) as (w' & Ha & Hok' & _).
  exists w'. split; [done|]. split; [done|]. eapply accept_gauge; [done| |done].
  rewrite (w_fds _ _ Hok) in H1. by apply not_elem_of_dom.
Qed.

Lemma accept_loop_healthy base answers w w' :
  healthy_worker base w → Forall (alloc_fresh listen) answers →
  acceptAll client_fds onAccept answers w = Some w' → healthy_worker base w'.
Proof.
  revert w. induction answers as [|a answers IH]; intros w Hok Hf; [done|].
  apply Forall_cons in Hf as [Ha Hf].
  destruct a as [alloc ip now| | |]; simpl; [|by intros [= <-]|by apply IH|by intros [= <-]].
  destruct (Ha (client_fds w)) as [H1 H2].
  destruct (accept_healthy base _ ip now w Hok H1 H2) as (w1 & -> & Hok1). simpl. by apply IH.
Qed.

Lemma callback_ok base fd events s s' : run_ok base s → callback fd events s = Some s' → run_ok base s'.
Proof.
  intros [[Hok Hg] Hf]. unfold callback. destruct (rs_envs s) as [|env envs] eqn:E; [done|].
  unfold envs_fresh in Hf. rewrite ?E in Hf. apply Forall_cons in Hf as [Hf1 Hf]. destruct (decide (fd = listen)).
  - destruct (acceptAll _ _ _ _) as [w|] eqn:Ha; [|done]. intros [= <-].
    split; [|done]. by eapply accept_loop_healthy.
  - destruct (onEvent _ _ _ _ _ _ _ _) as [[out w]|] eqn:He; [|done]. intros [= <-].
    split; [split; [by eapply onEvent_ok|by eapply onEvent_gauge]|done].
Qed.

Lemma dispatch_ok base events s s' :
  run_ok base s → dispatch (λ s, loop_ (rs_worker s)) callback events s = Some s' → run_ok base s'.
Proof.
  revert s. induction events as [|[fd mask] events IH]; intros s Hs; simpl; [by intros [= <-]|].
  destruct (decide _); [|by apply IH]. destruct (callback fd mask s) as [s1|] eqn:Hc; [|done].
  simpl. apply IH. by eapply callback_ok.
Qed.

Lemma worker_poll_ok base r s s' : run_ok base s → worker_poll r s = Some s' → run_ok base s'.
Proof.
  intros Hs. unfold worker_poll, loop_poll. destruct r.1 as [events| |]; [|by intros [= <-]|done].
  intros (s1 & Hd & ->)%fmap_Some.
  apply (dispatch_ok base) in Hd as [[Hok Hg] Hf]; [|done].
  split; [split; [by apply close_list_ok|by apply close_list_gauge]|done].
Qed.

Lemma poll_rounds_ok base rounds s s' : run_ok base s → poll_rounds rounds s = Some s' → run_ok base s'.
Proof.
  revert s. induction rounds as [|r rounds IH]; intros s Hs; simpl; [by intros [= <-]|].
  destruct (worker_poll r s) as [s1|] eqn:Hp; [|done]. simpl. apply IH. by eapply worker_poll_ok.
Qed.

Lemma close_all_empty w : conns_ (close_all_connections w) = ∅.
Proof.
  apply map_eq. intros fd. unfold close_all_connections. rewrite close_list_conns, lookup_empty.
  destruct (decide _) as [|Hn]; [done|]. destruct (conns_ w !! fd) as [c|] eqn:E; [|done]. destruct Hn.
  apply list_elem_of_fmap. exists (fd, c). split; [done|]. by apply elem_of_map_to_list.
Qed.
End run_invariant.

(** ** The metrics server *)

Section metrics_server.
Context (rnd : Q → Q) (print_double : Q → bytes).

(** Lines 288-292: the page. *)
Definition metrics_page (uptime : Q) (g : Gateway) : bytes :=
  serialize false
    (setHeader (str "Connection") (str "close")
      (setHeader (str "Content-Type") (str "text/plain; version=0.0.4; charset=utf-8")
        (make 200 (str "OK") (toPrometheusText rnd print_double uptime (metrics g))))).

(** Lines 293-298: what [send] answers, one number per call; how much went
    out. *)
Fixpoint send_page (len : nat) (answers : list Z) (sent : nat) : option nat :=
  if decide (sent < len) then
    match answers with
    | [] => None
    | n :: answers' => if (n <=? 0)%Z then Some sent else send_page len answers' (sent + Z.to_nat n)
    end
  else Some sent.

(** Open sockets of the metrics server and the pages sent. *)
Record metrics_state := mkMetricsState { ms_open : gset Z; ms_out : list (Z * bytes) }.

(** Lines 287-300, [sends] being the answers of [send] on that connection. *)
Definition onMetricsAccept (g : Gateway) (uptime : Q) (sends : Z → list Z)
    (fd : Z) (ip : bytes) (now : Z) (s : metrics_state) : option metrics_state :=
  let wire := metrics_page uptime g in
  n ← send_page (length wire) (sends fd) 0;
  Some (mkMetricsState (({[fd]} ∪ ms_open s) ∖ {[fd]}) (ms_out s ++ [(fd, take n wire)])).

Definition metrics_round (g : Gateway) (uptime : Q) (sends : Z → list Z) (answers : list accept_answer)
    (s : metrics_state) : option metrics_state :=
  acceptAll ms_open (onMetricsAccept g uptime sends) answers s.
End metrics_server.

(** ** Theorems *)

Lemma run_leaves_nothing rnd print_double iterate listen g rounds envs s :
  (- 2 ^ 63 ≤ gauge g < 2 ^ 63)%Z → envs_fresh listen envs →
  worker_run rnd print_double iterate listen newEventLoop g rounds envs = Some s →
  client_fds (rs_worker s) = ∅ ∧ conns_ (rs_worker s) = ∅ ∧ gauge (gw_ (rs_worker s)) = gauge g ∧
  gauge_ok (metrics g) (rs_worker s).
Proof.
  intros Hb Hf. unfold worker_run, loop_add, newEventLoop. cbn [interest callbacks_]. rewrite lookup_empty.
  cbn [mbind option_bind].
  set (w0 := mkWorker _ _ _ _). assert (healthy_worker listen (metrics g) w0) as H0.
  { split.
    - pose proof (fresh_worker_ok listen g) as [H1 H2 H3 H4]. split; try done; unfold w0; simpl.
      unfold loop_ok. simpl. rewrite dom_insert_L, dom_empty_L. set_solver.
    - split; [|done|done]. unfold w0. cbn [gw_ conns_]. by rewrite map_size_empty, Z.add_0_r, wrap64_small. }
  destruct (poll_rounds _ _ _ _ _ _) as [s1|] eqn:Hp; [|done]. intros [= <-]. cbn [rs_worker].
  apply (poll_rounds_ok _ _ _ _ (metrics g)) in Hp as [[Hok Hg] _]; [|by split].
  pose proof (close_list_ok listen (fst <$> map_to_list (conns_ (rs_worker s1))) _ Hok) as [Hl Hk Hfds _].
  pose proof (close_list_gauge (metrics g) (fst <$> map_to_list (conns_ (rs_worker s1))) _ Hg) as Hg'.
  fold (close_all_connections (rs_worker s1)) in *. pose proof (go_gauge _ _ Hg') as Hgauge.
  rewrite close_all_empty in *. rewrite dom_empty_L in *.
  split_and!; [done|done| |done]. by rewrite Hgauge, map_size_empty, Z.add_0_r, wrap64_small.
Qed.

(** C17: a worker that stops leaves nothing behind.  However many rounds of
    events a worker goes through (any reads, writes, errors, accepts, sweeps
    and interrupted waits), when its thread ends no client socket is open, no
    connection is in its table, the gauge of active connections is what it
    was before the worker started (every accept has been matched by one
    close), and its listening socket and epoll descriptor are closed: the
    tables of sockets and of epoll descriptors are as they were. *)
Theorem worker_run_cleans_up rnd print_double iterate env host port g rounds envs sockets epolls s sockets' epolls' :
  (- 2 ^ 63 ≤ gauge g < 2 ^ 63)%Z → le_socket (th_listen env) (dom sockets) ∉ dom sockets →
  th_epoll env epolls ∉ epolls → envs_fresh (le_socket (th_listen env) (dom sockets)) envs →
  worker_thread rnd print_double iterate env host port g rounds envs sockets epolls = Some (s, sockets', epolls') →
  client_fds (rs_worker s) = ∅ ∧ conns_ (rs_worker s) = ∅ ∧ gauge (gw_ (rs_worker s)) = gauge g ∧
  sockets' = sockets ∧ epolls' = epolls.
Proof.
  intros Hb Hs He Hf. unfold worker_thread, createEventLoop.
  destruct (Z.ltb_spec (th_epoll env epolls) 0); [done|]. cbn [mbind option_bind].
  destruct (newTcpServer _ _ _ _ _) as [[err|fd] t'] eqn:Ht; [done|].
  destruct (newTcpServer_closed _ _ _ _ _ _ _ Hs Ht) as [-> Hd].
  destruct (worker_run _ _ _ _ _ _ _ _) as [s1|] eqn:Hr; [|done]. cbn [mbind option_bind]. intros [= <- <- <-].
  destruct (run_leaves_nothing _ _ _ _ _ _ _ _ Hb Hf Hr) as (H1 & H2 & H3 & _).
  split_and!; try done. unfold deleteEventLoop. case_if; [set_solver|lia].
Qed.

(** A client that connects, sends a request in two pieces and goes away. *)
Definition demo_rounds : list (wait_answer * Z) :=
  [(Ready [(3, 1)], 10); (Ready [(7, 1)], 20); (Interrupted, 25); (Ready [(7, 1)], 30)]%Z.

Definition first_free (used : gset Z) : Z := set_fold (λ fd m, Z.max (fd + 1) m) 7%Z used.

Definition demo_envs : list callback_env :=
  [mkCallbackEnv [Accepted first_free (str "10.1.1.1") 5; AAgain] (mkEventEnv [] [] []) [];
   mkCallbackEnv [] (mkEventEnv [RData (str "GET /gateway/health HTTP/1.1" ++ crlf) 6] [demo_request_env] []) [];
   mkCallbackEnv []
     (mkEventEnv [RData crlf 7] [demo_request_env; demo_request_env] [Wrote 10; Wrote 68]) []].

Lemma first_free_fresh used : first_free used ∉ used ∧ first_free used ≠ 3%Z.
Proof.
  assert (∀ fd, fd ∈ used → (fd < first_free used)%Z) as H.
  { intros fd. unfold first_free. revert used.
    apply (set_fold_ind_L (λ m used, fd ∈ used → (fd < m)%Z)); [set_solver|].
    intros x used m _ IH [->%elem_of_singleton|Hin%IH]%elem_of_union; lia. }
  assert (7 ≤ first_free used)%Z as H7.
  { clear H. unfold first_free. revert used. apply (set_fold_ind_L (λ m used, (7 ≤ m)%Z)); lia. }
  split; [|lia]. intros Hin%H. lia.
Qed.

Definition demo_thread_env : thread_env := mkThreadEnv first_free (listen_ok 3).

Definition demo_run : option (run_state * sock_table * gset Z) :=
  worker_thread rnd64 demo_print_double map_to_list demo_thread_env (str "0.0.0.0") 8080 demo_closed demo_rounds demo_envs ∅ {[7%Z]}.

Lemma worker_run_cleans_up_witness :
  match demo_run with
  | Some (s, sockets, epolls) => (length <$> (rs_sent s).*2) = [0; 78] ∧ client_fds (rs_worker s) = ∅ ∧
      gauge (gw_ (rs_worker s)) = gauge demo_closed ∧ sockets = ∅ ∧ epolls = {[7%Z]}
  | None => False
  end.
Proof.
  destruct demo_run as [[[s sockets] epolls]|] eqn:E.
  2: { assert (is_Some demo_run) as [? Hs] by (vm_compute; by eexists). by rewrite E in Hs. }
  destruct (worker_run_cleans_up rnd64 demo_print_double map_to_list demo_thread_env (str "0.0.0.0") 8080 demo_closed
    demo_rounds demo_envs ∅ {[7%Z]} s sockets epolls) as (H1 & _ & H2 & H3 & H4).
  - vm_compute. split; congruence.
  - rewrite dom_empty_L. apply not_elem_of_empty.
  - apply first_free_fresh.
  - repeat constructor; apply first_free_fresh.
  - exact E.
  - refine (conj _ (conj H1 (conj H2 (conj H3 H4)))).
    assert ((λ r, length <$> (rs_sent r.1.1).*2) <$> demo_run = Some [0; 78]) as Hlen by (vm_compute; reflexivity).
    rewrite E in Hlen. by injection Hlen.
Defined.

(** The registry is typed and balanced after any life of a worker.  Started
    on a registry whose values are in the range of their types, whose arrays
    have their lengths and in which no request is in service, a worker leaves
    such a registry, whatever it served: the histogram's total is the sum of
    its buckets (in 64-bit arithmetic), and every request counted has
    recorded exactly one latency. *)
Theorem metrics_stay_typed rnd print_double iterate listen g rounds envs s :
  metrics_typed (metrics g) → requests_ (metrics g) = total_ (latency_ (metrics g)) → envs_fresh listen envs →
  worker_run rnd print_double iterate listen newEventLoop g rounds envs = Some s →
  let m := metrics (gw_ (rs_worker s)) in
  metrics_typed m ∧ requests_ m = total_ (latency_ m) ∧ total_ (latency_ m) = u64 (sum_counts (counts_ (latency_ m))).
Proof.
  intros Ht Hb Hf Hr. destruct (run_leaves_nothing _ _ _ _ _ _ _ _ (mt_gauge _ Ht) Hf Hr) as (_ & _ & _ & [_ Ht' Hb']).
  cbv zeta. specialize (Ht' Ht). split_and!; [done| |apply mt_latency, Ht'].
  apply balanced; [done|]. rewrite Hb'. unfold in_service. rewrite Hb, Z.sub_diag. reflexivity.
Qed.

Lemma metrics_stay_typed_witness :
  match worker_run rnd64 demo_print_double map_to_list 3 newEventLoop demo_closed demo_rounds demo_envs with
  | Some s => let m := metrics (gw_ (rs_worker s)) in
      metrics_typed m ∧ requests_ m = total_ (latency_ m) ∧ total_ (latency_ m) = u64 (sum_counts (counts_ (latency_ m)))
  | None => False
  end.
Proof.
  destruct (worker_run rnd64 demo_print_double map_to_list 3 newEventLoop demo_closed demo_rounds demo_envs) as [s|] eqn:E.
  - refine (metrics_stay_typed rnd64 demo_print_double map_to_list 3 demo_closed demo_rounds demo_envs s _ _ _ E).
    + apply newMetrics_typed.
    + reflexivity.
    + repeat constructor; apply first_free_fresh.
  - exfalso.
    assert (is_Some (worker_run rnd64 demo_print_double map_to_list 3 newEventLoop demo_closed demo_rounds demo_envs)) as [? Hs]
      by (vm_compute; by eexists). by rewrite E in Hs.
Defined.

(** The metrics server answers every connection and keeps none.  Given the
    answers of the system calls, one round accepts all pending connections,
    sends each the metrics page (or, when a [send] fails, a prefix of it) and
    closes it. *)
Theorem metrics_server_serves rnd print_double g uptime sends answers s listen :
  Forall (alloc_fresh listen) answers → existsb ends_accept answers = true →
  (∀ fd, is_Some (send_page (length (metrics_page rnd print_double uptime g)) (sends fd) 0)) →
  ∃ s' new, metrics_round rnd print_double g uptime sends answers s = Some s' ∧
    ms_open s' = ms_open s ∧ ms_out s' = ms_out s ++ new ∧
    Forall (λ p, p.2 `prefix_of` metrics_page rnd print_double uptime g) new.
Proof.
  intros Hf He. unfold metrics_round, onMetricsAccept. cbv zeta.
  generalize (metrics_page rnd print_double uptime g) as page. intros page Hs.
  match goal with |- context [acceptAll ms_open ?f answers s] => set (accept := f) end.
  destruct (acceptAll_ok ms_open accept listen
    (λ s', ms_open s' = ms_open s ∧ ∃ new, ms_out s' = ms_out s ++ new ∧ Forall (λ p, p.2 `prefix_of` page) new)
    answers s) as (s' & H & Ho & new & Hn & Hp); [|done|done| |].
  - intros fd ip now s1 (Ho & new & Hn & Hp) Hfd _. unfold accept.
    destruct (Hs fd) as [n ->]. eexists. split; [reflexivity|]. cbn [ms_open ms_out]. split; [set_solver|].
    exists (new ++ [(fd, take n page)]). rewrite Hn, app_assoc. split; [done|].
    apply Forall_app. split; [done|]. repeat constructor. apply prefix_take.
  - split; [done|]. exists []. by rewrite app_nil_r.
  - by exists s', new.
Qed.
