(* ===== verification/GatewayBuild.v ===== *)
(** * Building the gateway from its configuration
      (src/core/Gateway.cpp, lines 263-275 and 307-332)

    [Gateway::Gateway] and [buildRouter]: one shared backend per address of
    the configuration, one load balancer per group, found by the group's name,
    and one route per configured route whose group exists.  The load
    balancers a [shared_ptr] refers to are indices into [gw_lbs].  The theorems
    connect the configuration to the hypotheses under which forwarding and
    the workers were verified: a gateway built from a loaded file meets
    them. *)
From Stdlib Require Import QArith.
From S2P Require Import Prelude CxxString Rounding CxxDouble CircuitBreaker RateLimiter RetryPolicy LRUCache HttpMessage LoadBalancer Router ConnectionPool Metrics BackendIO Config ConfigRoundTrip Forward Worker WorkerPipeline.
Local Open Scope nat_scope.

(** Lines 311-315. *)
Definition make_backend (c : GatewayConfig) (b : BackendConfig) : Backend :=
  mkBackend (bc_host b) (bc_port b) true 0
    (newCircuitBreaker (circuitFailureThreshold c) (circuitResetTimeoutMs c) 1).

Definition strategy_of (g : BackendGroupConfig) : LbStrategy :=
  if key_is (bg_strategy g) "least_connections" then LeastConnections else RoundRobin.

(** [allBackends_] and [loadBalancers_]; a second group of the same name
    takes the name over. *)
Record build := mkBuild {
  bd_backends : bstore;
  bd_lbs : list LoadBalancer;
  bd_names : gmap bytes nat
}.

(** Lines 309-320: one group. *)
Definition add_group (c : GatewayConfig) (bd : build) (g : BackendGroupConfig) : build :=
  let first := length (bd_backends bd) in
  let bs := make_backend c <$> bg_backends g in
  mkBuild (bd_backends bd ++ bs)
    (bd_lbs bd ++ [newLoadBalancer (seq first (length bs)) (strategy_of g)])
    (<[bg_name g := length (bd_lbs bd)]> (bd_names bd)).

Definition build_groups (c : GatewayConfig) : build :=
  foldl (add_group c) (mkBuild [] [] ∅) (backendGroups c).

Section build.
Context (sort : (Route → Route → bool) → list Route → list Route).

(** Lines 324-330: one route; an unknown group is skipped with a warning. *)
Definition add_config_route (names : gmap bytes nat) (router : list Route) (r : RouteConfig) : list Route :=
  match names !! rc_backendGroup r with
  | None => router
  | Some i => addRoute sort (mkRoute (rc_pathPrefix r) i (rc_cacheable r)) router
  end.

Definition buildRouter (c : GatewayConfig) : build * list Route :=
  let bd := build_groups c in
  (bd, foldl (add_config_route (bd_names bd)) [] (routes c)).

(** The constructor.  The model of the rate limiter covers finite rates. *)
Definition newGateway (c : GatewayConfig) : option Gateway :=
  match rateLimitRefillPerSecond c with
  | Finite refill =>
      let '(bd, router) := buildRouter c in
      Some (mkGateway (cfg_maxResponseBodyBytes c) (bd_backends bd) (bd_lbs bd) router
              (newRateLimiter (QArith_base.inject_Z (rateLimitCapacity c)) refill)
              (mkRetryPolicy (retryMax c) (retryBaseDelayMs c) (retryMaxDelayMs c))
              (newLRUCache (cacheCapacity c) (cacheTtlMs c))
              (newConnectionPool (maxIdleConnsPerBackend c) (connectTimeoutMs c)) ∅ newMetrics 0)
  | _ => None
  end.
End build.

(** ** What the built tables hold *)

(** The balancer built for a group: its backends are those of the group, in
    order. *)
Definition serves (c : GatewayConfig) (bs : bstore) (l : LoadBalancer) (g : BackendGroupConfig) : Prop :=
  l = newLoadBalancer (backends_ l) (strategy_of g) ∧
  (λ i, bs !! i) <$> backends_ l = (λ b, Some (make_backend c b)) <$> bg_backends g.

Record build_ok (c : GatewayConfig) (gs : list BackendGroupConfig) (bd : build) : Prop := {
  bo_backends : bd_backends bd = concat ((λ g, make_backend c <$> bg_backends g) <$> gs);
  bo_lbs : Forall2 (serves c (bd_backends bd)) (bd_lbs bd) gs;
  bo_names n i : bd_names bd !! n = Some i → ∃ g, gs !! i = Some g ∧ bg_name g = n;
  bo_known g : g ∈ gs → is_Some (bd_names bd !! bg_name g)
}.

Lemma lookup_seq_app (bs new : bstore) :
  (λ i, (bs ++ new) !! i) <$> seq (length bs) (length new) = Some <$> new.
Proof.
  apply list_eq. intros i. rewrite !list_lookup_fmap. destruct (decide (i < length new)) as [H|H].
  - rewrite lookup_seq_lt by done. simpl. rewrite lookup_app_r by lia.
    rewrite Nat.add_comm, Nat.add_sub. destruct (lookup_lt_is_Some_2 new i H) as [x ->]. done.
  - rewrite lookup_seq_ge, (lookup_ge_None_2 new) by lia. done.
Qed.

Lemma serves_app c bs more l g : serves c bs l g → serves c (bs ++ more) l g.
Proof.
  intros [E H]. split; [done|]. rewrite <- H. apply list_fmap_ext. intros k i Hk.
  assert ((λ i, bs !! i) <$> backends_ l = (λ b, Some (make_backend c b)) <$> bg_backends g) as H' by done.
  apply (f_equal (λ xs, xs !! k)) in H'. rewrite !list_lookup_fmap, Hk in H'. simpl in H'.
  destruct (bg_backends g !! k); simpl in H'; [|done]. injection H' as H'.
  rewrite lookup_app_l; [done|]. by eapply lookup_lt_Some.
Qed.

Lemma add_group_ok c gs bd g : build_ok c gs bd → build_ok c (gs ++ [g]) (add_group c bd g).
Proof.
  intros [Hb Hl Hn Hk]. pose proof (Forall2_length _ _ _ Hl) as Hlen. split; simpl.
  - rewrite fmap_app, concat_app, <- Hb. simpl. by rewrite app_nil_r.
  - apply Forall2_app; [eapply Forall2_impl; [exact Hl|]; intros; by apply serves_app|].
    constructor; [|constructor]. split; [done|]. simpl. rewrite lookup_seq_app.
    by rewrite <- list_fmap_compose.
  - intros n i. destruct (decide (n = bg_name g)) as [->|Hne].
    + rewrite lookup_insert_eq. intros [= <-]. exists g. split; [|done].
      rewrite Hlen. by rewrite list_lookup_middle.
    + rewrite lookup_insert_ne by done. intros (g' & Hg & E)%Hn. exists g'. split; [|done].
      by apply lookup_app_l_Some.
  - intros g' [Hg|E%list_elem_of_singleton]%elem_of_app.
    + destruct (decide (bg_name g' = bg_name g)) as [->|Hne]; [rewrite lookup_insert_eq; by eexists|].
      rewrite lookup_insert_ne by done. by apply Hk.
    + rewrite E, lookup_insert_eq. by eexists.
Qed.

Lemma build_groups_ok c : build_ok c (backendGroups c) (build_groups c).
Proof.
  unfold build_groups. generalize (backendGroups c) as gs. intros gs.
  induction gs as [|g gs IH] using rev_ind.
  - split; simpl; [done|constructor|intros n i; by rewrite lookup_empty|set_solver].
  - rewrite foldl_app. by apply add_group_ok.
Qed.

(** ** Routes *)

(** A route of the router and the configuration it comes from. *)
Definition route_from (names : gmap bytes nat) (rc : RouteConfig) (r : Route) : Prop :=
  names !! rc_backendGroup rc = Some (lb r) ∧ pathPrefix r = rc_pathPrefix rc ∧
  cacheable r = rc_cacheable rc.

Lemma config_routes_spec sort `{!StdSort sort} names rcs r :
  r ∈ foldl (add_config_route sort names) [] rcs ↔ ∃ rc, rc ∈ rcs ∧ route_from names rc r.
Proof.
  induction rcs as [|rc rcs IH] using rev_ind; simpl; [set_solver|].
  rewrite foldl_app. cbn [foldl]. unfold add_config_route at 1.
  destruct (names !! rc_backendGroup rc) as [i|] eqn:E.
  - unfold addRoute. rewrite sort_permutes, elem_of_app, IH, list_elem_of_singleton. split.
    + intros [(rc' & H & Hf)| ->]; [exists rc'; set_solver|]. exists rc. split; [set_solver|done].
    + intros (rc' & [H| ->%list_elem_of_singleton]%elem_of_app & Hf); [left; eauto|right].
      destruct Hf as (E' & E1 & E2). destruct r; simpl in *. congruence.
  - rewrite IH. split; intros (rc' & H & Hf); exists rc'; (split; [|done]); [set_solver|].
    apply elem_of_app in H as [H| ->%list_elem_of_singleton]; [done|]. destruct Hf. congruence.
Qed.

(** ** The built gateway *)

Lemma newGateway_Some sort c g :
  newGateway sort c = Some g →
  ∃ refill, rateLimitRefillPerSecond c = Finite refill ∧
    gw_backends g = bd_backends (build_groups c) ∧ gw_lbs g = bd_lbs (build_groups c) ∧
    router_ g = foldl (add_config_route sort (bd_names (build_groups c))) [] (routes c) ∧
    rateLimiter_ g = newRateLimiter (QArith_base.inject_Z (rateLimitCapacity c)) refill ∧
    retryPolicy_ g = mkRetryPolicy (retryMax c) (retryBaseDelayMs c) (retryMaxDelayMs c) ∧
    cache_ g = newLRUCache (cacheCapacity c) (cacheTtlMs c) ∧
    pool_ g = newConnectionPool (maxIdleConnsPerBackend c) (connectTimeoutMs c) ∧ os_sockets g = ∅.
Proof.
  unfold newGateway. destruct (rateLimitRefillPerSecond c) as [q| |]; [|done..]. simpl. intros [= <-].
  by exists q.
Qed.

(** Everything the theorems on forwarding and on the workers ask of the
    gateway they start from. *)
Record gateway_ready (g : Gateway) : Prop := {
  gr_counters : counters_ok g;
  gr_pointers : pointers_ok g;
  gr_pool : pool_inv (pool_at_rest g);
  gr_cache : cache_sound g;
  gr_limiter : rl_ok (rateLimiter_ g)
}.

Lemma serves_pointers c bs l g : serves c bs l g → Forall (λ i, i < length bs) (backends_ l).
Proof.
  intros [_ H]. apply Forall_forall. intros i [k Hk]%list_elem_of_lookup.
  apply (f_equal (λ xs, xs !! k)) in H. rewrite !list_lookup_fmap, Hk in H. simpl in H.
  destruct (bg_backends g !! k); simpl in H; [|done]. injection H as H. by eapply lookup_lt_Some.
Qed.

Lemma built_ready sort c g :
  config_typed c → config_valid c → newGateway sort c = Some g → gateway_ready g.
Proof.
  intros Ht Hv (refill & Er & Eb & El & _ & Elim & _ & Ec & Ep & Eo)%newGateway_Some.
  destruct (build_groups_ok c) as [Hb Hl _ _]. split.
  - unfold counters_ok. rewrite Eb, Hb. apply Forall_concat_fmap, Forall_forall. intros gr _.
    apply Forall_fmap, Forall_forall. intros b _. simpl. unfold int_min, int_max. lia.
  - unfold pointers_ok. rewrite Eb, El. apply Forall_forall. intros l [i Hi]%list_elem_of_lookup.
    destruct (Forall2_lookup_l _ _ _ _ _ Hl Hi) as (gr & _ & Hs). by eapply serves_pointers.
  - unfold pool_at_rest. rewrite Ep, Eo. apply initial_pool_inv. apply Ht.
  - unfold cache_sound. rewrite Ec. split; [apply new_cache_ok, Ht|constructor].
  - rewrite Elim. pose proof (ty_rate _ Ht) as Hr. unfold int_ok, int_max in Hr. split; simpl.
    + exists (rateLimitCapacity c). split; [done|]. pose proof (cv_capacity _ Hv). lia.
    + pose proof (cv_refill _ Hv) as H. rewrite Er in H. simpl in H. apply Qle_bool_false in H.
      by apply Qlt_le_weak.
    + intros k b. by rewrite lookup_empty.
Qed.

(** Requests handled one after the other on one connection. *)
Fixpoint handle_all rnd print_double iterate (work : list (request_env * HttpRequest))
    (cg : ClientConnection * Gateway) : option (ClientConnection * Gateway) :=
  match work with
  | [] => Some cg
  | (env, req) :: work' =>
      cg' ← handleRequest rnd print_double iterate env req cg;
      handle_all rnd print_double iterate work' cg'
  end.

Lemma handle_all_returns rnd print_double iterate work c g :
  counters_ok g → pointers_ok g → cache_sound g → Forall (λ w, attempts_ok g w.1) work →
  ∃ c' g' resps, handle_all rnd print_double iterate work (c, g) = Some (c', g') ∧
    length resps = length work ∧
    pendingWrite c' =
      pendingWrite c ++ concat (zip_with (λ w resp, serialize (rq_keepAlive w.2) resp) work resps) ∧
    steady g g' ∧ cache_sound g'.
Proof.
  revert c g. induction work as [|[env req] work IH]; intros c g Hc Hp Hs Ha.
  - exists c, g, []. simpl. by rewrite app_nil_r.
  - apply Forall_cons in Ha as [Ha1 Ha]. simpl in Ha1.
    destruct (handleRequest_returns rnd print_double iterate env req c g Hc Hp Ha1) as [[c1 g1] H1].
    destruct (handleRequest_one _ _ _ _ _ _ _ _ _ H1) as [resp (E1 & _)].
    pose proof (handleRequest_steady _ _ _ _ _ _ _ _ _ Hc H1) as Hst.
    destruct (IH c1 g1) as (c' & g' & resps & H2 & Hl & E2 & Hst2 & Hs2).
    + by eapply steady_counters.
    + by eapply steady_pointers.
    + by eapply handleRequest_sound.
    + eapply Forall_impl; [exact Ha|]. intros w Hw. by eapply attempts_ok_steady.
    + exists c', g', (resp :: resps). cbn [handle_all]. rewrite H1. simpl. split_and!; [done|by f_equal| | |done].
      * by rewrite E2, E1, <- app_assoc.
      * by transitivity g1.
Qed.

(** ** Theorems *)

(** C28: a loaded configuration builds the gateway it describes.  For every
    file that loads, the gateway built from it satisfies every hypothesis of
    the theorems on forwarding and on the workers (in-flight counters and
    pointers valid, pool and cache invariants, a limiter within its
    capacity); every route of the router comes from a configured route and
    leads to the balancer of a group of that name, whose backends are the
    configured addresses in order, healthy, idle and with closed breakers;
    and every configured route whose group exists is there. *)
Theorem gateway_built rnd sort `{!StdSort sort} file c g :
  loadFromFile rnd file = inr c → newGateway sort c = Some g →
  gateway_ready g ∧
  (∀ r, r ∈ router_ g → ∃ rc gr l, rc ∈ routes c ∧ gr ∈ backendGroups c ∧
     bg_name gr = rc_backendGroup rc ∧ pathPrefix r = rc_pathPrefix rc ∧ cacheable r = rc_cacheable rc ∧
     gw_lbs g !! lb r = Some l ∧ serves c (gw_backends g) l gr) ∧
  (∀ rc gr, rc ∈ routes c → gr ∈ backendGroups c → bg_name gr = rc_backendGroup rc →
     ∃ r, r ∈ router_ g ∧ pathPrefix r = rc_pathPrefix rc ∧ cacheable r = rc_cacheable rc).
Proof.
  intros [Ht Hv]%load_valid Hg. split; [by eapply built_ready|].
  apply newGateway_Some in Hg as (_ & _ & Eb & El & Er & _).
  destruct (build_groups_ok c) as [_ Hl Hn Hk]. rewrite Eb, El, Er. split.
  - intros r (rc & Hrc & Hi & Ep & Ec)%(config_routes_spec sort).
    destruct (Hn _ _ Hi) as (gr & Hgr & En).
    destruct (Forall2_lookup_r _ _ _ _ _ Hl Hgr) as (l & Hlb & Hs).
    exists rc, gr, l. split_and!; try done. by eapply list_elem_of_lookup_2.
  - intros rc gr Hrc Hgr En. destruct (Hk gr Hgr) as [i Hi]. rewrite En in Hi.
    exists (mkRoute (rc_pathPrefix rc) i (rc_cacheable rc)). split; [|done].
    apply (config_routes_spec sort). by exists rc.
Qed.

Definition demo_built : Gateway :=
  default (demo_gateway true (newCircuitBreaker 1 1 1)) (newGateway merge_routes demo_config).

Lemma demo_config_loads :
  loadFromFile rnd64 (Some (print_config (str "100") demo_config)) = inr demo_config.
Proof. vm_compute. reflexivity. Qed.

Lemma gateway_built_witness : gateway_ready demo_built ∧ length (router_ demo_built) = 2.
Proof.
  split; [|vm_compute; reflexivity].
  refine (proj1 (gateway_built rnd64 merge_routes _ demo_config demo_built demo_config_loads _)).
  vm_compute. reflexivity.
Defined.

(** End to end.  From the file to the bytes: whatever file loads, the
    gateway built from it answers every sequence of requests on a connection,
    given the events of their forwarding: it appends exactly one serialized
    response per request, in order, and caches only successful responses. *)
Theorem configured_gateway_serves rnd print_double iterate sort file c g work conn :
  loadFromFile rnd file = inr c → newGateway sort c = Some g →
  Forall (λ w, attempts_ok g w.1) work →
  ∃ conn' g' resps, handle_all rnd print_double iterate work (conn, g) = Some (conn', g') ∧
    length resps = length work ∧
    pendingWrite conn' =
      pendingWrite conn ++ concat (zip_with (λ w resp, serialize (rq_keepAlive w.2) resp) work resps) ∧
    cache_sound g'.
Proof.
  intros [Ht Hv]%load_valid Hg Ha. destruct (built_ready _ _ _ Ht Hv Hg) as [Hc Hp _ Hs _].
  destruct (handle_all_returns rnd print_double iterate work conn g Hc Hp Hs Ha)
    as (c' & g' & resps & H & Hl & E & _ & Hs'). by exists c', g', resps.
Qed.

Definition demo_work : list (request_env * HttpRequest) :=
  replicate 3 (mkRequestEnv 7 1 1000 1000 2000 (replicate 3 (demo_env demo_reply)) 300, demo_get).

Lemma configured_gateway_serves_witness :
  ∃ conn' g' resps,
    handle_all rnd64 demo_print_double map_to_list demo_work (demo_conn, demo_built) = Some (conn', g') ∧
    length resps = 3 ∧
    pendingWrite conn' =
      pendingWrite demo_conn ++
        concat (zip_with (λ w resp, serialize (rq_keepAlive w.2) resp) demo_work resps) ∧
    cache_sound g'.
Proof.
  apply (configured_gateway_serves rnd64 demo_print_double map_to_list merge_routes _ demo_config demo_built
    demo_work demo_conn demo_config_loads).
  - vm_compute. reflexivity.
  - repeat constructor; try apply demo_env_answers; vm_compute; congruence.
Defined.

Definition negative_yaml : bytes :=
  yaml ["retry:"; "  max_retries: -3"; "backend_groups:"; "  - name: a"; "    backends:"; "      - host: h";
        "        port: 9001"; "routes:"; "  - path_prefix: /"; "    backend_group: a"]%string.

(** Negative retries switch forwarding off.  A file with negative
    [max_retries] loads, and the gateway built from it answers every request
    to be forwarded with 503, without asking a backend or changing anything. *)
Theorem negative_retries_never_forward iterate envs route req :
  match loadFromFile rnd64 (Some negative_yaml) with
  | inr c =>
      match newGateway merge_routes c with
      | Some g => router_ g ≠ [] ∧ forwardWithResilience iterate envs route req g =
          Some (make 503 (str "Service Unavailable") (str "all retries exhausted"), g)
      | None => False
      end
  | inl _ => False
  end.
Proof. vm_compute. split; [congruence|reflexivity]. Qed.

(** So does the largest [max_retries] that loads: [maxRetries() + 1]
    overflows, and the loop is not entered. *)
Definition largest_retries_yaml : bytes :=
  yaml ["retry:"; "  max_retries: 2147483647"; "backend_groups:"; "  - name: a"; "    backends:"; "      - host: h";
        "        port: 9001"; "routes:"; "  - path_prefix: /"; "    backend_group: a"]%string.

Theorem largest_retries_never_forward iterate envs route req :
  match loadFromFile rnd64 (Some largest_retries_yaml) with
  | inr c =>
      match newGateway merge_routes c with
      | Some g => router_ g ≠ [] ∧ forwardWithResilience iterate envs route req g =
          Some (make 503 (str "Service Unavailable") (str "all retries exhausted"), g)
      | None => False
      end
  | inl _ => False
  end.
Proof. vm_compute. split; [congruence|reflexivity]. Qed.
