(* ===== verification/Lifecycle.v ===== *)
(** * Starting and stopping (src/core/Gateway.cpp, lines 277-305 and 512-537;
      src/network/HealthChecker.cpp, lines 14-23 and 66-80; src/main.cpp)

    The threads of the process as a machine: the thread inside [Gateway::run],
    the callers of [Gateway::stop] (a signal handler on the thread of [run],
    or another thread), the health checker with its condition variable, the
    metrics server and the workers.  One step is one access to a shared flag,
    one notification, one thread started or joined, or one round of a
    thread's own work, which ends because the waits of the code have
    timeouts; one of these, the health checker's wait for a backend, comes
    from the configuration unchecked, and a parameter says whether each check
    ends.  Joining a thread a second time is an error of the standard
    library, which ends the process here, as an exception that leaves a
    thread does. *)
From S2P Require Import Prelude.
Local Open Scope nat_scope.

(** [HealthChecker::run]: its position. *)
Inductive hc_pc :=
  | HNone                          (* not started *)
  | HLoop                          (* while (running_) *)
  | HChecking (k : nat)            (* backends left to check *)
  | HPredicate                     (* the predicate of wait_for *)
  | HBlocking                      (* before the wait itself *)
  | HWaiting                       (* waiting for the condition variable *)
  | HExited.

(** The flag, the [std::thread] (joinable or not) and the thread of the
    health checker. *)
Record checker := mkChecker { hc_running : bool; hc_joinable : bool; hc_thread : hc_pc }.

Inductive metrics_pc := PNone | PStarting | PLoop | PServing | PExited.
Inductive worker_pc := WStarting | WLoop | WPolling | WClosing | WExited.

(** [Gateway::run], the calls of [HealthChecker::start] and [stop] inlined. *)
Inductive main_pc :=
  | MSet | MHcFlag | MHcSpawn | MMetrics | MSpawn (k : nat) | MJoin (i : nat) | MJoinMetrics
  | MHcClear | MHcNotify | MHcJoinable | MHcJoin | MClose | MReturned.

(** [Gateway::stop], the call of [HealthChecker::stop] inlined. *)
Inductive stop_pc := SIdle | SExchange | SClear | SNotify | SJoinable | SJoin.

#[global] Instance hc_pc_eq_dec : EqDecision hc_pc.
Proof. solve_decision. Defined.
#[global] Instance metrics_pc_eq_dec : EqDecision metrics_pc.
Proof. solve_decision. Defined.
#[global] Instance worker_pc_eq_dec : EqDecision worker_pc.
Proof. solve_decision. Defined.
#[global] Instance main_pc_eq_dec : EqDecision main_pc.
Proof. solve_decision. Defined.
#[global] Instance stop_pc_eq_dec : EqDecision stop_pc.
Proof. solve_decision. Defined.

Record life := mkLife {
  running_ : bool;
  lf_checker : checker;
  lf_metrics : metrics_pc;
  lf_workers : list worker_pc;
  lf_main : main_pc;
  lf_stop : stop_pc;
  lf_calls : nat;                  (* calls of stop() still to come *)
  pool_closed : bool;
  crashed : bool
}.

(** A gateway about to [run], with [calls] calls of [stop] to come. *)
Definition start_life (calls : nat) : life :=
  mkLife false (mkChecker false false HNone) PNone [] MSet SIdle calls false false.

Definition set_running (b : bool) (s : life) : life :=
  mkLife b (lf_checker s) (lf_metrics s) (lf_workers s) (lf_main s) (lf_stop s) (lf_calls s) (pool_closed s) (crashed s).
Definition set_checker (c : checker) (s : life) : life :=
  mkLife (running_ s) c (lf_metrics s) (lf_workers s) (lf_main s) (lf_stop s) (lf_calls s) (pool_closed s) (crashed s).
Definition set_metrics (p : metrics_pc) (s : life) : life :=
  mkLife (running_ s) (lf_checker s) p (lf_workers s) (lf_main s) (lf_stop s) (lf_calls s) (pool_closed s) (crashed s).
Definition set_workers (ws : list worker_pc) (s : life) : life :=
  mkLife (running_ s) (lf_checker s) (lf_metrics s) ws (lf_main s) (lf_stop s) (lf_calls s) (pool_closed s) (crashed s).
Definition set_main (m : main_pc) (s : life) : life :=
  mkLife (running_ s) (lf_checker s) (lf_metrics s) (lf_workers s) m (lf_stop s) (lf_calls s) (pool_closed s) (crashed s).
Definition set_stop (p : stop_pc) (calls : nat) (s : life) : life :=
  mkLife (running_ s) (lf_checker s) (lf_metrics s) (lf_workers s) (lf_main s) p calls (pool_closed s) (crashed s).
Definition close_pool (s : life) : life :=
  mkLife (running_ s) (lf_checker s) (lf_metrics s) (lf_workers s) (lf_main s) (lf_stop s) (lf_calls s) true (crashed s).
Definition crash (s : life) : life :=
  mkLife (running_ s) (lf_checker s) (lf_metrics s) (lf_workers s) (lf_main s) (lf_stop s) (lf_calls s) (pool_closed s) true.

(** ** The health checker's object *)

Definition hc_set_running (b : bool) (c : checker) : checker := mkChecker b (hc_joinable c) (hc_thread c).
Definition hc_goto (p : hc_pc) (c : checker) : checker := mkChecker (hc_running c) (hc_joinable c) p.

(** [thread_ = std::thread(...)]. *)
Definition hc_spawn (c : checker) : checker := mkChecker (hc_running c) true HLoop.

(** [cv_.notify_all()] reaches a thread that waits. *)
Definition hc_notify (c : checker) : checker :=
  if decide (hc_thread c = HWaiting) then hc_goto HPredicate c else c.

(** [thread_.join()] returns. *)
Definition hc_joined (c : checker) : checker := mkChecker (hc_running c) false (hc_thread c).

Section machine.
Context (nworkers : nat)             (* cfg_.workerThreads *)
        (nbackends : nat)            (* backends to check *)
        (ends : nat → bool)          (* the check that leaves [k] backends to check comes to an end *)
        (listens : nat → bool)       (* worker [i] could set up its event loop and socket *)
        (metrics_listens : bool)     (* so could the metrics server *)
        (on_main : bool).            (* [stop] runs on the thread of [run] *)

(** [HealthChecker::run], lines 66-80. *)
Definition checker_act (s : life) : option life :=
  let c := lf_checker s in
  match hc_thread c with
  | HLoop => Some (set_checker (hc_goto (if hc_running c then HChecking nbackends else HExited) c) s)
  | HChecking (S k) => if ends k then Some (set_checker (hc_goto (HChecking k) c) s) else None
  | HChecking O => Some (set_checker (hc_goto HPredicate c) s)
  | HPredicate => Some (set_checker (hc_goto (if hc_running c then HBlocking else HLoop) c) s)
  | HBlocking => Some (set_checker (hc_goto HWaiting c) s)
  | HNone | HWaiting | HExited => None
  end.

(** The wait ends: after [interval_], or for no reason. *)
Definition wake_act (p : hc_pc) (s : life) : option life :=
  if decide (hc_thread (lf_checker s) = HWaiting) then Some (set_checker (hc_goto p (lf_checker s)) s) else None.

(** [join] on the health checker's thread, then [next]. *)
Definition hc_join_act (next : life → life) (s : life) : option life :=
  if decide (hc_thread (lf_checker s) = HExited) then
    if hc_joinable (lf_checker s) then Some (next (set_checker (hc_joined (lf_checker s)) s)) else Some (crash s)
  else None.

(** [runMetricsServer]: a failure to listen is caught. *)
Definition metrics_act (s : life) : option life :=
  match lf_metrics s with
  | PStarting => Some (set_metrics (if metrics_listens then PLoop else PExited) s)
  | PLoop => Some (set_metrics (if running_ s then PServing else PExited) s)
  | PServing => Some (set_metrics PLoop s)
  | PNone | PExited => None
  end.

(** The thread of worker [i]: an exception leaves the thread. *)
Definition worker_act (i : nat) (s : life) : option life :=
  match lf_workers s !! i with
  | Some WStarting => if listens i then Some (set_workers (<[i := WLoop]> (lf_workers s)) s) else Some (crash s)
  | Some WLoop => Some (set_workers (<[i := if running_ s then WPolling else WClosing]> (lf_workers s)) s)
  | Some WPolling => Some (set_workers (<[i := WLoop]> (lf_workers s)) s)
  | Some WClosing => Some (set_workers (<[i := WExited]> (lf_workers s)) s)
  | Some WExited | None => None
  end.

(** [Gateway::run]. *)
Definition main_act (s : life) : option life :=
  let c := lf_checker s in
  match lf_main s with
  | MSet => Some (set_main MHcFlag (set_running true s))
  | MHcFlag => Some (set_main MHcSpawn (set_checker (hc_set_running true c) s))
  | MHcSpawn => if hc_joinable c then Some (crash s) else Some (set_main MMetrics (set_checker (hc_spawn c) s))
  | MMetrics => Some (set_main (MSpawn nworkers) (set_metrics PStarting s))
  | MSpawn (S k) => Some (set_main (MSpawn k) (set_workers (lf_workers s ++ [WStarting]) s))
  | MSpawn O => Some (set_main (MJoin 0) s)
  | MJoin i =>
      match lf_workers s !! i with
      | None => Some (set_main MJoinMetrics s)
      | Some w => if decide (w = WExited) then Some (set_main (MJoin (S i)) s) else None
      end
  | MJoinMetrics => if decide (lf_metrics s = PExited) then Some (set_main MHcClear s) else None
  | MHcClear => Some (set_main MHcNotify (set_checker (hc_set_running false c) s))
  | MHcNotify => Some (set_main MHcJoinable (set_checker (hc_notify c) s))
  | MHcJoinable => Some (set_main (if hc_joinable c then MHcJoin else MClose) s)
  | MHcJoin => hc_join_act (set_main MClose) s
  | MClose => Some (set_main MReturned (close_pool s))
  | MReturned => None
  end.

(** [Gateway::stop], and a new call of it when idle. *)
Definition stop_act (s : life) : option life :=
  let c := lf_checker s in
  let n := lf_calls s in
  match lf_stop s with
  | SIdle => match n with O => None | S n' => Some (set_stop SExchange n' s) end
  | SExchange => Some (if running_ s then set_stop SClear n (set_running false s) else set_stop SIdle n s)
  | SClear => Some (set_stop SNotify n (set_checker (hc_set_running false c) s))
  | SNotify => Some (set_stop SJoinable n (set_checker (hc_notify c) s))
  | SJoinable => Some (set_stop (if hc_joinable c then SJoin else SIdle) n s)
  | SJoin => hc_join_act (set_stop SIdle n) s
  end.

Inductive actor := Main | Stopper | Checker | Timeout | Spurious | MetricsThread | WorkerThread (i : nat).

(** Whether the thread of [run] is inside a signal handler. *)
Definition interrupted (s : life) : bool := on_main && bool_decide (lf_stop s ≠ SIdle).

Definition life_act (a : actor) (s : life) : option life :=
  if crashed s then None
  else match a with
       | Main => if interrupted s then None else main_act s
       | Stopper => stop_act s
       | Checker => checker_act s
       | Timeout => wake_act HLoop s
       | Spurious => wake_act HPredicate s
       | MetricsThread => metrics_act s
       | WorkerThread i => worker_act i s
       end.

(** A turn of [a], or nothing when it is blocked or done. *)
Definition turn (s : life) (a : actor) : life := default s (life_act a s).

Definition run_life (schedule : list actor) (s : life) : life := foldl turn s schedule.
End machine.

(** ** The invariant of every run *)

(** Conjunctions of facts that are there or contradict each other. *)
Ltac by_parts := destruct_and?; split_and?; try done; try congruence; try (exfalso; congruence); try tauto.

Section invariant.
Context (nworkers nbackends : nat) (ends listens : nat → bool) (metrics_listens on_main : bool).
Local Abbreviation act := (life_act nworkers nbackends ends listens metrics_listens on_main).

Definition started (c : checker) : Prop := hc_thread c ≠ HNone.
Definition all_exited (ws : list worker_pc) : Prop := length ws = nworkers ∧ Forall (λ w, w = WExited) ws.

(** What holds at each position of [run]. *)
Definition main_ok (s : life) : Prop :=
  match lf_main s with
  | MSet => lf_workers s = [] ∧ lf_metrics s = PNone ∧ hc_thread (lf_checker s) = HNone ∧ running_ s = false ∧
      (lf_stop s = SIdle ∨ lf_stop s = SExchange)
  | MHcFlag | MHcSpawn => lf_workers s = [] ∧ lf_metrics s = PNone ∧ hc_thread (lf_checker s) = HNone
  | MMetrics => lf_workers s = [] ∧ lf_metrics s = PNone ∧ started (lf_checker s)
  | MSpawn k => length (lf_workers s) + k = nworkers ∧ lf_metrics s ≠ PNone ∧ started (lf_checker s)
  | MJoin i => length (lf_workers s) = nworkers ∧ i ≤ nworkers ∧ Forall (λ w, w = WExited) (take i (lf_workers s)) ∧
      lf_metrics s ≠ PNone ∧ started (lf_checker s)
  | MJoinMetrics => all_exited (lf_workers s) ∧ lf_metrics s ≠ PNone ∧ started (lf_checker s)
  | MHcClear => all_exited (lf_workers s) ∧ lf_metrics s = PExited ∧ started (lf_checker s)
  | MHcNotify | MHcJoinable | MHcJoin => all_exited (lf_workers s) ∧ lf_metrics s = PExited ∧
      started (lf_checker s) ∧ hc_running (lf_checker s) = false
  | MClose | MReturned => all_exited (lf_workers s) ∧ lf_metrics s = PExited ∧
      hc_thread (lf_checker s) = HExited ∧ hc_running (lf_checker s) = false
  end.

Record life_inv (s : life) : Prop := {
  li_main : main_ok s;
  li_joinable : if hc_joinable (lf_checker s) then started (lf_checker s)
                else hc_thread (lf_checker s) = HNone ∨ hc_thread (lf_checker s) = HExited;
  li_closed : pool_closed s = true ↔ lf_main s = MReturned;
  li_leaving w : w ∈ lf_workers s → w = WClosing ∨ w = WExited → running_ s = false
}.

Lemma start_inv calls : life_inv (start_life calls).
Proof. split; cbn; [by split_and!; auto|by left|done|]. intros w Hw. by apply elem_of_nil in Hw. Qed.

(** *** Steps of the health checker *)

Definition same_but_checker (s s' : life) : Prop := ∃ c, s' = set_checker c s.

(** A thread that runs stays started and, unless it ends, joinable or not. *)
Lemma checker_step_inv s p :
  life_inv s → hc_thread (lf_checker s) ≠ HNone → hc_thread (lf_checker s) ≠ HExited →
  p ≠ HNone → life_inv (set_checker (hc_goto p (lf_checker s)) s).
Proof.
  intros [Hm Hj Hc Hl] Hn He Hp. assert (hc_joinable (lf_checker s) = true) as Hjt.
  { destruct (hc_joinable (lf_checker s)); [done|]. by destruct Hj. }
  split; cbn; [|by rewrite Hjt|done|done]. unfold main_ok, started in *. cbn.
  destruct (lf_main s); by_parts.
Qed.

Lemma notify_inv s :
  life_inv s → life_inv (set_checker (hc_notify (lf_checker s)) s).
Proof.
  intros Hi. unfold hc_notify. case_decide as E; [|by destruct s].
  apply checker_step_inv; [done|congruence..|done].
Qed.

Lemma set_stop_inv s p n :
  life_inv s → lf_main s ≠ MSet ∨ p = SIdle ∨ p = SExchange → life_inv (set_stop p n s).
Proof.
  intros [Hm Hj Hc Hl] Hp. split; cbn; try done. unfold main_ok in *. cbn. destruct (lf_main s); by_parts.
Qed.

Lemma clear_inv s : life_inv s → life_inv (set_checker (hc_set_running false (lf_checker s)) s).
Proof.
  intros [Hm Hj Hc Hl]. split; cbn; try done. unfold main_ok in *. cbn. destruct (lf_main s); by_parts.
Qed.

Lemma joined_inv s :
  life_inv s → hc_thread (lf_checker s) = HExited → life_inv (set_checker (hc_joined (lf_checker s)) s).
Proof.
  intros [Hm Hj Hc Hl] He. split; cbn; auto.
Qed.

Lemma crash_inv s : life_inv s → life_inv (crash s).
Proof. intros [Hm Hj Hc Hl]. by split. Qed.

Lemma checker_act_inv s s' : life_inv s → checker_act nbackends ends s = Some s' → life_inv s'.
Proof.
  intros Hi. unfold checker_act. destruct (hc_thread (lf_checker s)) as [| |[|k]| | | |] eqn:E; try done;
    try (destruct (ends k); [|done]); intros [= <-]; apply checker_step_inv; try done; try congruence; by case_if.
Qed.

Lemma wake_inv p s s' : life_inv s → p ≠ HNone → wake_act p s = Some s' → life_inv s'.
Proof.
  intros Hi Hp. unfold wake_act. case_decide as E; [|done]. intros [= <-]. apply checker_step_inv; congruence.
Qed.

(** *** Steps of the other threads *)

Lemma stopping_main s : life_inv s → lf_stop s ≠ SIdle → lf_stop s ≠ SExchange → lf_main s ≠ MSet.
Proof.
  intros [Hm _ _ _] H1 H2 E. unfold main_ok in Hm. rewrite E in Hm. destruct Hm as (_ & _ & _ & _ & [?|?]); done.
Qed.

Lemma stop_act_inv s s' : life_inv s → stop_act s = Some s' → life_inv s'.
Proof.
  intros Hi. unfold stop_act. destruct (lf_stop s) eqn:Es.
  - destruct (lf_calls s); [done|]. intros [= <-]. apply set_stop_inv; auto.
  - destruct (running_ s) eqn:Er; intros [= <-]; [|apply set_stop_inv; auto].
    destruct Hi as [Hm Hj Hc Hl]. split; cbn; try done. unfold main_ok in *. cbn. destruct (lf_main s); by_parts.
  - intros [= <-]. apply set_stop_inv; [by apply clear_inv|]. left. cbn. by apply stopping_main; rewrite ?Es.
  - intros [= <-]. apply set_stop_inv; [by apply notify_inv|]. left. cbn. by apply stopping_main; rewrite ?Es.
  - intros [= <-]. apply set_stop_inv; [done|]. left. by apply stopping_main; rewrite ?Es.
  - unfold hc_join_act. case_decide as E; [|done].
    destruct (hc_joinable (lf_checker s)); intros [= <-]; [|by apply crash_inv].
    apply set_stop_inv; [by apply joined_inv|auto].
Qed.

Lemma metrics_act_inv s s' : life_inv s → metrics_act metrics_listens s = Some s' → life_inv s'.
Proof.
  intros [Hm Hj Hc Hl]. unfold metrics_act. destruct (lf_metrics s) eqn:E; try done; intros [= <-];
    (split; cbn; try done); unfold main_ok in *; cbn; destruct (lf_main s); repeat case_if; by_parts.
Qed.

Lemma worker_step_inv s i w w' :
  life_inv s → lf_workers s !! i = Some w → w ≠ WExited → (w' = WClosing ∨ w' = WExited → running_ s = false) →
  life_inv (set_workers (<[i := w']> (lf_workers s)) s).
Proof.
  intros [Hm Hj Hc Hl] Hi Hw Hw'.
  assert (¬ all_exited (lf_workers s)) as Hna.
  { intros [_ Ha]. rewrite Forall_forall in Ha. by eapply Hw, Ha, list_elem_of_lookup_2. }
  assert (∀ n, Forall (λ w, w = WExited) (take n (lf_workers s)) → Forall (λ w, w = WExited) (take n (<[i := w']> (lf_workers s)))) as Htake.
  { intros n Ha. destruct (decide (i < n)).
    - rewrite Forall_forall in Ha. destruct Hw. eapply Ha, (list_elem_of_lookup_2 _ i). rewrite lookup_take, decide_True; done.
    - by rewrite take_insert_ge by lia. }
  split; cbn; try done.
  - unfold main_ok in *. cbn. destruct (lf_main s); rewrite ?length_insert; destruct_and?; split_and?; try done; auto.
    all: match goal with E : lf_workers _ = [] |- _ => rewrite E in Hi; done end.
  - intros w0 [k Hk]%list_elem_of_lookup H0. destruct (decide (k = i)) as [->|Hne].
    + rewrite list_lookup_insert_eq in Hk by (by eapply lookup_lt_Some). naive_solver.
    + rewrite list_lookup_insert_ne in Hk by done. by eapply Hl, H0; eapply list_elem_of_lookup_2.
Qed.

Lemma worker_act_inv i s s' : life_inv s → worker_act listens i s = Some s' → life_inv s'.
Proof.
  intros Hi. unfold worker_act. destruct (lf_workers s !! i) as [w|] eqn:E; [|done]. destruct w; try done.
  - destruct (listens i); intros [= <-]; [|by apply crash_inv]. eapply worker_step_inv; naive_solver.
  - intros [= <-]. eapply worker_step_inv; try done. destruct (running_ s); naive_solver.
  - intros [= <-]. eapply worker_step_inv; naive_solver.
  - intros [= <-]. eapply worker_step_inv; try done. intros _.
    eapply (li_leaving _ Hi); [by eapply list_elem_of_lookup_2|auto].
Qed.

(** A step of [run] to position [m] that leaves the workers alone. *)
Lemma main_step_inv s s' :
  life_inv s → lf_main s ≠ MReturned → main_ok s' →
  (if hc_joinable (lf_checker s') then started (lf_checker s')
   else hc_thread (lf_checker s') = HNone ∨ hc_thread (lf_checker s') = HExited) →
  lf_main s' ≠ MReturned → pool_closed s' = pool_closed s → lf_workers s' = lf_workers s →
  running_ s' = running_ s → life_inv s'.
Proof.
  intros [_ _ Hc Hl] Hm Hm' Hj Hne Ec Ew Er. split; [done|done|..].
  - rewrite Ec, Hc. done.
  - by rewrite Ew, Er.
Qed.

Lemma main_act_inv s s' : life_inv s → main_act nworkers s = Some s' → life_inv s'.
Proof.
  intros Hi. pose proof Hi as [Hm Hj Hc Hl]. unfold main_ok in Hm. unfold main_act.
  assert (lf_main s ≠ MReturned → pool_closed s = true → False) as Hopen by (intros H1 H2%Hc; done).
  destruct (lf_main s) as [| | | |[|k]|i| | | | | | |] eqn:E; [..|done].
  all: try (assert (lf_main s ≠ MReturned) as Hne by congruence).
  - intros [= <-]. destruct Hm as (Ew & ? & ? & _). split; cbn; [done|done|split; [by intros []%Hopen|done]|].
    rewrite Ew. intros w Hw. by apply elem_of_nil in Hw.
  - intros [= <-]. by apply (main_step_inv s).
  - destruct (hc_joinable _) eqn:Ej; intros [= <-]; [by apply crash_inv|].
    apply (main_step_inv s); try done. by unfold main_ok; destruct_and?.
  - intros [= <-]. apply (main_step_inv s); try done. unfold main_ok. cbn. destruct Hm as (-> & _ & ?). done.
  - intros [= <-]. apply (main_step_inv s); try done. unfold main_ok. cbn. destruct Hm as (? & ? & ?).
    split_and!; try done; lia.
  - intros [= <-]. split; cbn; [|done|split; [by intros []%Hopen|done]|].
    + unfold main_ok. cbn. rewrite length_app. cbn. destruct Hm as (? & ? & ?). split_and!; try done; lia.
    + intros w [Hw|Hw%list_elem_of_singleton]%elem_of_app H0; [by eapply Hl|]. subst. by destruct H0.
  - destruct Hm as (Hlen & Hle & Ht & Hmt & Hst). destruct (lf_workers s !! i) as [w|] eqn:Ew.
    + case_decide as Ed; [|done]. intros [= <-]. apply (main_step_inv s); try done. unfold main_ok. cbn.
      pose proof (lookup_lt_Some _ _ _ Ew). split_and!; try done; [lia|].
      rewrite (take_S_r _ _ _ Ew). apply Forall_app. split; [done|]. by constructor.
    + intros [= <-]. apply (main_step_inv s); try done. unfold main_ok. cbn. apply lookup_ge_None in Ew.
      rewrite take_ge in Ht by lia. done.
  - case_decide; [|done]. intros [= <-]. apply (main_step_inv s); try done. unfold main_ok. cbn. by destruct_and?.
  - intros [= <-]. apply (main_step_inv s); try done. unfold main_ok. cbn. by destruct_and?.
  - intros [= <-]. destruct (notify_inv s Hi) as [Hm' Hj' _ _]. unfold main_ok in Hm'. cbn in Hm'. rewrite E in Hm'.
    by apply (main_step_inv s).
  - intros [= <-]. unfold started in *. destruct (hc_joinable (lf_checker s)) eqn:Ej.
    + apply (main_step_inv s); try done. cbn. by rewrite Ej.
    + apply (main_step_inv s); try done; [|by cbn; rewrite Ej]. unfold main_ok. cbn. destruct_and?. by destruct Hj.
  - unfold hc_join_act. case_decide as Ed; [|done]. destruct (hc_joinable (lf_checker s)) eqn:Ej; intros [= <-];
      [|by apply crash_inv]. apply (main_step_inv s); cbn; auto. unfold main_ok. cbn. by destruct_and?.
  - intros [= <-]. by split.
Qed.

Lemma life_act_inv a s s' : life_inv s → act a s = Some s' → life_inv s'.
Proof.
  intros Hi. unfold life_act. destruct (crashed s); [done|].
  destruct a; [destruct (interrupted on_main s); [done|]| ..];
    [by apply main_act_inv|by apply stop_act_inv|by apply checker_act_inv|by apply wake_inv|by apply wake_inv|
     by apply metrics_act_inv|by apply worker_act_inv].
Qed.

Lemma turn_inv s a : life_inv s → life_inv (turn nworkers nbackends ends listens metrics_listens on_main s a).
Proof.
  intros Hi. unfold turn. destruct (act a s) as [s'|] eqn:E; [|done]. cbn. by eapply life_act_inv.
Qed.

Lemma run_life_inv schedule s :
  life_inv s → life_inv (run_life nworkers nbackends ends listens metrics_listens on_main schedule s).
Proof. revert s. induction schedule as [|a l IH]; intros s Hi; [done|]. cbn. by apply IH, turn_inv. Qed.

Lemma workers_bound s : life_inv s → length (lf_workers s) ≤ nworkers.
Proof.
  intros [Hm _ _ _]. unfold main_ok, all_exited in Hm. destruct (lf_main s); destruct_and?;
    try (match goal with E : lf_workers s = [] |- _ => rewrite E; cbn; lia end); lia.
Qed.
End invariant.

(** ** Signals: [stop] on the thread of [run] *)

(** [stop] has cleared the flag and is stopping the health checker. *)
Definition stopping (p : stop_pc) : bool :=
  match p with SClear | SNotify | SJoinable | SJoin => true | _ => false end.

(** [run] has not yet joined its workers. *)
Definition early (m : main_pc) : bool :=
  match m with MHcFlag | MHcSpawn | MMetrics | MSpawn _ | MJoin _ => true | _ => false end.

Section signals.
Context (nworkers nbackends : nat) (ends listens : nat → bool) (metrics_listens : bool).
Context (some_worker : 0 < nworkers) (all_listen : ∀ i, i < nworkers → listens i = true).
Local Abbreviation act := (life_act nworkers nbackends ends listens metrics_listens true).

Record signal_inv (s : life) : Prop := {
  si_life : life_inv nworkers s;
  si_alive : crashed s = false;
  si_early : stopping (lf_stop s) = true → early (lf_main s) = true;
  si_stop_join : lf_stop s = SJoin → hc_joinable (lf_checker s) = true;
  si_main_join : lf_main s = MHcJoin → hc_joinable (lf_checker s) = true
}.

(** While the flag is set, [run] has not finished joining. *)
Lemma running_early s : life_inv nworkers s → running_ s = true → lf_main s ≠ MSet ∧ (lf_main s ≠ MSet → early (lf_main s) = true).
Proof.
  intros Hi Hr. pose proof Hi as [Hm _ _ Hl]. split; [intros E; unfold main_ok in Hm; rewrite E in Hm; by destruct_and?; congruence|].
  assert (all_exited nworkers (lf_workers s) → False) as Hna.
  { intros [Hlen Ha]. destruct (lf_workers s) as [|w ws] eqn:Ew; [cbn in Hlen; lia|].
    apply Forall_cons in Ha as [-> _]. enough (running_ s = false) by congruence. apply (Hl WExited); [|auto]. by left. }
  unfold main_ok in Hm. destruct (lf_main s); try done; by destruct Hm as (?%Hna & _).
Qed.

Lemma checker_goto_signal s p :
  signal_inv s → life_inv nworkers (set_checker (hc_goto p (lf_checker s)) s) →
  signal_inv (set_checker (hc_goto p (lf_checker s)) s).
Proof. intros [_ Ha He Hs Hm] Hi. by split. Qed.

Lemma signal_act_inv a s s' : signal_inv s → act a s = Some s' → signal_inv s'.
Proof.
  intros Hi Ha. pose proof Hi as [Hl Hal He Hsj Hmj].
  pose proof (life_act_inv _ _ _ _ _ _ _ _ _ Hl Ha) as Hl'.
  unfold life_act in Ha. rewrite Hal in Ha. destruct a as [| | | | | |i].
  - unfold interrupted in Ha. cbn in Ha. case_bool_decide as Es; [done|].
    assert (lf_stop s = SIdle) as Hidle by (destruct (lf_stop s); try done; by destruct Es).
    unfold main_act in Ha. destruct (lf_main s) as [| | | |[|k]|i| | | | | | |] eqn:E;
      try (injection Ha as <-; split; cbn; rewrite ?Hidle; try done; by case_if).
    + destruct (hc_joinable (lf_checker s)) eqn:Ej; [|injection Ha as <-; split; cbn; by rewrite ?Hidle].
      destruct Hl as [Hm Hj _ _]. unfold main_ok in Hm. rewrite E in Hm. rewrite Ej in Hj. by destruct_and?.
    + destruct (lf_workers s !! i); [case_decide; [|done]|]; injection Ha as <-; split; cbn; by rewrite ?Hidle.
    + case_decide; [|done]. injection Ha as <-. split; cbn; by rewrite ?Hidle.
    + unfold hc_join_act in Ha. case_decide; [|done]. rewrite Hmj in Ha by done. injection Ha as <-.
      split; cbn; by rewrite ?Hidle.
    + done.
  - unfold stop_act in Ha. destruct (lf_stop s) eqn:E.
    + destruct (lf_calls s); [done|]. injection Ha as <-. by split.
    + destruct (running_ s) eqn:Er; injection Ha as <-; [|by split]. split; cbn; try done. intros _.
      destruct (running_early s Hl Er) as [Hn Hea]. auto.
    + injection Ha as <-. split; cbn; try done; intros _; by apply He.
    + injection Ha as <-. unfold hc_notify in *. case_decide; split; cbn; try done; intros _; by apply He.
    + injection Ha as <-. destruct (hc_joinable (lf_checker s)) eqn:Ej; split; cbn; rewrite ?Ej; try done; intros _; by apply He.
    + unfold hc_join_act in Ha. case_decide; [|done]. rewrite Hsj in Ha by done. injection Ha as <-.
      split; cbn; try done. intros Hm. rewrite Hm in He. by specialize (He eq_refl).
  - unfold checker_act in Ha. destruct (hc_thread (lf_checker s)) as [| |[|k]| | | |]; try done; try (destruct (ends k); [|done]);
      injection Ha as <-; by apply checker_goto_signal.
  - unfold wake_act in Ha. case_decide; [|done]. injection Ha as <-. by apply checker_goto_signal.
  - unfold wake_act in Ha. case_decide; [|done]. injection Ha as <-. by apply checker_goto_signal.
  - unfold metrics_act in Ha. destruct (lf_metrics s); try done; injection Ha as <-; by split.
  - unfold worker_act in Ha. destruct (lf_workers s !! i) as [w|] eqn:Ew; [|done].
    assert (listens i = true) as Hli.
    { apply all_listen. apply lookup_lt_Some in Ew. pose proof (workers_bound nworkers s Hl). lia. }
    rewrite Hli in Ha. destruct w; try done; injection Ha as <-; by split.
Qed.

Lemma signal_run_inv schedule s :
  signal_inv s → signal_inv (run_life nworkers nbackends ends listens metrics_listens true schedule s).
Proof.
  revert s. induction schedule as [|a l IH]; intros s Hi; [done|]. cbn. apply IH. unfold turn.
  destruct (act a s) as [s'|] eqn:E; [|done]. cbn. by eapply signal_act_inv.
Qed.

Lemma start_signal_inv calls : signal_inv (start_life calls).
Proof. split; try done. apply start_inv. Qed.
End signals.

(** ** Shutting down *)

Section shutdown.
Context (nworkers nbackends : nat) (ends listens : nat → bool) (metrics_listens on_main : bool).
Local Abbreviation act := (life_act nworkers nbackends ends listens metrics_listens on_main).
Local Abbreviation run := (run_life nworkers nbackends ends listens metrics_listens on_main).

(** Steps left to the health checker once its flag is cleared. *)
Definition hc_rank (p : hc_pc) : nat :=
  match p with
  | HNone | HExited => 0 | HLoop => 1 | HPredicate => 2 | HWaiting => 3 | HBlocking => 4 | HChecking k => k + 3
  end.

Definition hc_max : nat := nbackends + 5.

(** While its flag is set the checker makes no progress towards the end. *)
Definition checker_rank (c : checker) : nat := if hc_running c then hc_max else hc_rank (hc_thread c).

Definition metrics_rank (p : metrics_pc) : nat :=
  match p with PNone | PExited => 0 | PLoop => 1 | PServing => 2 | PStarting => 3 end.

Definition worker_rank (w : worker_pc) : nat :=
  match w with WExited => 0 | WClosing => 1 | WLoop => 2 | WPolling => 3 | WStarting => 4 end.

Definition main_rank (m : main_pc) : nat :=
  match m with
  | MReturned => 0 | MClose => 1 | MHcJoin => 2 | MHcJoinable => 3 | MHcNotify => 4 | MHcClear => 5
  | MJoinMetrics => 6 | MJoin i => 7 + (nworkers - i) | MSpawn k => 8 + nworkers + k
  | MMetrics => 9 + 2 * nworkers | MHcSpawn => 10 + 2 * nworkers | MHcFlag => 11 + 2 * nworkers
  | MSet => 12 + 2 * nworkers
  end.

Definition stop_rank (p : stop_pc) : nat :=
  match p with SIdle => 0 | SJoin => 1 | SJoinable => 2 | SNotify => 3 | SClear => 4 | SExchange => 5 end.

Definition life_rank (s : life) : nat :=
  if crashed s then 0
  else 1 + (hc_max + 5) * (main_rank (lf_main s) + stop_rank (lf_stop s) + 6 * lf_calls s) +
       sum_list_with worker_rank (lf_workers s) + metrics_rank (lf_metrics s) + checker_rank (lf_checker s).

(** The flag has been cleared since [run] set it. *)
Definition stopped (s : life) : Prop := running_ s = false ∧ lf_main s ≠ MSet.

(** [run] has returned and no call of [stop] is under way or to come. *)
Definition finished (s : life) : Prop := lf_main s = MReturned ∧ lf_stop s = SIdle ∧ lf_calls s = 0.

(** A position of the checker is below [hc_max]. *)
Definition hc_small (p : hc_pc) : Prop := match p with HChecking k => k ≤ nbackends | _ => True end.

Lemma hc_rank_max p : hc_small p → hc_rank p < hc_max.
Proof. unfold hc_max. destruct p; cbn; lia. Qed.

Lemma sum_ranks_insert ws i w w' :
  ws !! i = Some w →
  sum_list_with worker_rank (<[i := w']> ws) + worker_rank w = sum_list_with worker_rank ws + worker_rank w'.
Proof.
  revert i. induction ws as [|w0 ws IH]; intros [|i]; simpl; [done..| |].
  - intros [= ->]. lia.
  - intros H%IH. lia.
Qed.

Lemma sum_ranks_snoc ws w : sum_list_with worker_rank (ws ++ [w]) = sum_list_with worker_rank ws + worker_rank w.
Proof. induction ws as [|w0 ws IH]; simpl in *; lia. Qed.

(** Actors whose steps lead to the end. *)
Definition productive (a : actor) (s : life) : Prop :=
  match a with Checker | Timeout | Spurious => hc_running (lf_checker s) = false | _ => True end.

(** *** Each step of a productive actor lowers the rank *)

Lemma notify_rank c : checker_rank (hc_notify c) ≤ checker_rank c.
Proof.
  unfold hc_notify. case_decide as E; [|done]. unfold checker_rank. cbn. rewrite E. case_if; cbn; lia.
Qed.

Lemma main_act_rank s s' :
  life_inv nworkers s → hc_small (hc_thread (lf_checker s)) → crashed s = false → lf_main s ≠ MSet →
  main_act nworkers s = Some s' → life_rank s' < life_rank s ∧ running_ s' = running_ s ∧ lf_main s' ≠ MSet.
Proof.
  intros [Hm _ _ _] Hsm Hal Hne. unfold main_ok in Hm. pose proof (hc_rank_max _ Hsm) as Hmax.
  pose proof (notify_rank (lf_checker s)) as Hnot. unfold main_act, life_rank. rewrite Hal.
  destruct (lf_main s) as [| | | |[|k]|i| | | | | | |] eqn:E; try done.
  - intros [= <-]. cbn -[Nat.mul]. rewrite Hal. split; [|done]. unfold checker_rank. cbn -[Nat.mul]. repeat case_if; nia.
  - destruct (hc_joinable _); intros [= <-]; cbn -[Nat.mul]; [|rewrite Hal]; (split; [|by rewrite ?E]).
    + lia.
    + unfold checker_rank, hc_max. cbn -[Nat.mul]. repeat case_if; nia.
  - intros [= <-]. cbn -[Nat.mul]. rewrite Hal. split; [|done]. destruct Hm as (-> & -> & _). cbn -[Nat.mul]. nia.
  - intros [= <-]. cbn -[Nat.mul]. rewrite Hal. split; [nia|done].
  - intros [= <-]. cbn -[Nat.mul]. rewrite Hal, sum_ranks_snoc. split; [cbn -[Nat.mul]; nia|done].
  - destruct Hm as (Hlen & Hle & _). destruct (lf_workers s !! i) as [w|] eqn:Ew.
    + case_decide; [|done]. apply lookup_lt_Some in Ew. intros [= <-]. cbn -[Nat.mul]. rewrite Hal. split; [|done].
      assert (nworkers - i = S (nworkers - S i)) as -> by lia. nia.
    + intros [= <-]. cbn -[Nat.mul]. rewrite Hal. split; [nia|done].
  - case_decide; [|done]. intros [= <-]. cbn -[Nat.mul]. rewrite Hal. split; [nia|done].
  - intros [= <-]. cbn -[Nat.mul]. rewrite Hal. split; [|done]. unfold checker_rank. cbn -[Nat.mul]. repeat case_if; nia.
  - intros [= <-]. cbn -[Nat.mul]. rewrite Hal. split; [nia|done].
  - intros [= <-]. cbn -[Nat.mul]. rewrite Hal. split; [case_if; cbn -[Nat.mul]; nia|by case_if].
  - unfold hc_join_act. case_decide; [|done]. destruct (hc_joinable _); intros [= <-]; cbn -[Nat.mul];
      [rewrite Hal|]; (split; [|by rewrite ?E]); unfold checker_rank; cbn -[Nat.mul]; nia.
  - intros [= <-]. cbn -[Nat.mul]. rewrite Hal. split; [nia|done].
Qed.

Lemma stop_act_rank s s' :
  hc_small (hc_thread (lf_checker s)) → crashed s = false → running_ s = false → stop_act s = Some s' →
  life_rank s' < life_rank s ∧ running_ s' = false ∧ lf_main s' = lf_main s.
Proof.
  intros Hsm Hal Hr. pose proof (hc_rank_max _ Hsm) as Hmax. pose proof (notify_rank (lf_checker s)) as Hnot.
  unfold stop_act, life_rank. rewrite Hal, Hr. destruct (lf_stop s) eqn:E.
  - destruct (lf_calls s) as [|n] eqn:Ec; [done|]. intros [= <-]. cbn -[Nat.mul]. rewrite Hal. split; [nia|done].
  - intros [= <-]. cbn -[Nat.mul]. rewrite Hal. split; [nia|done].
  - intros [= <-]. cbn -[Nat.mul]. rewrite Hal. split; [|done]. unfold checker_rank. cbn -[Nat.mul]. repeat case_if; nia.
  - intros [= <-]. cbn -[Nat.mul]. rewrite Hal. split; [nia|done].
  - intros [= <-]. cbn -[Nat.mul]. rewrite Hal. split; [case_if; cbn -[Nat.mul]; nia|done].
  - unfold hc_join_act. case_decide; [|done]. destruct (hc_joinable _); intros [= <-]; cbn -[Nat.mul];
      [rewrite Hal|]; (split; [|by rewrite ?E]); unfold checker_rank; cbn -[Nat.mul]; nia.
Qed.

(** A step of the checker's thread to [p]. *)
Lemma checker_goto_rank s p :
  crashed s = false → (hc_running (lf_checker s) = false → hc_rank p < hc_rank (hc_thread (lf_checker s))) →
  life_rank (set_checker (hc_goto p (lf_checker s)) s) ≤ life_rank s ∧
  (hc_running (lf_checker s) = false → life_rank (set_checker (hc_goto p (lf_checker s)) s) < life_rank s).
Proof.
  intros Hal Hp. unfold life_rank. cbn -[Nat.mul]. rewrite Hal. unfold checker_rank. cbn.
  destruct (hc_running (lf_checker s)); [split; [lia|done]|]. specialize (Hp eq_refl). split; lia.
Qed.

(** The step of a checker that has something to do. *)
Lemma checker_actor_step a s s' :
  match a with Checker | Timeout | Spurious => True | _ => False end →
  hc_small (hc_thread (lf_checker s)) → crashed s = false → act a s = Some s' →
  hc_thread (lf_checker s) ≠ HExited ∧
  ∃ p, s' = set_checker (hc_goto p (lf_checker s)) s ∧ (p ≠ HNone ∧ hc_small p) ∧
    (hc_running (lf_checker s) = true → p ≠ HExited) ∧
    (hc_running (lf_checker s) = false → hc_rank p < hc_rank (hc_thread (lf_checker s))).
Proof.
  intros Ha Hsm Hal. unfold life_act. rewrite Hal. destruct a; try done.
  - unfold checker_act. destruct (hc_thread (lf_checker s)) as [| |[|k]| | | |] eqn:E; try done; try (destruct (ends k); [|done]); intros [= <-];
      (split; [done|]); eexists; (split; [reflexivity|]);
      destruct (hc_running (lf_checker s)); cbn in *; split_and!; try done; lia.
  - unfold wake_act. case_decide as E; [|done]. intros [= <-]. rewrite E. split; [done|].
    eexists. split; [reflexivity|]. cbn. split_and!; try done; lia.
  - unfold wake_act. case_decide as E; [|done]. intros [= <-]. rewrite E. split; [done|].
    eexists. split; [reflexivity|]. cbn. split_and!; try done; lia.
Qed.

Lemma metrics_act_rank s s' :
  crashed s = false → running_ s = false → metrics_act metrics_listens s = Some s' →
  life_rank s' < life_rank s ∧ running_ s' = false ∧ lf_main s' = lf_main s.
Proof.
  intros Hal Hr. unfold metrics_act, life_rank. rewrite Hal, Hr. destruct (lf_metrics s); try done;
    intros [= <-]; cbn -[Nat.mul]; rewrite Hal; (split; [|done]); repeat case_if; cbn -[Nat.mul]; lia.
Qed.

Lemma worker_act_rank i s s' :
  crashed s = false → running_ s = false → worker_act listens i s = Some s' →
  life_rank s' < life_rank s ∧ running_ s' = false ∧ lf_main s' = lf_main s.
Proof.
  intros Hal Hr. unfold worker_act, life_rank. rewrite Hal, Hr. destruct (lf_workers s !! i) as [w|] eqn:Ew; [|done].
  pose proof (λ w', sum_ranks_insert _ _ _ w' Ew) as Hsum.
  destruct w; try done; [destruct (listens i)|..]; intros [= <-]; cbn -[Nat.mul]; rewrite ?Hal; (split; [|done]); try lia;
    match goal with |- context [<[i := ?w']> _] => specialize (Hsum w'); cbn in Hsum; lia end.
Qed.

Lemma act_rank a s s' :
  life_inv nworkers s → hc_small (hc_thread (lf_checker s)) → stopped s → act a s = Some s' →
  stopped s' ∧ life_rank s' ≤ life_rank s ∧ (productive a s → life_rank s' < life_rank s).
Proof.
  intros Hi Hsm [Hr Hm] Ha. destruct (crashed s) eqn:Hal; [by unfold life_act in Ha; rewrite Hal in Ha|].
  assert (∀ s1, life_rank s1 < life_rank s ∧ running_ s1 = false ∧ lf_main s1 = lf_main s →
    stopped s1 ∧ life_rank s1 ≤ life_rank s ∧ (productive a s → life_rank s1 < life_rank s)) as Hfin.
  { intros s1 (H1 & H2 & H3). unfold stopped. rewrite H2, H3. split_and!; try done; lia. }
  assert (match a with Checker | Timeout | Spurious => True | _ => False end →
    stopped s' ∧ life_rank s' ≤ life_rank s ∧ (productive a s → life_rank s' < life_rank s)) as Hck.
  { intros H. destruct (checker_actor_step a s s' H Hsm Hal Ha) as (_ & p & -> & _ & _ & Hp).
    destruct (checker_goto_rank s p Hal Hp) as [H1 H2]. split; [by split|]. split; [done|]. by destruct a. }
  unfold life_act in Ha. rewrite Hal in Ha. destruct a; try by apply Hck.
  - destruct (interrupted on_main s); [done|]. destruct (main_act_rank _ _ Hi Hsm Hal Hm Ha) as (H1 & H2 & H3).
    split; [by split; [congruence|]|]. split; [lia|done].
  - by apply Hfin, stop_act_rank.
  - by apply Hfin, metrics_act_rank.
  - by eapply Hfin, worker_act_rank.
Qed.

(** *** What shutting down relies on *)

(** A signal handler is never between clearing the checker's flag and
    joining it with the flag set. *)
Record down_inv (s : life) : Prop := {
  di_life : life_inv nworkers s;
  di_small : hc_small (hc_thread (lf_checker s));
  di_handler : on_main = true → match lf_stop s with SNotify | SJoinable | SJoin => True | _ => False end →
    hc_running (lf_checker s) = false;
  di_join : lf_stop s = SJoin → started (lf_checker s)
}.

Lemma notify_started c : started c → started (hc_notify c).
Proof. unfold hc_notify, started. by case_decide. Qed.

Lemma notify_small c : hc_small (hc_thread c) → hc_small (hc_thread (hc_notify c)).
Proof. unfold hc_notify. by case_decide. Qed.

Lemma notify_running c : hc_running (hc_notify c) = hc_running c.
Proof. unfold hc_notify. by case_decide. Qed.

Lemma main_act_checker s s' :
  main_act nworkers s = Some s' →
  lf_stop s' = lf_stop s ∧ (hc_small (hc_thread (lf_checker s)) → hc_small (hc_thread (lf_checker s'))) ∧
  (started (lf_checker s) → started (lf_checker s')).
Proof.
  unfold main_act. destruct (lf_main s) as [| | | |[|k]|i| | | | | | |]; try (by intros [= <-]).
  - destruct (hc_joinable _); by intros [= <-].
  - destruct (lf_workers s !! i); [case_decide; [|done]|]; by intros [= <-].
  - case_decide; [|done]. by intros [= <-].
  - intros [= <-]. split; [done|]. split; [apply notify_small|apply notify_started].
  - unfold hc_join_act. case_decide; [|done]. destruct (hc_joinable _); by intros [= <-].
Qed.

Lemma down_act_inv a s s' : down_inv s → act a s = Some s' → down_inv s'.
Proof.
  intros [Hl Hsm Hh Hsj] Ha. pose proof (life_act_inv _ _ _ _ _ _ _ _ _ Hl Ha) as Hl'.
  destruct (crashed s) eqn:Hal; [by unfold life_act in Ha; rewrite Hal in Ha|].
  assert (match a with Checker | Timeout | Spurious => True | _ => False end → down_inv s') as Hck.
  { intros H. destruct (checker_actor_step a s s' H Hsm Hal Ha) as (_ & p & -> & [Hn Hp] & _ & _).
    by split. }
  unfold life_act in Ha. rewrite Hal in Ha. destruct a; try by apply Hck.
  - destruct (interrupted on_main s) eqn:Hint; [done|].
    assert (∀ P : Prop, on_main = true → match lf_stop s with SNotify | SJoinable | SJoin => True | _ => False end → P) as Hno.
    { intros P E Hs. unfold interrupted in Hint. rewrite E in Hint. case_bool_decide as Ei; [done|].
      destruct (lf_stop s); try done; by destruct Ei. }
    destruct (main_act_checker s s' Ha) as (Es & H1 & H2). split; [done|by apply H1|..]; rewrite Es.
    + intros; by apply Hno.
    + intros E. by apply H2, Hsj.
  - unfold stop_act in Ha. destruct (lf_stop s) eqn:Es.
    + destruct (lf_calls s); [done|]. injection Ha as <-. by split.
    + destruct (running_ s); injection Ha as <-; by split.
    + injection Ha as <-. by split.
    + injection Ha as <-. split; cbn; [done|by apply notify_small|rewrite notify_running; auto|done].
    + pose proof (li_joinable _ _ Hl) as Hj. destruct (hc_joinable (lf_checker s)); injection Ha as <-;
        split; cbn; try done; auto.
    + unfold hc_join_act in Ha. case_decide; [|done]. destruct (hc_joinable _); injection Ha as <-; split; cbn; try done;
        by rewrite Es.
  - unfold metrics_act in Ha. destruct (lf_metrics s); try done; injection Ha as <-; by split.
  - unfold worker_act in Ha. destruct (lf_workers s !! i) as [w|]; [|done].
    destruct w; try done; [destruct (listens i)|..]; injection Ha as <-; by split.
Qed.

(** The health checker is in a check that never ends. *)
Definition stuck (s : life) : Prop := ∃ k, hc_thread (lf_checker s) = HChecking (S k) ∧ ends k = false.

Lemma stuck_act a s s' : life_inv nworkers s → stuck s → act a s = Some s' → stuck s'.
Proof.
  intros [Hm _ _ _] (k & Hk & He) Ha. unfold main_ok in Hm. unfold life_act in Ha. destruct (crashed s); [done|].
  assert (∀ c, hc_thread c = HChecking (S k) → hc_thread (hc_notify c) = HChecking (S k)) as Hn.
  { intros c Hc. unfold hc_notify. case_decide; [congruence|done]. }
  exists k. split; [|done]. destruct a as [| | | | | |i].
  - destruct (interrupted on_main s); [done|]. unfold main_act, hc_join_act in Ha.
    destruct (lf_main s) as [| | | |[|j]|j| | | | | | |]; try done; try (injection Ha as <-; cbn; by auto).
    + destruct_and?. congruence.
    + destruct (lf_workers s !! j); [case_decide; [|done]|]; by injection Ha as <-.
    + case_decide; [|done]. by injection Ha as <-.
    + rewrite decide_False in Ha by congruence. done.
  - unfold stop_act, hc_join_act in Ha. destruct (lf_stop s); try (injection Ha as <-; cbn; by auto).
    + destruct (lf_calls s); [done|]. by injection Ha as <-.
    + destruct (running_ s); by injection Ha as <-.
    + rewrite decide_False in Ha by congruence. done.
  - unfold checker_act in Ha. by rewrite Hk, He in Ha.
  - unfold wake_act in Ha. by rewrite decide_False in Ha by congruence.
  - unfold wake_act in Ha. by rewrite decide_False in Ha by congruence.
  - unfold metrics_act in Ha. destruct (lf_metrics s); try done; by injection Ha as <-.
  - unfold worker_act in Ha. destruct (lf_workers s !! i) as [w|]; [|done].
    destruct w; try done; [destruct (listens i)|..]; by injection Ha as <-.
Qed.

(** *** Otherwise something productive can run *)

Lemma checker_progress s :
  crashed s = false → ¬ stuck s → hc_thread (lf_checker s) ≠ HNone → hc_thread (lf_checker s) ≠ HExited →
  is_Some (act Checker s) ∨ is_Some (act Timeout s).
Proof.
  intros Hal Hst H1 H2. unfold life_act. rewrite Hal. unfold checker_act, wake_act.
  destruct (hc_thread (lf_checker s)) as [| |[|k]| | | |] eqn:E; try done; try (left; by eexists); [|right; by eexists].
  left. destruct (ends k) eqn:Ee; [by eexists|]. destruct Hst. by exists k.
Qed.

(** Waiting for a checker whose flag is cleared. *)
Lemma join_progress s :
  crashed s = false → ¬ stuck s → hc_thread (lf_checker s) ≠ HNone → hc_running (lf_checker s) = false →
  hc_thread (lf_checker s) = HExited ∨ ∃ a, (a = Checker ∨ a = Timeout) ∧ productive a s ∧ is_Some (act a s).
Proof.
  intros Hal Hst H1 Hr. destruct (decide (hc_thread (lf_checker s) = HExited)); [by left|right].
  destruct (checker_progress s Hal Hst) as [H|H]; [done|done|..]; eauto 6.
Qed.

Lemma worker_progress s i w :
  crashed s = false → lf_workers s !! i = Some w → w ≠ WExited → is_Some (act (WorkerThread i) s).
Proof.
  intros Hal Hi Hw. unfold life_act. rewrite Hal. unfold worker_act. rewrite Hi.
  destruct w; try done; [destruct (listens i)|..]; by eexists.
Qed.

(** Everyone with something to do. *)
Definition everyone : list actor :=
  [Main; Stopper; Checker; Timeout; MetricsThread] ++ (WorkerThread <$> seq 0 nworkers).

Lemma stop_progress s :
  down_inv s → crashed s = false → lf_stop s ≠ SIdle ∨ lf_calls s ≠ 0 →
  is_Some (act Stopper s) ∨ (lf_stop s = SJoin ∧ hc_thread (lf_checker s) ≠ HExited).
Proof.
  intros [[_ Hj _ _] _ _ _] Hal Hs. unfold life_act. rewrite Hal. unfold stop_act, hc_join_act.
  destruct (lf_stop s) eqn:Es; try (left; by eexists).
  - left. destruct (lf_calls s); [by destruct Hs|by eexists].
  - case_decide; [|by right]. left. destruct (hc_joinable _); by eexists.
Qed.

Lemma main_progress s :
  down_inv s → crashed s = false → ¬ stuck s → lf_main s ≠ MReturned → interrupted on_main s = false →
  ∃ a, a ∈ everyone ∧ productive a s ∧ is_Some (act a s).
Proof.
  intros [Hl Hsm Hh _] Hal Hstk Hm Hint. pose proof Hl as [Hmo Hj _ _]. unfold main_ok in Hmo.
  assert (is_Some (main_act nworkers s) → ∃ a, a ∈ everyone ∧ productive a s ∧ is_Some (act a s)) as Hmain.
  { intros H. exists Main. split; [set_solver|]. split; [done|]. unfold life_act. by rewrite Hal, Hint. }
  unfold main_act in Hmain. destruct (lf_main s) as [| | | |[|k]|i| | | | | | |]; try done; try (apply Hmain; by eexists).
  - destruct (hc_joinable _); apply Hmain; by eexists.
  - destruct (lf_workers s !! i) as [w|] eqn:Ew; [|apply Hmain; by eexists].
    case_decide as Ed; [apply Hmain; by eexists|]. exists (WorkerThread i). split_and!; [|done|by eapply worker_progress].
    unfold everyone. apply elem_of_app. right. apply list_elem_of_fmap. exists i. split; [done|].
    apply elem_of_seq. apply lookup_lt_Some in Ew. lia.
  - case_decide as Ed; [apply Hmain; by eexists|]. exists MetricsThread. split; [set_solver|]. split; [done|].
    unfold life_act. rewrite Hal. unfold metrics_act. destruct_and?. destruct (lf_metrics s); try done; by eexists.
  - unfold hc_join_act in Hmain. destruct Hmo as (_ & _ & Hst & Hr).
    destruct (join_progress s Hal Hstk Hst Hr) as [He|(a & Ha & Hp & Hs)].
    + rewrite decide_True in Hmain by done. destruct (hc_joinable _); apply Hmain; by eexists.
    + exists a. split; [|done]. destruct Ha as [->| ->]; set_solver.
Qed.

Lemma down_progress s :
  down_inv s → stopped s → crashed s = false → ¬ stuck s → ¬ finished s → ∃ a, a ∈ everyone ∧ productive a s ∧ is_Some (act a s).
Proof.
  intros Hi [Hr Hm] Hal Hstk Hnf. pose proof Hi as [[Hmo Hj _ _] Hsm Hh Hsj].
  assert (lf_stop s ≠ SIdle ∨ lf_calls s ≠ 0 → ∃ a, a ∈ everyone ∧ productive a s ∧ is_Some (act a s)) as Hstop.
  { intros H. destruct (stop_progress s Hi Hal H) as [Hs|[Es Hne]]; [exists Stopper; split; [set_solver|done]|].
    destruct (hc_running (lf_checker s)) eqn:Ehr.
    - (* the handler of another thread: [run] goes on *)
      assert (on_main = false) as Eom by (destruct on_main; [specialize (Hh eq_refl); rewrite Es in Hh; by specialize (Hh I)|done]).
      apply main_progress; try done; [|unfold interrupted; by rewrite Eom].
      intros E. unfold main_ok in Hmo. rewrite E in Hmo. destruct_and?. congruence.
    - destruct (join_progress s Hal Hstk) as [?|(a & Ha & Hp & Hs)]; [by apply Hsj|done|done|].
      exists a. split; [|done]. destruct Ha as [->| ->]; set_solver. }
  destruct (decide (lf_stop s ≠ SIdle ∨ lf_calls s ≠ 0)) as [H|H]; [by apply Hstop|].
  assert (lf_stop s = SIdle ∧ lf_calls s = 0) as [Es Ec].
  { split; apply dec_stable; tauto. }
  apply main_progress; try done; [|unfold interrupted; rewrite Es; by destruct on_main].
  intros E. by apply Hnf.
Qed.

(** *** Rounds *)

Lemma run_cons a l s : run (a :: l) s = run l (default s (act a s)).
Proof. done. Qed.

Lemma run_app l1 l2 s : run (l1 ++ l2) s = run l2 (run l1 s).
Proof. apply foldl_app. Qed.

Lemma down_run_inv schedule s : down_inv s → down_inv (run schedule s).
Proof.
  revert s. induction schedule as [|a l IH]; intros s Hi; [done|]. rewrite run_cons. apply IH.
  destruct (act a s) as [s'|] eqn:E; [|done]. cbn. by eapply down_act_inv.
Qed.

Lemma run_rank schedule s :
  down_inv s → stopped s → stopped (run schedule s) ∧ life_rank (run schedule s) ≤ life_rank s.
Proof.
  revert s. induction schedule as [|a l IH]; intros s Hi Hs; [done|]. rewrite run_cons.
  destruct (act a s) as [s'|] eqn:E; cbn; [|by apply IH].
  destruct (act_rank a s s' (di_life _ Hi) (di_small _ Hi) Hs E) as (Hs' & Hle & _).
  destruct (IH s' (down_act_inv _ _ _ Hi E) Hs') as [? ?]. split; [done|lia].
Qed.

(** A checker that goes round does not hold up the others. *)
Lemma still_enabled a s p :
  hc_thread (lf_checker s) ≠ HExited →
  match a with Checker | Timeout | Spurious => False | _ => True end → is_Some (act a s) →
  is_Some (act a (set_checker (hc_goto p (lf_checker s)) s)).
Proof.
  intros Hne Ha. unfold life_act. cbn. destruct (crashed s); [done|]. destruct a as [| | | | | |i]; try done.
  - unfold interrupted. cbn. destruct (on_main && _); [done|]. unfold main_act, hc_join_act. cbn.
    destruct (lf_main s) as [| | | |[|k]|j| | | | | | |]; try done; try (intros; by eexists).
    + destruct (hc_joinable _); intros; by eexists.
    + destruct (lf_workers s !! j); [case_decide; [|by intros []]|]; intros; by eexists.
    + case_decide; [|by intros []]. intros; by eexists.
    + rewrite decide_False by done. by intros [].
  - unfold stop_act, hc_join_act. cbn. destruct (lf_stop s); try done; try (intros; by eexists).
    + destruct (lf_calls s); [by intros []|]. intros; by eexists.
    + rewrite decide_False by done. by intros [].
  - unfold metrics_act. cbn. destruct (lf_metrics s); try (by intros []); intros; by eexists.
  - unfold worker_act. cbn. destruct (lf_workers s !! i) as [w|]; [|done]. intros [x Hx].
    destruct w; try done; [destruct (listens i)|..]; by eexists.
Qed.

Lemma round_lowers l a s :
  down_inv s → stopped s → a ∈ l → productive a s → is_Some (act a s) → life_rank (run l s) < life_rank s.
Proof.
  revert s. induction l as [|b l IH]; intros s Hi Hs Hin Hp Hen; [by apply elem_of_nil in Hin|].
  rewrite run_cons. destruct (act b s) as [s1|] eqn:Hb; cbn [from_option]; unfold id.
  2: { apply IH; try done. apply elem_of_cons in Hin as [->|?]; [|done]. destruct Hen. congruence. }
  destruct (act_rank b s s1 (di_life _ Hi) (di_small _ Hi) Hs Hb) as (Hs1 & Hle & Hlt).
  pose proof (down_act_inv _ _ _ Hi Hb) as Hi1.
  destruct (run_rank l s1 Hi1 Hs1) as [_ Hle1].
  destruct (decide (life_rank s1 < life_rank s)); [lia|].
  assert (match b with Checker | Timeout | Spurious => True | _ => False end ∧ hc_running (lf_checker s) = true) as [Hbc Hhr].
  { assert (¬ productive b s) as Hnp by (intros H%Hlt; done). destruct b; cbn in Hnp; try tauto;
      (split; [done|]); by apply not_false_is_true. }
  destruct (crashed s) eqn:Hal; [by unfold life_act in Hb; rewrite Hal in Hb|].
  destruct (checker_actor_step b s s1 Hbc (di_small _ Hi) Hal Hb) as (Hne & p & -> & _).
  assert (match a with Checker | Timeout | Spurious => False | _ => True end) as Hac
    by (destruct a; cbn in Hp; congruence || done).
  enough (life_rank (run l (set_checker (hc_goto p (lf_checker s)) s)) <
          life_rank (set_checker (hc_goto p (lf_checker s)) s)) by lia.
  apply IH; try done.
  - apply elem_of_cons in Hin as [->|?]; [|done]. by destruct b.
  - by apply still_enabled.
Qed.

(** Nothing happens after the end. *)
Lemma finished_stays s l : life_inv nworkers s → finished s → run l s = s.
Proof.
  intros Hi (Hm & Hst & Hc). pose proof Hi as [Hmo _ _ _]. unfold main_ok, all_exited in Hmo. rewrite Hm in Hmo.
  destruct Hmo as ((Hlen & Ha) & Hmt & Hhc & Hhr). rewrite Forall_forall in Ha.
  induction l as [|a l IH]; [done|]. rewrite run_cons. enough (default s (act a s) = s) as -> by exact IH.
  unfold life_act. destruct (crashed s); [done|]. destruct a as [| | | | | |i]; cbn.
  - destruct (interrupted on_main s); [done|]. unfold main_act. by rewrite Hm.
  - unfold stop_act. by rewrite Hst, Hc.
  - unfold checker_act. by rewrite Hhc.
  - unfold wake_act. by rewrite decide_False by congruence.
  - unfold wake_act. by rewrite decide_False by congruence.
  - unfold metrics_act. by rewrite Hmt.
  - unfold worker_act. destruct (lf_workers s !! i) as [w|] eqn:Ew; [|done].
    by rewrite (Ha w (list_elem_of_lookup_2 _ _ _ Ew)).
Qed.

Lemma crashed_stays s l : crashed s = true → run l s = s.
Proof.
  intros H. induction l as [|a l IH]; [done|]. rewrite run_cons. unfold life_act. rewrite H. exact IH.
Qed.

Lemma stuck_stays s l : life_inv nworkers s → stuck s → stuck (run l s).
Proof.
  revert s. induction l as [|a l IH]; intros s Hi Hs; [done|]. rewrite run_cons.
  destruct (act a s) as [s'|] eqn:E; cbn; [|by apply IH].
  apply IH; [by eapply life_act_inv|by eapply stuck_act].
Qed.

#[global] Instance stuck_dec s : Decision (stuck s).
Proof.
  unfold stuck. destruct (hc_thread (lf_checker s)) as [| |[|k]| | | |]; try (right; by intros (? & ? & _)).
  destruct (ends k) eqn:E; [right; intros (k' & [= <-] & ?); congruence|left; by exists k].
Defined.

(** In a round everyone gets a turn at least once, in any order and with
    anything in between. *)
Definition complete_round (l : list actor) : Prop := Forall (λ a, a ∈ l) everyone.

Lemma rounds_finish rounds s :
  down_inv s → stopped s → Forall complete_round rounds → life_rank s ≤ length rounds →
  crashed (run (concat rounds) s) = true ∨ finished (run (concat rounds) s) ∨ stuck (run (concat rounds) s).
Proof.
  revert s. induction rounds as [|l rounds IH]; intros s Hi Hs Hr Hlen; cbn in Hlen.
  - cbn. unfold life_rank in Hlen. destruct (crashed s); [by left|lia].
  - apply Forall_cons in Hr as [Hl Hr]. cbn [concat]. rewrite run_app.
    destruct (crashed s) eqn:Hal; [left; by rewrite !crashed_stays by (rewrite ?crashed_stays; done)|].
    destruct (decide (lf_main s = MReturned ∧ lf_stop s = SIdle ∧ lf_calls s = 0)) as [Hf|Hnf].
    { right. left. by rewrite !finished_stays by (rewrite ?finished_stays; done || apply Hi). }
    destruct (decide (stuck s)) as [Hst|Hst].
    { right. right. rewrite <- run_app. apply stuck_stays; [apply Hi|done]. }
    destruct (down_progress s Hi Hs Hal Hst Hnf) as (a & Ha & Hp & Hen).
    unfold complete_round in Hl. rewrite Forall_forall in Hl.
    pose proof (round_lowers l a s Hi Hs (Hl a Ha) Hp Hen).
    destruct (run_rank l s Hi Hs) as [Hs' _]. apply IH; try done; [by apply down_run_inv|]. lia.
Qed.

Lemma start_down_inv calls : down_inv (start_life calls).
Proof. split; try done. apply start_inv. Qed.
End shutdown.

(** ** Theorems *)

(** Rounds that shutting down takes at most, with [calls] further calls of
    [stop]. *)
Definition shutdown_bound (nworkers nbackends calls : nat) : nat :=
  1 + (nbackends + 10) * (2 * nworkers + 17 + 6 * calls) + 4 * nworkers + 3 + (nbackends + 5).

Lemma sum_ranks_max ws : sum_list_with worker_rank ws ≤ 4 * length ws.
Proof. induction ws as [|w ws IH]; [done|]. cbn. destruct w; cbn; lia. Qed.

Lemma rank_bound nworkers nbackends s calls :
  life_inv nworkers s → hc_small nbackends (hc_thread (lf_checker s)) → lf_calls s ≤ calls →
  life_rank nworkers nbackends s ≤ shutdown_bound nworkers nbackends calls.
Proof.
  intros Hi Hsm Hc. unfold life_rank, shutdown_bound. case_if; [lia|].
  pose proof (sum_ranks_max (lf_workers s)). pose proof (workers_bound nworkers s Hi).
  pose proof (hc_rank_max _ _ Hsm).
  assert (main_rank nworkers (lf_main s) ≤ 12 + 2 * nworkers) as Hmr.
  { destruct Hi as [Hm _ _ _]. unfold main_ok in Hm. destruct (lf_main s); cbn; destruct_and?; lia. }
  assert (stop_rank (lf_stop s) ≤ 5) by (destruct (lf_stop s); cbn; lia).
  assert (metrics_rank (lf_metrics s) ≤ 3) by (destruct (lf_metrics s); cbn; lia).
  assert (checker_rank nbackends (lf_checker s) ≤ nbackends + 5) by (unfold checker_rank, hc_max in *; case_if; lia).
  unfold hc_max. nia.
Qed.

Lemma calls_only_fall nworkers nbackends ends listens ml om l s :
  lf_calls (run_life nworkers nbackends ends listens ml om l s) ≤ lf_calls s.
Proof.
  revert s. induction l as [|a l IH]; intros s; [done|]. rewrite run_cons. etransitivity; [apply IH|].
  destruct (life_act _ _ _ _ _ _ a s) as [s'|] eqn:E; [|done]. cbn. unfold life_act in E. destruct (crashed s); [done|].
  destruct a as [| | | | | |i].
  - destruct (interrupted om s); [done|]. unfold main_act, hc_join_act in E.
    destruct (lf_main s) as [| | | |[|k]|j| | | | | | |]; try (by injection E as <-); try done.
    + destruct (hc_joinable _); by injection E as <-.
    + destruct (lf_workers s !! j); [case_decide; [|done]|]; by injection E as <-.
    + case_decide; [|done]. by injection E as <-.
    + case_decide; [|done]. destruct (hc_joinable _); by injection E as <-.
  - unfold stop_act, hc_join_act in E. destruct (lf_stop s); try (by injection E as <-).
    + destruct (lf_calls s) eqn:Ec; [done|]. injection E as <-. cbn. lia.
    + destruct (running_ s); by injection E as <-.
    + case_decide; [|done]. destruct (hc_joinable _); by injection E as <-.
  - unfold checker_act in E. destruct (hc_thread _) as [| |[|k]| | | |]; try done; try (destruct (ends k); [|done]); by injection E as <-.
  - unfold wake_act in E. case_decide; [|done]. by injection E as <-.
  - unfold wake_act in E. case_decide; [|done]. by injection E as <-.
  - unfold metrics_act in E. destruct (lf_metrics s); try done; by injection E as <-.
  - unfold worker_act in E. destruct (lf_workers s !! i) as [w|]; [|done].
    destruct w; try done; [destruct (listens i)|..]; by injection E as <-.
Qed.

(** What is left when [run] has returned. *)
Definition all_stopped (nworkers : nat) (s : life) : Prop :=
  lf_main s = MReturned ∧ pool_closed s = true ∧ all_exited nworkers (lf_workers s) ∧
  lf_metrics s = PExited ∧ hc_thread (lf_checker s) = HExited.

Lemma finished_all_stopped nworkers s : life_inv nworkers s → finished s → all_stopped nworkers s.
Proof.
  intros [Hm _ Hc _] (Em & _ & _). unfold main_ok in Hm. rewrite Em in Hm. destruct Hm as (? & ? & ? & _).
  split_and!; try done. by apply Hc.
Qed.

(** From the start of the process, through a stop, to the end. *)
Lemma rounds_stop nworkers nbackends ends listens metrics_listens on_main calls before rounds :
  let s := run_life nworkers nbackends ends listens metrics_listens on_main before (start_life calls) in
  let s' := run_life nworkers nbackends ends listens metrics_listens on_main (concat rounds) s in
  running_ s = false → lf_main s ≠ MSet → Forall (complete_round nworkers) rounds →
  shutdown_bound nworkers nbackends calls ≤ length rounds →
  crashed s' = true ∨ all_stopped nworkers s' ∨ stuck ends s'.
Proof.
  intros s s' Hr Hm Hrounds Hlen.
  pose proof (down_run_inv nworkers nbackends ends listens metrics_listens on_main before _ (start_down_inv _ _ _ calls)) as Hi.
  fold s in Hi. pose proof (calls_only_fall nworkers nbackends ends listens metrics_listens on_main before (start_life calls)) as Hc.
  fold s in Hc. cbn in Hc.
  pose proof (rank_bound nworkers nbackends s calls (di_life _ _ _ _ Hi) (di_small _ _ _ _ Hi) Hc).
  destruct (rounds_finish nworkers nbackends ends listens metrics_listens on_main rounds s Hi) as [?|[Hf|?]];
    [by split|done|lia|by left| |by right; right].
  right. left. apply finished_all_stopped; [|exact Hf]. apply run_life_inv, Hi.
Qed.

Lemma signal_shutdown nworkers nbackends ends listens metrics_listens calls before rounds :
  let s := run_life nworkers nbackends ends listens metrics_listens true before (start_life calls) in
  let s' := run_life nworkers nbackends ends listens metrics_listens true (concat rounds) s in
  0 < nworkers → (∀ i, i < nworkers → listens i = true) → (∀ k, k < nbackends → ends k = true) →
  running_ s = false → lf_main s ≠ MSet →
  Forall (complete_round nworkers) rounds → shutdown_bound nworkers nbackends calls ≤ length rounds →
  crashed s' = false ∧ all_stopped nworkers s'.
Proof.
  intros s s' Hn Hl He Hr Hm Hrounds Hlen.
  pose proof (signal_run_inv nworkers nbackends ends listens metrics_listens Hn Hl before _ (start_signal_inv _ calls)) as Hsi.
  pose proof (signal_run_inv nworkers nbackends ends listens metrics_listens Hn Hl (concat rounds) _ Hsi) as [_ Hal _ _ _].
  split; [done|]. destruct (rounds_stop nworkers nbackends ends listens metrics_listens true calls before rounds Hr Hm Hrounds Hlen)
    as [Hx|[?|(k & Hk & Hend)]]; [|done|].
  - fold s s' in Hal, Hx. congruence.
  - fold s s' in Hk. pose proof (down_run_inv nworkers nbackends ends listens metrics_listens true before _ (start_down_inv _ _ _ calls)) as Hi.
    apply (down_run_inv nworkers nbackends ends listens metrics_listens true (concat rounds)) in Hi as [_ Hsm _ _].
    fold s s' in Hsm. rewrite Hk in Hsm. cbn in Hsm. by rewrite He in Hend.
Qed.

(** C18: the gateway shuts down.  Once a call of [stop] has cleared the
    running flag, whatever the threads did before, [run] returns after at
    most [shutdown_bound] rounds in which every thread gets a turn (and every
    wait may end by its timeout), in any order; no thread is then left and
    the pool is closed.  The process can end otherwise only by an
    exception, and not end only when the health checker is in a check that
    never ends. *)
Theorem shutdown_live nworkers nbackends ends listens metrics_listens on_main calls before rounds :
  let s := run_life nworkers nbackends ends listens metrics_listens on_main before (start_life calls) in
  let s' := run_life nworkers nbackends ends listens metrics_listens on_main (concat rounds) s in
  running_ s = false → lf_main s ≠ MSet → Forall (complete_round nworkers) rounds →
  shutdown_bound nworkers nbackends calls ≤ length rounds →
  crashed s' = true ∨ all_stopped nworkers s' ∨ stuck ends s'.
Proof. cbv zeta. intros Hr Hm Hrounds Hlen. by apply rounds_stop. Qed.

(** A signal is safe at any time.  When [stop] runs in a signal handler
    on the thread of [run] and every worker can listen, no interleaving joins
    a thread twice or otherwise ends the process, and in every state the pool
    is closed only when [run] returns, after the workers, the metrics server
    and the health checker have ended. *)
Theorem signal_stop_safe nworkers nbackends ends listens metrics_listens calls schedule :
  0 < nworkers → (∀ i, i < nworkers → listens i = true) →
  let s := run_life nworkers nbackends ends listens metrics_listens true schedule (start_life calls) in
  crashed s = false ∧ (pool_closed s = true → all_stopped nworkers s).
Proof.
  intros Hn Hl s.
  destruct (signal_run_inv nworkers nbackends ends listens metrics_listens Hn Hl schedule _ (start_signal_inv _ calls))
    as [Hi Ha _ _ _]. fold s in Hi, Ha.
  split; [done|]. intros Hc. pose proof Hi as [Hm _ Hcl _]. pose proof (proj1 Hcl Hc) as Em.
  unfold main_ok in Hm. rewrite Em in Hm. destruct Hm as (? & ? & ? & _). done.
Qed.

(** One turn for everyone of a gateway with two workers. *)
Definition demo_round : list actor :=
  [Main; Stopper; Checker; Timeout; MetricsThread; WorkerThread 0; WorkerThread 1].

Lemma signal_stop_safe_witness :
  let s := run_life 2 1 (λ _, true) (λ _, true) true true (concat (replicate 30 demo_round)) (start_life 2) in
  crashed s = false ∧ (pool_closed s = true → all_stopped 2 s).
Proof.
  refine (signal_stop_safe 2 1 (λ _, true) (λ _, true) true 2 (concat (replicate 30 demo_round)) _ _); [lia|done].
Defined.

(** [run] starts everything; the flag is then cleared. *)
Definition demo_up : list actor := replicate 8 Main ++ [Stopper; Stopper].

Lemma shutdown_live_witness :
  let s := run_life 2 1 (λ _, true) (λ _, true) true true demo_up (start_life 1) in
  let s' := run_life 2 1 (λ _, true) (λ _, true) true true (concat (replicate (shutdown_bound 2 1 1) demo_round)) s in
  (crashed s' = true ∨ all_stopped 2 s' ∨ stuck (λ _, true) s') ∧ crashed s' = false.
Proof.
  split; [|vm_compute; reflexivity].
  refine (shutdown_live 2 1 (λ _, true) (λ _, true) true true 1 demo_up (replicate (shutdown_bound 2 1 1) demo_round) _ _ _ _).
  - vm_compute. reflexivity.
  - vm_compute. congruence.
  - apply Forall_replicate. unfold complete_round. repeat constructor; by_decide.
  - rewrite length_replicate. lia.
Defined.

(** C40: two threads may join the health checker.  When [stop] is called from
    another thread, as the comment at [run] invites, the caller and [run] can
    both find the health checker joinable and join it: the second join is an
    error that ends the process. *)
Theorem concurrent_stop_joins_twice :
  ∃ schedule, crashed (run_life 1 0 (λ _, true) (λ _, true) true false schedule (start_life 1)) = true.
Proof.
  exists (replicate 7 Main ++ replicate 4 MetricsThread ++ replicate 2 (WorkerThread 0) ++ replicate 5 Stopper ++
          replicate 3 (WorkerThread 0) ++ [MetricsThread; MetricsThread] ++ replicate 6 Main ++ replicate 6 Checker ++ [Stopper; Main]).
  vm_compute. reflexivity.
Qed.

(** An early stop is lost.  A call of [stop] that comes before [run] has
    set the flag returns without effect, and the gateway then runs: whatever
    the threads do afterwards, [run] does not return unless [stop] is called
    again. *)
Theorem early_stop_is_lost nworkers nbackends ends listens metrics_listens on_main after :
  0 < nworkers →
  let s := run_life nworkers nbackends ends listens metrics_listens on_main [Stopper; Stopper] (start_life 1) in
  lf_stop s = SIdle ∧ lf_calls s = 0 ∧
  lf_main (run_life nworkers nbackends ends listens metrics_listens on_main after s) ≠ MReturned.
Proof.
  intros Hn s. split; [done|]. split; [done|].
  assert (∀ l s, life_inv nworkers s → lf_stop s = SIdle → lf_calls s = 0 → running_ s = true ∨ lf_main s = MSet →
    lf_main (run_life nworkers nbackends ends listens metrics_listens on_main l s) ≠ MReturned) as Hrun.
  { clear s after. intros l. induction l as [|a l IH]; intros s Hi Hs Hc Hr.
    - cbn. intros E. pose proof Hi as [Hm _ _ _]. destruct Hr as [Hr|Hr]; [|congruence].
      destruct (running_early nworkers Hn s Hi Hr) as [H1 H2]. specialize (H2 H1). by rewrite E in H2.
    - rewrite run_cons. destruct (life_act _ _ _ _ _ _ a s) as [s'|] eqn:E; cbn; [|by apply IH].
      pose proof (life_act_inv _ _ _ _ _ _ _ _ _ Hi E) as Hi'. unfold life_act in E. destruct (crashed s); [done|].
      destruct a as [| | | | | |i].
      + destruct (interrupted on_main s); [done|]. destruct (main_act_checker nworkers 0 s s' E) as (Es & _).
        apply IH; [done|congruence|..].
        * unfold main_act, hc_join_act in E. destruct (lf_main s) as [| | | |[|k]|j| | | | | | |]; try (by injection E as <-); try done;
            repeat (case_decide || case_if || case_match); by simplify_eq.
        * unfold main_act, hc_join_act in E. destruct (lf_main s) as [| | | |[|k]|j| | | | | | |];
            try (injection E as <-; cbn; by auto); try done;
            (destruct Hr as [Hr|Hr]; [|done]); left; repeat (case_decide || case_if || case_match); by simplify_eq.
      + unfold stop_act in E. by rewrite Hs, Hc in E.
      + unfold checker_act in E. destruct (hc_thread _) as [| |[|k]| | | |]; try done; try (destruct (ends k); [|done]); injection E as <-; by apply IH.
      + unfold wake_act in E. case_decide; [|done]. injection E as <-. by apply IH.
      + unfold wake_act in E. case_decide; [|done]. injection E as <-. by apply IH.
      + unfold metrics_act in E. destruct (lf_metrics s); try done; injection E as <-; by apply IH.
      + unfold worker_act in E. destruct (lf_workers s !! i) as [w|]; [|done].
        destruct w; try done; [destruct (listens i)|..]; injection E as <-; by apply IH. }
  apply Hrun; [|done|done|by right]. apply run_life_inv, start_inv.
Qed.

Lemma early_stop_is_lost_witness :
  let s := run_life 2 1 (λ _, true) (λ _, true) true true [Stopper; Stopper] (start_life 1) in
  lf_stop s = SIdle ∧ lf_calls s = 0 ∧
  lf_main (run_life 2 1 (λ _, true) (λ _, true) true true (concat (replicate 30 demo_round)) s) ≠ MReturned.
Proof. apply (early_stop_is_lost 2 1 (λ _, true) (λ _, true) true true (concat (replicate 30 demo_round))). lia. Defined.

(** A notification can be lost: [stop] clears the flag and notifies between
    the predicate of the checker's wait and the wait itself, which then lasts
    its whole interval. *)
Theorem checker_wakeup_can_be_lost :
  ∃ schedule,
    let s := run_life 1 0 (λ _, true) (λ _, true) true false schedule (start_life 1) in
    lf_stop s = SJoin ∧ hc_running (lf_checker s) = false ∧ hc_thread (lf_checker s) = HWaiting ∧
    life_act 1 0 (λ _, true) (λ _, true) true false Checker s = None.
Proof.
  exists (replicate 7 Main ++ replicate 3 Checker ++ replicate 5 Stopper ++ [Checker]).
  vm_compute. done.
Qed.

(** A worker that cannot listen ends the process: its exception leaves the
    thread, and no handler of [main] sees it. *)
Theorem worker_listen_failure_ends_process nworkers nbackends ends listens metrics_listens on_main schedule i :
  let s := run_life nworkers nbackends ends listens metrics_listens on_main schedule (start_life 1) in
  lf_workers s !! i = Some WStarting → listens i = false →
  crashed (turn nworkers nbackends ends listens metrics_listens on_main s (WorkerThread i)) = true.
Proof.
  intros s Hi Hl. unfold turn, life_act. destruct (crashed s) eqn:E; [done|]. cbn. unfold worker_act. by rewrite Hi, Hl.
Qed.
