(* ===== verification/BackendServer.v ===== *)
(** * The demo backend (backends/backend_server.cpp)

    The small HTTP server the gateway is tried against: its command line, the
    handling of one client and the loop that accepts clients.  What [recv],
    [send] and the random draw answer is an argument; sleeping for the
    configured latency changes no state.  The theorems put it together with
    the gateway: the gateway's reader accepts its replies, a health check of
    it passes, and a forwarded request is answered with its target. *)
From Stdlib Require Import QArith Qabs.
From S2P Require Import Prelude CxxString Rounding CxxDouble HttpMessage HttpParser HttpParserRoundTrip LoadBalancer ConnectionPool HealthChecker BackendIO BackendRequest BackendReply TcpServer.
Local Open Scope nat_scope.

(** [std::atof]: 0 when nothing can be read, an infinity on overflow. *)
Definition atof (rnd : Q → Q) (s : bytes) : double :=
  let '(neg, s) := read_sign (drop_while isspace s) in
  if is_prefix (str "inf") (to_lower s) then Infinite neg
  else if is_prefix (str "nan") (to_lower s) then NaN
  else
    match read_number s with
    | None => Finite 0
    | Some m =>
        let v := rnd (if neg then - m else m)%Q in
        if Qle_bool (Qpower 2 1024) (Qabs v) then Infinite neg else Finite v
    end.

(** [d > 0.0] and [x < d]. *)
Definition double_positive (d : double) : bool :=
  match d with Finite q => negb (Qle_bool q 0) | Infinite neg => negb neg | NaN => false end.
Definition below_double (x : Q) (d : double) : bool :=
  match d with Finite q => negb (Qle_bool q x) | Infinite neg => negb neg | NaN => false end.

(** ** One client *)

(** [sizeof(buf) - 1]. *)
Definition recv_size : nat := Z.to_nat 8191.

(** Answers of the system calls and of the draw from [0, 1). *)
Record client_env := mkClientEnv {
  cl_recv : option bytes;      (* [None]: end of stream or error *)
  cl_draw : Q;
  cl_sent : nat                (* bytes [send] takes *)
}.

(** Lines 27-35: the request target; [sp1 + 1] wraps around for [npos]. *)
Definition request_path (request : bytes) : bytes :=
  let sp1 := find_char SP request in
  let from := Z.to_nat (npos_of sp1 +u 1)%Z in
  let sp2 := (λ i, from + i) <$> find_char SP (drop from request) in
  match sp1, sp2 with
  | Some a, Some b => substr request (a + 1) (b - a - 1)
  | _, _ => str "/"
  end.

(** Line 43. *)
Definition shouldFail (failRate : double) (draw : Q) (path : bytes) : bool :=
  negb (bool_decide (path = str "/health")) && double_positive failRate && below_double draw failRate.

(** A JSON string member of a body; the text is not escaped. *)
Definition member (k v : bytes) : bytes := DQ :: k ++ [DQ; ":"%char; DQ] ++ v ++ [DQ].

(** Lines 48-55: status, reason and body. *)
Definition backend_body (fail : bool) (name : bytes) (port : Z) (path : bytes) (count : Z) : bytes :=
  if fail then
    str "{" ++ member (str "error") (str "simulated failure") ++ str "," ++
    member (str "backend") (name ++ str ":" ++ to_string port) ++ str "}"
  else
    str "{" ++ member (str "backend") (name ++ str ":" ++ to_string port) ++ str "," ++
    member (str "path") path ++ str "," ++ DQ :: str "request_count" ++ [DQ; ":"%char] ++ to_string count ++ str "}".

Definition backend_status (fail : bool) : Z := if fail then 500 else 200.
Definition backend_reason (fail : bool) : bytes := if fail then str "Internal Server Error" else str "OK".

(** Lines 58-63. *)
Definition backend_reply (status : Z) (statusText body : bytes) : bytes :=
  str "HTTP/1.1 " ++ to_string status ++ str " " ++ statusText ++ crlf ++
  str "Content-Type: application/json" ++ crlf ++
  str "Content-Length: " ++ to_string (size_of body) ++ crlf ++
  str "Connection: close" ++ crlf ++ crlf ++ body.

(** The counter of requests and the clients' sockets. *)
Record backend_state := mkBackendState { g_requestCount : Z; bs_clients : gset Z }.

(** [handleClient]: what was sent, and the state; the socket is closed on
    every path. *)
Definition handleClient (env : client_env) (fd : Z) (failRate : double) (name : bytes) (port : Z)
    (s : backend_state) : bytes * backend_state :=
  match cl_recv env with
  | None | Some [] => ([], mkBackendState (g_requestCount s) (bs_clients s ∖ {[fd]}))
  | Some data =>
      let request := c_string (take recv_size data) in
      let path := request_path request in
      let count := (g_requestCount s +u 1)%Z in
      let fail := shouldFail failRate (cl_draw env) path in
      let reply := backend_reply (backend_status fail) (backend_reason fail) (backend_body fail name port path count) in
      (take (cl_sent env) reply, mkBackendState count (bs_clients s ∖ {[fd]}))
  end.

(** ** The process *)

Record backend_options := mkBackendOptions {
  bo_port : Z; bo_latencyMs : Z; bo_failRate : double; bo_name : bytes
}.

(** Lines 80-85: the loop over the arguments. *)
Fixpoint read_options (rnd : Q → Q) (args : list bytes) (o : backend_options) : backend_options :=
  match args with
  | arg :: ((value :: rest) as args') =>
      if decide (arg = str "--latency-ms") then
        read_options rnd rest (mkBackendOptions (bo_port o) (atoi value) (bo_failRate o) (bo_name o))
      else if decide (arg = str "--fail-rate") then
        read_options rnd rest (mkBackendOptions (bo_port o) (bo_latencyMs o) (atof rnd value) (bo_name o))
      else if decide (arg = str "--name") then
        read_options rnd rest (mkBackendOptions (bo_port o) (bo_latencyMs o) (bo_failRate o) value)
      else read_options rnd args' o
  | _ => o
  end.

(** Lines 70-85: [None] is the usage message and exit code 1; [args] are the
    arguments after the program's name. *)
Definition backend_args (rnd : Q → Q) (args : list bytes) : option backend_options :=
  match args with
  | [] => None
  | port :: rest => Some (read_options rnd rest (mkBackendOptions (atoi port) 0 (Finite 0) (str "backend")))
  end.

(** Lines 87-100: the listening socket; the exit code 1 when [bind] fails.
    The result of [listen] is not looked at. *)
Definition backend_listen (env : listen_env) (port : Z) (t : sock_table) : option sock_table :=
  let listenFd := le_socket env (dom t) in
  let t := if (listenFd <? 0)%Z then t else <[listenFd := set_reuse_addr new_sock]> t in
  match le_bind env with
  | Some _ => None
  | None =>
      let t := alter (set_bound (INADDR_ANY, (port mod 2 ^ 16)%Z)) listenFd t in
      Some (match le_listen env with None => alter (set_backlog 512) listenFd t | Some _ => t end)
  end.

(** Lines 105-111: clients as their threads get to the counter; an [accept]
    that fails is [None]. *)
Fixpoint accept_loop (clients : list (option (Z * client_env))) (o : backend_options) (s : backend_state)
    : list (Z * bytes) * backend_state :=
  match clients with
  | [] => ([], s)
  | None :: clients' => accept_loop clients' o s
  | Some (fd, env) :: clients' =>
      let s := mkBackendState (g_requestCount s) ({[fd]} ∪ bs_clients s) in
      let '(out, s) := handleClient env fd (bo_failRate o) (bo_name o) (bo_port o) s in
      let '(outs, s) := accept_loop clients' o s in
      ((fd, out) :: outs, s)
  end.

(** ** Its replies, as the gateway reads them *)

Definition backend_fields (body : bytes) : header_fields :=
  [(str "Content-Type", str "application/json"); (str "Content-Length", to_string (size_of body));
   (str "Connection", str "close")].

Lemma backend_reply_print status text body :
  backend_reply status text body = print_reply status text (backend_fields body) body.
Proof.
  unfold backend_reply, print_reply, print_status, backend_fields, print_headers. cbn [fmap list_fmap concat].
  unfold print_header. cbn [fst snd]. rewrite app_nil_r. change (str "HTTP/1.1 ") with (str "HTTP/1.1" ++ [SP]).
  change (str " ") with [SP]. change (str "Content-Type: application/json") with (str "Content-Type" ++ ":"%char :: SP :: str "application/json").
  change (str "Content-Length: ") with (str "Content-Length" ++ [":"%char; SP]).
  change (str "Connection: close") with (str "Connection" ++ ":"%char :: SP :: str "close").
  repeat (rewrite <- !app_assoc; cbn [app]). done.
Qed.

Lemma length_to_string n : (0 ≤ n < 2 ^ 64)%Z → length (to_string n) ≤ 65.
Proof.
  intros Hn. unfold to_string. destruct (Z.ltb_spec n 0); [lia|]. unfold to_string_nat.
  pose proof (length_dec_digits (S (Z.to_nat (Z.log2 n))) n []) as Hl. cbn [length] in Hl.
  destruct (decide (n = 0%Z)) as [->|]; [cbn in *; lia|].
  assert (Z.log2 n < 64)%Z by (apply Z.log2_lt_pow2; lia). lia.
Qed.

Lemma backend_fields_ok body : Forall reply_field_ok (backend_fields body).
Proof.
  assert (∀ k v, forallb (λ c, negb (bool_decide (c ∈ [CR; LF; ":"%char]))) k = true →
    forallb (λ c, negb (bool_decide (c ∈ [CR; LF]))) v = true →
    match v with c :: _ => isspace c = false | [] => True end → reply_field_ok (k, v)) as Hlit.
  { intros k v Hk Hv Hs. rewrite forallb_forall in Hk, Hv. split_and!; cbn [fst snd].
    - intros c Hc Hin. apply list_elem_of_In in Hin. specialize (Hk c Hin). by rewrite bool_decide_eq_true_2 in Hk.
    - intros c Hc Hin. apply list_elem_of_In in Hin. specialize (Hv c Hin). by rewrite bool_decide_eq_true_2 in Hv.
    - intros c Hc. destruct v; [done|]. injection Hc as ->. exact Hs. }
  unfold backend_fields. rewrite !Forall_cons. split_and!; [..|done]; apply Hlit; try (vm_compute; reflexivity).
  - apply forallb_forall. intros c Hc%list_elem_of_In. apply to_string_digits in Hc; [|unfold size_of; lia].
    apply negb_true_iff, bool_decide_eq_false_2. intros Hin.
    repeat (apply elem_of_cons in Hin as [->|Hin]; [discriminate Hc|]). by apply elem_of_nil in Hin.
  - destruct (to_string (size_of body)) as [|c r] eqn:E; [done|].
    assert (isdigit c = true) as Hd by (apply (to_string_digits (size_of body)); [unfold size_of; lia|rewrite E; left]).
    by apply isdigit_not_space in Hd as [? _].
Qed.

Lemma backend_good fail maxBody body :
  (size_of body ≤ maxBody)%Z → (size_of body < 2 ^ 63)%Z →
  good_reply maxBody (backend_status fail) (backend_reason fail) (backend_fields body) body.
Proof.
  intros Hmax Hbig.
  assert (size_of (print_status (backend_status fail) (backend_reason fail) ++ crlf ++ print_headers (backend_fields body) ++ crlf) ≤ 300)%Z as Hhead.
  { pose proof (length_to_string (size_of body) ltac:(unfold size_of in *; lia)) as Hl.
    unfold size_of, backend_fields, print_headers. cbn [fmap list_fmap concat]. unfold print_header. cbn [fst snd].
    repeat (rewrite ?length_app; cbn [length]).
    assert (length (print_status (backend_status fail) (backend_reason fail)) ≤ 60) by (destruct fail; vm_compute; lia).
    change (length (str "Content-Type")) with 12. change (length (str "application/json")) with 16.
    change (length (str "Content-Length")) with 14. change (length (str "Connection")) with 10.
    change (length (str "close")) with 5. unfold crlf. cbn [length]. lia. }
  split.
  - destruct fail; vm_compute; split; congruence.
  - intros c Hc. destruct fail; repeat (apply elem_of_cons in Hc as [->|Hc]; [by_decide|]); by apply elem_of_nil in Hc.
  - apply backend_fields_ok.
  - split; [by exists (str "Content-Length")|repeat constructor].
  - done.
  - lia.
  - unfold print_reply, size_of in *. rewrite !length_app in *. lia.
Qed.

Lemma backend_passed_on body :
  passed_on (backend_fields body) = [(str "content-type", str "application/json")] ∧
  keeps_open false (backend_fields body) = false.
Proof. split; [by vm_compute|]. by vm_compute. Qed.

(** The gateway's reader on a reply of this backend, cut in any way. *)
Lemma backend_reply_read request maxBody ms chunks fail body :
  (size_of body ≤ maxBody)%Z → (size_of body < 2 ^ 63)%Z → (0 < size_of request < 2 ^ 64)%Z → (0 < ms)%Z →
  Forall (λ c, c ≠ [] ∧ (size_of c ≤ 8192)%Z) chunks →
  concat chunks = backend_reply (backend_status fail) (backend_reason fail) body →
  sendAndReceive request maxBody (send_all (size_of request)) (timely ms chunks) =
  Returned (Some (mkHttpResponse (backend_status fail) (backend_reason fail)
                    [(str "content-type", str "application/json")] body, false)).
Proof.
  intros Hmax Hbig Hreq Hms Hch Hcat. unfold sendAndReceive. rewrite tx_loop_all by done.
  pose proof (backend_good fail maxBody body Hmax Hbig) as Hg. pose proof (good_whole _ _ _ _ _ Hg) as Hw.
  pose proof (rx_loop_chunks maxBody _ _ _ ms chunks [] Hw Hms) as Hrx. rewrite backend_reply_print in Hcat.
  unfold rx_at in Hrx. simpl find in Hrx. cbv iota in Hrx. rewrite Hrx; [|by intros ->|done|by rewrite Hcat].
  rewrite (read_reply_print maxBody) by done. by destruct (backend_passed_on body) as [-> ->].
Qed.

(** ** What it makes of a request *)

Lemma npos_next i : (Z.of_nat i + 1 < 2 ^ 64)%Z → Z.to_nat (npos_of (Some i) +u 1)%Z = i + 1.
Proof. intros H. cbn. rewrite u64_small by lia. lia. Qed.

(** The first two words of a request line. *)
Lemma request_path_target method target rest :
  SP ∉ method → SP ∉ target → (size_of (method ++ SP :: target) < 2 ^ 63)%Z →
  request_path (method ++ SP :: target ++ SP :: rest) = target.
Proof.
  intros Hm Ht Hlen. unfold size_of in Hlen. rewrite length_app in Hlen. cbn in Hlen. unfold request_path.
  rewrite (find_char_hit SP method _ Hm), npos_next by lia.
  assert (drop (length method + 1) (method ++ SP :: target ++ SP :: rest) = target ++ SP :: rest) as Ed.
  { rewrite cons_middle, app_assoc. replace (length method + 1) with (length (method ++ [SP])) by (rewrite length_app; cbn; lia).
    apply drop_app_length. }
  rewrite Ed, (find_char_hit SP target _ Ht). cbn [fmap option_fmap option_map]. unfold substr. rewrite Ed.
  replace (length method + 1 + length target - length method - 1) with (length target) by lia. apply take_app_length.
Qed.

(** No space, no target. *)
Lemma request_path_none request : SP ∉ request → request_path request = str "/".
Proof. intros H. unfold request_path. by rewrite find_char_miss. Qed.

Lemma c_string_app a b : "000"%char ∉ a → ∃ b', c_string (a ++ b) = a ++ b'.
Proof.
  induction a as [|c a IH]; intros Ha; [by exists (c_string b)|].
  destruct IH as [b' Hb]; [set_solver|]. exists b'. cbn. rewrite bool_decide_eq_false_2 by set_solver. cbn.
  unfold c_string in Hb. by rewrite Hb.
Qed.

(** The part of a request [recv] returns holds its line. *)
Lemma received_target method target rest k :
  SP ∉ method → SP ∉ target → "000"%char ∉ method → "000"%char ∉ target →
  length method + length target + 2 ≤ k → k ≤ recv_size →
  request_path (c_string (take recv_size (take k (method ++ SP :: target ++ SP :: rest)))) = target.
Proof.
  intros Hm Ht Nm Nt Hk Hmax. rewrite take_take, Nat.min_r by done.
  assert (method ++ SP :: target ++ SP :: rest = (method ++ SP :: target ++ [SP]) ++ rest) as E.
  { by rewrite <- app_assoc, <- app_comm_cons, <- app_assoc. }
  assert (length (method ++ SP :: target ++ [SP]) = length method + length target + 2) as El
    by (rewrite length_app; cbn; rewrite length_app; cbn; lia).
  rewrite E, take_app_ge by lia.
  destruct (c_string_app (method ++ SP :: target ++ [SP]) (take (k - length (method ++ SP :: target ++ [SP])) rest)) as [b' ->].
  { rewrite elem_of_app, elem_of_cons, elem_of_app, list_elem_of_singleton. intros [?|[?|[?|?]]]; done. }
  rewrite <- app_assoc, <- app_comm_cons, <- app_assoc. apply request_path_target; [done..|].
  unfold size_of, recv_size in *. rewrite length_app. cbn [length]. lia.
Qed.

(** A client that has sent something. *)
Lemma handleClient_data env fd failRate name port s data path fail count :
  cl_recv env = Some data → data ≠ [] → request_path (c_string (take recv_size data)) = path →
  shouldFail failRate (cl_draw env) path = fail → (g_requestCount s +u 1)%Z = count →
  handleClient env fd failRate name port s =
    (take (cl_sent env) (backend_reply (backend_status fail) (backend_reason fail) (backend_body fail name port path count)),
     mkBackendState count (bs_clients s ∖ {[fd]})).
Proof. intros Hr Hd <- <- <-. unfold handleClient. rewrite Hr. by destruct data. Qed.

(** ** Theorems *)

(** What the request line names. *)
Definition target (req : HttpRequest) : bytes :=
  rq_path req ++ (if decide (rq_query req = []) then [] else str "?" ++ rq_query req).

Lemma upstream_line iterate req host :
  ∃ rest, buildBackendRequest iterate req host = rq_method req ++ SP :: target req ++ SP :: rest.
Proof.
  unfold buildBackendRequest, target. change (str " HTTP/1.1") with (SP :: str "HTTP/1.1").
  eexists. change (str " ") with [SP]. rewrite <- !app_assoc. cbn [app]. reflexivity.
Qed.

(** The words of a request line: no blank and no NUL. *)
Definition word (s : bytes) : Prop := SP ∉ s ∧ "000"%char ∉ s.

(** C29: a request forwarded to the demo backend comes back answered.  The
    backend reads the target the gateway sent, whatever follows the request
    line in its first read; answers 500 exactly when it is told to fail and
    the draw says so, else 200 with the target and its count in the body; and
    the gateway's reader accepts that reply in whatever pieces it arrives and
    does not keep the connection.  The backend has then counted one request
    and closed the client. *)
Theorem gateway_demo_backend iterate req upstream env fd failRate name port s k maxBody ms chunks :
  let wire := buildBackendRequest iterate req upstream in
  let fail := shouldFail failRate (cl_draw env) (target req) in
  let count := (g_requestCount s +u 1)%Z in
  let body := backend_body fail name port (target req) count in
  word (rq_method req) → word (target req) →
  length (rq_method req) + length (target req) + 2 ≤ k → k ≤ recv_size → cl_recv env = Some (take k wire) →
  length (backend_reply (backend_status fail) (backend_reason fail) body) ≤ cl_sent env →
  (size_of body ≤ maxBody)%Z → (size_of body < 2 ^ 63)%Z → (size_of wire < 2 ^ 64)%Z → (0 < ms)%Z →
  Forall (λ c, c ≠ [] ∧ (size_of c ≤ 8192)%Z) chunks →
  concat chunks = (handleClient env fd failRate name port s).1 →
  sendAndReceive wire maxBody (send_all (size_of wire)) (timely ms chunks) =
    Returned (Some (mkHttpResponse (backend_status fail) (backend_reason fail)
                      [(str "content-type", str "application/json")] body, false)) ∧
  (handleClient env fd failRate name port s).2 = mkBackendState count (bs_clients s ∖ {[fd]}).
Proof.
  intros wire fail count body [Hm Nm] [Ht Nt] Hk Hkm Hrecv Hsent Hmax Hbig Hwire Hms Hch Hcat.
  destruct (upstream_line iterate req upstream) as [rest E]. fold wire in E.
  pose proof (received_target (rq_method req) (target req) rest k Hm Ht Nm Nt) as Hpath.
  specialize (Hpath Hk Hkm). rewrite <- E in Hpath.
  assert (take k wire ≠ []) as Hne.
  { intros H0. apply (f_equal length) in H0. rewrite length_take, E, length_app in H0. cbn in H0. lia. }
  assert (handleClient env fd failRate name port s =
    (take (cl_sent env) (backend_reply (backend_status fail) (backend_reason fail) body),
     mkBackendState count (bs_clients s ∖ {[fd]}))) as Hout.
  { by apply (handleClient_data env fd failRate name port s (take k wire)). }
  rewrite Hout in Hcat |- *. cbn [fst snd] in *. rewrite take_ge in Hcat by done. split; [|done].
  apply backend_reply_read; try done. split; [|done]. rewrite E. unfold size_of. rewrite length_app. cbn. lia.
Qed.

Definition demo_client (request : bytes) (draw : Q) : client_env := mkClientEnv (Some request) draw 1000.

Definition demo_wire : bytes := buildBackendRequest map_to_list demo_request (str "10.0.0.1").

Lemma gateway_demo_backend_witness :
  let r := handleClient (demo_client (take 200 demo_wire) (1 # 2)) 7 (Finite (1 # 4)) (str "b1") 9001 (mkBackendState 41 {[7%Z]}) in
  sendAndReceive demo_wire 1000 (send_all (size_of demo_wire)) (timely 50 [r.1]) =
    Returned (Some (mkHttpResponse 200 (str "OK") [(str "content-type", str "application/json")]
      (backend_body false (str "b1") 9001 (target demo_request) 42), false)) ∧
  r.2 = mkBackendState 42 ({[7%Z]} ∖ {[7%Z]}).
Proof.
  intros r.
  refine (gateway_demo_backend map_to_list demo_request (str "10.0.0.1") (demo_client (take 200 demo_wire) (1 # 2)) 7
    (Finite (1 # 4)) (str "b1") 9001 (mkBackendState 41 {[7%Z]}) 200 1000 50 [r.1] _ _ _ _ _ _ _ _ _ _ _ _);
    try (split; by_decide); try (vm_compute; reflexivity); try (by_decide).
Defined.

(** The health probe of a demo backend passes.  Whatever failure rate the
    backend runs with, the checker's probe of the default path is answered
    with 200 and the checker, reading any first segment that holds at least
    the status code, judges the backend healthy. *)
Theorem health_probe_passes env fd failRate name port s b k :
  cl_recv env = Some (check_request (str "/health") b) → 10 ≤ cl_sent env → 10 ≤ k →
  healthy_reply (Some (take k (handleClient env fd failRate name port s).1)) = true.
Proof.
  intros Hrecv Hs Hk.
  assert (request_path (c_string (take recv_size (check_request (str "/health") b))) = str "/health") as Hpath.
  { pose proof (received_target (str "GET") (str "/health")
      (str "HTTP/1.1" ++ crlf ++ str "Host: " ++ host b ++ crlf ++ str "Connection: close" ++ crlf ++ crlf) recv_size) as H.
    rewrite take_take, Nat.min_id in H. apply H; try by_decide. }
  rewrite (handleClient_data env fd failRate name port s (check_request (str "/health") b) (str "/health") false
    (g_requestCount s +u 1)%Z) by done.
  cbn [fst]. rewrite take_take. set (n := k `min` cl_sent env).
  assert (∃ rest, take n (backend_reply (backend_status false) (backend_reason false)
    (backend_body false name port (str "/health") (g_requestCount s +u 1))) = str "HTTP/1.1 2" ++ rest) as [rest ->].
  { unfold backend_reply. change (to_string (backend_status false)) with (str "200").
    change (str "HTTP/1.1 " ++ str "200" ++ ?r) with (str "HTTP/1.1 2" ++ str "00" ++ r).
    rewrite take_app_ge by (cbn; lia). by eexists. }
  unfold healthy_reply. cbn [app str String.list_ascii_of_string].
  apply orb_true_iff. left. apply contains_true.
  destruct (c_string_app (str "HTTP/1.1 2") (take 53 rest)) as [b' Hb]; [by_decide|]. exists [], b'. exact Hb.
Qed.

Lemma health_probe_passes_witness :
  healthy_reply (Some (take 40 (handleClient (demo_client (check_request (str "/health") (demo_backend true 0)) 0) 7
    (Infinite false) (str "b1") 9001 (mkBackendState 0 {[7%Z]})).1)) = true.
Proof.
  apply (health_probe_passes (demo_client (check_request (str "/health") (demo_backend true 0)) 0) 7 (Infinite false)
    (str "b1") 9001 (mkBackendState 0 {[7%Z]}) (demo_backend true 0) 40); [done|vm_compute; lia|lia].
Defined.

(** A client that sent a request, and how many of them there are. *)
Definition asks (env : client_env) : bool := match cl_recv env with Some (_ :: _) => true | _ => false end.

Fixpoint asking (clients : list (option (Z * client_env))) : nat :=
  match clients with
  | [] => 0
  | None :: clients' => asking clients'
  | Some (_, env) :: clients' => (if asks env then 1 else 0) + asking clients'
  end.

Lemma handleClient_count env fd failRate name port s :
  (0 ≤ g_requestCount s)%Z → (g_requestCount s + 1 < 2 ^ 64)%Z →
  let s' := (handleClient env fd failRate name port s).2 in
  bs_clients s' = bs_clients s ∖ {[fd]} ∧ g_requestCount s' = (g_requestCount s + if asks env then 1 else 0)%Z.
Proof.
  intros H0 Hmax. unfold handleClient, asks. destruct (cl_recv env) as [[|c0 d]|]; cbn [snd bs_clients g_requestCount].
  - split; [done|lia].
  - split; [done|]. apply u64_small. lia.
  - split; [done|lia].
Qed.

(** Every client is closed and the requests are counted, whatever the
    clients do and in whatever order their threads run. *)
Theorem backend_serves_all clients o s outs s' :
  (0 ≤ g_requestCount s)%Z → (g_requestCount s + Z.of_nat (length clients) < 2 ^ 64)%Z →
  accept_loop clients o s = (outs, s') →
  bs_clients s' ⊆ bs_clients s ∧ g_requestCount s' = (g_requestCount s + Z.of_nat (asking clients))%Z ∧
  length outs = length (omap id clients).
Proof.
  revert s outs s'. induction clients as [|[[fd env]|] clients IH]; intros s outs s' H0 Hmax; cbn [accept_loop].
  - intros [= <- <-]. cbn. split_and!; [done|lia|done].
  - cbn [length] in Hmax. set (s1 := mkBackendState _ _).
    destruct (handleClient_count env fd (bo_failRate o) (bo_name o) (bo_port o) s1) as [Hc Hn]; [done|cbn; lia|].
    destruct (handleClient env fd _ _ _ s1) as [out s2]. cbn [snd s1 g_requestCount bs_clients] in Hc, Hn.
    destruct (accept_loop clients o s2) as [outs2 s3] eqn:Hl. intros [= <- <-].
    destruct (IH s2 outs2 s3) as (H1 & H2 & H3); [destruct (asks env); lia..|done|].
    split; [rewrite Hc in H1; set_solver|]. cbn. split; [destruct (asks env); lia|by rewrite H3].
  - cbn [length] in Hmax. intros Hl. destruct (IH s outs s') as (H1 & H2 & H3); [lia|lia|done|]. done.
Qed.

Lemma backend_serves_all_witness :
  g_requestCount (accept_loop [Some (5%Z, demo_client (str "GET /a HTTP/1.1") 0); None;
      Some (6%Z, mkClientEnv None 0 0); Some (7%Z, demo_client (str "GET /b HTTP/1.1") 0)]
    (mkBackendOptions 9001 0 (Finite 0) (str "b")) (mkBackendState 0 ∅)).2 = 2%Z.
Proof.
  set (clients := [_; _; _; _]). set (o := mkBackendOptions _ _ _ _).
  refine (proj1 (proj2 (backend_serves_all clients o (mkBackendState 0 ∅)
    (accept_loop clients o (mkBackendState 0 ∅)).1 _ _ _ _))); [done|done|].
  by destruct (accept_loop clients o (mkBackendState 0 ∅)).
Defined.

(** The options may come in any order; a flag without a value is ignored. *)
Example backend_args_example :
  backend_args rnd64 [str "9001"; str "--name"; str "b1"; str "--fail-rate"; str "0.25"; str "--latency-ms"] =
    Some (mkBackendOptions 9001 0 (Finite (rnd64 (25 # 100))) (str "b1")).
Proof. vm_compute. reflexivity. Qed.
