(* ===== verification/Relay.v ===== *)
(** * Responses across two gateways, and recovery of a backend

    A response the gateway sends to its client is read back by another
    gateway in front of it, header names in lower case and everything else
    unchanged ([HttpResponse::serialize] against [sendAndReceive]); and a backend whose breaker has opened is used again
    once its reset time has passed and it answers ([forwardWithResilience]
    through the half-open trial). *)
From S2P Require Import Prelude CxxString HttpMessage HttpParser HttpParserRoundTrip CircuitBreaker RetryPolicy LoadBalancer Router ConnectionPool Metrics BackendIO BackendRequest BackendReply Forward BackendServer.
Local Open Scope nat_scope.

(** ** Printing and reading a response *)

(** Headers as the gateway's responses have them: what the reader of replies
    has left, and the gateway's own X-Request-Id, X-Cache and Content-Type;
    none about framing or the connection, nothing that would break a line. *)
Definition relayed_header (h : bytes * bytes) : Prop :=
  reply_field_ok h ∧ reply_reserved (to_lower h.1) = false.

(** Tagging a response keeps its headers so. *)
Lemma tagged_headers k v hs : relayed_header (k, v) → Forall relayed_header hs → Forall relayed_header (set_header_list k v hs).
Proof.
  intros Hk. induction 1 as [|[k' v'] hs Hh Hf IH]; cbn [set_header_list fst]; [by constructor|].
  destruct (decide (k' = k)) as [->|]; by constructor.
Qed.

(** The response as it is read back. *)
Definition lower_names (r : HttpResponse) : HttpResponse :=
  mkHttpResponse (rs_statusCode r) (rs_statusText r) (prod_map to_lower id <$> rs_headers r) (rs_body r).

(** What [serialize] adds to such headers. *)
Definition added_fields (keepAlive : bool) (body : bytes) : header_fields :=
  [(str "Content-Length", to_string (size_of body)); (str "Connection", if keepAlive then str "keep-alive" else str "close")].

Lemma no_such_header k hs : Forall relayed_header hs → reply_reserved (to_lower k) = true → has_header k hs = false.
Proof.
  intros Hf Hk. unfold has_header. apply not_true_iff_false. rewrite existsb_exists. intros (h & Hin & Heq).
  apply bool_decide_eq_true in Heq. rewrite Forall_forall in Hf. apply list_elem_of_In in Hin.
  destruct (Hf h Hin) as [_ R]. rewrite Heq in R. congruence.
Qed.

Lemma serialize_print keepAlive r :
  Forall relayed_header (rs_headers r) →
  serialize keepAlive r =
    print_reply (rs_statusCode r) (rs_statusText r) (rs_headers r ++ added_fields keepAlive (rs_body r)) (rs_body r).
Proof.
  intros Hf. unfold serialize, framing_headers.
  rewrite !no_such_header by (done || by vm_compute). unfold print_reply, print_status.
  rewrite header_line_print. change (str "HTTP/1.1 ") with (str "HTTP/1.1" ++ [SP]). change (str " ") with [SP].
  repeat (rewrite <- !app_assoc; cbn [app]). done.
Qed.

Lemma passed_on_relayed keepAlive body hs :
  Forall relayed_header hs → passed_on (hs ++ added_fields keepAlive body) = prod_map to_lower id <$> hs.
Proof.
  intros Hf. unfold passed_on. rewrite filter_app, fmap_app.
  assert (filter (λ h : bytes * bytes, reply_reserved (to_lower h.1) = false) (added_fields keepAlive body) = []) as ->
    by (by destruct keepAlive).
  rewrite app_nil_r. f_equal. induction hs as [|[k v] hs IH]; [done|]. apply Forall_cons in Hf as [(_ & R) Hf].
  by rewrite filter_cons, decide_True, IH by done.
Qed.

Lemma keeps_open_relayed keepAlive body hs :
  Forall relayed_header hs → keeps_open false (hs ++ added_fields keepAlive body) = keepAlive.
Proof. intros _. unfold keeps_open. rewrite foldl_app. cbn. by destruct keepAlive. Qed.

Lemma added_ok keepAlive body : Forall reply_field_ok (added_fields keepAlive body).
Proof.
  assert (∀ h, h ∈ added_fields false body → reply_field_ok h) as Hclose.
  { pose proof (backend_fields_ok body) as Hb. rewrite Forall_forall in Hb. intros h Hh. apply Hb.
    unfold added_fields in Hh. unfold backend_fields. set_solver. }
  destruct keepAlive; [|by apply Forall_forall].
  unfold added_fields. apply Forall_cons. split; [apply Hclose; left|]. apply Forall_singleton.
  split_and!; cbn [fst snd].
  - intros c Hc. repeat (apply elem_of_cons in Hc as [->|Hc]; [by_decide|]). by apply elem_of_nil in Hc.
  - intros c Hc. repeat (apply elem_of_cons in Hc as [->|Hc]; [by_decide|]). by apply elem_of_nil in Hc.
  - intros c Hc. cbn in Hc. by injection Hc as <-.
Qed.

(** A header that is not about framing. *)
Lemma relayed_framed keepAlive body hs :
  Forall relayed_header hs → framed (hs ++ added_fields keepAlive body) (size_of body).
Proof.
  intros Hf.
  assert (∀ k, reply_reserved k = true → Forall (λ h, is_field k h = false) hs) as Hno.
  { intros k Hk. eapply Forall_impl; [exact Hf|]. intros h (_ & R). unfold is_field.
    apply bool_decide_eq_false_2. intros Heq. rewrite Heq in R. congruence. }
  split.
  - exists (str "Content-Length"). rewrite filter_app.
    assert (filter (λ h, is_field (str "content-length") h = true) hs = []) as ->.
    { specialize (Hno (str "content-length") ltac:(by vm_compute)). clear Hf.
      induction hs as [|h hs IH]; [done|]. apply Forall_cons in Hno as [E Hno].
      rewrite filter_cons, decide_False by congruence. by apply IH. }
    by destruct keepAlive.
  - apply Forall_app. split; [apply Hno; by vm_compute|]. by destruct keepAlive; repeat constructor.
Qed.

(** What a response must fit into. *)
Record relayable (maxBody : Z) (keepAlive : bool) (r : HttpResponse) : Prop := {
  rl_code : (0 ≤ rs_statusCode r ≤ int_max)%Z;
  rl_text : ∀ c, c ∈ [CR; LF] → c ∉ rs_statusText r;
  rl_headers : Forall relayed_header (rs_headers r);
  rl_body : (size_of (rs_body r) ≤ maxBody)%Z;
  rl_head : (size_of (serialize keepAlive r) - size_of (rs_body r) + 8192 ≤ 32769)%Z;
  rl_u64 : (size_of (serialize keepAlive r) < 2 ^ 64)%Z
}.

Lemma relayable_good maxBody keepAlive r :
  relayable maxBody keepAlive r →
  good_reply maxBody (rs_statusCode r) (rs_statusText r) (rs_headers r ++ added_fields keepAlive (rs_body r)) (rs_body r).
Proof.
  intros [H1 H2 H3 H4 H5 H6]. rewrite serialize_print in H5, H6 by done. split; [done|done| |by apply relayed_framed|done| |done].
  - apply Forall_app. split; [|apply added_ok]. eapply Forall_impl; [exact H3|]. by intros h (? & _).
  - unfold print_reply, size_of in *. rewrite !length_app in *. lia.
Qed.

(** C23: responses survive a second gateway.  A response whose headers are not
    about framing or the connection and break no line (the gateway's own
    X-Request-Id, X-Cache and Content-Type among them), serialized for a
    client and delivered in time in any pieces, is read by a gateway
    downstream as the same response, status, reason, headers in their order
    and body, header names in lower case, with the connection kept exactly
    when it was announced. *)
Theorem response_round_trip request maxBody ms chunks keepAlive r :
  relayable maxBody keepAlive r → (0 < size_of request < 2 ^ 64)%Z → (0 < ms)%Z →
  Forall (λ c, c ≠ [] ∧ (size_of c ≤ 8192)%Z) chunks → concat chunks = serialize keepAlive r →
  sendAndReceive request maxBody (send_all (size_of request)) (timely ms chunks) = Returned (Some (lower_names r, keepAlive)).
Proof.
  intros Hr Hreq Hms Hch Hcat. pose proof (relayable_good _ _ _ Hr) as Hg. pose proof (rl_headers _ _ _ Hr) as Hh.
  unfold sendAndReceive. rewrite tx_loop_all by done. pose proof (good_whole _ _ _ _ _ Hg) as Hw.
  pose proof (rx_loop_chunks maxBody _ _ _ ms chunks [] Hw Hms) as Hrx. rewrite serialize_print in Hcat by done.
  unfold rx_at in Hrx. simpl find in Hrx. cbv iota in Hrx. rewrite Hrx; [|by intros ->|done|by rewrite Hcat].
  rewrite (read_reply_print maxBody) by done. by rewrite passed_on_relayed, keeps_open_relayed by done.
Qed.

(** A reply the gateway has read and tagged. *)
Definition relay_demo : HttpResponse :=
  setHeader (str "X-Cache") (str "MISS") (setHeader (str "X-Request-Id") (str "req-7-1")
    (mkHttpResponse 404 (str "Not Found") [(str "content-type", str "text/plain"); (str "etag", str "x")] (str "gone"))).

Lemma relay_demo_ok : relayable 100 true relay_demo.
Proof.
  assert (∀ k v, bool_decide (CR ∉ k ∧ LF ∉ k ∧ ":"%char ∉ k ∧ CR ∉ v ∧ LF ∉ v) && negb (from_option isspace false (head v)) &&
    negb (reply_reserved (to_lower k)) = true → relayed_header (k, v)) as Hh.
  { intros k v [[(H1 & H2 & H3 & H4 & H5)%bool_decide_eq_true H6%negb_true_iff]%andb_true_iff H7%negb_true_iff]%andb_true_iff.
    split; [split_and!|done]; cbn [fst snd]; intros c Hc.
    - repeat (apply elem_of_cons in Hc as [->|Hc]; [done|]). by apply elem_of_nil in Hc.
    - repeat (apply elem_of_cons in Hc as [->|Hc]; [done|]). by apply elem_of_nil in Hc.
    - by rewrite Hc in H6. }
  split; try (by_decide).
  - intros c Hc. repeat (apply elem_of_cons in Hc as [->|Hc]; [by_decide|]). by apply elem_of_nil in Hc.
  - unfold relay_demo. cbn [setHeader rs_headers]. do 2 (apply tagged_headers; [by apply Hh|]).
    repeat (apply Forall_cons; split; [by apply Hh|]). constructor.
Qed.

Lemma response_round_trip_witness :
  sendAndReceive (str "GET") 100 (send_all 3) (timely 50 (one_byte_chunks (serialize true relay_demo))) =
    Returned (Some (mkHttpResponse 404 (str "Not Found")
      [(str "content-type", str "text/plain"); (str "etag", str "x"); (str "x-request-id", str "req-7-1"); (str "x-cache", str "MISS")]
      (str "gone"), true)).
Proof.
  refine (response_round_trip (str "GET") 100 50 _ true relay_demo _ _ _ _ _).
  - exact relay_demo_ok.
  - by vm_compute.
  - done.
  - apply Forall_fmap, Forall_true. intros c. split; [done|]. by vm_compute.
  - apply concat_one_byte_chunks.
Defined.

(** ** A backend comes back *)

(** An open breaker whose time has come admits a trial. *)
Lemma reset_admits now cb :
  cb_state cb = Open → (ns_of_ms (resetTimeout_ cb) ≤ now - openedAt_ cb)%Z → (0 < halfOpenTrialRequests_ cb)%Z →
  ∃ cb', allowRequest now cb = (true, cb') ∧ cb_state cb' = HalfOpen.
Proof.
  intros Ho Ht Hn. unfold allowRequest. rewrite decide_True by done.
  destruct (Z.leb_spec (ns_of_ms (resetTimeout_ cb)) (now - openedAt_ cb)); [|lia].
  unfold admit_trial. cbn. destruct (Z.leb_spec (halfOpenTrialRequests_ cb) 0); [lia|]. by eexists.
Qed.

(** The breaker of a backend in the gateway. *)
Definition breaker_of (i : bptr) (gw : Gateway) : option CircuitBreaker := circuitBreaker <$> gw_backends gw !! i.

Lemma breaker_set_pool i pool os gw : breaker_of i (set_pool pool os gw) = breaker_of i gw.
Proof. done. Qed.

Lemma breaker_alter i f gw :
  breaker_of i (on_backend i f gw) = (λ b, circuitBreaker (f b)) <$> gw_backends gw !! i.
Proof. unfold breaker_of. cbn. rewrite list_lookup_alter_eq. by destruct (gw_backends gw !! i). Qed.

(** The connection and the exchange of an attempt that reaches its backend. *)
Record reached (iterate : gmap bytes bytes → header_list) (env : attempt_env) (req : HttpRequest) (b : Backend)
    (gw : Gateway) (r : option (HttpResponse * bool)) : Prop := {
  re_fd : (0 ≤ (acquire (at_dial env (os_sockets gw)) (host b) (port b) (pool_ gw) (os_sockets gw)).1.1)%Z;
  re_exchange : sendAndReceive (buildBackendRequest iterate req (host b)) (maxResponseBodyBytes gw)
    (at_sends env) (at_recvs env) = Returned r
}.

Lemma contact_reached iterate env req i b gw r :
  gw_backends gw !! i = Some b → reached iterate env req b gw r →
  ∃ fd gw', contact iterate env req i b gw = Some (fd, r, gw') ∧ (0 ≤ fd)%Z ∧ breaker_of i gw' = Some (circuitBreaker b).
Proof.
  intros Hb [Hfd Hx]. unfold contact. cbv zeta.
  change (os_sockets (on_backend i (add_active 1) gw)) with (os_sockets gw).
  change (pool_ (on_backend i (add_active 1) gw)) with (pool_ gw).
  destruct (acquire _ _ _ _ _) as [[fd pool] os]. cbn [fst] in Hfd. destruct (Z.leb_spec 0 fd); [|lia].
  change (maxResponseBodyBytes (set_pool pool os (on_backend i (add_active 1) gw))) with (maxResponseBodyBytes gw).
  rewrite Hx. eexists _, _. split; [done|]. split; [done|]. rewrite breaker_alter. cbn.
  by rewrite list_lookup_alter_eq, Hb.
Qed.

Lemma settle_breaker env i b fd r is_last gw cb :
  breaker_of i gw = Some cb →
  breaker_of i (result_gateway (settle env i b fd r is_last gw)) =
    Some (match r with Some _ => onSuccess cb | None => onFailure (at_failure env) cb end).
Proof.
  intros Hcb. unfold settle. destruct r as [[resp reusable]|].
  - assert (breaker_of i (on_backend i (λ b, with_breaker (onSuccess (circuitBreaker b)) b) gw) = Some (onSuccess cb)) as H.
    { rewrite breaker_alter. unfold breaker_of in Hcb. destruct (gw_backends gw !! i); [|done]. by injection Hcb as <-. }
    destruct reusable; [destruct (release _ _ _ _ _)|]; repeat case_if; exact H.
  - set (gw1 := if (0 <=? fd)%Z then _ else _).
    assert (breaker_of i gw1 = Some cb) as H1 by (unfold gw1; by case_if).
    assert (breaker_of i (on_backend i (λ b, with_breaker (onFailure (at_failure env) (circuitBreaker b)) b) gw1) =
      Some (onFailure (at_failure env) cb)) as H.
    { rewrite breaker_alter. unfold breaker_of in H1. destruct (gw_backends gw1 !! i); [|done]. by injection H1 as <-. }
    case_if; exact H.
Qed.

(** C32: a backend that answers again is used again.  When the balancer picks a
    backend whose breaker is open and whose reset time has passed, the
    request is tried on it: if it answers, its reply is the response (for a
    status below 500) and the breaker is closed with no failures counted; if
    the exchange fails, the breaker is open again from that moment. *)
Theorem forward_recovers iterate env envs route req gw gw1 i b r :
  (0 ≤ maxRetries (retryPolicy_ gw) < int_max)%Z → pick_backend route gw = (Some i, gw1) → gw_backends gw1 !! i = Some b →
  cb_state (circuitBreaker b) = Open →
  (ns_of_ms (resetTimeout_ (circuitBreaker b)) ≤ at_allow env - openedAt_ (circuitBreaker b))%Z →
  (0 < halfOpenTrialRequests_ (circuitBreaker b))%Z → reached iterate env req b gw1 r →
  ∃ a, attempt iterate env route req (bool_decide (maxRetries (retryPolicy_ gw) = 0%Z)) gw = Some a ∧
    match r with
    | Some (resp, _) =>
        (∃ cb, breaker_of i (result_gateway a) = Some cb ∧ cb_state cb = Closed ∧ consecutiveFailures_ cb = 0%Z) ∧
        ((rs_statusCode resp < 500)%Z →
           forwardWithResilience iterate (env :: envs) route req gw = Some (resp, result_gateway a))
    | None => ∃ cb, breaker_of i (result_gateway a) = Some cb ∧ cb_state cb = Open ∧ openedAt_ cb = at_failure env
    end.
Proof.
  intros Hn Hp Hb Ho Ht Htr Hre.
  destruct (reset_admits _ _ Ho Ht Htr) as (cb1 & Hal & Hh1).
  assert (ask_breaker (at_allow env) i gw1 = (true, on_backend i (with_breaker cb1) gw1)) as Ha
    by (unfold ask_breaker; by rewrite Hb, Hal).
  set (gw2 := on_backend i (with_breaker cb1) gw1) in *.
  assert (gw_backends gw2 !! i = Some (with_breaker cb1 b)) as Hb2 by (cbn; by rewrite list_lookup_alter_eq, Hb).
  destruct (contact_reached iterate env req i (with_breaker cb1 b) gw2 r Hb2) as (fd & gw3 & Hc & Hfd & Hcb3); [destruct Hre as [H1 H2]; by split|].
  assert (contact iterate env req i b gw2 = Some (fd, r, gw3)) as Hc' by exact Hc.
  assert (∀ is_last, attempt iterate env route req is_last gw = Some (settle env i b fd r is_last gw3)) as Hatt.
  { intros is_last. unfold attempt. by rewrite Hp, Hb, Ha, Hc'. }
  eexists. split; [apply Hatt|]. set (is_last := bool_decide _).
  pose proof (settle_breaker env i b fd r is_last gw3 cb1 Hcb3) as Hs. destruct r as [[resp keep]|].
  - split.
    + eexists. split; [exact Hs|]. unfold onSuccess. by rewrite decide_True.
    + intros Hst. unfold forwardWithResilience.
      assert (0 < attempts gw)%Z as Hat by (unfold attempts, int_incr; case_match; lia).
      destruct (Z.to_nat (attempts gw)) as [|n] eqn:En; [lia|]. cbn [forward_loop]. rewrite Hatt.
      unfold settle. destruct (if keep then _ else _) as [] eqn:Eg. destruct (Z.ltb_spec (rs_statusCode resp) 500); [|lia]. done.
  - eexists. split; [exact Hs|]. unfold onFailure. by rewrite decide_True.
Qed.

Definition recovering : Gateway := demo_gateway true (trip 0 (newCircuitBreaker 5 30000 1)).
Definition later_env : attempt_env :=
  mkAttemptEnv 30000000000 (λ os, dial_ok (next_fd os)) [mkSend 1 (Sent 10000); mkSend 0 SendError]
    [mkRecv 100 1 (Some demo_reply); mkRecv 0 0 None] 30000000001.
Definition recovering_picked : Gateway := (pick_backend demo_route recovering).2.
Definition recovering_reply : HttpResponse := demo_result.1.

Lemma forward_recovers_witness :
  ∃ a, attempt map_to_list later_env demo_route demo_get (bool_decide (maxRetries (retryPolicy_ recovering) = 0%Z)) recovering = Some a ∧
    (∃ cb, breaker_of 0 (result_gateway a) = Some cb ∧ cb_state cb = Closed ∧ consecutiveFailures_ cb = 0%Z) ∧
    ((rs_statusCode recovering_reply < 500)%Z →
       forwardWithResilience map_to_list [later_env] demo_route demo_get recovering = Some (recovering_reply, result_gateway a)).
Proof.
  refine (forward_recovers map_to_list later_env [] demo_route demo_get recovering recovering_picked 0
    (mkBackend (str "10.0.0.1") 9001 true 0 (trip 0 (newCircuitBreaker 5 30000 1))) (Some (recovering_reply, true)) _ _ _ _ _ _ _).
  - vm_compute. by split.
  - vm_compute. reflexivity.
  - vm_compute. reflexivity.
  - reflexivity.
  - vm_compute. congruence.
  - reflexivity.
  - split; [vm_compute; congruence|vm_compute; reflexivity].
Defined.
