(* ===== verification/Benchmark.v ===== *)
(** * The load generator (benchmarks/gateway_benchmark.cpp)

    Connections that send one GET after another and wait for each response
    ([doRequest]), a worker per connection that counts what it gets until a
    deadline ([workerLoop]), and the report of [main].  What the operating
    system answers to [socket], [connect], [send] and [recv], and the clock
    readings, are arguments; open descriptors are a set.  The client is read
    against the gateway's own printer and parser. *)
From Stdlib Require Import QArith Qround.
From stdpp Require Import sorting.
From S2P Require Import Prelude CxxString Rounding HttpMessage HttpParser HttpParserSafety HttpParserRoundTrip BackendIO BackendRequest BackendReply Relay WorkerMetrics.
Local Open Scope nat_scope.

(** ** One request *)

Record connect_env := mkConnect { ce_socket : Z; ce_connected : bool }.

Definition connectTo (env : connect_env) (os : gset Z) : Z * gset Z :=
  let fd := ce_socket env in
  let os := if (0 <=? fd)%Z then {[fd]} ∪ os else os in
  if ce_connected env then (fd, os) else ((-1)%Z, os ∖ {[fd]}).

(** Lines 58-59. *)
Definition bench_request (host path : bytes) (keepAlive : bool) : bytes :=
  str "GET " ++ path ++ str " HTTP/1.1" ++ crlf ++ str "Host: " ++ host ++ crlf ++ str "Connection: " ++
  (if keepAlive then str "keep-alive" else str "close") ++ crlf ++ crlf.

(** Lines 60-65; [None]: the peer does not take the rest. *)
Fixpoint bench_send (len : Z) (sends : list Z) (sent : Z) : option bool :=
  if (len <=? sent)%Z then Some true
  else match sends with
       | [] => None
       | n :: sends' => if (n <=? 0)%Z then Some false else bench_send len sends' (sent +u n)%Z
       end.

(** Lines 78-80: [strtol] saturates to [long]. *)
Definition declared_length (raw : bytes) (headerEnd : nat) : Z :=
  match find (str "Content-Length:") raw with
  | Some clPos =>
      if decide (clPos < headerEnd)
      then Z.max (- 2 ^ 63) (Z.min (2 ^ 63 - 1) (default 0%Z (strtol (drop (clPos + 15) raw))))
      else 0%Z
  | None => 0%Z
  end.

Record bench_rx := mkBx { bx_raw : bytes; bx_head : option (nat * Z) }.

(** [static_cast<long>] of a [size_t]. *)
Definition to_long (z : Z) : Z := if (z <? 2 ^ 63)%Z then z else (z - 2 ^ 64)%Z.

(** Lines 74-86: one [recv]; is the response complete? *)
Definition bench_data (data : bytes) (s : bench_rx) : bench_rx * bool :=
  let raw := bx_raw s ++ data in
  let head := match bx_head s with
              | Some h => Some h
              | None => (λ headerEnd, (headerEnd, declared_length raw headerEnd)) <$> find (crlf ++ crlf) raw
              end in
  (mkBx raw head,
   match head with
   | Some (headerEnd, contentLength) =>
       (contentLength <=? 0)%Z || (contentLength <=? to_long (size_of raw -u Z.of_nat (headerEnd + 4)))%Z
   | None => false
   end).

(** Lines 71-87: [Some None] when the connection fails. *)
Fixpoint bench_recv (recvs : list (option bytes)) (s : bench_rx) : option (option bytes) :=
  match recvs with
  | [] => None
  | (None | Some []) :: _ => Some None
  | Some data :: recvs' =>
      let '(s', complete) := bench_data data s in
      if complete : bool then Some (Some (bx_raw s')) else bench_recv recvs' s'
  end.

(** Lines 89-91. *)
Definition read_status (raw : bytes) : option Z :=
  match find_char SP raw with
  | None => None
  | Some firstSpace => if decide (length raw < firstSpace + 4) then None else Some (atoi (drop (firstSpace + 1) raw))
  end.

Record bench_env := mkBenchEnv { be_connect : connect_env; be_sends : list Z; be_recvs : list (option bytes) }.

(** The result, the descriptor afterwards, the status code and the open
    descriptors; nothing when a call does not return. *)
Definition doRequest (env : bench_env) (host path : bytes) (keepAlive : bool) (fd : Z) (os : gset Z)
    : option (bool * Z * Z * gset Z) :=
  let '(fd, os) := if (fd <? 0)%Z then connectTo (be_connect env) os else (fd, os) in
  if (fd <? 0)%Z then Some (false, fd, 0%Z, os)
  else
    let failed := Some (false, (-1)%Z, 0%Z, os ∖ {[fd]}) in
    match bench_send (size_of (bench_request host path keepAlive)) (be_sends env) 0 with
    | None => None
    | Some false => failed
    | Some true =>
        match bench_recv (be_recvs env) (mkBx [] None) with
        | None => None
        | Some None => failed
        | Some (Some raw) =>
            let '(fd, os) := if keepAlive then (fd, os) else ((-1)%Z, os ∖ {[fd]}) in
            match read_status raw with
            | None => Some (false, fd, 0%Z, os)
            | Some statusCode => Some ((100 <=? statusCode)%Z && (statusCode <=? 599)%Z, fd, statusCode, os)
            end
        end
    end.

(** ** A worker *)

Record WorkerStats := mkStats {
  successfulRequests : Z;
  transportErrors : Z;
  bench_classes : list Z;       (* responsesByClass *)
  latenciesMs : list Q
}.

Definition newStats : WorkerStats := mkStats 0 0 (replicate 6 0%Z) [].

(** One iteration of the loop: the clock readings, and what the system answers. *)
Record bench_turn := mkTurn { bt_now : Z; bt_start : Z; bt_end : Z; bt_env : bench_env }.

Section worker.
Context (rnd : Q → Q).

(** Lines 103-111. *)
Definition count_result (gotResponse : bool) (statusCode start end_ : Z) (st : WorkerStats) : WorkerStats :=
  if gotResponse then
    mkStats (if (200 <=? statusCode)%Z && (statusCode <? 300)%Z then successfulRequests st +u 1 else successfulRequests st)%Z
      (transportErrors st) (alter (λ c, c +u 1)%Z (Z.to_nat (statusCode `quot` 100)) (bench_classes st))
      (latenciesMs st ++ [rnd (rnd (inject_Z (end_ - start)) / inject_Z 1000000)])
  else mkStats (successfulRequests st) (transportErrors st +u 1)%Z (bench_classes st) (latenciesMs st).

Fixpoint workerLoop (host path : bytes) (keepAlive : bool) (deadline : Z) (turns : list bench_turn)
    (fd : Z) (os : gset Z) (st : WorkerStats) : option (WorkerStats * gset Z) :=
  match turns with
  | [] => None
  | t :: turns' =>
      if (bt_now t <? deadline)%Z then
        '(gotResponse, fd', statusCode, os') ← doRequest (bt_env t) host path keepAlive fd os;
        workerLoop host path keepAlive deadline turns' fd' os' (count_result gotResponse statusCode (bt_start t) (bt_end t) st)
      else Some (st, if (0 <=? fd)%Z then os ∖ {[fd]} else os)
  end.

(** ** The report *)

(** Lines 124-136: the arguments after the program's name; [None]: usage. *)
Definition bench_args (args : list bytes) : option (bytes * Z * bytes * Z * Z * bool) :=
  match args with
  | host :: port :: path :: connections :: durationS :: flags =>
      Some (host, atoi port, path, atoi connections, atoi durationS, negb (bool_decide (str "--no-keepalive" ∈ flags)))
  | _ => None
  end.

(** [None]: an index outside the vector. *)
Definition percentile (sorted : list Q) (p : Q) : option Q :=
  match sorted with
  | [] => Some 0%Q
  | _ => sorted !! Z.to_nat (trunc (rnd (p * rnd (inject_Z (size_of sorted - 1)))%Q))
  end.

(** Lines 152-160: the sums over the workers. *)
Definition add_stats (a s : WorkerStats) : WorkerStats :=
  mkStats (successfulRequests a +u successfulRequests s)%Z (transportErrors a +u transportErrors s)%Z
    (imap (λ i c, if decide (1 ≤ i) then (c +u nth i (bench_classes s) 0)%Z else c) (bench_classes a))
    (latenciesMs a ++ latenciesMs s).

Definition total_stats (l : list WorkerStats) : WorkerStats := foldl add_stats newStats l.

Definition slower (a b : Q) : Prop := Qle_bool a b = true.
#[global] Instance slower_dec : RelDecision slower.
Proof. intros a b. unfold slower. apply _. Defined.

(** Line 161: [std::sort]. *)
Definition sort_latencies (l : list Q) : list Q := merge_sort slower l.

Record report := mkReport {
  rp_responses : Z; rp_successful : Z; rp_errors : Z; rp_classes : list Z;
  rp_p50 : option Q; rp_p95 : option Q; rp_p99 : option Q; rp_max : option Q
}.

(** Lines 164-179; the last four are printed when there is a latency. *)
Definition bench_report (l : list WorkerStats) : report :=
  let s := total_stats l in
  let sorted := sort_latencies (latenciesMs s) in
  mkReport (foldl (λ n i, n +u nth i (bench_classes s) 0)%Z 0%Z (seq 1 5)) (successfulRequests s) (transportErrors s) (bench_classes s)
    (percentile sorted (rnd (50 # 100))) (percentile sorted (rnd (95 # 100))) (percentile sorted (rnd (99 # 100))) (last sorted).
End worker.

(** ** Reading a response of the gateway *)













(** ** The request *)





(** ** What a worker counts *)

(** The descriptor a worker holds. *)
Definition held_fd (fd : Z) : gset Z := if (0 <=? fd)%Z then {[fd]} else ∅.

Definition holds (base : gset Z) (fd : Z) (os : gset Z) : Prop := os = held_fd fd ∪ base ∧ held_fd fd ## base.

(** The system hands out descriptors that are not in use, and [connect] fails
    without a socket. *)
Definition connect_ok (base : gset Z) (env : connect_env) : Prop :=
  ce_socket env ∉ base ∧ (ce_connected env = true → 0 ≤ ce_socket env)%Z.

Lemma holds_none base fd : (fd < 0)%Z → holds base fd base.
Proof. intros H. unfold holds, held_fd. destruct (Z.leb_spec 0 fd); [lia|]. set_solver. Qed.

Lemma holds_close base fd os : (0 ≤ fd)%Z → holds base fd os → holds base (-1) (os ∖ {[fd]}).
Proof.
  intros Hfd [-> Hd]. unfold holds. change (held_fd (-1)) with (∅ : gset Z). unfold held_fd in *.
  destruct (Z.leb_spec 0 fd); [|lia]. set_solver.
Qed.

Lemma connectTo_holds base env : connect_ok base env → holds base (connectTo env base).1 (connectTo env base).2.
Proof.
  intros [Hf Hc]. unfold connectTo. destruct (ce_connected env); cbn [fst snd].
  - specialize (Hc eq_refl). unfold holds, held_fd. destruct (Z.leb_spec 0 (ce_socket env)); [|lia]. set_solver.
  - unfold holds. change (held_fd (-1)) with (∅ : gset Z). destruct (0 <=? _)%Z; set_solver.
Qed.

Lemma doRequest_holds base env host path keepAlive fd os ok fd' code os' :
  connect_ok base (be_connect env) → holds base fd os →
  doRequest env host path keepAlive fd os = Some (ok, fd', code, os') →
  holds base fd' os' ∧ (ok = true → 100 ≤ code ≤ 599)%Z.
Proof.
  intros Hc Hh. unfold doRequest.
  assert (∃ fd1 os1, (if (fd <? 0)%Z then connectTo (be_connect env) os else (fd, os)) = (fd1, os1) ∧ holds base fd1 os1) as (fd1 & os1 & -> & Hh1).
  { destruct (Z.ltb_spec fd 0); [|by eexists _, _]. assert (os = base) as ->.
    { destruct Hh as [-> _]. unfold held_fd. destruct (Z.leb_spec 0 fd); [lia|set_solver]. }
    pose proof (connectTo_holds base _ Hc). destruct (connectTo _ _). by eexists _, _. }
  destruct (Z.ltb_spec fd1 0); [by intros [= <- <- <- <-]|].
  pose proof (holds_close _ _ _ ltac:(done) Hh1) as Hclosed.
  destruct (bench_send _ _ _) as [[]|]; [|by intros [= <- <- <- <-]|done].
  destruct (bench_recv _ _) as [[raw|]|]; [|by intros [= <- <- <- <-]|done].
  assert (∃ fd2 os2, (if keepAlive then (fd1, os1) else ((-1)%Z, os1 ∖ {[fd1]})) = (fd2, os2) ∧ holds base fd2 os2) as (fd2 & os2 & -> & Hh2).
  { destruct keepAlive; by eexists _, _. }
  destruct (read_status raw); intros [= <- <- <- <-]; (split; [done|]); [|done].
  intros [?%Z.leb_le ?%Z.leb_le]%andb_true_iff. lia.
Qed.

(** The figures after [n] requests. *)
Record accounts (n : Z) (st : WorkerStats) : Prop := {
  ac_classes : length (bench_classes st) = 6;
  ac_nonneg : Forall (λ c, 0 ≤ c)%Z (bench_classes st);
  ac_successful : nth 2 (bench_classes st) 0%Z = successfulRequests st;
  ac_responses : sum_counts (bench_classes st) = size_of (latenciesMs st);
  ac_errors : (transportErrors st + size_of (latenciesMs st) = n)%Z;
  ac_errors_nonneg : (0 ≤ transportErrors st)%Z
}.

Lemma sum_counts_ge i l : Forall (λ c, 0 ≤ c)%Z l → (0 ≤ nth i l 0 ≤ sum_counts l)%Z.
Proof.
  intros H. revert i. induction H as [|c l Hc Hl IH]; intros [|i]; cbn; try lia.
  - pose proof (IH 0). fold (sum_counts l). lia.
  - fold (sum_counts l). specialize (IH i). lia.
Qed.

Lemma sum_counts_alter_exact i l :
  i < length l → (0 ≤ nth i l 0 < 2 ^ 64 - 1)%Z → sum_counts (alter (λ c, c +u 1)%Z i l) = (sum_counts l + 1)%Z.
Proof.
  revert i. induction l as [|c l IH]; intros [|i] Hi Hn; cbn [length] in Hi; try lia; cbn [alter list_alter].
  - cbn [sum_counts foldr nth] in *. rewrite u64_small by lia. lia.
  - cbn [sum_counts foldr nth] in *. fold (sum_counts l). fold (sum_counts (alter (λ c, c +u 1)%Z i l)). rewrite IH by lia. lia.
Qed.

Lemma count_accounts rnd ok code start end_ n st :
  accounts n st → (n < 2 ^ 64 - 1)%Z → (ok = true → 100 ≤ code ≤ 599)%Z → accounts (n + 1) (count_result rnd ok code start end_ st).
Proof.
  intros [H1 H2 H3 H4 H5 H6] Hn Hok. unfold count_result, size_of in *. destruct ok.
  2: { split; cbn; [done|done|done|done| |]; rewrite u64_small by lia; unfold size_of; lia. }
  specialize (Hok eq_refl). assert (0 ≤ code `quot` 100 < 6)%Z as Hq.
  { rewrite Z.quot_div_nonneg by lia. split; [apply Z.div_pos; lia|apply Z.div_lt_upper_bound; lia]. }
  assert (∀ i, (0 ≤ nth i (bench_classes st) 0 < 2 ^ 64 - 1)%Z) as Hi by (intros i; pose proof (sum_counts_ge i _ H2); lia).
  split; cbn [bench_classes successfulRequests transportErrors latenciesMs].
  - by rewrite length_alter.
  - apply Forall_alter; [done|]. intros c _ _. apply u64_range.
  - rewrite nth_alter by lia. rewrite H3. case_decide as Hd.
    + assert (code `quot` 100 = 2)%Z as E2 by lia. rewrite Z.quot_div_nonneg in E2 by lia.
      pose proof (Z.div_mod code 100 ltac:(lia)). pose proof (Z.mod_pos_bound code 100 ltac:(lia)).
      destruct (Z.leb_spec 200 code); [|lia]. by destruct (Z.ltb_spec code 300); [|lia].
    + destruct (Z.leb_spec 200 code) as [Hlo|]; [|done]. destruct (Z.ltb_spec code 300) as [Hhi|]; [|done]. exfalso. apply Hd.
      rewrite Z.quot_div_nonneg by lia. assert (code / 100 = 2)%Z as -> by (symmetry; apply (Z.div_unique code 100 2 (code - 200)); lia). done.
  - rewrite sum_counts_alter_exact by (done || lia). rewrite H4. unfold size_of. rewrite length_app. cbn. lia.
  - unfold size_of. rewrite length_app. cbn [length]. lia.
  - done.
Qed.

(** The requests made before the deadline. *)
Fixpoint iterations (deadline : Z) (turns : list bench_turn) : Z :=
  match turns with
  | t :: turns' => if (bt_now t <? deadline)%Z then 1 + iterations deadline turns' else 0
  | [] => 0
  end.

Lemma iterations_range deadline turns : (0 ≤ iterations deadline turns ≤ size_of turns)%Z.
Proof. unfold size_of. induction turns as [|t turns IH]; cbn [iterations length]; [lia|]. destruct (_ <? _)%Z; lia. Qed.

Lemma workerLoop_accounts rnd host path keepAlive deadline turns base fd os st n st' os' :
  Forall (λ t, connect_ok base (be_connect (bt_env t))) turns → holds base fd os → accounts n st →
  (n + size_of turns < 2 ^ 64)%Z →
  workerLoop rnd host path keepAlive deadline turns fd os st = Some (st', os') →
  os' = base ∧ accounts (n + iterations deadline turns) st'.
Proof.
  revert fd os st n. induction turns as [|t turns IH]; intros fd os st n Hf Hh Ha Hn; [done|].
  apply Forall_cons in Hf as [Ht Hf]. cbn [workerLoop iterations]. unfold size_of in Hn. cbn [length] in Hn.
  destruct (bt_now t <? deadline)%Z.
  - destruct (doRequest _ _ _ _ _ _) as [[[[ok fd1] code] os1]|] eqn:Hd; [|done]. cbn. intros Hw.
    destruct (doRequest_holds _ _ _ _ _ _ _ _ _ _ _ Ht Hh Hd) as [Hh1 Hok].
    rewrite Z.add_assoc. eapply IH; [done|exact Hh1| | |exact Hw].
    + apply count_accounts; [done|lia|done].
    + unfold size_of. lia.
  - intros [= <- <-]. rewrite Z.add_0_r. split; [|done]. destruct Hh as [-> Hd]. unfold held_fd in *.
    destruct (0 <=? fd)%Z; set_solver.
Qed.

(** ** Percentiles *)

#[global] Instance slower_total : Total slower.
Proof. intros a b. unfold slower. rewrite !Qle_bool_iff. destruct (Qlt_le_dec a b); [left; lra|by right]. Qed.
#[global] Instance slower_trans : Transitive slower.
Proof. intros a b c. unfold slower. rewrite !Qle_bool_iff. lra. Qed.
#[global] Instance slower_refl : Reflexive slower.
Proof. intros a. unfold slower. rewrite Qle_bool_iff. lra. Qed.

(** The index stays inside the vector and grows with [p]. *)
Definition rank_of (rnd : Q → Q) (n p : Q) : Z := trunc (rnd (p * rnd n)%Q).

Lemma rank_of_range rnd `{!Rounding rnd} (n : Z) p :
  (0 ≤ n ≤ 2 ^ 53)%Z → (0 <= p)%Q → (p <= 1)%Q → (0 ≤ rank_of rnd (inject_Z n) p ≤ n)%Z.
Proof.
  intros Hn Hp0 Hp1. unfold rank_of.
  assert (0 <= rnd (inject_Z n) ∧ rnd (inject_Z n) <= inject_Z n)%Q as [Hr0 Hr1].
  { split; [apply (rnd_nonneg rnd); change 0%Q with (inject_Z 0); rewrite <- Zle_Qle; lia|].
    apply (rnd_le_int rnd); [lia|lra]. }
  apply trunc_nonneg_le.
  - apply (rnd_nonneg rnd). by apply Qmult_le_0_compat.
  - apply (rnd_le_int rnd); [lia|]. apply Qle_trans with (1 * inject_Z n)%Q; [|rewrite Qmult_1_l; lra].
    apply Qmult_le_compat_nonneg; split; lra.
Qed.

Lemma rank_of_mono rnd `{!Rounding rnd} (n : Z) p q :
  (0 ≤ n)%Z → (0 <= p)%Q → (p <= q)%Q → (rank_of rnd (inject_Z n) p ≤ rank_of rnd (inject_Z n) q)%Z.
Proof.
  intros Hn Hp Hpq. assert (0 <= rnd (inject_Z n))%Q as Hr by (apply (rnd_nonneg rnd); change 0%Q with (inject_Z 0); rewrite <- Zle_Qle; lia).
  assert (0 <= rnd (p * rnd (inject_Z n)))%Q as H0 by (apply (rnd_nonneg rnd); by apply Qmult_le_0_compat).
  assert (rnd (p * rnd (inject_Z n)) <= rnd (q * rnd (inject_Z n)))%Q as H1 by (apply rnd_mono; by apply Qmult_le_compat_r).
  unfold rank_of, trunc. rewrite (proj2 (Qle_bool_iff 0 _) H0), (proj2 (Qle_bool_iff 0 (rnd (q * rnd (inject_Z n))%Q)) ltac:(lra)).
  by apply Qfloor_resp_le.
Qed.

Lemma sorted_lookup l i j a b : Sorted slower l → i ≤ j → l !! i = Some a → l !! j = Some b → slower a b.
Proof.
  intros Hs Hij Ha Hb. apply Sorted_StronglySorted in Hs; [|apply _].
  destruct (decide (i = j)) as [->|Hne]; [simplify_eq; reflexivity|].
  revert i j Hij Hne Ha Hb. induction Hs as [|x l _ IH Hf]; intros i j Hij Hne Ha Hb; [done|].
  destruct j as [|j]; [lia|]. destruct i as [|i].
  - injection Ha as ->. rewrite Forall_lookup in Hf. by eapply Hf.
  - eapply IH; [| |done|done]; lia.
Qed.

Lemma percentile_some rnd `{!Rounding rnd} l p :
  l ≠ [] → (size_of l ≤ 2 ^ 53)%Z → (0 <= p)%Q → (p <= 1)%Q →
  ∃ x, percentile rnd l p = Some x ∧ l !! Z.to_nat (rank_of rnd (inject_Z (size_of l - 1)) p) = Some x.
Proof.
  intros Hne Hn H0 H1. unfold size_of in *. assert (1 ≤ length l) by (destruct l; [done|cbn; lia]).
  destruct (rank_of_range rnd (Z.of_nat (length l) - 1) p ltac:(lia) H0 H1) as [Hlo Hhi].
  destruct (lookup_lt_is_Some_2 l (Z.to_nat (rank_of rnd (inject_Z (Z.of_nat (length l) - 1)) p))) as [x Hx]; [lia|].
  exists x. split; [|done]. unfold percentile. destruct l; [done|exact Hx].
Qed.
(** ** Theorems *)



(** The load generator counts every request once and closes what it opens.
    When a worker returns, every request it made before the deadline is
    either a response, counted in exactly one class with one latency, or a
    transport error; the 2xx class is what it reports as successful; and the
    descriptors in use are those from before. *)
Theorem load_generator_accounts rnd host path keepAlive deadline turns base st os' :
  Forall (λ t, connect_ok base (be_connect (bt_env t))) turns → (size_of turns < 2 ^ 64)%Z →
  workerLoop rnd host path keepAlive deadline turns (-1) base newStats = Some (st, os') →
  os' = base ∧
  successfulRequests st = nth 2 (bench_classes st) 0%Z ∧
  sum_counts (bench_classes st) = size_of (latenciesMs st) ∧
  (transportErrors st + size_of (latenciesMs st) = iterations deadline turns)%Z.
Proof.
  intros Hf Hn Hw.
  assert (accounts 0 newStats) as H0 by (split; try done; by repeat constructor).
  eapply workerLoop_accounts in Hw as [-> [_ _ H3 H4 H5 _]]; [|done|by apply holds_none|exact H0|done].
  by rewrite H3.
Qed.

(** One 404, then a refused connection, then the deadline. *)
Definition bench_turns : list bench_turn :=
  [mkTurn 10 20 5000020 (mkBenchEnv (mkConnect 5 true) [10000%Z] (Some <$> one_byte_chunks (serialize false relay_demo)));
   mkTurn 6000000 6000000 6000010 (mkBenchEnv (mkConnect 5 false) [] []);
   mkTurn 9000000 0 0 (mkBenchEnv (mkConnect 5 false) [] [])].

Lemma load_generator_accounts_witness :
  ∃ st, workerLoop rnd64 (str "h") (str "/") false 8000000 bench_turns (-1) {[3%Z]} newStats = Some (st, {[3%Z]}) ∧
    bench_classes st = [0; 0; 0; 0; 1; 0]%Z ∧ transportErrors st = 1%Z ∧
    (transportErrors st + size_of (latenciesMs st) = iterations 8000000 bench_turns)%Z.
Proof.
  assert ((λ r, (bench_classes r.1, transportErrors r.1)) <$> workerLoop rnd64 (str "h") (str "/") false 8000000 bench_turns (-1) {[3%Z]} newStats =
    Some ([0; 0; 0; 0; 1; 0]%Z, 1%Z)) as Ev by (vm_compute; reflexivity).
  destruct (workerLoop rnd64 (str "h") (str "/") false 8000000 bench_turns (-1) {[3%Z]} newStats) as [[st os]|] eqn:E; [|done].
  injection Ev as E1 E2.
  destruct (load_generator_accounts rnd64 (str "h") (str "/") false 8000000 bench_turns {[3%Z]} st os) as (-> & _ & _ & H).
  - repeat constructor; cbn; try lia; by_decide.
  - by_decide.
  - exact E.
  - exists st. split_and!; [done|done|done|exact H].
Defined.

(** The reported percentiles are measurements, in order.  Over at least one
    and at most 2^53 latencies, no percentile is read outside the vector,
    each is one of the latencies, and the median, the 95th and the 99th
    percentile and the maximum do not decrease, with double arithmetic
    rounded at every step. *)
Theorem percentiles_ordered rnd `{!Rounding rnd} stats :
  let l := latenciesMs (total_stats stats) in
  l ≠ [] → (size_of l ≤ 2 ^ 53)%Z →
  ∃ a b c d, rp_p50 (bench_report rnd stats) = Some a ∧ rp_p95 (bench_report rnd stats) = Some b ∧
    rp_p99 (bench_report rnd stats) = Some c ∧ rp_max (bench_report rnd stats) = Some d ∧
    (a <= b)%Q ∧ (b <= c)%Q ∧ (c <= d)%Q ∧ a ∈ l ∧ b ∈ l ∧ c ∈ l ∧ d ∈ l.
Proof.
  intros l Hne Hn. unfold bench_report. cbn [rp_p50 rp_p95 rp_p99 rp_max]. fold l.
  set (sorted := sort_latencies l).
  assert (sorted ≡ₚ l) as Hperm by apply merge_sort_Permutation.
  assert (Sorted slower sorted) as Hs by (apply Sorted_merge_sort; apply _).
  assert (length sorted = length l) as Hlen by (by rewrite Hperm).
  assert (sorted ≠ []) as Hne' by (intros E; rewrite E in Hlen; by destruct l).
  assert (size_of sorted ≤ 2 ^ 53)%Z as Hn' by (unfold size_of in *; by rewrite Hlen).
  assert (0 <= rnd (50 # 100) ∧ rnd (50 # 100) <= rnd (95 # 100) ∧ rnd (95 # 100) <= rnd (99 # 100) ∧ rnd (99 # 100) <= 1)%Q as (P1 & P2 & P3 & P4).
  { split_and!; [apply (rnd_nonneg rnd)|apply rnd_mono|apply rnd_mono|apply (rnd_le_int rnd _ 1)]; by vm_compute. }
  destruct (percentile_some rnd sorted (rnd (50 # 100)) Hne' Hn') as (a & Ea & La); [lra|lra|].
  destruct (percentile_some rnd sorted (rnd (95 # 100)) Hne' Hn') as (b & Eb & Lb); [lra|lra|].
  destruct (percentile_some rnd sorted (rnd (99 # 100)) Hne' Hn') as (c & Ec & Lc); [lra|lra|].
  destruct (last sorted) as [d|] eqn:Ed; [|by apply last_None in Ed]. rewrite last_lookup in Ed.
  exists a, b, c, d. rewrite Ea, Eb, Ec. assert (0 ≤ size_of sorted - 1)%Z as H1 by (unfold size_of; destruct sorted; [done|cbn; lia]).
  pose proof (rank_of_range rnd (size_of sorted - 1) (rnd (99 # 100)) ltac:(lia) ltac:(lra) ltac:(lra)) as Hr.
  pose proof (rank_of_mono rnd (size_of sorted - 1) (rnd (50 # 100)) (rnd (95 # 100)) H1 P1 P2) as M1.
  pose proof (rank_of_mono rnd (size_of sorted - 1) (rnd (95 # 100)) (rnd (99 # 100)) H1 ltac:(lra) P3) as M2.
  unfold size_of in *. split_and!; try done.
  all: try (rewrite <- Hperm; by eapply list_elem_of_lookup_2).
  - apply Qle_bool_iff. eapply sorted_lookup; [done| |exact La|exact Lb]. lia.
  - apply Qle_bool_iff. eapply sorted_lookup; [done| |exact Lb|exact Lc]. lia.
  - apply Qle_bool_iff. eapply sorted_lookup; [done| |exact Lc|exact Ed]. lia.
Qed.
