(* ===== verification/Conformance.v ===== *)
(** * The unit and integration tests, run on the model (tests/)

    Every case of the repository's test suite, evaluated on the definitions
    of this development: the same calls, with clock readings in place of the
    sleeps and the answers of the network in place of the sockets.  The model
    gives the answers the tests expect of the program.  (Quotes in the JSON
    bodies of the tests are left out.) *)
From Stdlib Require Import QArith.
From S2P Require Import Prelude CxxString Rounding HttpMessage HttpParser LRUCache CircuitBreaker RateLimiter RetryPolicy LoadBalancer Router ConnectionPool Metrics Observability Config BackendIO BackendReply Forward Worker WorkerPipeline CxxDouble GatewayBuild.
Local Open Scope nat_scope.

Local Abbreviation a := (str "a").
Local Abbreviation b := (str "b").
Local Abbreviation c := (str "c").

(** A millisecond of the clock. *)
Definition ms (n : Z) : Z := (n * 1000000)%Z.

(** ** tests/cache_tests.cpp *)

Definition cache_answers (capacity ttl : Z) (ops : list (cache_op bytes)) : list (option bytes) :=
  (cache_run (newLRUCache capacity ttl) ops).1.

Example PutThenGetReturnsValue : cache_answers 2 0 [OpPut 1 a (str "1"); OpGet 2 a] = [Some (str "1")].
Proof. reflexivity. Qed.
Example MissingKeyReturnsNullopt : cache_answers 2 0 [OpGet 1 (str "missing")] = [None].
Proof. reflexivity. Qed.
Example EvictsLeastRecentlyUsedWhenOverCapacity :
  cache_answers 2 0 [OpPut 1 a (str "1"); OpPut 2 b (str "2"); OpPut 3 c (str "3"); OpGet 4 a; OpGet 5 b; OpGet 6 c] =
    [None; Some (str "2"); Some (str "3")].
Proof. reflexivity. Qed.
Example GetRefreshesRecency :
  cache_answers 2 0 [OpPut 1 a (str "1"); OpPut 2 b (str "2"); OpGet 3 a; OpPut 4 c (str "3"); OpGet 5 a; OpGet 6 b] =
    [Some (str "1"); Some (str "1"); None].
Proof. reflexivity. Qed.
Example EntriesExpireAfterTtl :
  cache_answers 10 20 [OpPut (ms 1) a (str "1"); OpGet (ms 1) a; OpGet (ms 51) a] = [Some (str "1"); None].
Proof. reflexivity. Qed.
Example InvalidateRemovesEntry : cache_answers 10 0 [OpPut 1 a (str "1"); OpInvalidate a; OpGet 2 a] = [None].
Proof. reflexivity. Qed.
Example PutOverwritesExistingKey :
  let '(answers, cache) := cache_run (newLRUCache 10 0) [OpPut 1 a (str "1"); OpPut 2 a (str "2"); OpGet 3 a] in
  cache_size cache = 1%Z ∧ answers = [Some (str "2")].
Proof. by vm_compute. Qed.

(** ** tests/circuit_breaker_tests.cpp *)

Definition breaker (threshold timeout trials : Z) (es : list cb_event) : CircuitState * list bool :=
  let '(cb, answers) := cb_run (newCircuitBreaker threshold timeout trials) es in (cb_state cb, answers).

Example StartsClosed : breaker 3 100 1 [EvAllow 1] = (Closed, [true]).
Proof. reflexivity. Qed.
Example OpensAfterThresholdFailures :
  breaker 3 1000 1 [EvAllow 1; EvFailure 2; EvAllow 3; EvFailure 4; EvAllow 5; EvFailure 6; EvAllow 7] = (Open, [true; true; true; false]).
Proof. reflexivity. Qed.
Example SuccessResetsFailureCount :
  breaker 3 1000 1 [EvFailure 1; EvFailure 2; EvSuccess; EvFailure 3; EvFailure 4] = (Closed, []).
Proof. reflexivity. Qed.
Example TransitionsToHalfOpenAfterTimeout :
  breaker 1 30 1 [EvFailure (ms 1)] = (Open, []) ∧ breaker 1 30 1 [EvFailure (ms 1); EvAllow (ms 51)] = (HalfOpen, [true]).
Proof. by split. Qed.
Example HalfOpenSuccessCloses : breaker 1 20 1 [EvFailure (ms 1); EvAllow (ms 31); EvSuccess] = (Closed, [true]).
Proof. reflexivity. Qed.
Example HalfOpenFailureReopens : breaker 1 20 1 [EvFailure (ms 1); EvAllow (ms 31); EvFailure (ms 32)] = (Open, [true]).
Proof. reflexivity. Qed.
Example HalfOpenLimitsTrialRequests : (breaker 1 20 1 [EvFailure (ms 1); EvAllow (ms 31); EvAllow (ms 31)]).2 = [true; false].
Proof. reflexivity. Qed.

(** ** tests/rate_limiter_tests.cpp *)

Definition limiter (capacity refill : Z) (calls : list (Z * bytes)) : list bool :=
  (allow_run rnd64 (newRateLimiter (inject_Z capacity) (inject_Z refill)) calls).2.

Example AllowsUpToCapacityThenBlocks : limiter 3 0 [(1, c); (2, c); (3, c); (4, c)]%Z = [true; true; true; false].
Proof. vm_compute. reflexivity. Qed.
Example TracksSeparateBucketsPerKey : limiter 1 0 [(1, a); (2, b); (3, a)]%Z = [true; true; false].
Proof. vm_compute. reflexivity. Qed.
Example RefillsOverTime : limiter 1 1000 [(ms 1, c); (ms 1, c); (ms 51, c)] = [true; false; true].
Proof. vm_compute. reflexivity. Qed.
Example RefillDoesNotExceedCapacity : limiter 2 1000 [(ms 100, c); (ms 100, c); (ms 100, c)] = [true; true; false].
Proof. vm_compute. reflexivity. Qed.

(** ** tests/retry_policy_tests.cpp *)

Example DelayNeverExceedsMax :
  forallb (λ attempt, let d := nextDelay rnd64 draw_middle (mkRetryPolicy 5 10 200) attempt in (0 <=? d)%Z && (d <=? 200)%Z)
    [0; 1; 2; 3; 4; 5; 6; 7; 8; 9]%Z = true.
Proof. vm_compute. reflexivity. Qed.
Example DelayGrowsExponentiallyOnAverage :
  (2 * nextDelay rnd64 draw_middle (mkRetryPolicy 5 10 100000) 0 < nextDelay rnd64 draw_middle (mkRetryPolicy 5 10 100000) 4)%Z.
Proof. by vm_compute. Qed.
Example IsRetryableForServerErrorsAndConnectionFailures :
  isRetryable <$> [-1; 502; 503; 504; 200; 404; 400]%Z = [true; true; true; true; false; false; false].
Proof. reflexivity. Qed.

(** ** tests/router_tests.cpp *)

Definition routed (prefixes : list bytes) (path : bytes) : option bytes :=
  pathPrefix <$> match_route path (addRoutes merge_routes ((λ p, mkRoute p 0 false) <$> prefixes)).

Example MatchesExactPrefix : routed [str "/api/users"] (str "/api/users") = Some (str "/api/users").
Proof. reflexivity. Qed.
Example MatchesSubpath : routed [str "/api/users"] (str "/api/users/42/profile") = Some (str "/api/users").
Proof. reflexivity. Qed.
Example PrefersLongestPrefixMatch :
  routed [str "/api"; str "/api/users/admin"] (str "/api/users/admin/settings") = Some (str "/api/users/admin").
Proof. vm_compute. reflexivity. Qed.
Example ReturnsNullWhenNoMatch : routed [str "/api/users"] (str "/other") = None.
Proof. reflexivity. Qed.
Example DoesNotMatchPartialPathSegment : routed [str "/api"] (str "/apix") = None.
Proof. reflexivity. Qed.
Example RootRouteMatchesEveryPath : is_Some (routed [str "/"] (str "/anything")).
Proof. by eexists. Qed.

Fixpoint picks (n : nat) (st : bstore) (l : LoadBalancer) : list (option Z) :=
  match n with
  | 0 => []
  | S n' => let '(r, l') := pick st l in (r ≫= λ i, port <$> st !! i) :: picks n' st l'
  end.

Definition test_backend (p : Z) (up : bool) (active : Z) : Backend := mkBackend (str "h") p up active (newCircuitBreaker 5 30000 3).

Example RoundRobinCyclesThroughBackends :
  let seen := picks 6 [test_backend 9000 true 0; test_backend 9001 true 0; test_backend 9002 true 0] (newLoadBalancer [0; 1; 2] RoundRobin) in
  (λ p, count_if (λ o, bool_decide (o = Some p)) seen) <$> [9000; 9001; 9002]%Z = [2; 2; 2]%Z.
Proof. vm_compute. reflexivity. Qed.
Example SkipsUnhealthyBackends :
  picks 5 [test_backend 1 true 0; test_backend 2 false 0] (newLoadBalancer [0; 1] RoundRobin) = replicate 5 (Some 1%Z).
Proof. vm_compute. reflexivity. Qed.
Example LeastConnectionsPicksLowestLoad :
  picks 1 [test_backend 1 true 5; test_backend 2 true 1; test_backend 3 true 3] (newLoadBalancer [0; 1; 2] LeastConnections) = [Some 2%Z].
Proof. vm_compute. reflexivity. Qed.
Example ReturnsNullWhenAllUnhealthy : picks 1 [test_backend 1 false 0] (newLoadBalancer [0] RoundRobin) = [None].
Proof. vm_compute. reflexivity. Qed.

(** ** tests/http_parser_tests.cpp *)

Definition parsed (raw : bytes) : ParseStatus * HttpRequest * HttpParser := parse emptyRequest (append raw newHttpParser).
Definition status (raw : bytes) : ParseStatus := (parsed raw).1.1.
Definition request (raw : bytes) : HttpRequest := (parsed raw).1.2.

(** Lines ended by CRLF, then an empty line. *)
Definition message (ls : list bytes) (body : bytes) : bytes := concat ((λ l, l ++ crlf) <$> ls) ++ crlf ++ body.

Example ParsesSimpleGetRequest :
  let raw := message [str "GET /foo/bar?x=1 HTTP/1.1"; str "Host: example.com"; str "Connection: keep-alive"] [] in
  let req := request raw in
  status raw = Complete ∧ rq_method req = str "GET" ∧ rq_path req = str "/foo/bar" ∧ rq_query req = str "x=1" ∧
  rq_version req = str "HTTP/1.1" ∧ rq_headers req !! str "host" = Some (str "example.com") ∧ rq_keepAlive req = true.
Proof. vm_compute. by split_and!. Qed.

Example ParsesRequestWithBody :
  let body := str "{a:1}" in
  let raw := message [str "POST /submit HTTP/1.1"; str "Content-Length: " ++ to_string (size_of body)] body in
  status raw = Complete ∧ rq_method (request raw) = str "POST" ∧ rq_body (request raw) = body.
Proof. vm_compute. by split_and!. Qed.

(** One byte at a time. *)
Fixpoint feed (s : bytes) (req : HttpRequest) (p : HttpParser) : list ParseStatus * HttpRequest :=
  match s with
  | [] => ([], req)
  | x :: s' => let '(st, req', p') := parse req (append [x] p) in let '(sts, r) := feed s' req' p' in (st :: sts, r)
  end.

Example HandlesIncrementalDelivery :
  let raw := message [str "GET /a HTTP/1.1"; str "Host: x"] [] in
  let '(sts, req) := feed raw emptyRequest newHttpParser in
  sts = replicate (length raw - 1) Incomplete ++ [Complete] ∧ rq_path req = str "/a".
Proof. vm_compute. by split. Qed.

Example HandlesPipelinedRequests :
  let raw := message [str "GET /a HTTP/1.1"] (message [str "GET /b HTTP/1.1"] []) in
  let '(st1, req1, p) := parsed raw in
  let '(st2, req2, _) := parse emptyRequest p in
  (st1, rq_path req1) = (Complete, str "/a") ∧ (st2, rq_path req2) = (Complete, str "/b").
Proof. vm_compute. by split. Qed.

Example RejectsMalformedRequestLine : status (message [str "GARBAGE"] []) = Error.
Proof. vm_compute. reflexivity. Qed.
Example DefaultsRootPathWhenEmpty : status (message [str "GET  HTTP/1.1"] []) ∈ [Complete; Error].
Proof. by_decide. Qed.
Example ConnectionCloseHeaderDisablesKeepAlive :
  let raw := message [str "GET /a HTTP/1.1"; str "Connection: close"] [] in status raw = Complete ∧ rq_keepAlive (request raw) = false.
Proof. vm_compute. by split. Qed.
Example Http10DefaultsToNotKeepAlive :
  let raw := message [str "GET /a HTTP/1.0"] [] in status raw = Complete ∧ rq_keepAlive (request raw) = false.
Proof. vm_compute. by split. Qed.
Example RejectsUnsupportedChunkedEncoding :
  status (message [str "POST /submit HTTP/1.1"; str "Transfer-Encoding: chunked"] (str "4" ++ crlf ++ str "test" ++ crlf ++ str "0" ++ crlf ++ crlf)) = Error.
Proof. vm_compute. reflexivity. Qed.
Example RejectsInvalidContentLength : status (message [str "POST /submit HTTP/1.1"; str "Content-Length: nope"] []) = Error.
Proof. vm_compute. reflexivity. Qed.
Example RejectsAmbiguousRequestFraming :
  status (message [str "POST /submit HTTP/1.1"; str "Content-Length: 4"; str "Transfer-Encoding: chunked"] []) = Error.
Proof. vm_compute. reflexivity. Qed.
Example RejectsDuplicateContentLength :
  status (message [str "POST /submit HTTP/1.1"; str "Content-Length: 4"; str "Content-Length: 5"] (str "test")) = Error.
Proof. vm_compute. reflexivity. Qed.
Example RejectsUnsupportedHttpVersion : status (message [str "GET / HTTP/2.0"; str "Host: example.com"] []) = Error.
Proof. vm_compute. reflexivity. Qed.

(** ** tests/integration_tests.cpp *)

Definition test_config (backendPort : Z) : GatewayConfig :=
  set_routes [mkRouteConfig (str "/api") (str "test_group") false]
    (set_groups [mkBackendGroupConfig (str "test_group") (str "round_robin") [mkBackendConfig (str "127.0.0.1") backendPort]]
      (set_circuit 100 10000 (set_timeouts 500 500 (set_retry 1 5 20 (set_rate_limit 1000 (CxxDouble.Finite 1000)
        (set_health 100000 1000 (str "/health") (set_workerThreads 2 defaultConfig))))))).

Definition test_reply (code : Z) (body : bytes) : bytes :=
  str "HTTP/1.1 " ++ to_string code ++ str " X" ++ crlf ++ str "Content-Length: " ++ to_string (size_of body) ++ crlf ++
  str "Connection: close" ++ crlf ++ crlf ++ body.

(** The client reads until the gateway closes. *)
Definition httpGet (backendPort : Z) (path : bytes) (attempts : list attempt_env) : option bytes :=
  gw ← newGateway merge_routes (test_config backendPort);
  let raw := message [str "GET " ++ path ++ str " HTTP/1.1"; str "Host: localhost"; str "Connection: close"] [] in
  let conn := set_parser (append raw newHttpParser) demo_conn in
  '(c, _) ← drain rnd64 demo_print_double map_to_list (replicate 3 (mkRequestEnv 7 1 1000 1000 2000 attempts 300)) (conn, gw);
  if closeAfterWrite c then Some (pendingWrite c) else None.

Definition unreachable : attempt_env :=
  mkAttemptEnv 5 (λ os, mkDialEnv true (next_fd os) InProgress 1 111) [] [] 6.

Example ProxiesSuccessfulRequestToBackend :
  let env := demo_env (test_reply 200 (str "{ok:true}")) in
  match httpGet 19001 (str "/api/hello") [env; env] with
  | Some resp => is_prefix (str "HTTP/1.1 200 X") resp = true ∧ contains (str "ok") resp = true
  | None => False
  end.
Proof. vm_compute. by split. Qed.

Example ReturnsBadGatewayWhenBackendUnreachable :
  match httpGet 19999 (str "/api/hello") [unreachable; unreachable] with
  | Some resp => is_prefix (str "HTTP/1.1 502") resp = true
  | None => False
  end.
Proof. vm_compute. done. Qed.

Example ReturnsNotFoundForUnmatchedRoute :
  match httpGet 19002 (str "/does-not-exist") [] with
  | Some resp => is_prefix (str "HTTP/1.1 404") resp = true
  | None => False
  end.
Proof. vm_compute. done. Qed.
