(* ===== verification/Process.v ===== *)
(** * The process (src/main.cpp)

    From the command line to a running gateway: the configuration file is
    found and loaded, the signal handlers refer to the gateway once it
    exists and run on the thread that takes the signal, and [run] serves until
    [stop].  The theorems join the parts: the
    gateway built from a file that loads is at rest, so the concurrent
    forwarding of Forward and ForwardConcurrent and the life of the threads
    in Lifecycle start from it. *)
From Stdlib Require Import QArith.
From S2P Require Import Prelude CxxString Rounding CxxDouble CircuitBreaker RateLimiter RetryPolicy LRUCache HttpMessage LoadBalancer Router ConnectionPool Metrics BackendIO Config ConfigRoundTrip Forward ForwardConcurrent Worker WorkerPipeline GatewayBuild Lifecycle TcpServer.
Local Open Scope nat_scope.

(** [e.what()] of the exceptions of [loadFromFile]. *)
Definition error_text (path : bytes) (e : config_error) : bytes :=
  match e with
  | CannotOpen => str "failed to open config file: " ++ path
  | InvalidValues => str "invalid gateway configuration values"
  | PortsEqual => str "listen and metrics ports must differ"
  | NothingToServe => str "at least one backend group and route are required"
  | InvalidGroup => str "invalid backend group configuration"
  | InvalidAddress => str "invalid backend address"
  | InvalidRoute => str "invalid route configuration"
  end.

(** Lines 19-20; [args] are the arguments after the program's name. *)
Definition config_path (args : list bytes) : bytes :=
  match args with [] => str "config/gateway.yaml" | path :: _ => path end.

(** Lines 22-28: the exit code and what goes to standard error, or the
    configuration. *)
Definition main_load (rnd : Q → Q) (files : bytes → option bytes) (args : list bytes)
    : Z * bytes + GatewayConfig :=
  let path := config_path args in
  match loadFromFile rnd (files path) with
  | inl e => inl (1%Z, str "Failed to load config '" ++ path ++ str "': " ++ error_text path e ++ [LF])
  | inr cfg => inr cfg
  end.

(** [handleSignal]: a signal that comes before there is a gateway does
    nothing; afterwards it is one more call of [stop], on the thread that
    takes the signal. *)
Definition handleSignal (g_gateway : option life) : option life :=
  match g_gateway with
  | None => None
  | Some s => Some (set_stop (lf_stop s) (S (lf_calls s)) s)
  end.

(** The thread that takes the signals: any thread of the process may (none
    blocks them); Linux gives a signal for the process to the first thread,
    which is in [run], if it can. *)
Inductive signal_site := OnRun | OnChecker | OnMetrics | OnWorker (i : nat).

#[global] Instance signal_site_eq_dec : EqDecision signal_site.
Proof. solve_decision. Defined.

(** [a] is a step of that thread's own. *)
Definition own_step (site : signal_site) (a : actor) : bool :=
  match site, a with
  | OnRun, Main | OnChecker, (Checker | Timeout | Spurious) | OnMetrics, MetricsThread => true
  | OnWorker i, WorkerThread j => bool_decide (i = j)
  | _, _ => false
  end.

(** The thread exists. *)
Definition site_alive (site : signal_site) (s : life) : bool :=
  match site with
  | OnRun => true
  | OnChecker => negb (bool_decide (hc_thread (lf_checker s) = HNone)) && negb (bool_decide (hc_thread (lf_checker s) = HExited))
  | OnMetrics => negb (bool_decide (lf_metrics s = PNone)) && negb (bool_decide (lf_metrics s = PExited))
  | OnWorker i => match lf_workers s !! i with Some w => negb (bool_decide (w = WExited)) | None => false end
  end.

Section process.
Context (nworkers nbackends : nat) (ends listens : nat → bool) (metrics_listens : bool) (site : signal_site).

(** A step of the process whose signals are taken by [site]: that thread does
    nothing else while [stop] is under way, and the health checker's thread
    cannot join itself: [join] throws in the handler. *)
Definition process_act (a : actor) (s : life) : option life :=
  if crashed s then None
  else if own_step site a && bool_decide (lf_stop s ≠ SIdle) then None
  else match a with
       | Stopper =>
           if bool_decide (lf_stop s = SIdle) && negb (site_alive site s) then None
           else if bool_decide (site = OnChecker) && bool_decide (lf_stop s = SJoin) then Some (crash s)
           else stop_act s
       | _ => life_act nworkers nbackends ends listens metrics_listens false a s
       end.

Definition run_process (schedule : list actor) (s : life) : life :=
  foldl (λ s a, default s (process_act a s)) s schedule.
End process.

(** [checkOne] waits for a backend with [poll] and [timeout_]: the wait ends
    when time is up, or, when [timeout_] is negative, only when the backend
    answers. *)
Definition check_ends (timeout : Z) (answers : nat → bool) (k : nat) : bool := (0 <=? timeout)%Z || answers k.

(** Line 34: the gateway exists and [run] is about to be called. *)
Definition make_gateway (signals : nat) : life := Nat.iter signals (λ s, default s (handleSignal (Some s))) (start_life 0).

(** Line 41: the exit code once [run] has returned. *)
Definition exit_code (s : life) : option Z := if decide (lf_main s = MReturned) then Some 0%Z else None.

(** [HealthChecker::stop] as a whole; [None]: the join waits. *)
Definition hc_stop (s : life) : option life :=
  let s := set_checker (hc_set_running false (lf_checker s)) s in
  let s := set_checker (hc_notify (lf_checker s)) s in
  if hc_joinable (lf_checker s) then hc_join_act id s else Some s.

(** The destructor of [g_gateway] at exit: [~Gateway] calls [stop], then the
    destructor of the health checker stops it again. *)
Definition deleteGateway (s : life) : option life :=
  s ← (if running_ s then hc_stop (set_running false s) else Some s);
  hc_stop s.

Lemma make_gateway_start signals : make_gateway signals = start_life signals.
Proof. induction signals as [|n IH]; [done|]. unfold make_gateway in *. by rewrite Nat.iter_succ, IH. Qed.

(** Stopping a health checker whose thread has ended, joined or not. *)
Lemma hc_stop_exited s :
  hc_thread (lf_checker s) = HExited →
  ∃ s', hc_stop s = Some s' ∧ crashed s' = crashed s ∧ hc_thread (lf_checker s') = HExited ∧
    hc_joinable (lf_checker s') = false.
Proof.
  intros E. unfold hc_stop, hc_notify, hc_join_act. cbn. rewrite decide_False by (by rewrite E). cbn.
  destruct (hc_joinable (lf_checker s)) eqn:Ej; [rewrite decide_True by done|]; by eexists.
Qed.

Lemma delete_stopped s :
  hc_thread (lf_checker s) = HExited →
  ∃ s', deleteGateway s = Some s' ∧ crashed s' = crashed s ∧ hc_joinable (lf_checker s') = false.
Proof.
  intros E. unfold deleteGateway.
  assert (∃ s1, (if running_ s then hc_stop (set_running false s) else Some s) = Some s1 ∧ crashed s1 = crashed s ∧
    hc_thread (lf_checker s1) = HExited) as (s1 & -> & Hc & E1).
  { destruct (running_ s); [|by eexists]. destruct (hc_stop_exited (set_running false s) E) as (s1 & -> & ? & ? & _). by eexists. }
  destruct (hc_stop_exited s1 E1) as (s2 & Hs & Hc2 & _ & Hj). exists s2. cbn. by rewrite Hs, Hc2.
Qed.

(** On the thread of [run], this is the machine of Lifecycle. *)
Lemma process_on_run nw nb ends listens ml schedule s :
  run_process nw nb ends listens ml OnRun schedule s = run_life nw nb ends listens ml true schedule s.
Proof.
  revert s. induction schedule as [|a l IH]; intros s; [done|]. cbn [run_process run_life foldl].
  assert (process_act nw nb ends listens ml OnRun a s = life_act nw nb ends listens ml true a s) as E.
  { unfold process_act, life_act, interrupted. destruct (crashed s); [done|]. destruct a; cbn [own_step andb site_alive negb]; try done.
    by rewrite andb_false_r. }
  unfold turn. rewrite E. apply IH.
Qed.

(** ** The gateway that is built is at rest *)

Lemma built_at_rest sort c g :
  config_typed c → config_valid c → newGateway sort c = Some g → at_rest g.
Proof.
  intros Ht Hv Hg. destruct (built_ready sort c g Ht Hv Hg) as [_ Hp Hpool _ _]. split; [done|done|].
  apply newGateway_Some in Hg as (_ & _ & Eb & _). destruct (build_groups_ok c) as [Hb _ _ _]. rewrite Eb, Hb.
  assert (Forall (λ b, activeConnections b = 0%Z ∧ cb_state (circuitBreaker b) ≠ HalfOpen)
    (concat ((λ gr, make_backend c <$> bg_backends gr) <$> backendGroups c))) as Hall.
  { apply Forall_concat_fmap, Forall_forall. intros gr _. by apply Forall_fmap, Forall_forall. }
  rewrite Forall_forall in Hall. exact Hall.
Qed.

Lemma main_load_valid rnd files args c : main_load rnd files args = inr c → config_typed c ∧ config_valid c.
Proof.
  unfold main_load. destruct (loadFromFile rnd _) as [e|c0] eqn:E; [done|]. intros [= <-]. by eapply load_valid.
Qed.

(** Closing the pool when nothing is borrowed closes every socket. *)
Lemma close_all_at_rest pool os pool' os' :
  pool_inv (mkPoolState pool os ∅) → closeAll pool os = (pool', os') → os' = ∅.
Proof.
  intros Hi Hc. pose proof (pool_step_inv _ _ (step_closeAll _ _ ∅ _ _ Hc) Hi) as Hi'.
  apply map_eq. intros fd. rewrite lookup_empty. destruct (os' !! fd) as [[h p]|] eqn:E; [|done].
  destruct (inv_os _ Hi' fd h p E) as [_ [Ho|(dq & Hdq & Hin)]]; [cbn in Ho; by rewrite lookup_empty in Ho|].
  injection Hc as <- _. cbn in Hdq. rewrite lookup_fmap in Hdq. destruct (idle_ pool !! key h p); [|done].
  injection Hdq as <-. by apply elem_of_nil in Hin.
Qed.

Lemma no_holders ads ts owned :
  holders ads ts owned → Forall (λ t, is_done (ft_phase t) = true) ts → owned = ∅.
Proof.
  intros [H1 _ _] Hd. apply map_eq. intros fd. rewrite lookup_empty. destruct (owned !! fd) as [a|] eqn:E; [|done].
  destruct (H1 _ _ E) as (k & t & i & Hk & Hh & _). rewrite Forall_forall in Hd.
  specialize (Hd t (list_elem_of_lookup_2 _ _ _ Hk)). by destruct (ft_phase t).
Qed.

Lemma no_tally i ts : Forall (λ t, is_done (ft_phase t) = true) ts → tally counted i ts = 0.
Proof.
  intros Hd. destruct (tally counted i ts) eqn:E; [done|]. destruct (tally_pos counted i ts) as (k & t & Hk & Hc); [lia|].
  rewrite Forall_forall in Hd. specialize (Hd t (list_elem_of_lookup_2 _ _ _ Hk)). by destruct (ft_phase t).
Qed.

(** ** Theorems *)

(** C14: from the file to a quiet end.  Whatever file the process loads, the
    gateway built from it keeps its accounts under every interleaving of
    requests: when every request has its response, no backend counts a
    connection as in flight, and closing the pool, as [run] does at its end,
    leaves no backend socket open. *)
Theorem process_ends_clean rnd sort iterate files args c g schedule :
  main_load rnd files args = inr c → newGateway sort c = Some g → Forall fresh_action schedule →
  let s := run_schedule iterate schedule (mkConc g []) in
  Forall (λ t, is_done (ft_phase t) = true) (c_threads s) →
  Forall (λ b, activeConnections b = 0%Z) (gw_backends (c_gw s)) ∧
  (closeAll (pool_ (c_gw s)) (os_sockets (c_gw s))).2 = ∅.
Proof.
  intros [Ht Hv]%main_load_valid Hg Hf s Hd.
  pose proof (run_schedule_inv iterate schedule _ (at_rest_inv _ (built_at_rest sort c g Ht Hv Hg)) Hf) as Hi. fold s in Hi.
  destruct Hi as [_ _ Ia _ _ [owned [Hp Hh]]]. split.
  - apply Forall_lookup. intros i b Hb. by rewrite (Ia i b Hb), no_tally.
  - rewrite (no_holders _ _ _ Hh Hd) in Hp. destruct (closeAll _ _) as [pool os] eqn:Hc. cbn.
    by eapply close_all_at_rest.
Qed.

Definition demo_files (path : bytes) : option bytes :=
  if decide (path = str "config/gateway.yaml") then Some (print_config (str "100") demo_config) else None.

Definition two_requests : list action :=
  [Request demo_route demo_get (replicate 4 (demo_env demo_reply)); Request demo_route demo_get (replicate 4 (demo_env demo_reply))] ++
  concat (replicate 25 [Tick 0; Tick 1]).

Lemma process_ends_clean_witness :
  let s := run_schedule map_to_list two_requests (mkConc demo_built []) in
  Forall (λ b, activeConnections b = 0%Z) (gw_backends (c_gw s)) ∧
  (closeAll (pool_ (c_gw s)) (os_sockets (c_gw s))).2 = ∅.
Proof.
  refine (process_ends_clean rnd64 merge_routes map_to_list demo_files [] demo_config demo_built two_requests _ _ _ _).
  - vm_compute. reflexivity.
  - vm_compute. reflexivity.
  - repeat constructor; apply demo_env_fresh.
  - vm_compute. repeat constructor.
Defined.

(** The process starts or says why not.  It ends with code 1 and a message
    exactly when the file cannot be read or does not describe a valid
    configuration; otherwise it has at least one worker, so that a signal at
    any time stops it without a crash, and the ports it listens on are those
    of the file. *)
Theorem process_starts rnd files args :
  match main_load rnd files args with
  | inl (code, message) => code = 1%Z ∧ message ≠ [] ∧ ∃ e, loadFromFile rnd (files (config_path args)) = inl e
  | inr c =>
      loadFromFile rnd (files (config_path args)) = inr c ∧
      (0 < Z.to_nat (workerThreads c)) ∧
      (∀ host t, (newTcpServer (listen_ok 3) host (listenPort c) 1024 t).2 !! 3%Z =
         Some (mkSock true true false O_NONBLOCK (Some (listen_address host, listenPort c)) (Some 1024%Z))) ∧
      (∀ host t, (newTcpServer (listen_ok 3) host (metricsPort c) 1024 t).2 !! 3%Z =
         Some (mkSock true true false O_NONBLOCK (Some (listen_address host, metricsPort c)) (Some 1024%Z))) ∧
      listenPort c ≠ metricsPort c
  end.
Proof.
  unfold main_load. destruct (loadFromFile rnd (files (config_path args))) as [e|c] eqn:E.
  { split_and!; [done|done|by eexists]. }
  apply load_valid in E as [_ Hv].
  assert (∀ p host t, port_ok p → (newTcpServer (listen_ok 3) host p 1024 t).2 !! 3%Z =
    Some (mkSock true true false O_NONBLOCK (Some (listen_address host, p)) (Some 1024%Z))) as Hport.
  { intros p host t Hp. rewrite newTcpServer_ok by done. cbn [snd le_socket listen_ok]. rewrite lookup_insert_eq.
    unfold listening. unfold port_ok in Hp. rewrite Z.mod_small by lia. done. }
  destruct Hv. split_and!; try done; auto; lia.
Qed.

(** C15: a signal ends the process in order.  A process with a configuration
    that loads and whose health-check timeout is not negative, all of whose
    workers can listen, and whose signals are taken on the thread of [run]:
    once a signal has been taken while [run] was under way, then after at most
    [shutdown_bound] rounds in which every thread gets a turn the process
    exits with code 0, all its threads have ended and the pool is closed. *)
Theorem signal_exits_cleanly rnd files args c answers listens metrics_listens signals before rounds :
  main_load rnd files args = inr c →
  let nw := Z.to_nat (workerThreads c) in
  let nb := length (concat (bg_backends <$> backendGroups c)) in
  let ends := check_ends (healthCheckTimeoutMs c) answers in
  let s := run_process nw nb ends listens metrics_listens OnRun before (make_gateway signals) in
  let s' := run_process nw nb ends listens metrics_listens OnRun (concat rounds) s in
  (0 ≤ healthCheckTimeoutMs c)%Z → (∀ i, i < nw → listens i = true) → running_ s = false → lf_main s ≠ MSet →
  Forall (complete_round nw) rounds → shutdown_bound nw nb signals ≤ length rounds →
  exit_code s' = Some 0%Z ∧ all_stopped nw s' ∧
  ∃ s'', deleteGateway s' = Some s'' ∧ crashed s'' = false ∧ hc_joinable (lf_checker s'') = false.
Proof.
  intros [_ Hv]%main_load_valid. cbv zeta. rewrite !process_on_run, make_gateway_start.
  intros Ht Hl Hr Hm Hrounds Hlen. assert (0 < Z.to_nat (workerThreads c)) as Hn by (destruct Hv; lia).
  assert (∀ k, k < length (concat (bg_backends <$> backendGroups c)) → check_ends (healthCheckTimeoutMs c) answers k = true) as He.
  { intros k _. unfold check_ends. by rewrite (proj2 (Z.leb_le _ _) Ht). }
  destruct (signal_shutdown _ _ _ listens metrics_listens signals before rounds Hn Hl He Hr Hm Hrounds Hlen) as [Hal Hall].
  pose proof Hall as (E & _ & _ & _ & Eh). split_and!; try done.
  - unfold exit_code. by rewrite decide_True.
  - destruct (delete_stopped _ Eh) as (s'' & H1 & H2 & H3). exists s''. split; [exact H1|]. by rewrite H2.
Qed.

Lemma signal_exits_cleanly_witness :
  let ends := check_ends (healthCheckTimeoutMs demo_config) (λ _, false) in
  let s := run_process 2 3 ends (λ _, true) true OnRun (replicate 7 Main ++ [Stopper; Stopper]) (make_gateway 1) in
  let s' := run_process 2 3 ends (λ _, true) true OnRun (concat (replicate (shutdown_bound 2 3 1) (everyone 2))) s in
  exit_code s' = Some 0%Z ∧ all_stopped 2 s' ∧
  ∃ s'', deleteGateway s' = Some s'' ∧ crashed s'' = false ∧ hc_joinable (lf_checker s'') = false.
Proof.
  refine (signal_exits_cleanly rnd64 demo_files [] demo_config (λ _, false) (λ _, true) true 1
    (replicate 7 Main ++ [Stopper; Stopper]) (replicate (shutdown_bound 2 3 1) (everyone 2)) _ _ _ _ _ _ _).
  - vm_compute. reflexivity.
  - vm_compute. congruence.
  - done.
  - vm_compute. reflexivity.
  - vm_compute. congruence.
  - apply Forall_replicate, Forall_forall. intros a Ha. exact Ha.
  - rewrite length_replicate. vm_compute. lia.
Defined.

(** A signal on the health checker's thread ends the process otherwise:
    [stop] joins the thread it runs on, and the exception leaves the
    handler. *)
Theorem signal_on_checker_crashes :
  ∃ schedule, crashed (run_process 2 3 (λ _, true) (λ _, true) true OnChecker schedule (make_gateway 1)) = true.
Proof. exists (replicate 7 Main ++ replicate 6 Stopper). vm_compute. reflexivity. Qed.

(** On the thread of a worker the same signal is harmless. *)
Theorem signal_on_worker_exits :
  let s := run_process 2 3 (λ _, true) (λ _, true) true (OnWorker 1)
    (replicate 7 Main ++ [Stopper; Stopper] ++ concat (replicate 60 (everyone 2))) (make_gateway 1) in
  exit_code s = Some 0%Z ∧ all_stopped 2 s ∧ crashed s = false.
Proof. vm_compute. split_and!; try done. repeat constructor. Qed.

(** With a negative health-check timeout, which loads, a backend that takes
    the connection and does not answer keeps the process from ending: [stop]
    waits for the health checker, which waits for the backend. *)
Definition patient_yaml : bytes :=
  yaml ["health_check:"; "  timeout_ms: -1"; "backend_groups:"; "  - name: a"; "    backends:"; "      - host: h";
        "        port: 9001"; "routes:"; "  - path_prefix: /"; "    backend_group: a"]%string.

Lemma stuck_never_returns nw nb ends listens ml om l s :
  life_inv nw s → stuck ends s → lf_main (run_life nw nb ends listens ml om l s) ≠ MReturned.
Proof.
  intros Hi Hs Hm. destruct (stuck_stays nw nb ends listens ml om s l Hi Hs) as (k & Hk & _).
  pose proof (run_life_inv nw nb ends listens ml om l s Hi) as [Hmo _ _ _]. unfold main_ok in Hmo. rewrite Hm in Hmo.
  destruct_and?. congruence.
Qed.

Theorem negative_timeout_hangs listens metrics_listens after :
  match main_load rnd64 (λ _, Some patient_yaml) [] with
  | inr c =>
      let ends := check_ends (healthCheckTimeoutMs c) (λ _, false) in
      let s := run_process 4 1 ends listens metrics_listens OnRun
        (replicate 9 Main ++ [Checker] ++ replicate 5 Stopper) (make_gateway 1) in
      (healthCheckTimeoutMs c = -1)%Z ∧ workerThreads c = 4%Z ∧ running_ s = false ∧ lf_stop s = SJoin ∧
      exit_code (run_process 4 1 ends listens metrics_listens OnRun after s) = None
  | inl _ => False
  end.
Proof.
  destruct (main_load _ _ _) as [|c] eqn:E; [vm_compute in E; discriminate E|].
  assert (healthCheckTimeoutMs c = -1 ∧ workerThreads c = 4)%Z as [Et Ew] by (vm_compute in E; injection E as <-; done).
  rewrite Et. cbv zeta. split; [reflexivity|]. split; [exact Ew|]. split; [vm_compute; reflexivity|].
  split; [vm_compute; reflexivity|]. rewrite !process_on_run, make_gateway_start. unfold exit_code.
  rewrite decide_False; [done|]. apply stuck_never_returns; [apply run_life_inv, start_inv|].
  exists 0. split; vm_compute; reflexivity.
Qed.
