(* ===== verification/Clients.v ===== *)
(** * From the configuration file to the clients (src/main.cpp,
      src/core/Gateway.cpp)

    Clients print requests and send them one after another without waiting
    for answers.  The gateway built from a configuration file that loads
    gives each of them, whatever its workers are doing for the others, one
    response per request in the order of the requests, up to the first that
    asks to close ([pipelined_clients_served]). *)
From Stdlib Require Import QArith.
From S2P Require Import Prelude CxxString Rounding CxxDouble CircuitBreaker RateLimiter RetryPolicy LRUCache HttpMessage HttpParser HttpParserResume HttpParserSafety HttpParserRoundTrip LoadBalancer Router ConnectionPool Metrics BackendIO Config ConfigRoundTrip Forward ForwardConcurrent Worker WorkerPipeline ServeConcurrent ServeIntegrity ServeLiveness DrainConcurrent GatewayBuild Process.
Local Open Scope nat_scope.

(** ** What a client sends *)

Record sent := mkSent {
  s_method : bytes; s_path : bytes; s_query : bytes; s_version : bytes;
  s_fields : list (bytes * bytes); s_body : bytes
}.

Definition wire (q : sent) : bytes := print_request (s_method q) (s_path q) (s_query q) (s_version q) (s_fields q) (s_body q).

Definition sendable (q : sent) : Prop := printable (s_method q) (s_path q) (s_query q) (s_version q) (s_fields q) (s_body q).

Definition keeps (q : sent) : bool := wants_keep_alive (s_version q) (fold_headers (s_fields q)).

(** The request it stands for, before it has its identifier. *)
Definition meant (q : sent) : HttpRequest :=
  mkHttpRequest (s_method q) (s_path q) (s_query q) (s_version q) (fold_headers (s_fields q)) (s_body q) (keeps q) [].

(** Its requests, one after another. *)
Definition stream (qs : list sent) : bytes := concat (wire <$> qs).

Definition received (ip : bytes) (now : Z) (qs : list sent) : ClientConnection :=
  set_parser (append (stream qs) newHttpParser) (newClientConnection ip now).

(** The requests up to the first that asks to close. *)
Fixpoint until_close (qs : list sent) : list sent :=
  match qs with
  | [] => []
  | q :: qs' => q :: if keeps q then until_close qs' else []
  end.

Lemma until_close_keeps qs : Forall (λ q, keeps q = true) qs → until_close qs = qs.
Proof. induction 1 as [|q qs Hq _ IH]; cbn; [done|]. by rewrite Hq, IH. Qed.

Lemma until_close_closes qs q rest : Forall (λ q, keeps q = true) qs → keeps q = false → until_close (qs ++ q :: rest) = qs ++ [q].
Proof. intros H Hq. induction H as [|q' qs Hq' _ IH]; cbn; [by rewrite Hq|]. by rewrite Hq', IH. Qed.

(** ** What the parser makes of it *)

Lemma stream_parses q qs :
  sendable q → (size_of (stream (q :: qs)) < 2 ^ 64)%Z →
  parse emptyRequest (append (stream (q :: qs)) newHttpParser) = (Complete, meant q, append (stream qs) newHttpParser).
Proof. intros Hq Hsz. by apply print_parses. Qed.

Lemma stream_size_drop n qs : (size_of (stream (drop n qs)) ≤ size_of (stream qs))%Z.
Proof.
  unfold size_of, stream. rewrite <- (take_drop n qs) at 2. rewrite fmap_app, concat_app, length_app. lia.
Qed.

Lemma stream_next n q qs :
  Forall sendable qs → (size_of (stream qs) < 2 ^ 64)%Z → qs !! n = Some q →
  parse emptyRequest (append (stream (drop n qs)) newHttpParser) = (Complete, meant q, append (stream (drop (S n) qs)) newHttpParser).
Proof.
  intros Hqs Hsz Hn. pose proof (stream_size_drop n qs) as Hd. rewrite (drop_S qs q n Hn) in *.
  apply stream_parses; [|lia]. rewrite Forall_lookup in Hqs. by eapply Hqs.
Qed.

Lemma stream_ends : parse emptyRequest (append (stream []) newHttpParser) = (Incomplete, emptyRequest, append (stream []) newHttpParser).
Proof. reflexivity. Qed.

(** The parser gives the requests that were sent, in their order. *)
Lemma stream_requests qs rs p :
  Forall sendable qs → (size_of (stream qs) < 2 ^ 64)%Z → parses (append (stream qs) newHttpParser) rs p →
  rs = meant <$> take (length rs) qs ∧ p = append (stream (drop (length rs) qs)) newHttpParser ∧ length rs ≤ length qs.
Proof.
  intros Hqs Hsz. induction 1 as [|rs p r p' Hp (E1 & E2 & Hl) Hr]; [split_and!; [done|done|cbn; lia]|].
  rewrite length_app. cbn [length]. rewrite Nat.add_1_r. subst p. destruct (qs !! length rs) as [q|] eqn:Hq.
  - rewrite (stream_next _ q qs Hqs Hsz Hq) in Hr. injection Hr as <- <-. rewrite (take_S_r _ _ _ Hq), fmap_app, <- E1.
    split_and!; [done|done|]. by apply lookup_lt_Some in Hq.
  - apply lookup_ge_None in Hq. rewrite drop_ge in Hr by done. by rewrite stream_ends in Hr.
Qed.

(** ** What draining it leaves *)

Local Abbreviation numbered := (λ q e, ∃ id, e.1 = set_requestId (meant q) id).

Lemma numbered_keeps qs (log : list (HttpRequest * HttpResponse)) :
  Forall2 numbered qs log → kept log → Forall (λ q, keeps q = true) qs.
Proof.
  induction 1 as [|q e qs log [id E] _ IH]; [constructor|]. intros [Hk Hl]%Forall_cons. constructor; [|by apply IH]. by rewrite E in Hk.
Qed.

Lemma drained_stream ip now qs c rs log :
  Forall sendable qs → (size_of (stream qs) < 2 ^ 64)%Z → Forall2 (λ r e, ∃ id, e.1 = set_requestId r id) rs log →
  drained_with (received ip now qs) c rs log →
  Forall2 numbered (until_close qs) log ∧ pendingWrite c = output_of log.
Proof.
  intros Hqs Hsz Hrs (p & Hp & Hend). destruct (stream_requests qs rs p Hqs Hsz Hp) as (Er & Ep & Hl).
  rewrite Er in Hrs. apply Forall2_fmap_l in Hrs. destruct Hend as [H|[H|H]].
  - destruct H as (log' & q & resp & -> & Hk & Hq & _ & _ & Ho). split; [|done].
    apply Forall2_app_inv_r in Hrs as (qs1 & [|q1 [|]] & H1 & H2 & Eq); [by inversion H2| |by inversion H2; inversion select (Forall2 _ _ [])].
    inversion H2 as [|?? ?? [id E] _]; subst. cbn [fst] in E.
    rewrite <- (take_drop (length rs) qs), Eq, <- app_assoc. cbn [app]. rewrite until_close_closes; [by apply Forall2_app|by eapply numbered_keeps|]. by rewrite E in Hq.
  - destruct H as (req & Hk & Hi & Ho). split; [|done]. destruct (qs !! length rs) as [q|] eqn:Hq.
    + subst p. by rewrite (stream_next _ q qs Hqs Hsz Hq) in Hi.
    + apply lookup_ge_None in Hq. rewrite take_ge in Hrs by done. rewrite until_close_keeps; [done|]. by eapply numbered_keeps.
  - destruct H as (req & Hk & Hi & _). subst p. destruct (qs !! length rs) as [q|] eqn:Hq.
    + by rewrite (stream_next _ q qs Hqs Hsz Hq) in Hi.
    + apply lookup_ge_None in Hq. rewrite drop_ge in Hi by done. by rewrite stream_ends in Hi.
Qed.

(** ** Theorems *)

Section served.
Context (rnd : Q → Q) (print_double : Q → bytes) (iterate : gmap bytes bytes → header_list).
Context (sort : (Route → Route → bool) → list Route → list Route).

(** C1: from the configuration file to the clients.  The gateway built from
    any file that loads serves every client that pipelines its requests,
    however the operations of the workers that serve the others are
    interleaved with its own: once its worker has done [drain_bound]
    operations, what the client is sent is one response to each request it
    printed, in its order, up to the first that asks to close, and nothing
    else; and each response is the one a backend of the matched route gave to
    this request, a copy of one given to a request with the same cache key,
    or the gateway's own. *)
Theorem pipelined_clients_served file cfg gw before ip now qs envs after :
  loadFromFile rnd file = inr cfg → newGateway sort cfg = Some gw →
  Forall sendable qs → (size_of (stream qs) < 2 ^ 64)%Z → length (stream qs) < length envs →
  Forall (λ e, answered gw e.1) envs → Forall fresh_readable (before ++ Readable (received ip now qs) envs :: after) →
  let start := mkDraining (mkServing gw []) [] in
  let i := length (dg_drainers (run_drain rnd print_double iterate before start)) in
  let s := run_drain rnd print_double iterate (before ++ Readable (received ip now qs) envs :: after) start in
  drain_bound gw (received ip now qs) ≤ drains i after →
  ∃ d, dg_drainers s !! i = Some d ∧ dr_pos d = Drained ∧
    Forall2 (λ q e, ∃ id, e.1 = set_requestId (meant q) id) (until_close qs) (dr_log d) ∧
    pendingWrite (dr_conn d) = output_of (dr_log d) ∧
    Forall (λ e, ∃ t k, t ∈ sg_threads (dg_serving s) ∧ sv_ip t = ip ∧ sv_req t = e.1 ∧
      explained rnd print_double iterate gw (sg_threads (dg_serving s)) t k e.2) (dr_log d).
Proof.
  intros [Ht Hv]%load_valid Hg Hqs Hsz Hlen Hans Hf start i s Hturns. set (c := received ip now qs) in *.
  destruct (readable_drained rnd print_double iterate gw before after c envs) as (d & rs & H1 & H2 & H3 & H4 & H5).
  { split; [by eapply built_at_rest|done|apply append_wf, newHttpParser_wf|done..]. }
  destruct (drained_stream ip now qs _ _ _ Hqs Hsz H3 H4) as [H6 H7]. exists d. split_and!; [done|done|done|done|].
  apply (log_explained rnd print_double iterate gw before after c envs); [| |done];
    apply newGateway_Some in Hg as (_ & _ & _ & _ & _ & _ & _ & Ec & _); rewrite Ec; [apply new_cache_ok, Ht|done].
Qed.
End served.

(** The last of four requests comes after one that asks to close. *)
Definition demo_sent : list sent :=
  let get path fields := mkSent (str "GET") (str path) [] (str "HTTP/1.1") fields [] in
  [get "/gateway/health" []; get "/a" [(str "Host", str "h")]; get "/b" [(str "Connection", str "close")]; get "/c" []]%string.

Definition demo_sent_envs : list (request_env * Metrics) :=
  replicate 200 (mkRequestEnv 7 1 1000 1000 2000 (replicate 3 (demo_env demo_reply)) 300, newMetrics).

Definition demo_received : ClientConnection := received (str "10.1.1.2") 0 demo_sent.

Definition demo_other : list drain_action := [Opened_; Readable (received (str "10.1.1.1") 0 demo_sent) demo_sent_envs; Drain 0].

Definition demo_turns : list drain_action := concat (replicate (drain_bound demo_built demo_received) [Drain 1; Drain 0]).

Lemma demo_sent_envs_fresh : fresh_envs demo_sent_envs.
Proof. apply Forall_replicate. repeat (apply Forall_cons; split; [apply demo_env_fresh|]). constructor. Qed.

Lemma demo_turns_fresh : Forall fresh_readable demo_turns.
Proof.
  unfold demo_turns. generalize (drain_bound demo_built demo_received). intros n. induction n as [|n IH]; [constructor|]. by repeat constructor.
Qed.

Lemma demo_sendable : Forall sendable demo_sent.
Proof.
  assert (∀ c (set : bytes) (P : ascii → Prop), Forall P set → c ∈ set → P c) as Hall by (intros c set P; rewrite Forall_forall; auto).
  repeat (apply Forall_cons; split; [|]); [..|constructor]; (split;
    [split_and!; [by_decide..| |by_decide]; intros c; apply (Hall c _ (λ c, c ∉ _ ∧ c ∉ _)); by_decide
    | |by_decide|by_decide|split; [by_decide|done]]).
  all: repeat (apply Forall_cons; split; [|]); [..|constructor].
  all: split_and!; [by_decide|intros c; apply (Hall c _ (λ c, c ∉ _)); by_decide..|].
  all: split; intros c [= <-]; by_decide.
Qed.

Lemma pipelined_clients_served_witness :
  let s := run_drain rnd64 demo_print_double map_to_list (demo_other ++ Readable demo_received demo_sent_envs :: demo_turns)
    (mkDraining (mkServing demo_built []) []) in
  length (until_close demo_sent) = 3 ∧
  ∃ d, dg_drainers s !! 1 = Some d ∧ dr_pos d = Drained ∧
    Forall2 (λ q e, ∃ id, e.1 = set_requestId (meant q) id) (until_close demo_sent) (dr_log d) ∧
    pendingWrite (dr_conn d) = output_of (dr_log d) ∧
    Forall (λ e, ∃ t k, t ∈ sg_threads (dg_serving s) ∧ sv_ip t = str "10.1.1.2" ∧ sv_req t = e.1 ∧
      explained rnd64 demo_print_double map_to_list demo_built (sg_threads (dg_serving s)) t k e.2) (dr_log d).
Proof.
  split; [vm_compute; reflexivity|].
  refine (pipelined_clients_served rnd64 demo_print_double map_to_list merge_routes _ demo_config demo_built demo_other (str "10.1.1.2") 0
    demo_sent demo_sent_envs demo_turns demo_config_loads _ demo_sendable _ _ _ _ _).
  - vm_compute. reflexivity.
  - vm_compute. reflexivity.
  - by_decide.
  - apply Forall_replicate. split; [|vm_compute; congruence]. repeat (apply Forall_cons; split; [apply demo_env_answers|]). constructor.
  - apply Forall_app. split; [by repeat (apply Forall_cons; split; [first [apply demo_sent_envs_fresh|done]|])|].
    constructor; [apply demo_sent_envs_fresh|apply demo_turns_fresh].
  - apply Nat.leb_le. vm_compute. reflexivity.
Defined.
